(* ===== verification/_CoqProject ===== *)
-Q . S2P
Prelude.v
Librpma.v
Effects.v
LibrpmaApi.v
Posix.v
Log.v
Resources.v
CephEncoding.v
WireFormat.v
Types.v
MemoryManager.v
Reactor.v
RpmaOp.v
Quiet.v
Descriptors.v
Host.v
RpmaConn.v
ConnectionHandler.v
RPMAHandler.v
Isolation.v
Acceptance.v
Registration.v
Interleaving.v
AcceptorHandler.v
ServerInv.v
ServerLoop.v
ServerProgress.v
ServerMain.v
ServerReplies.v
ClientHandler.v
ClientSession.v
Handshake.v
Client.v
ClientMain.v
ClientTurns.v
ClientDurability.v
ClientSafety.v
ClientSource.v
ClientDestination.v
Replication.v
