(* ===== verification/Prelude.v ===== *)
(** * A verification development for rpma_demo

    ** The program

    rpma_demo replicates a block of memory over RDMA with librpma.  A server
    process ([server.cc]) listens for connections; for every client it keeps a
    handler that, on request, maps a file of persistent memory (or falls back to
    DRAM), registers it with librpma and sends the client the descriptors of the
    region and of its peer configuration.  A client ([client.cc]) connects, asks for
    a replica, writes and flushes its data straight into the server's memory, and
    may ask for the replica to be closed.  Both ends are event driven: a [Reactor]
    waits on epoll and calls the handlers; the client's main thread runs beside the
    thread of its reactor and meets it in callbacks that capture local variables by
    reference.

    ** How it is modelled

    Code is translated to functions of a state monad with failure, [Effects.M S A] =
    [S -> trace -> outcome A * S * trace].  The state [S] is the object (or
    process) the code runs on; the trace is the sequence of calls made so far to what is
    outside the repository (librpma, libpmem, epoll, the C library, the clock),
    each with its answer.  The answers come from an [Oracle], a parameter of every
    definition: a function of the calls made before and of the call itself.
    Nothing is assumed of it except through the classes [RpmaDocumented],
    [CompletionDocumented], [EpollDocumented], [DescriptorsDocumented], [FdsDocumented] and
    [ConnectionsFresh], each of which states documented behaviour, and through named
    hypotheses of single theorems.  What the other end sends is a second parameter,
    [Wire]: the contents of a receive buffer as a function of the trace.
    [Host.host] is a concrete oracle that satisfies all of them; the witnesses run
    the theorems on it.  An [outcome] is a value, a C++ exception ([Throw]), or a
    [Faulted] run: undefined behaviour the code must not have (use of a freed object,
    an access out of bounds, a store to an activation that returned, a failed
    assertion, [std::terminate]).  Statements are weakest preconditions [wp m Q s t]: the run of [m] from
    [s] and [t] ends in an outcome, state and trace that satisfy [Q].  The monad is
    total, so [wp] is total correctness; [returns Q] excludes exceptions and faults.

    Resources are accounted for by a ledger ([Resources]): a monitor replays the trace
    and keeps the multiset of what has been acquired and not released (regions,
    connections, requests, peers, endpoints, configurations, mappings with
    their length, heap blocks).  Releasing what is not held, and using a freed object,
    make the ledger undefined.  A theorem that ends in [ledger t' = Some L] thus shows
    no leak, no double release and no use after release.

    ** Files

    - [Prelude]: bytes, machine widths, [memcpy], hint databases, list lemmas.
    - [Librpma], [LibrpmaApi]: the constants, enumerations and functions declared in
      [include/librpma.h], with the errors its pages document.
    - [Effects]: calls, oracle, monad, [wp] and its rules, footprints ([calls]).
    - [Posix]: the libpmem, epoll, C and bufferlist calls the sources make.
    - [Log]: the macro of [log.h].
    - [Resources]: the ledger and its rules.
    - [CephEncoding], [WireFormat]: the interface to Ceph's encoders, whose code is not
      part of the repository, as a class with laws; an instance (little-endian numbers,
      length-prefixed strings, versioned sections) that satisfies them.
    - [Types]: [Types.h], [Types.cc], [test_demo.cc]: the messages and their codecs.
    - [MemoryManager]: [MemoryManager.h], [MemoryManager.cc].
    - [Reactor]: [Reactor.h], [Reactor.cc], [EventHandler.h].
    - [RpmaOp]: [RpmaOp.h]: operations with a callback, their heap, librpma's queues.
    - [Quiet]: which operations leave the queues and the epoll interest list alone.
    - [Descriptors]: which file descriptor belongs to which object; [Host]: the concrete
      oracle.
    - [RpmaConn], [ConnectionHandler], [RPMAHandler], [AcceptorHandler],
      [ClientHandler]: the classes of [EventOp.h] and [EventOp.cc]; [AcceptorHandler] also has
      the state of the server process, in which the handlers live.
    - [Isolation], [Acceptance], [Registration]: what a method of one handler leaves alone of
      the others, of the reactor and of the descriptors.
    - [Interleaving]: posting an operation with the other thread in between.
    - [ServerInv], [ServerLoop], [ServerProgress], [ServerMain]: the server process: its
      invariant with any number of handlers, its event loop and the abstract machine
      of sessions it refines, its progress, and [main] of [server.cc] from start to end;
      [ServerReplies]: what its send buffers say in every state of its loop.
    - [ClientSession]: the life of the client's handler: construction, completions,
      destruction.
    - [Handshake]: server and client together.
    - [Client], [ClientMain]: [client.cc]: the preparation of its data, and [main] with the
      reactor's thread; [ClientTurns]: what a turn of that thread changes;
      [ClientDurability], [ClientSafety], [ClientSource], [ClientDestination]: the order of
      write and flush, memory safety, the buffer the data comes from and the region it
      goes to.
    - [Replication]: the two programs together, each on a host of its own.

    A class of the source is a Record of its members and one definition per method,
    constructor and destructor; destructors run the members' destructors in the order
    of C++, and a constructor whose body throws runs them too ([on_throw]).  Shared
    objects are kept in stores: operations in a heap by address ([op_heap]), peers by
    their use counts, the reactor in the process state, handlers in the server's map.
    Derived classes of [ConnectionHandler] share its methods through the class
    [HasConnection]; virtual methods and callbacks are parameters of the base methods.

    ** What the theorems show

    - Messages ([Types]): every well-formed message decodes to itself and leaves what
      follows it; the common header can be read off every message; a decoder
      refuses a message that requires a newer version; whatever bytes arrive, a message
      that is accepted is well typed and is one the encoders could have sent.
    - Memory ([MemoryManager]): [init], [close_and_remove] and the destructor balance
      on every branch, for persistent memory and for DRAM, provided that mappings
      have the size that was asked for; a file of another length is unmapped with
      the wrong length.
    - Events ([Reactor]): registration is atomic, removal removes, and the loop only ever
      dereferences nodes that are alive, given that epoll reports what was added; a
      second registration of a descriptor breaks this.
    - Operations ([ConnectionHandler]): the callback table, the heap of operations and
      librpma's queues agree, and every handler keeps that agreement; a completion runs its
      callback exactly once and frees its operation; buffers, connection and table are
      released exactly once.
    - A server's session ([RPMAHandler], [AcceptorHandler]): construction is exception
      safe; handling any completion, whatever message it brings, keeps the session's
      invariant without fault, provided that mappings have the requested size; the reply
      to an init request describes the region registered over the replica; destruction
      gives back everything.
    - The server process ([ServerLoop], [ServerProgress], [ServerMain]): from its start, for any
      number of rounds and clients, it is memory safe and releases everything when it
      ends; every event it dispatches is a step of a machine that only knows which
      sessions are open; an accepted connection opens a session; without its two
      arguments it leaves the defined behaviour.  In every state of its loop, a send
      buffer that reads as a success describes a region the session holds, over the
      whole of the mapped replica ([ServerReplies]).
    - A client's session ([ClientHandler], [ClientSession]): construction is exception safe;
      completions are safe while the activations their callbacks refer to exist, and not
      after; the reply's descriptors are used as sent; a request ends within its time
      limit; writes and flushes are posted once and recorded exactly if accepted; the
      source region is replaced without leak.
    - The client program ([Client], [ClientDurability], [ClientSafety], [ClientSource],
      [ClientDestination]): its data fills the region; for every interleaving of its threads
      only that buffer is written, all remote accesses go to one region, it flushes only after the write has completed, returns 0 only
      after the flush has, and has no faults but three that are named (a failed
      start, a failed registration, a late reply); a refused write leaves it
      waiting for ever; without an answer of the server it uses an uninitialized pointer.
    - The race of the two threads ([Interleaving]): an operation that completes before it is
      recorded leaves a dangling entry.
    - Both ([Handshake], [Replication]): the region the client writes to is the one the server
      registered; a client that returns 0 has written and flushed its data to a region
      that a running server holds over a replica of the size that was asked for.
    - Logging ([Log]): a log line never leaves its buffer, and only the place in the source
      can be cut.

    Some theorems state what the code does where that is not what it should do;
    their comments say so.

    ** Bounds and fuel

    [Reactor.handle_events], [ServerLoop.server_rounds] and the loops of [ClientMain] that wait
    for the other thread are endless or may be so in the source; they take fuel and their
    theorems hold for every amount of it, [None] saying that the loop goes on.  A run of
    each program to a known state is an [Example] ([demo_main_runs],
    [demo_main_with_returns]).  The waiting loop of a request, [wait_completed], is shown to
    end: if ten seconds pass within N readings of the clock, N + 2 turns suffice.
    [Client.fill_loop] ends after as many turns as the region has pieces.  Sizes are kept
    at their width where the source converts them ([u32], [u64], [to_int]).

    ** Not modelled

    Output to the standard streams and the file the client prints; the internals of
    librpma, libpmem and librados; [std::bad_alloc] and [std::length_error].  The calls
    of [LOG] are left out of the functions that make them: they change no state.  The
    client's two threads interleave where its main thread yields or spins and between
    the statements of its [main]; inside the methods only [Interleaving] lets the other
    thread run, at the one point where that matters most.  The data of a remote write
    are not followed into the server's memory, and [Replication] takes what the client
    receives from states of the server between two events, not from a send
    buffer that is being filled.

    ** Next

    The contents of the replica's memory after a flush; progress of the client's [main]
    against a server that answers. *)

From Stdlib Require Export ZArith Lia Strings.Byte Strings.String.
From stdpp Require Export base tactics option list gmap gmultiset pretty.

#[export] Set Default Goal Selector "!".

Declare Scope rpma_scope.
Delimit Scope rpma_scope with rpma.
#[global] Open Scope Z_scope.
#[global] Open Scope rpma_scope.

(** ** Data shared by every component *)

(** Memory contents, [bufferlist]s and [std::string]s are sequences of bytes. *)
Abbreviation bytes := (list byte).

(** A string literal of the source, as the bytes of a [std::string]. *)
Definition str (s : string) : bytes := list_byte_of_string s.

(** The null pointer; every pointer and file descriptor is a [Z]. *)
Definition NULL : Z := 0.

(** The number of bytes of a buffer, as the [size_t] the code sees. *)
Definition blen (b : bytes) : Z := Z.of_nat (length b).

(** Conversions to the unsigned integer types of the source wrap around. *)
Definition u32 (x : Z) : Z := x mod 2 ^ 32.
Definition u64 (x : Z) : Z := x mod 2 ^ 64.

Definition is_u32 (x : Z) : Prop := 0 <= x < 2 ^ 32.
Definition is_u64 (x : Z) : Prop := 0 <= x < 2 ^ 64.
Definition is_s32 (x : Z) : Prop := - 2 ^ 31 <= x < 2 ^ 31.

#[export] Instance byte_eq_dec : EqDecision byte := Byte.byte_eq_dec.

(** [memcpy(dst + off, src, src.length())] into a buffer of fixed length: the
    bytes of [dst] outside the copied range keep their values.  [None] when the
    copy would run past the end of [dst]. *)
Definition memcpy_at (off : nat) (src dst : bytes) : option bytes :=
  if decide (off + length src <= length dst)%nat
  then Some (take off dst ++ src ++ drop (off + length src) dst)
  else None.

(** ** Tactics and hint databases *)

Create HintDb rpma.
Create Rewrite HintDb blen.
#[export] Hint Constants Opaque : rpma.

(** Turns the boolean tests of the code into propositions. *)
Ltac bools :=
  repeat match goal with
  | H : negb _ = true |- _ => apply negb_true_iff in H
  | H : negb _ = false |- _ => apply negb_false_iff in H
  | H : (_ =? _) = true |- _ => apply Z.eqb_eq in H
  | H : (_ =? _) = false |- _ => apply Z.eqb_neq in H
  | H : (_ <? _) = true |- _ => apply Z.ltb_lt in H
  | H : (_ <? _) = false |- _ => apply Z.ltb_ge in H
  | H : (_ <=? _) = true |- _ => apply Z.leb_le in H
  | H : (_ <=? _) = false |- _ => apply Z.leb_gt in H
  | H : _ && _ = true |- _ => apply andb_true_iff in H as [? ?]
  | H : _ || _ = false |- _ => apply orb_false_iff in H as [? ?]
  end.

(** ** Generic lemmas *)

Lemma length_memcpy_at off src dst dst' :
  memcpy_at off src dst = Some dst' -> length dst' = length dst.
Proof.
  unfold memcpy_at. case_decide; [|done]. intros [= <-].
  rewrite !length_app, length_take, length_drop. lia.
Qed.

Lemma blen_app a b : blen (a ++ b) = blen a + blen b.
Proof. unfold blen. rewrite length_app. lia. Qed.

Lemma blen_nonneg b : 0 <= blen b.
Proof. unfold blen. lia. Qed.

#[export] Hint Rewrite blen_app : blen.
