(* ===== verification/Librpma.v ===== *)
(** * The constants, enumerations and structures of [include/librpma.h] *)

From S2P Require Import Prelude.

(** ** Error codes (librpma.h, lines 406-415) *)

Definition RPMA_E_UNKNOWN : Z := -100000.
Definition RPMA_E_NOSUPP : Z := -100001.
Definition RPMA_E_PROVIDER : Z := -100002.
Definition RPMA_E_NOMEM : Z := -100003.
Definition RPMA_E_INVAL : Z := -100004.
Definition RPMA_E_NO_COMPLETION : Z := -100005.
Definition RPMA_E_NO_EVENT : Z := -100006.
Definition RPMA_E_AGAIN : Z := -100007.

Definition RPMA_W_WAIT_FOR_COMPLETION : Z := 1.

Definition RPMA_DEFAULT_TIMEOUT_MS : Z := 1000.
Definition RPMA_ATOMIC_WRITE_ALIGNMENT : Z := 8.

(** ** Enumerations *)

Inductive rpma_util_ibv_context_type :=
  | RPMA_UTIL_IBV_CONTEXT_LOCAL
  | RPMA_UTIL_IBV_CONTEXT_REMOTE.

Inductive rpma_conn_event :=
  | RPMA_CONN_UNDEFINED
  | RPMA_CONN_ESTABLISHED
  | RPMA_CONN_CLOSED
  | RPMA_CONN_LOST.

Inductive rpma_flush_type :=
  | RPMA_FLUSH_TYPE_PERSISTENT
  | RPMA_FLUSH_TYPE_VISIBILITY.

Inductive rpma_op :=
  | RPMA_OP_READ
  | RPMA_OP_WRITE
  | RPMA_OP_FLUSH
  | RPMA_OP_SEND
  | RPMA_OP_RECV.

Inductive rpma_log_level :=
  | RPMA_LOG_DISABLED
  | RPMA_LOG_LEVEL_FATAL
  | RPMA_LOG_LEVEL_ERROR
  | RPMA_LOG_LEVEL_WARNING
  | RPMA_LOG_LEVEL_NOTICE
  | RPMA_LOG_LEVEL_INFO
  | RPMA_LOG_LEVEL_DEBUG.

(** The numbers of the enumeration: a message is on a higher level than another if its
    number is larger. *)
Definition log_level_number (l : rpma_log_level) : Z :=
  match l with
  | RPMA_LOG_DISABLED => -1
  | RPMA_LOG_LEVEL_FATAL => 0
  | RPMA_LOG_LEVEL_ERROR => 1
  | RPMA_LOG_LEVEL_WARNING => 2
  | RPMA_LOG_LEVEL_NOTICE => 3
  | RPMA_LOG_LEVEL_INFO => 4
  | RPMA_LOG_LEVEL_DEBUG => 5
  end.

Inductive rpma_log_threshold :=
  | RPMA_LOG_THRESHOLD
  | RPMA_LOG_THRESHOLD_AUX
  | RPMA_LOG_THRESHOLD_MAX.

(** The argument of [rpma_log_set_function] that asks for the library's own function. *)
Definition RPMA_LOG_USE_DEFAULT_FUNCTION : Z := NULL.

#[export] Instance rpma_log_threshold_eq_dec : EqDecision rpma_log_threshold.
Proof. solve_decision. Defined.
#[export] Instance rpma_conn_event_eq_dec : EqDecision rpma_conn_event.
Proof. solve_decision. Defined.
#[export] Instance rpma_flush_type_eq_dec : EqDecision rpma_flush_type.
Proof. solve_decision. Defined.
#[export] Instance rpma_op_eq_dec : EqDecision rpma_op.
Proof. solve_decision. Defined.

(** ** Memory-region usage flags and completion flags *)

Definition RPMA_MR_USAGE_READ_SRC : Z := Z.shiftl 1 0.
Definition RPMA_MR_USAGE_READ_DST : Z := Z.shiftl 1 1.
Definition RPMA_MR_USAGE_WRITE_SRC : Z := Z.shiftl 1 2.
Definition RPMA_MR_USAGE_WRITE_DST : Z := Z.shiftl 1 3.
Definition RPMA_MR_USAGE_FLUSH_TYPE_VISIBILITY : Z := Z.shiftl 1 4.
Definition RPMA_MR_USAGE_FLUSH_TYPE_PERSISTENT : Z := Z.shiftl 1 5.
Definition RPMA_MR_USAGE_SEND : Z := Z.shiftl 1 6.
Definition RPMA_MR_USAGE_RECV : Z := Z.shiftl 1 7.

Definition RPMA_F_COMPLETION_ON_ERROR : Z := Z.shiftl 1 0.
Definition RPMA_F_COMPLETION_ALWAYS : Z :=
  Z.lor (Z.shiftl 1 1) RPMA_F_COMPLETION_ON_ERROR.

(** ** Completions *)

(** [enum ibv_wc_status] of libibverbs: the code only tests for success. *)
Definition IBV_WC_SUCCESS : Z := 0.

Record rpma_completion := Completion {
  op_context : Z;
  op : rpma_op;
  byte_len : Z;
  op_status : Z
}.

(** ** Private data of a connection *)

Record rpma_conn_private_data := PrivateData {
  pdata_ptr : Z;
  pdata_len : Z
}.
