(* ===== verification/Effects.v ===== *)
(** * Effects: external calls, traces and the execution monad

    The program runs against code that is not in the repository: librpma,
    libpmem, the C library and the kernel.  Each call it makes to that code is a
    value of [call]; what comes back is an [answer]; the calls already made, with
    their answers, form the [trace].  An [Oracle] answers every call as an
    arbitrary function of the trace, so a theorem that quantifies over the
    oracle holds for every behaviour of that code, failures included. *)

From S2P Require Import Prelude Librpma.

(** ** Calls and answers *)

(** The calls the sources make.  Output parameters are part of the answer. *)
Inductive call : Type :=
  (* librpma: peers and peer configurations *)
  | C_get_ibv_context (addr : bytes) (type : rpma_util_ibv_context_type)
  | C_ibv_context_is_odp_capable (dev : Z)
  | C_peer_new (dev : Z)
  | C_peer_delete (peer : Z)
  | C_peer_cfg_new
  | C_peer_cfg_delete (pcfg : Z)
  | C_peer_cfg_set_direct_write_to_pmem (pcfg : Z) (supported : bool)
  | C_peer_cfg_get_direct_write_to_pmem (pcfg : Z)
  | C_peer_cfg_get_descriptor_size (pcfg : Z)
  | C_peer_cfg_get_descriptor (pcfg : Z)
  | C_peer_cfg_from_descriptor (desc : bytes) (desc_size : Z)
  (* librpma: memory regions *)
  | C_mr_reg (peer ptr size usage : Z)
  | C_mr_dereg (mr : Z)
  | C_mr_get_descriptor_size (mr : Z)
  | C_mr_get_descriptor (mr : Z)
  | C_mr_remote_from_descriptor (desc : bytes) (desc_size : Z)
  | C_mr_remote_get_size (mr : Z)
  | C_mr_remote_get_flush_type (mr : Z)
  | C_mr_remote_delete (mr : Z)
  (* librpma: connections *)
  | C_conn_cfg_new
  | C_conn_cfg_set_sq_size (cfg size : Z)
  | C_conn_cfg_set_rq_size (cfg size : Z)
  | C_conn_cfg_set_cq_size (cfg size : Z)
  | C_conn_cfg_set_timeout (cfg timeout_ms : Z)
  | C_conn_cfg_get_timeout (cfg : Z)
  | C_conn_cfg_get_sq_size (cfg : Z)
  | C_conn_cfg_get_rq_size (cfg : Z)
  | C_conn_cfg_get_cq_size (cfg : Z)
  | C_conn_cfg_delete (cfg : Z)
  | C_ep_listen (peer : Z) (addr port : bytes)
  | C_ep_shutdown (ep : Z)
  | C_ep_get_fd (ep : Z)
  | C_ep_next_conn_req (ep cfg : Z)
  | C_conn_req_new (peer : Z) (addr port : bytes) (cfg : Z)
  | C_conn_req_delete (req : Z)
  | C_conn_req_recv (req dst offset len ctx : Z)
  | C_conn_req_connect (req : Z)
  | C_conn_get_event_fd (conn : Z)
  | C_conn_get_completion_fd (conn : Z)
  | C_conn_next_event (conn : Z)
  | C_conn_get_private_data (conn : Z)
  | C_conn_apply_remote_peer_cfg (conn pcfg : Z)
  | C_conn_disconnect (conn : Z)
  | C_conn_delete (conn : Z)
  | C_conn_completion_wait (conn : Z)
  | C_conn_completion_get (conn : Z)
  (* librpma: posted operations *)
  | C_recv (conn dst offset len ctx : Z)
  | C_send (conn src offset len flags ctx : Z)
  | C_write (conn dst dst_offset src src_offset len flags ctx : Z)
  | C_write_atomic (conn dst dst_offset src src_offset flags ctx : Z)
  | C_read (conn dst dst_offset src src_offset len flags ctx : Z)
  | C_flush (conn dst dst_offset len : Z) (type : rpma_flush_type) (flags ctx : Z)
  (* librpma: messages and logging *)
  | C_conn_event_2str (conn_event : rpma_conn_event)
  | C_err_2str (ret : Z)
  | C_log_set_threshold (threshold : rpma_log_threshold) (level : rpma_log_level)
  | C_log_get_threshold (threshold : rpma_log_threshold)
  | C_log_set_function (log_function : Z)
  (* libpmem and the C library *)
  | C_pmem_map_file (path : bytes) (len flags mode : Z)
  | C_pmem_unmap (addr len : Z)
  | C_access (path : bytes)
  | C_remove (path : bytes)
  | C_malloc (size : Z)
  | C_free (ptr : Z)
  | C_bufferptr (size : Z)
  (* the kernel *)
  | C_epoll_create1
  | C_epoll_ctl_add (epfd fd ptr : Z)
  | C_epoll_ctl_del (epfd fd : Z)
  | C_epoll_wait (epfd timeout : Z)
  | C_fcntl_getfl (fd : Z)
  | C_fcntl_setfl (fd flags : Z)
  | C_close (fd : Z)
  | C_clock_now
  (* the value of a local variable that the source reads before setting it *)
  | C_indeterminate (name : string).

(** The result of [pmem_map_file]: the address and its two output parameters. *)
Record pmem_mapping := PmemMapping {
  pm_addr : Z;
  pm_len : Z;
  pm_is_pmem : Z
}.

(** What a call gives back: its return value and what it writes through its
    pointer arguments. *)
Definition answer (c : call) : Type :=
  match c with
  | C_get_ibv_context _ _ | C_peer_new _ | C_peer_cfg_new
  | C_peer_cfg_get_descriptor_size _ | C_peer_cfg_from_descriptor _ _
  | C_mr_reg _ _ _ _ | C_mr_get_descriptor_size _
  | C_mr_remote_from_descriptor _ _ | C_mr_remote_get_size _
  | C_ibv_context_is_odp_capable _ | C_mr_remote_get_flush_type _ | C_conn_cfg_get_timeout _
  | C_conn_cfg_get_sq_size _ | C_conn_cfg_get_rq_size _ | C_conn_cfg_get_cq_size _
  | C_conn_cfg_new | C_ep_listen _ _ _ | C_ep_get_fd _
  | C_ep_next_conn_req _ _ | C_conn_req_new _ _ _ _ | C_conn_req_connect _
  | C_conn_get_event_fd _ | C_conn_get_completion_fd _
  | C_epoll_ctl_add _ _ _ | C_epoll_wait _ _
  | C_fcntl_getfl _ | C_fcntl_setfl _ _ => Z * Z
  | C_peer_cfg_get_direct_write_to_pmem _ => Z * bool
  | C_peer_cfg_get_descriptor _ | C_mr_get_descriptor _ | C_bufferptr _ => Z * bytes
  | C_conn_next_event _ => Z * rpma_conn_event
  | C_conn_get_private_data _ => Z * rpma_conn_private_data
  | C_conn_event_2str _ | C_err_2str _ => bytes
  | C_log_get_threshold _ => Z * rpma_log_level
  | C_conn_completion_get _ => Z * rpma_completion
  | C_pmem_map_file _ _ _ _ => pmem_mapping
  | _ => Z
  end.

(** A call together with its answer. *)
Inductive event : Type :=
  | Ev (c : call) (a : answer c).

Abbreviation trace := (list event).

(** The code outside the repository, as a function of what happened before. *)
Class Oracle := answer_of : trace -> forall c : call, answer c.

(** The contents of the receive buffer of a connection, as a function of what happened
    before: what the other end sends is not decided by this process. *)
Class Wire := received : trace -> Z -> bytes.

(** The answer of a call that returns zero and writes nothing of interest; the
    concrete oracles of the witnesses override it for the calls they care about. *)
Definition zero_answer (c : call) : answer c :=
  match c return answer c with
  | C_get_ibv_context _ _ | C_peer_new _ | C_peer_cfg_new
  | C_peer_cfg_get_descriptor_size _ | C_peer_cfg_from_descriptor _ _
  | C_mr_reg _ _ _ _ | C_mr_get_descriptor_size _
  | C_mr_remote_from_descriptor _ _ | C_mr_remote_get_size _
  | C_ibv_context_is_odp_capable _ | C_mr_remote_get_flush_type _ | C_conn_cfg_get_timeout _
  | C_conn_cfg_get_sq_size _ | C_conn_cfg_get_rq_size _ | C_conn_cfg_get_cq_size _
  | C_conn_cfg_new | C_ep_listen _ _ _ | C_ep_get_fd _
  | C_ep_next_conn_req _ _ | C_conn_req_new _ _ _ _ | C_conn_req_connect _
  | C_conn_get_event_fd _ | C_conn_get_completion_fd _
  | C_epoll_ctl_add _ _ _ | C_epoll_wait _ _
  | C_fcntl_getfl _ | C_fcntl_setfl _ _ => (0, 0)
  | C_peer_cfg_get_direct_write_to_pmem _ => (0, false)
  | C_peer_cfg_get_descriptor _ | C_mr_get_descriptor _ | C_bufferptr _ => (0, [])
  | C_conn_next_event _ => (0, RPMA_CONN_UNDEFINED)
  | C_conn_get_private_data _ => (0, PrivateData NULL 0)
  | C_conn_event_2str _ | C_err_2str _ => []
  | C_log_get_threshold _ => (0, RPMA_LOG_DISABLED)
  | C_conn_completion_get _ => (0, Completion 0 RPMA_OP_SEND 0 0)
  | C_pmem_map_file _ _ _ _ => PmemMapping 0 0 0
  | _ => 0
  end.

(** ** Outcomes and the execution monad *)

(** The exceptions the sources throw or let through. *)
Inductive exn :=
  | runtime_error (what : string)
  | buffer_error.

(** Ways in which an execution leaves the defined behaviour of the program; the last is
    [std::terminate], for an exception that leaves a thread and for a thread that is
    destroyed while it runs. *)
Inductive fault :=
  | AssertFailed
  | NullDereference
  | UseAfterFree (p : Z)
  | OutOfBounds
  | UseAfterReturn (frame : Z)
  | Terminate.

Inductive outcome (A : Type) :=
  | Ret (a : A)
  | Throw (e : exn)
  | Faulted (f : fault).
Arguments Ret {A} a.
Arguments Throw {A} e.
Arguments Faulted {A} f.

(** A computation over the mutable state [S] of a component. *)
Definition M (S A : Type) : Type := S -> trace -> outcome A * S * trace.

#[export] Instance M_ret S : MRet (M S) := fun A a s t => (Ret a, s, t).
#[export] Instance M_bind S : MBind (M S) := fun A B k m s t =>
  match m s t with
  | (Ret a, s', t') => k a s' t'
  | (Throw e, s', t') => (Throw e, s', t')
  | (Faulted f, s', t') => (Faulted f, s', t')
  end.

Definition get {S} : M S S := fun s t => (Ret s, s, t).
Definition gets {S A} (f : S -> A) : M S A := fun s t => (Ret (f s), s, t).
Definition modify {S} (f : S -> S) : M S unit := fun s t => (Ret tt, f s, t).
Definition throw {S A} (e : exn) : M S A := fun s t => (Throw e, s, t).
Definition fail_with {S A} (f : fault) : M S A := fun s t => (Faulted f, s, t).

(** [assert(b)] of a build without NDEBUG. *)
Definition assert {S} (b : bool) : M S unit :=
  if b then mret tt else fail_with AssertFailed.

Definition of_option {S A} (f : fault) (o : option A) : M S A :=
  match o with Some a => mret a | None => fail_with f end.

(** [try { m } catch (std::runtime_error &e) { h(e) }] *)
Definition try_catch {S A} (m : M S A) (h : exn -> M S A) : M S A := fun s t =>
  match m s t with
  | (Throw e, s', t') => h e s' t'
  | r => r
  end.

(** Destructors that run while an exception propagates. *)
Definition on_throw {S A} (m : M S A) (cleanup : M S unit) : M S A := fun s t =>
  match m s t with
  | (Throw e, s', t') =>
      match cleanup s' t' with
      | (Faulted f, s'', t'') => (Faulted f, s'', t'')
      | (_, s'', t'') => (Throw e, s'', t'')
      end
  | r => r
  end.

(** Runs a method of a member object on the state of the object that owns it. *)
Definition zoom {S T A} (view : S -> T) (update : T -> S -> S) (m : M T A) : M S A :=
  fun s t =>
    match m (view s) t with
    | (r, v, t') => (r, update v s, t')
    end.

(** One external call. *)
Definition ext {O : Oracle} {S} (c : call) : M S (answer c) := fun s t =>
  let a := answer_of t c in (Ret a, s, t ++ [Ev c a]).

(** A local variable read before it is set. *)
Definition indeterminate {O : Oracle} {S} (name : string) : M S Z :=
  ext (C_indeterminate name).

Notation "'when' b 'do' m" := (if b then m else mret tt)
  (at level 10, b at level 100, m at level 200,
   format "'when'  b  'do'  m") : rpma_scope.

(** ** Weakest preconditions

    [wp m Q s t] says that running [m] from state [s] after trace [t] ends in an
    outcome, state and trace that satisfy [Q].  Every computation of the monad
    ends, so these are total-correctness statements; [Q] says which outcomes are
    possible. *)

Definition wp {S A} (m : M S A) (Q : outcome A -> S -> trace -> Prop)
    (s : S) (t : trace) : Prop :=
  match m s t with (o, s', t') => Q o s' t' end.

(** The outcome is a value satisfying [Q]: no exception and no fault. *)
Definition returns {S A} (Q : A -> S -> trace -> Prop) : outcome A -> S -> trace -> Prop :=
  fun o s t => match o with Ret a => Q a s t | _ => False end.

Section Wp.
Context {S : Type}.
Implicit Types (s : S) (t : trace).

Lemma wp_run {A} (m : M S A) Q s t o s' t' :
  wp m Q s t -> m s t = (o, s', t') -> Q o s' t'.
Proof. unfold wp. intros H E. by rewrite E in H. Qed.

Lemma wp_mono {A} (m : M S A) (Q Q' : outcome A -> S -> trace -> Prop) s t :
  wp m Q s t -> (forall o s' t', Q o s' t' -> Q' o s' t') -> wp m Q' s t.
Proof. unfold wp. destruct (m s t) as [[o s'] t']. auto. Qed.

Lemma wp_and {A} (m : M S A) (Q Q' : outcome A -> S -> trace -> Prop) s t :
  wp m Q s t -> wp m Q' s t -> wp m (fun o s' t' => Q o s' t' /\ Q' o s' t') s t.
Proof. unfold wp. destruct (m s t) as [[? ?] ?]. by split. Qed.

Lemma wp_ret {A} (a : A) Q s t : Q (Ret a) s t -> wp (mret a) Q s t.
Proof. done. Qed.

Lemma wp_bind {A B} (m : M S A) (k : A -> M S B) Q s t :
  wp m (fun o s' t' => match o with
    | Ret a => wp (k a) Q s' t'
    | Throw e => Q (Throw e) s' t'
    | Faulted f => Q (Faulted f) s' t'
    end) s t ->
  wp (m ≫= k) Q s t.
Proof.
  unfold wp, mbind, M_bind. by destruct (m s t) as [[[] ?] ?].
Qed.

Lemma wp_get Q s t : Q (Ret s) s t -> wp get Q s t.
Proof. done. Qed.
Lemma wp_gets {A} (f : S -> A) Q s t : Q (Ret (f s)) s t -> wp (gets f) Q s t.
Proof. done. Qed.
Lemma wp_modify (f : S -> S) Q s t : Q (Ret tt) (f s) t -> wp (modify f) Q s t.
Proof. done. Qed.
Lemma wp_throw {A} e (Q : outcome A -> S -> trace -> Prop) s t :
  Q (Throw e) s t -> wp (throw e) Q s t.
Proof. done. Qed.
Lemma wp_fail_with {A} f (Q : outcome A -> S -> trace -> Prop) s t :
  Q (Faulted f) s t -> wp (fail_with f) Q s t.
Proof. done. Qed.

Lemma wp_ext {O : Oracle} c Q s t :
  (forall a, answer_of t c = a -> Q (Ret a) s (t ++ [Ev c a])) -> wp (ext c) Q s t.
Proof. intros H. unfold wp, ext. by apply H. Qed.

(** A call whose answer is known. *)
Lemma wp_ext_known {O : Oracle} c a Q s t :
  answer_of t c = a -> Q (Ret a) s (t ++ [Ev c a]) -> wp (ext c) Q s t.
Proof. by intros <-. Qed.

Lemma wp_if {A} (b : bool) (m1 m2 : M S A) Q s t :
  (b = true -> wp m1 Q s t) -> (b = false -> wp m2 Q s t) ->
  wp (if b then m1 else m2) Q s t.
Proof. destruct b; auto. Qed.

Lemma wp_assert (b : bool) Q s t :
  (b = true -> Q (Ret tt) s t) -> (b = false -> Q (Faulted AssertFailed) s t) ->
  wp (assert b) Q s t.
Proof. destruct b; unfold assert; intros; [apply wp_ret | apply wp_fail_with]; auto. Qed.

Lemma wp_of_option {A} f (o : option A) Q s t :
  match o with Some a => Q (Ret a) s t | None => Q (Faulted f) s t end ->
  wp (of_option f o) Q s t.
Proof. by destruct o. Qed.

Lemma wp_try_catch {A} (m : M S A) h Q s t :
  wp m (fun o s' t' => match o with Throw e => wp (h e) Q s' t' | _ => Q o s' t' end) s t ->
  wp (try_catch m h) Q s t.
Proof. unfold wp, try_catch. by destruct (m s t) as [[[] ?] ?]. Qed.

Lemma wp_on_throw {A} (m : M S A) (cleanup : M S unit) Q s t :
  wp m (fun o s' t' => match o with
    | Throw e => wp cleanup (fun o' s'' t'' =>
        match o' with Faulted f => Q (Faulted f) s'' t'' | _ => Q (Throw e) s'' t'' end) s' t'
    | _ => Q o s' t'
    end) s t ->
  wp (on_throw m cleanup) Q s t.
Proof.
  unfold wp, on_throw. destruct (m s t) as [[[] s'] t']; [done| |done].
  by destruct (cleanup s' t') as [[[] ?] ?].
Qed.

Lemma wp_zoom {T A} (view : S -> T) update (m : M T A) Q s t :
  wp m (fun o v t' => Q o (update v s) t') (view s) t ->
  wp (zoom view update m) Q s t.
Proof. unfold wp, zoom. by destruct (m (view s) t) as [[? ?] ?]. Qed.
End Wp.

(** One step of symbolic execution; [wp_steps] repeats it up to the first call
    whose answer decides a branch. *)
Ltac wp_step :=
  lazymatch goal with
  | |- wp (mret _) _ _ _ => apply wp_ret
  | |- wp (_ ≫= _) _ _ _ => apply wp_bind
  | |- wp get _ _ _ => apply wp_get
  | |- wp (gets _) _ _ _ => apply wp_gets
  | |- wp (modify _) _ _ _ => apply wp_modify
  | |- wp (throw _) _ _ _ => apply wp_throw
  | |- wp (fail_with _) _ _ _ => apply wp_fail_with
  | |- wp (ext ?c) ?Q ?s ?t => refine (wp_ext c Q s t _); intros ? ?
  | |- wp (assert _) _ _ _ => apply wp_assert; intros ?
  | |- wp (of_option _ _) _ _ _ => apply wp_of_option
  | |- wp (try_catch _ _) _ _ _ => apply wp_try_catch
  | |- wp (on_throw _ _) _ _ _ => apply wp_on_throw
  | |- wp (zoom _ _ _) _ _ _ => apply wp_zoom
  | |- wp (if _ then _ else _) _ _ _ => apply wp_if; intros ?
  | |- wp (let '(_, _) := ?x in _) _ _ _ => destruct x eqn:?
  | |- wp (match ?x with _ => _ end) _ _ _ => destruct x eqn:?
  end; cbn beta iota.

Ltac wp_steps := repeat wp_step.

(** A call whose answer [H] gives. *)
Tactic Notation "wp_known" uconstr(H) :=
  lazymatch goal with
  | |- wp (ext ?c) ?Q ?s ?t => refine (wp_ext_known c _ Q s t H _); cbn beta iota
  end.

(** Replaces the answer of the last call by what a hypothesis says it is. *)
Ltac known_answer Hx :=
  match goal with
  | H : answer_of _ _ = _ |- _ => rewrite Hx in H; subst
  end.

(** ** Footprints

    [calls P m]: every external call that [m] makes, on whichever path, satisfies
    [P].  Footprints compose, so that what a method cannot do is derived from the
    calls it can make. *)

Definition ev_call (e : event) : call := match e with Ev c _ => c end.

Definition extends (P : call -> bool) (t t' : trace) : Prop :=
  exists evs, t' = t ++ evs /\ Forall (fun e => P (ev_call e) = true) evs.

Definition calls {S A} (P : call -> bool) (m : M S A) : Prop :=
  forall s t, wp m (fun _ _ t' => extends P t t') s t.

Lemma extends_refl P t : extends P t t.
Proof. exists []. by rewrite app_nil_r. Qed.

Lemma extends_trans P t1 t2 t3 : extends P t1 t2 -> extends P t2 t3 -> extends P t1 t3.
Proof.
  intros (e1 & -> & H1) (e2 & -> & H2). exists (e1 ++ e2).
  rewrite app_assoc. split; [done|]. by apply Forall_app.
Qed.

Lemma extends_snoc P t c a : P c = true -> extends P t (t ++ [Ev c a]).
Proof. intros H. exists [Ev c a]. split; [done|]. by constructor. Qed.

Lemma extends_weaken (P P' : call -> bool) t t' :
  (forall c, P c = true -> P' c = true) -> extends P t t' -> extends P' t t'.
Proof.
  intros HP (e & -> & H). exists e. split; [done|]. eapply Forall_impl; [done|]. auto.
Qed.

Section Calls.
Context {S : Type} (P : call -> bool).

Lemma calls_wp {A} (m : M S A) Q s t :
  calls P m -> wp m Q s t -> wp m (fun o s' t' => Q o s' t' /\ extends P t t') s t.
Proof.
  intros Hc HQ. specialize (Hc s t). unfold wp in *. by destruct (m s t) as [[? ?] ?].
Qed.

Lemma calls_weaken {A} (P' : call -> bool) (m : M S A) :
  (forall c, P' c = true -> P c = true) -> calls P' m -> calls P m.
Proof.
  intros HP Hm s t. eapply wp_mono; [apply Hm|]. intros o s' t'. by apply extends_weaken.
Qed.

Lemma calls_pure {A} (m : M S A) : (forall s t, (m s t).2 = t) -> calls P m.
Proof.
  intros Hm s t. unfold wp. specialize (Hm s t). destruct (m s t) as [[? ?] ?].
  simpl in Hm. subst. apply extends_refl.
Qed.

Lemma calls_ret {A} (a : A) : calls P (mret (M := M S) a).
Proof. by apply calls_pure. Qed.

Lemma calls_bind {A B} (m : M S A) (k : A -> M S B) :
  calls P m -> (forall a, calls P (k a)) -> calls P (m ≫= k).
Proof.
  intros Hm Hk s t. apply wp_bind. eapply wp_mono; [apply Hm|].
  intros [a| |] s' t' H; [|done..]. eapply wp_mono; [apply Hk|].
  intros o s'' t''. by apply extends_trans.
Qed.

Lemma calls_ext {O : Oracle} c : P c = true -> calls P (ext (S := S) c).
Proof. intros H s t. apply wp_ext. intros a _. by apply extends_snoc. Qed.

Lemma calls_on_throw {A} (m : M S A) cleanup :
  calls P m -> calls P cleanup -> calls P (on_throw m cleanup).
Proof.
  intros Hm Hc s t. apply wp_on_throw. eapply wp_mono; [apply Hm|].
  intros [|e|] s' t' H; [done| |done]. eapply wp_mono; [apply Hc|].
  intros [] s'' t''; by apply extends_trans.
Qed.

Lemma calls_try_catch {A} (m : M S A) h :
  calls P m -> (forall e, calls P (h e)) -> calls P (try_catch m h).
Proof.
  intros Hm Hh s t. apply wp_try_catch. eapply wp_mono; [apply Hm|].
  intros [|e|] s' t' H; [done| |done]. eapply wp_mono; [apply Hh|].
  intros o s'' t''. by apply extends_trans.
Qed.

Lemma calls_zoom {T A} (view : S -> T) update (m : M T A) :
  calls P m -> calls P (zoom view update m).
Proof. intros Hm s t. apply wp_zoom. apply Hm. Qed.
End Calls.

(** Footprints of the named operations are found in the database [calls]. *)
Create HintDb calls.

Ltac head_of m := lazymatch m with ?f _ => head_of f | _ => m end.

(** An operation without a hint is unfolded. *)
Ltac calls_step :=
  lazymatch goal with
  | |- calls _ (mret _) => apply calls_ret
  | |- calls _ (_ ≫= _) => apply calls_bind; [|intros ?]
  | |- calls _ get => by apply calls_pure
  | |- calls _ (gets _) => by apply calls_pure
  | |- calls _ (modify _) => by apply calls_pure
  | |- calls _ (throw _) => by apply calls_pure
  | |- calls _ (fail_with _) => by apply calls_pure
  | |- calls _ (assert ?b) => destruct b; by apply calls_pure
  | |- calls _ (of_option _ ?o) => destruct o; by apply calls_pure
  | |- calls _ (ext _) => apply calls_ext; reflexivity
  | |- calls _ (indeterminate _) => apply calls_ext; reflexivity
  | |- calls _ (on_throw _ _) => apply calls_on_throw
  | |- calls _ (try_catch _ _) => apply calls_try_catch; [|intros ?]
  | |- calls _ (zoom _ _ _) => apply calls_zoom
  | |- calls _ (if ?b then _ else _) => destruct b
  | |- calls _ (let '(_, _) := ?x in _) => destruct x
  | |- calls _ (match ?x with _ => _ end) => destruct x
  | |- calls _ ?m =>
      first [solve [eauto 1 with calls] | let f := head_of m in unfold f]
  end; cbn beta iota.

(** [footprint]: all the calls of an operation are in its footprint. *)
Ltac footprint := intros; repeat calls_step.
