(* ===== verification/LibrpmaApi.v ===== *)
(** * The functions of [include/librpma.h], as the header documents them

    The implementation of librpma is a binary; the header states, function by
    function, which outputs are set on success and on failure and which error
    codes can be returned.  Each definition below issues the call and gives its
    outputs the values the header prescribes: an output that the header says is
    not set on failure keeps the value the caller had stored there.

    [documented_errors] lists the error codes of each function, and the class
    [RpmaDocumented] states that the oracle returns no others. *)

From S2P Require Import Prelude Librpma Effects.

Section Api.
Context {O : Oracle} {S : Type}.

(** The value of an output parameter after a call that does not set it on
    failure. *)
Definition out_on_success {A} (ret : Z) (new old : A) : A :=
  if ret =? 0 then new else old.

(** ** Devices, peers and peer configurations *)

Definition rpma_utils_get_ibv_context (addr : bytes)
    (type : rpma_util_ibv_context_type) (dev : Z) : M S (Z * Z) :=
  '(ret, d) ← ext (C_get_ibv_context addr type);
  mret (ret, out_on_success ret d dev).

(** The value of [*is_odp_capable] after a failure is undefined: what the oracle says. *)
Definition rpma_utils_ibv_context_is_odp_capable (dev : Z) : M S (Z * Z) :=
  ext (C_ibv_context_is_odp_capable dev).

Definition rpma_peer_new (dev peer : Z) : M S (Z * Z) :=
  '(ret, p) ← ext (C_peer_new dev);
  mret (ret, out_on_success ret p peer).

Definition rpma_peer_delete (peer : Z) : M S Z := ext (C_peer_delete peer).

Definition rpma_peer_cfg_new (pcfg : Z) : M S (Z * Z) :=
  '(ret, p) ← ext C_peer_cfg_new;
  mret (ret, out_on_success ret p pcfg).

Definition rpma_peer_cfg_delete (pcfg : Z) : M S Z := ext (C_peer_cfg_delete pcfg).

Definition rpma_peer_cfg_set_direct_write_to_pmem (pcfg : Z) (supported : bool) : M S Z :=
  ext (C_peer_cfg_set_direct_write_to_pmem pcfg supported).

Definition rpma_peer_cfg_get_direct_write_to_pmem (pcfg : Z) (supported : bool)
    : M S (Z * bool) :=
  '(ret, b) ← ext (C_peer_cfg_get_direct_write_to_pmem pcfg);
  mret (ret, out_on_success ret b supported).

Definition rpma_peer_cfg_get_descriptor_size (pcfg desc_size : Z) : M S (Z * Z) :=
  '(ret, n) ← ext (C_peer_cfg_get_descriptor_size pcfg);
  mret (ret, out_on_success ret n desc_size).

(** Writes the descriptor at offset [off] of the buffer [desc]. *)
Definition rpma_peer_cfg_get_descriptor (pcfg : Z) (off : nat) (desc : bytes)
    : M S (Z * bytes) :=
  '(ret, d) ← ext (C_peer_cfg_get_descriptor pcfg);
  if ret =? 0
  then desc' ← of_option OutOfBounds (memcpy_at off d desc); mret (ret, desc')
  else mret (ret, desc).

Definition rpma_peer_cfg_from_descriptor (desc : bytes) (desc_size pcfg : Z)
    : M S (Z * Z) :=
  '(ret, p) ← ext (C_peer_cfg_from_descriptor desc desc_size);
  mret (ret, out_on_success ret p pcfg).

(** ** Memory regions *)

Definition rpma_mr_reg (peer ptr size usage mr : Z) : M S (Z * Z) :=
  '(ret, m) ← ext (C_mr_reg peer ptr size usage);
  mret (ret, out_on_success ret m mr).

Definition rpma_mr_dereg (mr : Z) : M S Z := ext (C_mr_dereg mr).

Definition rpma_mr_get_descriptor_size (mr desc_size : Z) : M S (Z * Z) :=
  '(ret, n) ← ext (C_mr_get_descriptor_size mr);
  mret (ret, out_on_success ret n desc_size).

Definition rpma_mr_get_descriptor (mr : Z) (off : nat) (desc : bytes)
    : M S (Z * bytes) :=
  '(ret, d) ← ext (C_mr_get_descriptor mr);
  if ret =? 0
  then desc' ← of_option OutOfBounds (memcpy_at off d desc); mret (ret, desc')
  else mret (ret, desc).

Definition rpma_mr_remote_from_descriptor (desc : bytes) (desc_size mr : Z)
    : M S (Z * Z) :=
  '(ret, m) ← ext (C_mr_remote_from_descriptor desc desc_size);
  mret (ret, out_on_success ret m mr).

Definition rpma_mr_remote_get_size (mr size : Z) : M S (Z * Z) :=
  '(ret, n) ← ext (C_mr_remote_get_size mr);
  mret (ret, out_on_success ret n size).

Definition rpma_mr_remote_get_flush_type (mr flush_type : Z) : M S (Z * Z) :=
  '(ret, f) ← ext (C_mr_remote_get_flush_type mr);
  mret (ret, out_on_success ret f flush_type).

(** Sets the caller's pointer to NULL unless it fails. *)
Definition rpma_mr_remote_delete (mr : Z) : M S (Z * Z) :=
  ret ← ext (C_mr_remote_delete mr);
  mret (ret, out_on_success ret NULL mr).

(** ** Connection configurations, endpoints and connection requests *)

Definition rpma_conn_cfg_new (cfg : Z) : M S (Z * Z) :=
  '(ret, c) ← ext C_conn_cfg_new;
  mret (ret, out_on_success ret c cfg).

Definition rpma_conn_cfg_set_sq_size (cfg size : Z) : M S Z :=
  ext (C_conn_cfg_set_sq_size cfg size).
Definition rpma_conn_cfg_set_rq_size (cfg size : Z) : M S Z :=
  ext (C_conn_cfg_set_rq_size cfg size).
Definition rpma_conn_cfg_set_cq_size (cfg size : Z) : M S Z :=
  ext (C_conn_cfg_set_cq_size cfg size).

Definition rpma_conn_cfg_set_timeout (cfg timeout_ms : Z) : M S Z :=
  ext (C_conn_cfg_set_timeout cfg timeout_ms).
Definition rpma_conn_cfg_get_timeout (cfg timeout_ms : Z) : M S (Z * Z) :=
  '(ret, n) ← ext (C_conn_cfg_get_timeout cfg);
  mret (ret, out_on_success ret n timeout_ms).
Definition rpma_conn_cfg_get_sq_size (cfg sq_size : Z) : M S (Z * Z) :=
  '(ret, n) ← ext (C_conn_cfg_get_sq_size cfg);
  mret (ret, out_on_success ret n sq_size).
Definition rpma_conn_cfg_get_rq_size (cfg rq_size : Z) : M S (Z * Z) :=
  '(ret, n) ← ext (C_conn_cfg_get_rq_size cfg);
  mret (ret, out_on_success ret n rq_size).
Definition rpma_conn_cfg_get_cq_size (cfg cq_size : Z) : M S (Z * Z) :=
  '(ret, n) ← ext (C_conn_cfg_get_cq_size cfg);
  mret (ret, out_on_success ret n cq_size).

(** Sets the caller's pointer to NULL on success and on failure. *)
Definition rpma_conn_cfg_delete (cfg : Z) : M S (Z * Z) :=
  ret ← ext (C_conn_cfg_delete cfg); mret (ret, NULL).

Definition rpma_ep_listen (peer : Z) (addr port : bytes) (ep : Z) : M S (Z * Z) :=
  '(ret, e) ← ext (C_ep_listen peer addr port);
  mret (ret, out_on_success ret e ep).

Definition rpma_ep_shutdown (ep : Z) : M S Z := ext (C_ep_shutdown ep).

Definition rpma_ep_get_fd (ep fd : Z) : M S (Z * Z) :=
  '(ret, f) ← ext (C_ep_get_fd ep);
  mret (ret, out_on_success ret f fd).

Definition rpma_ep_next_conn_req (ep cfg req : Z) : M S (Z * Z) :=
  '(ret, r) ← ext (C_ep_next_conn_req ep cfg);
  mret (ret, out_on_success ret r req).

Definition rpma_conn_req_new (peer : Z) (addr port : bytes) (cfg req : Z)
    : M S (Z * Z) :=
  '(ret, r) ← ext (C_conn_req_new peer addr port cfg);
  mret (ret, out_on_success ret r req).

(** Sets the caller's pointer to NULL on success and on failure. *)
Definition rpma_conn_req_delete (req : Z) : M S (Z * Z) :=
  ret ← ext (C_conn_req_delete req); mret (ret, NULL).

Definition rpma_conn_req_recv (req dst offset len ctx : Z) : M S Z :=
  ext (C_conn_req_recv req dst offset len ctx).

(** Returns the return value, [*conn_ptr] and [*req_ptr]: the request is
    consumed and its pointer set to NULL on success and on failure. *)
Definition rpma_conn_req_connect (req conn : Z) : M S (Z * Z * Z) :=
  '(ret, c) ← ext (C_conn_req_connect req);
  mret (ret, out_on_success ret c conn, NULL).

(** ** Connections *)

Definition rpma_conn_get_event_fd (conn fd : Z) : M S (Z * Z) :=
  '(ret, f) ← ext (C_conn_get_event_fd conn);
  mret (ret, out_on_success ret f fd).

Definition rpma_conn_get_completion_fd (conn fd : Z) : M S (Z * Z) :=
  '(ret, f) ← ext (C_conn_get_completion_fd conn);
  mret (ret, out_on_success ret f fd).

Definition rpma_conn_next_event (conn : Z) : M S (Z * rpma_conn_event) :=
  ext (C_conn_next_event conn).

Definition rpma_conn_get_private_data (conn : Z) (pdata : rpma_conn_private_data)
    : M S (Z * rpma_conn_private_data) :=
  '(ret, p) ← ext (C_conn_get_private_data conn);
  mret (ret, out_on_success ret p pdata).

Definition rpma_conn_apply_remote_peer_cfg (conn pcfg : Z) : M S Z :=
  ext (C_conn_apply_remote_peer_cfg conn pcfg).

Definition rpma_conn_disconnect (conn : Z) : M S Z := ext (C_conn_disconnect conn).

(** Sets the caller's pointer to NULL on success and on failure. *)
Definition rpma_conn_delete (conn : Z) : M S (Z * Z) :=
  ret ← ext (C_conn_delete conn); mret (ret, NULL).

Definition rpma_conn_completion_wait (conn : Z) : M S Z :=
  ext (C_conn_completion_wait conn).

Definition rpma_conn_completion_get (conn : Z) : M S (Z * rpma_completion) :=
  ext (C_conn_completion_get conn).

(** ** Posted operations *)

Definition rpma_recv (conn dst offset len ctx : Z) : M S Z :=
  ext (C_recv conn dst offset len ctx).

Definition rpma_send (conn src offset len flags ctx : Z) : M S Z :=
  ext (C_send conn src offset len flags ctx).

Definition rpma_write (conn dst dst_offset src src_offset len flags ctx : Z) : M S Z :=
  ext (C_write conn dst dst_offset src src_offset len flags ctx).

Definition rpma_write_atomic (conn dst dst_offset src src_offset flags ctx : Z) : M S Z :=
  ext (C_write_atomic conn dst dst_offset src src_offset flags ctx).

Definition rpma_read (conn dst dst_offset src src_offset len flags ctx : Z) : M S Z :=
  ext (C_read conn dst dst_offset src src_offset len flags ctx).

Definition rpma_flush (conn dst dst_offset len : Z) (type : rpma_flush_type)
    (flags ctx : Z) : M S Z :=
  ext (C_flush conn dst dst_offset len type flags ctx).

(** ** Messages and logging *)

Definition rpma_utils_conn_event_2str (conn_event : rpma_conn_event) : M S bytes :=
  ext (C_conn_event_2str conn_event).
Definition rpma_err_2str (ret : Z) : M S bytes := ext (C_err_2str ret).

Definition rpma_log_set_threshold (threshold : rpma_log_threshold) (level : rpma_log_level)
    : M S Z := ext (C_log_set_threshold threshold level).
Definition rpma_log_get_threshold (threshold : rpma_log_threshold) (level : rpma_log_level)
    : M S (Z * rpma_log_level) :=
  '(ret, l) ← ext (C_log_get_threshold threshold);
  mret (ret, out_on_success ret l level).
Definition rpma_log_set_function (log_function : Z) : M S Z :=
  ext (C_log_set_function log_function).

End Api.

(** ** What both programs do first *)

Section Start.
Context {O : Oracle} {S : Type}.

(** The results are ignored. *)
Definition configure_logging : M S unit :=
  rpma_log_set_threshold RPMA_LOG_THRESHOLD RPMA_LOG_LEVEL_INFO;;
  rpma_log_set_threshold RPMA_LOG_THRESHOLD_AUX RPMA_LOG_LEVEL_INFO;;
  mret tt.

(** The pointer [argv[i]]: null behind the last argument; there is nothing behind that. *)
Definition argument (argv : list bytes) (i : nat) : M S (option bytes) :=
  match argv !! i with
  | Some a => mret (Some a)
  | None => if (i =? length argv)%nat then mret None else fail_with OutOfBounds
  end.

(** The calls of [configure_logging]. *)
Definition logged (a b : Z) : trace :=
  [Ev (C_log_set_threshold RPMA_LOG_THRESHOLD RPMA_LOG_LEVEL_INFO) a;
   Ev (C_log_set_threshold RPMA_LOG_THRESHOLD_AUX RPMA_LOG_LEVEL_INFO) b].

Lemma wp_configure_logging Q (s : S) t :
  (forall a b, Q (Ret tt) s (t ++ logged a b)) -> wp configure_logging Q s t.
Proof.
  intros HQ. unfold configure_logging, rpma_log_set_threshold. wp_steps. rewrite <-app_assoc. apply HQ.
Qed.
End Start.

(** ** Documented error codes *)

(** The codes under ERRORS in the header, for the functions whose result the
    sources look at and for those they do not call. *)
Definition documented_errors (c : call) : list Z :=
  match c with
  | C_get_ibv_context _ _ => [RPMA_E_INVAL; RPMA_E_NOMEM; RPMA_E_PROVIDER]
  | C_peer_new _ => [RPMA_E_INVAL; RPMA_E_NOMEM; RPMA_E_PROVIDER; RPMA_E_UNKNOWN]
  | C_mr_reg _ _ _ _ => [RPMA_E_INVAL; RPMA_E_NOMEM; RPMA_E_PROVIDER]
  | C_ep_listen _ _ _ => [RPMA_E_INVAL; RPMA_E_PROVIDER; RPMA_E_NOMEM]
  | C_ep_next_conn_req _ _ =>
      [RPMA_E_INVAL; RPMA_E_PROVIDER; RPMA_E_NOMEM; RPMA_E_NO_EVENT]
  | C_conn_req_recv _ _ _ _ _ | C_recv _ _ _ _ _ | C_send _ _ _ _ _ _
  | C_write _ _ _ _ _ _ _ _ => [RPMA_E_INVAL; RPMA_E_PROVIDER]
  | C_flush _ _ _ _ _ _ _ => [RPMA_E_INVAL; RPMA_E_PROVIDER; RPMA_E_NOSUPP]
  | C_conn_req_connect _ => [RPMA_E_INVAL; RPMA_E_NOMEM; RPMA_E_PROVIDER]
  | C_conn_next_event _ =>
      [RPMA_E_INVAL; RPMA_E_UNKNOWN; RPMA_E_PROVIDER; RPMA_E_NOMEM]
  | C_ibv_context_is_odp_capable _ => [RPMA_E_INVAL; RPMA_E_PROVIDER]
  | C_mr_remote_get_flush_type _ | C_mr_remote_delete _ | C_conn_cfg_set_timeout _ _
  | C_conn_cfg_get_timeout _ | C_conn_cfg_get_sq_size _ | C_conn_cfg_get_rq_size _
  | C_conn_cfg_get_cq_size _ | C_conn_get_private_data _ | C_log_get_threshold _ => [RPMA_E_INVAL]
  | C_log_set_threshold _ _ => [RPMA_E_INVAL; RPMA_E_AGAIN]
  | C_log_set_function _ => [RPMA_E_AGAIN]
  | C_conn_completion_wait _ =>
      [RPMA_E_INVAL; RPMA_E_PROVIDER; RPMA_E_NO_COMPLETION]
  | C_conn_completion_get _ =>
      [RPMA_E_INVAL; RPMA_E_NO_COMPLETION; RPMA_E_PROVIDER; RPMA_E_UNKNOWN;
       RPMA_E_NOSUPP]
  | _ => []
  end.

(** The return value of an answer, for the calls whose answer starts with it. *)
Definition ret_of (c : call) : answer c -> Z :=
  match c return answer c -> Z with
  | C_get_ibv_context _ _ | C_peer_new _ | C_peer_cfg_new
  | C_peer_cfg_get_descriptor_size _ | C_peer_cfg_from_descriptor _ _
  | C_mr_reg _ _ _ _ | C_mr_get_descriptor_size _
  | C_mr_remote_from_descriptor _ _ | C_mr_remote_get_size _
  | C_ibv_context_is_odp_capable _ | C_mr_remote_get_flush_type _ | C_conn_cfg_get_timeout _
  | C_conn_cfg_get_sq_size _ | C_conn_cfg_get_rq_size _ | C_conn_cfg_get_cq_size _
  | C_conn_cfg_new | C_ep_listen _ _ _ | C_ep_get_fd _
  | C_ep_next_conn_req _ _ | C_conn_req_new _ _ _ _ | C_conn_req_connect _
  | C_conn_get_event_fd _ | C_conn_get_completion_fd _
  | C_epoll_ctl_add _ _ _ | C_epoll_wait _ _
  | C_fcntl_getfl _ | C_fcntl_setfl _ _ => fst
  | C_peer_cfg_get_direct_write_to_pmem _ => fst
  | C_peer_cfg_get_descriptor _ | C_mr_get_descriptor _ | C_bufferptr _ => fst
  | C_conn_next_event _ => fst
  | C_conn_get_private_data _ => fst
  | C_log_get_threshold _ => fst
  | C_conn_event_2str _ | C_err_2str _ => fun _ => 0
  | C_conn_completion_get _ => fst
  | C_pmem_map_file _ _ _ _ => pm_addr
  | _ => fun r => r
  end.

(** The pointer or descriptor a successful call stores, for the calls that
    create an object. *)
Definition out_of (c : call) : answer c -> option Z :=
  match c return answer c -> option Z with
  | C_peer_new _ | C_peer_cfg_new | C_peer_cfg_from_descriptor _ _
  | C_mr_reg _ _ _ _ | C_mr_remote_from_descriptor _ _ | C_conn_cfg_new
  | C_ep_listen _ _ _ | C_ep_next_conn_req _ _ | C_conn_req_new _ _ _ _
  | C_conn_req_connect _ => fun a => if fst a =? 0 then Some (snd a) else None
  | _ => fun _ => None
  end.

(** What the header promises of every call: it fails only with a code listed
    for it, and an object it creates has a non-null address. *)
Class RpmaDocumented (O : Oracle) : Prop := {
  documented_ret t c :
    documented_errors c <> [] ->
    ret_of c (answer_of t c) = 0 \/ ret_of c (answer_of t c) ∈ documented_errors c;
  documented_out t c p : out_of c (answer_of t c) = Some p -> p <> NULL
}.
