(* ===== verification/Posix.v ===== *)
(** * The calls to libpmem, the C library, the kernel and Ceph's buffers *)

From S2P Require Import Prelude Librpma Effects.

(** Flags of [pmem_map_file] and [fcntl] that the sources pass. *)
Definition PMEM_FILE_CREATE : Z := 1.
Definition O_NONBLOCK : Z := 2048.

(** A page-aligned buffer: its address and its contents. *)
Record bufferlist := Bufferlist { bl_addr : Z; bl_data : bytes }.

Definition empty_bufferlist : bufferlist := {| bl_addr := NULL; bl_data := [] |}.

Section Posix.
Context {O : Oracle} {S : Type}.

(** On failure [pmem_map_file] returns NULL and leaves the two output
    parameters as the caller had them. *)
Definition pmem_map_file (path : bytes) (len flags mode mapped_len is_pmem : Z)
    : M S pmem_mapping :=
  m ← ext (C_pmem_map_file path len flags mode);
  mret (if pm_addr m =? NULL then PmemMapping NULL mapped_len is_pmem else m).

Definition pmem_unmap (addr len : Z) : M S Z := ext (C_pmem_unmap addr len).
Definition access_F_OK (path : bytes) : M S Z := ext (C_access path).
Definition remove (path : bytes) : M S Z := ext (C_remove path).
Definition malloc (size : Z) : M S Z := ext (C_malloc size).
Definition free (ptr : Z) : M S unit := _ ← ext (C_free ptr); mret tt.

(** [bl.append(bufferptr(size)); bl.rebuild_page_aligned()] on an empty list:
    one aligned buffer of [size] bytes, whose contents nothing has set. *)
Definition new_bufferlist (size : Z) : M S bufferlist :=
  '(addr, raw) ← ext (C_bufferptr size);
  let n := Z.to_nat size in
  mret {| bl_addr := addr; bl_data := take n (raw ++ replicate n x00) |}.

Definition epoll_create1 : M S Z := ext C_epoll_create1.

(** Return value and [errno]. *)
Definition epoll_ctl_add (epfd fd ptr : Z) : M S (Z * Z) :=
  ext (C_epoll_ctl_add epfd fd ptr).
Definition epoll_ctl_del (epfd fd : Z) : M S Z := ext (C_epoll_ctl_del epfd fd).

(** Return value and [event.data.ptr]. *)
Definition epoll_wait (epfd timeout : Z) : M S (Z * Z) :=
  ext (C_epoll_wait epfd timeout).

(** Return value and [errno]. *)
Definition fcntl_getfl (fd : Z) : M S (Z * Z) := ext (C_fcntl_getfl fd).
Definition fcntl_setfl (fd flags : Z) : M S (Z * Z) := ext (C_fcntl_setfl fd flags).
Definition close_fd (fd : Z) : M S Z := ext (C_close fd).

(** [clock::now()], in microseconds. *)
Definition clock_now : M S Z := ext C_clock_now.
End Posix.
