(* ===== verification/Log.v ===== *)
(** * The log line ([log.h])

    The macro [LOG] puts the local time, the microseconds and the place in the source
    into a buffer of 128 bytes and prints it before the message.  What the clock and the
    time zone answer ([gettimeofday], [localtime_r]) are arguments; [strftime] and
    [snprintf] are modelled for the formats the macro uses. *)

From S2P Require Import Prelude.

(** ** Data *)

(** [struct timeval]. *)
Record timeval := Timeval { tv_sec : Z; tv_usec : Z }.

(** The members of [struct tm] the format reads. *)
Record tm := Tm {
  tm_sec : Z; tm_min : Z; tm_hour : Z;
  tm_mday : Z; tm_mon : Z;    (* months since January *)
  tm_year : Z                 (* years since 1900 *)
}.

(** A number in decimal, as [%d] and [%ld] print it. *)
Definition decimal (n : Z) : bytes := str (pretty n).

(** A number in at least [w] digits, filled with zeros; [%06ld] and the numbers of
    [strftime]. *)
Definition padded (w : nat) (n : Z) : bytes :=
  let d := decimal (Z.abs n) in
  let sign := if n <? 0 then str "-" else [] in
  sign ++ replicate (w - length sign - length d) x30 ++ d.

(** The text of the format [%Y-%m-%d %H:%M:%S]. *)
Definition date (t : tm) : bytes :=
  decimal (tm_year t + 1900) ++ str "-" ++ padded 2 (tm_mon t + 1) ++ str "-" ++
  padded 2 (tm_mday t) ++ str " " ++ padded 2 (tm_hour t) ++ str ":" ++
  padded 2 (tm_min t) ++ str ":" ++ padded 2 (tm_sec t).

(** The text of the format [.%06ld %s:%d: %s]. *)
Definition place (usec : Z) (file : bytes) (line : Z) (func : bytes) : bytes :=
  str "." ++ padded 6 usec ++ str " " ++ file ++ str ":" ++ decimal line ++ str ": " ++ func.

(** ** The functions of the C library *)

(** [strftime(buf, max, ...)]: the text and its NUL are stored when they fit, and the
    length is returned; otherwise 0 is returned and what [buf] holds is not specified,
    for which [junk] stands. *)
Definition strftime (buf junk : bytes) (max : nat) (text : bytes) : option (nat * bytes) :=
  if decide (length text < max)%nat
  then buf' ← memcpy_at 0 (text ++ [x00]) buf; Some (length text, buf')
  else Some (0%nat, junk).

(** [snprintf(buf + off, size, ...)]: at most [size - 1] bytes of the text, and a NUL. *)
Definition snprintf (off size : nat) (text buf : bytes) : option bytes :=
  if decide (size = 0%nat) then Some buf
  else memcpy_at off (take (size - 1) text ++ [x00]) buf.

(** What [%s] prints: the bytes up to the first NUL; reading past the end of the buffer
    is out of bounds. *)
Fixpoint cstring (buf : bytes) : option bytes :=
  match buf with
  | [] => None
  | b :: buf => if decide (b = x00) then Some [] else s ← cstring buf; Some (b :: s)
  end.

(** ** The macro *)

(** [LOG(format, ...)]: the line printed for the message [msg], which is [format] with its
    arguments; [None] is an access outside of [_buf].  [localtime_r] is the time zone's (it
    can fail only for a year that is no [int], which no clock reports). *)
Definition LOG (localtime_r : Z -> tm) (junk : bytes) (tv : timeval)
    (file : bytes) (line : Z) (func msg : bytes) : option bytes :=
  let now_time := localtime_r (tv_sec tv) in
  let buf := replicate 128 x00 in
  '(len, buf) ← strftime buf junk 128 (date now_time);
  buf ← snprintf len (128 - len) (place (tv_usec tv) file line func) buf;
  s ← cstring buf;
  Some (s ++ str " " ++ msg ++ str "
").

(** ** Strings without NUL *)

Abbreviation nul_free := (Forall (fun b => b <> x00)).

(** The ranges that the C standard gives for the members of a [struct tm]. *)
Record tm_documented (t : tm) : Prop := {
  tm_sec_range : 0 <= tm_sec t <= 60;
  tm_min_range : 0 <= tm_min t <= 59;
  tm_hour_range : 0 <= tm_hour t <= 23;
  tm_mday_range : 1 <= tm_mday t <= 31;
  tm_mon_range : 0 <= tm_mon t <= 11;
  tm_year_range : is_s32 (tm_year t)
}.

Lemma str_cons c s : str (String c s) = Ascii.byte_of_ascii c :: str s.
Proof. done. Qed.

Lemma digit_not_nul n : Ascii.byte_of_ascii (pretty_N_char n) <> x00.
Proof. unfold pretty_N_char. repeat case_match; done. Qed.

(** The digits [pretty] puts before what it is given: at most [k] of them for a number
    below [10 ^ k], none of them NUL. *)
Lemma pretty_N_go_digits (k : nat) x s :
  (x < 10 ^ N.of_nat k)%N ->
  exists l, str (pretty_N_go x s) = l ++ str s /\ nul_free l /\ (length l <= k)%nat.
Proof.
  revert x s. induction k as [|k IH]; intros x s Hx.
  - assert (x = 0%N) as -> by (simpl in Hx; lia). rewrite pretty_N_go_0.
    exists []. repeat split; simpl; auto.
  - destruct (decide (x = 0%N)) as [->|Hx0].
    { rewrite pretty_N_go_0. exists []. repeat split; simpl; auto with lia. }
    rewrite pretty_N_go_step by lia.
    destruct (IH (x `div` 10)%N (String (pretty_N_char (x `mod` 10)) s)) as (l & -> & Hl & Hlen).
    { apply N.Div0.div_lt_upper_bound. rewrite Nat2N.inj_succ, N.pow_succ_r' in Hx. lia. }
    exists (l ++ [Ascii.byte_of_ascii (pretty_N_char (x `mod` 10))]).
    rewrite str_cons, <-app_assoc. repeat split.
    + apply Forall_app; split; [done|]. constructor; [apply digit_not_nul | done].
    + rewrite length_app; simpl; lia.
Qed.

Lemma pretty_N_digits (k : nat) n :
  (0 < k)%nat -> (n < 10 ^ N.of_nat k)%N ->
  nul_free (str (pretty n)) /\ (length (str (pretty n)) <= k)%nat.
Proof.
  intros Hk Hn. unfold pretty, pretty_N. case_decide.
  - split; [by repeat constructor | simpl; lia].
  - destruct (pretty_N_go_digits k n "" Hn) as (l & -> & Hl & Hlen).
    by rewrite app_nil_r.
Qed.

Lemma nul_free_number n : nul_free (str (pretty (n : N))).
Proof.
  destruct (pretty_N_digits (S (N.to_nat n)) n) as [H _]; [lia| |done].
  rewrite Nat2N.inj_succ, N2Nat.id.
  apply (N.lt_trans _ (N.succ n)); [lia|]. apply N.pow_gt_lin_r. lia.
Qed.

(** A number in decimal is a sign and the digits of its absolute value. *)
Lemma decimal_abs n :
  decimal n = (if n <? 0 then str "-" else []) ++ str (pretty (Z.abs_N n)).
Proof. by destruct n. Qed.

Lemma nul_free_decimal n : nul_free (decimal n).
Proof.
  rewrite decimal_abs. apply Forall_app; split; [|apply nul_free_number].
  case_match; repeat constructor; done.
Qed.

Lemma length_digits (k : nat) n :
  (0 < k)%nat -> Z.abs n < 10 ^ Z.of_nat k -> (length (str (pretty (Z.abs_N n))) <= k)%nat.
Proof.
  intros Hk Hn. apply pretty_N_digits; [done|]. apply N2Z.inj_lt. rewrite N2Z.inj_pow. lia.
Qed.

Lemma length_decimal (k : nat) n :
  (0 < k)%nat -> Z.abs n < 10 ^ Z.of_nat k ->
  (length (decimal n) <= (if (n <? 0)%Z then 1 else 0) + k)%nat.
Proof.
  intros Hk Hn. pose proof (length_digits k n Hk Hn).
  rewrite decimal_abs, length_app. case_match; simpl; lia.
Qed.

Lemma nul_free_padded w n : nul_free (padded w n).
Proof.
  unfold padded. apply Forall_app; split; [case_match; repeat constructor; done|].
  apply Forall_app; split; [|apply nul_free_decimal]. by apply Forall_replicate.
Qed.

Lemma length_padded (w : nat) n :
  (0 < w)%nat -> 0 <= n < 10 ^ Z.of_nat w -> length (padded w n) = w.
Proof.
  intros Hw Hn. pose proof (length_decimal w n Hw ltac:(lia)) as Hd.
  unfold padded. rewrite (proj2 (Z.ltb_ge _ _)) in Hd |- * by lia. rewrite Z.abs_eq by lia. simpl.
  rewrite length_app, length_replicate. lia.
Qed.

Create HintDb nul.
#[export] Hint Resolve nul_free_decimal nul_free_padded : nul.
#[export] Hint Extern 1 (Forall _ (str _)) => by repeat constructor : nul.
#[export] Hint Extern 1 (Forall _ (_ ++ _)) => apply Forall_app; split : nul.

Lemma nul_free_date t : nul_free (date t).
Proof. unfold date. auto 20 with nul. Qed.

Lemma nul_free_place usec file line func :
  nul_free file -> nul_free func -> nul_free (place usec file line func).
Proof. intros. unfold place. auto 20 with nul. Qed.

#[export] Hint Resolve nul_free_date nul_free_place : nul.

(** The date of any documented time fits, with the longest year an [int] can give. *)
Lemma length_date t : tm_documented t -> (length (date t) <= 26)%nat.
Proof.
  intros [? ? ? ? ? Hy]. unfold is_s32 in Hy.
  pose proof (length_decimal 10 (tm_year t + 1900) ltac:(lia) ltac:(lia)) as Hyear.
  assert (length (decimal (tm_year t + 1900)) <= 11)%nat by (case_match; lia).
  unfold date. rewrite !length_app, !length_padded by lia. simpl length. lia.
Qed.

Lemma cstring_nul s r : nul_free s -> cstring (s ++ [x00] ++ r) = Some s.
Proof.
  induction 1 as [|b s Hb Hs IH]; [done|]. cbn. rewrite decide_False by done.
  cbn in IH. by rewrite IH.
Qed.

(** ** The printed line *)

(** Whatever is put after the first text, the buffer holds the first 127 bytes of both. *)
Lemma buffer_text a b junk :
  (length a <= 127)%nat -> nul_free a -> nul_free b ->
  ('(len, buf) ← strftime (replicate 128 x00) junk 128 a;
   buf ← snprintf len (128 - len) b buf; cstring buf) = Some (take 127 (a ++ b)).
Proof.
  intros Ha Hna Hnb. unfold strftime. rewrite decide_True by lia.
  unfold memcpy_at at 1. rewrite decide_True by (rewrite length_app, length_replicate; simpl; lia).
  cbn [mbind option_bind]. rewrite take_0, app_nil_l. unfold snprintf. rewrite decide_False by lia.
  unfold memcpy_at. rewrite decide_True.
  2:{ rewrite !length_app, !length_take, !length_drop, !length_replicate, ?length_app.
      cbn [length]. lia. }
  cbn [mbind option_bind]. rewrite <-!app_assoc, take_app_length, (app_assoc a).
  rewrite cstring_nul.
  - rewrite take_app_ge by lia. do 3 f_equal. lia.
  - apply Forall_app; split; [done|]. by apply Forall_take.
Qed.

(** C29: the macro [LOG] never leaves its buffer of 128 bytes, for file and function names of
    any length: it prints the first 127 bytes of the date, the microseconds, the file, the line
    and the function, then a space, the whole message and a newline.  The date and the
    microseconds are among those bytes: only the place in the source can be cut. *)
Theorem log_line_bounded localtime_r junk tv file line func msg :
  (forall sec, tm_documented (localtime_r sec)) ->
  0 <= tv_usec tv < 10 ^ 6 -> nul_free file -> nul_free func ->
  let now := date (localtime_r (tv_sec tv)) in
  let stamp := now ++ str "." ++ padded 6 (tv_usec tv) ++ str " " in
  let origin := file ++ str ":" ++ decimal line ++ str ": " ++ func in
  (length stamp <= 34)%nat /\
  LOG localtime_r junk tv file line func msg =
    Some (stamp ++ take (127 - length stamp) origin ++ str " " ++ msg ++ str "
").
Proof.
  intros Htm Husec Hfile Hfunc now stamp origin.
  pose proof (length_date _ (Htm (tv_sec tv))) as Hd. fold now in Hd.
  assert (length stamp <= 34)%nat as Hs.
  { unfold stamp. rewrite !length_app, length_padded by lia. simpl. lia. }
  split; [done|]. unfold LOG. fold now.
  assert (now ++ place (tv_usec tv) file line func = stamp ++ origin) as Htext.
  { unfold stamp, origin, place. by rewrite <-!app_assoc. }
  pose proof (buffer_text now (place (tv_usec tv) file line func) junk ltac:(lia)
    (nul_free_date _) (nul_free_place _ _ _ _ Hfile Hfunc)) as Hbuf.
  rewrite Htext, take_app_ge in Hbuf by lia.
  destruct (strftime _ _ _ _) as [[len buf]|]; [|done]. simpl in Hbuf |- *.
  destruct (snprintf _ _ _ _) as [buf'|]; [|done]. simpl in Hbuf |- *.
  rewrite Hbuf. simpl. by rewrite <-!app_assoc.
Qed.

(** A time zone that answers noon of one day, for the witness. *)
Definition noon (sec : Z) : tm :=
  {| tm_sec := 0; tm_min := 0; tm_hour := 12; tm_mday := 9; tm_mon := 6; tm_year := 121 |}.

Example demo_log :
  LOG noon [] (Timeval 0 42) (str "/src/EventOp.cc") 243 (str "handle_connection_event")
    (str "RPMA_CONN_ESTABLISHED") =
  Some (str "2021-07-09 12:00:00.000042 /src/EventOp.cc:243: handle_connection_event RPMA_CONN_ESTABLISHED
").
Proof. vm_compute. reflexivity. Qed.

(** A place of more than a hundred bytes, which is cut. *)
Lemma log_line_bounded_witness :
  let file := replicate 200 x61 in
  LOG noon [] (Timeval 0 42) file 243 (str "f") (str "m") =
  Some (str "2021-07-09 12:00:00.000042 " ++ replicate 100 x61 ++ str " m
").
Proof.
  intros file.
  assert (forall sec, tm_documented (noon sec)) as Htm.
  { intros sec. split; simpl; unfold is_s32; lia. }
  destruct (log_line_bounded noon [] (Timeval 0 42) file 243 (str "f") (str "m") Htm) as [_ H].
  - simpl; lia.
  - by apply Forall_replicate.
  - by repeat constructor.
  - etransitivity; [exact H|]. vm_compute. reflexivity.
Defined.
