(* ===== verification/Resources.v ===== *)
(** * A monitor for the objects obtained from outside

    The specification of resource use that every component is held to: a call
    that creates an object adds it to a ledger; a call that deletes an object
    must find it there and takes it out; a call that uses an object must find it
    there.  [ledger t] is [None] as soon as the trace [t] breaks a rule, that is
    on a double release, a release of something never acquired, or a use after
    release. *)

From S2P Require Import Prelude Librpma Effects LibrpmaApi Posix.

Inductive res :=
  | RPeer (p : Z) | REp (p : Z) | RReq (p : Z) | RConn (p : Z) | RMr (p : Z)
  | RCfg (p : Z) | RPcfg (p : Z) | RRemote (p : Z)
  | RMap (addr len : Z) | RHeap (p : Z) | REpoll (fd : Z).

#[export] Instance res_eq_dec : EqDecision res.
Proof. solve_decision. Defined.
#[export] Instance res_countable : Countable res.
Proof.
  refine (inj_countable'
    (fun r => match r with
      | RPeer p => (0, p, 0) | REp p => (1, p, 0) | RReq p => (2, p, 0)
      | RConn p => (3, p, 0) | RMr p => (4, p, 0) | RCfg p => (5, p, 0)
      | RPcfg p => (6, p, 0) | RRemote p => (7, p, 0) | RMap a l => (8, a, l)
      | RHeap p => (9, p, 0) | REpoll p => (10, p, 0)
      end)
    (fun k => match k with
      | (0, p, _) => RPeer p | (1, p, _) => REp p | (2, p, _) => RReq p
      | (3, p, _) => RConn p | (4, p, _) => RMr p | (5, p, _) => RCfg p
      | (6, p, _) => RPcfg p | (7, p, _) => RRemote p | (8, a, l) => RMap a l
      | (9, p, _) => RHeap p | (_, p, _) => REpoll p
      end) _).
  by intros [].
Defined.

(** Null pointers are not objects: librpma answers them with an error. *)
Definition nonnull (R : Z -> res) (p : Z) : list res :=
  if p =? NULL then [] else [R p].

(** ** The effect of each call on the ledger *)

Definition acquires (e : event) : option res :=
  match e with
  | Ev c a =>
    match c return answer c -> option res with
    | C_peer_new _ => fun a => if a.1 =? 0 then Some (RPeer a.2) else None
    | C_peer_cfg_new => fun a => if a.1 =? 0 then Some (RPcfg a.2) else None
    | C_peer_cfg_from_descriptor _ _ =>
        fun a => if a.1 =? 0 then Some (RPcfg a.2) else None
    | C_mr_reg _ _ _ _ => fun a => if a.1 =? 0 then Some (RMr a.2) else None
    | C_mr_remote_from_descriptor _ _ =>
        fun a => if a.1 =? 0 then Some (RRemote a.2) else None
    | C_conn_cfg_new => fun a => if a.1 =? 0 then Some (RCfg a.2) else None
    | C_ep_listen _ _ _ => fun a => if a.1 =? 0 then Some (REp a.2) else None
    | C_ep_next_conn_req _ _ => fun a => if a.1 =? 0 then Some (RReq a.2) else None
    | C_conn_req_new _ _ _ _ => fun a => if a.1 =? 0 then Some (RReq a.2) else None
    | C_conn_req_connect _ => fun a => if a.1 =? 0 then Some (RConn a.2) else None
    | C_pmem_map_file _ _ _ _ =>
        fun m => if pm_addr m =? NULL then None else Some (RMap (pm_addr m) (pm_len m))
    | C_malloc _ => fun p => if p =? NULL then None else Some (RHeap p)
    | C_epoll_create1 => fun fd => if fd =? -1 then None else Some (REpoll fd)
    | _ => fun _ => None
    end a
  end.

Definition releases (c : call) : option res :=
  match c with
  | C_peer_delete p => Some (RPeer p)
  | C_peer_cfg_delete p => if p =? NULL then None else Some (RPcfg p)
  | C_mr_dereg p => Some (RMr p)
  | C_conn_cfg_delete p => Some (RCfg p)
  | C_ep_shutdown p => Some (REp p)
  | C_conn_req_delete p => Some (RReq p)
  | C_conn_req_connect p => Some (RReq p)
  | C_conn_delete p => Some (RConn p)
  | C_pmem_unmap a l => Some (RMap a l)
  | C_free p => Some (RHeap p)
  | C_close fd => Some (REpoll fd)
  | _ => None
  end.

Definition uses (c : call) : list res :=
  match c with
  | C_peer_cfg_set_direct_write_to_pmem p _ | C_peer_cfg_get_direct_write_to_pmem p
  | C_peer_cfg_get_descriptor_size p | C_peer_cfg_get_descriptor p => nonnull RPcfg p
  | C_mr_reg peer _ _ _ => nonnull RPeer peer
  | C_mr_get_descriptor_size mr | C_mr_get_descriptor mr => nonnull RMr mr
  | C_mr_remote_get_size mr => nonnull RRemote mr
  | C_conn_cfg_set_sq_size c _ | C_conn_cfg_set_rq_size c _
  | C_conn_cfg_set_cq_size c _ => nonnull RCfg c
  | C_ep_listen peer _ _ => nonnull RPeer peer
  | C_ep_get_fd ep => nonnull REp ep
  | C_ep_next_conn_req ep cfg => nonnull REp ep ++ nonnull RCfg cfg
  | C_conn_req_new peer _ _ cfg => nonnull RPeer peer ++ nonnull RCfg cfg
  | C_conn_req_recv req mr _ _ _ => nonnull RReq req ++ nonnull RMr mr
  | C_conn_get_event_fd c | C_conn_get_completion_fd c | C_conn_next_event c
  | C_conn_disconnect c | C_conn_completion_wait c
  | C_conn_completion_get c => nonnull RConn c
  | C_conn_apply_remote_peer_cfg c p => nonnull RConn c ++ nonnull RPcfg p
  | C_recv c mr _ _ _ => nonnull RConn c ++ nonnull RMr mr
  | C_send c mr _ _ _ _ => nonnull RConn c ++ nonnull RMr mr
  | C_write c dst _ src _ _ _ _ =>
      nonnull RConn c ++ nonnull RRemote dst ++ nonnull RMr src
  | C_write_atomic c dst _ src _ _ _ =>
      nonnull RConn c ++ nonnull RRemote dst ++ nonnull RMr src
  | C_read c dst _ src _ _ _ _ =>
      nonnull RConn c ++ nonnull RMr dst ++ nonnull RRemote src
  | C_flush c dst _ _ _ _ _ => nonnull RConn c ++ nonnull RRemote dst
  | C_epoll_ctl_add fd _ _ | C_epoll_ctl_del fd _ | C_epoll_wait fd _ => [REpoll fd]
  | _ => []
  end.

(** ** The monitor *)

Definition opt_ms (o : option res) : gmultiset res :=
  match o with Some r => {[+ r +]} | None => ∅ end.

Definition check (L : gmultiset res) (e : event) : option (gmultiset res) :=
  match e with
  | Ev c _ =>
      if decide (Forall (.∈ L) (uses c) /\ opt_ms (releases c) ⊆ L)
      then Some (L ∖ opt_ms (releases c) ⊎ opt_ms (acquires e))
      else None
  end.

Arguments check : simpl never.

(** The objects held after a run from [L], if the run obeys the rules. *)
Fixpoint run_ledger (L : gmultiset res) (t : trace) : option (gmultiset res) :=
  match t with
  | [] => Some L
  | e :: t => match check L e with Some L' => run_ledger L' t | None => None end
  end.

Definition ledger (t : trace) : option (gmultiset res) := run_ledger ∅ t.

(** What the header says of connecting: it makes a new connection object. *)
Class ConnectionsFresh (O : Oracle) : Prop :=
  connection_fresh t L req c :
    ledger t = Some L -> answer_of t (C_conn_req_connect req) = (0, c) -> RConn c ∉ L.

(** ** Lemmas *)

Lemma run_ledger_app L t1 t2 :
  run_ledger L (t1 ++ t2) = run_ledger L t1 ≫= fun L' => run_ledger L' t2.
Proof.
  revert L. induction t1 as [|e t1 IH]; intros L; simpl; [done|].
  by destruct (check L e).
Qed.

Lemma ledger_snoc t e : ledger (t ++ [e]) = ledger t ≫= fun L => check L e.
Proof.
  unfold ledger. rewrite run_ledger_app. destruct (run_ledger ∅ t) as [L|]; simpl; [|done].
  by destruct (check L e).
Qed.

(** An object that is held may be used and released; the ledger then lacks it. *)
Lemma check_ok L c a :
  Forall (.∈ L) (uses c) -> opt_ms (releases c) ⊆ L ->
  check L (Ev c a) = Some (L ∖ opt_ms (releases c) ⊎ opt_ms (acquires (Ev c a))).
Proof. intros. unfold check. by rewrite decide_True. Qed.

Lemma Forall_nonnull (R : Z -> res) (L : gmultiset res) p :
  (p <> NULL -> R p ∈ L) -> Forall (.∈ L) (nonnull R p).
Proof.
  intros H. unfold nonnull. destruct (Z.eqb_spec p NULL); constructor; auto.
Qed.

(** The three ways a call changes the ledger. *)
Lemma ledger_use t L c a :
  ledger t = Some L -> Forall (.∈ L) (uses c) -> releases c = None ->
  acquires (Ev c a) = None -> ledger (t ++ [Ev c a]) = Some L.
Proof.
  intros Ht Hu Hr Ha. rewrite ledger_snoc, Ht; simpl.
  rewrite check_ok, Hr, Ha by (rewrite ?Hr; multiset_solver || done).
  f_equal. simpl. multiset_solver.
Qed.

Lemma ledger_acquire t L c a r :
  ledger t = Some L -> Forall (.∈ L) (uses c) -> releases c = None ->
  acquires (Ev c a) = Some r -> ledger (t ++ [Ev c a]) = Some (L ⊎ {[+ r +]}).
Proof.
  intros Ht Hu Hr Ha. rewrite ledger_snoc, Ht; simpl.
  rewrite check_ok, Hr, Ha by (rewrite ?Hr; multiset_solver || done).
  f_equal. simpl. multiset_solver.
Qed.

Lemma ledger_release t L c a r :
  ledger t = Some (L ⊎ {[+ r +]}) -> Forall (.∈ L ⊎ {[+ r +]}) (uses c) ->
  releases c = Some r -> acquires (Ev c a) = None ->
  ledger (t ++ [Ev c a]) = Some L.
Proof.
  intros Ht Hu Hr Ha. rewrite ledger_snoc, Ht; simpl.
  rewrite check_ok, Hr, Ha by (rewrite ?Hr; simpl; multiset_solver || done).
  f_equal. simpl. multiset_solver.
Qed.

(** A request that is connected is consumed; on success there is a connection. *)
Lemma ledger_connect t L req a :
  ledger t = Some (L ⊎ {[+ RReq req +]}) ->
  ledger (t ++ [Ev (C_conn_req_connect req) a]) =
    Some (if a.1 =? 0 then L ⊎ {[+ RConn a.2 +]} else L).
Proof.
  intros Ht. rewrite ledger_snoc, Ht; simpl. rewrite check_ok; simpl;
    [|constructor|multiset_solver].
  f_equal. destruct (a.1 =? 0); simpl; multiset_solver.
Qed.

(** A call that does not touch the ledger. *)
Lemma ledger_neutral t L c (a : answer c) :
  ledger t = Some L -> uses c = [] -> releases c = None -> acquires (Ev c a) = None ->
  ledger (t ++ [Ev c a]) = Some L.
Proof. intros H Hu Hr Ha. eapply ledger_use; eauto. rewrite Hu. constructor. Qed.

Lemma ledger_same t c (a : answer c) :
  uses c = [] -> releases c = None -> acquires (Ev c a) = None -> ledger (t ++ [Ev c a]) = ledger t.
Proof.
  intros. destruct (ledger t) as [L|] eqn:HL; [by apply ledger_neutral|].
  by rewrite ledger_snoc, HL.
Qed.

(** The ledger of a concrete run is computed. *)
Lemma ledger_compute t X : bool_decide (ledger t = X) = true -> ledger t = X.
Proof. apply bool_decide_eq_true_1. Qed.

(** One call that only uses objects visibly in the ledger. *)
Ltac ledger_step :=
  apply ledger_use;
  [ | cbn [uses];
      repeat (apply Forall_app; split);
      first [ by constructor | apply Forall_nonnull; intros; multiset_solver ]
    | reflexivity | reflexivity ].
