(* ===== verification/CephEncoding.v ===== *)
(** * The interface to Ceph's encoding library

    [include/encoding.h] of Ceph is not part of the repository.  The messages of
    [Types.cc] are written against the operations of this class, and their
    theorems against its documented laws: primitive values decode to what was
    encoded and leave the iterator behind them; a versioned section
    ([ENCODE_START] ... [ENCODE_FINISH]) starts with a header holding its
    version, its compatible version and its length, is refused by a reader that
    is older than the compatible version, and [DECODE_FINISH] moves the iterator
    to the end of the section whatever part of it was read.

    Iterators are the bytes that remain; [None] is an exception of
    [ceph::buffer]. *)

From S2P Require Import Prelude.

Class CephEncoding := {
  encode_u32 : Z -> bytes;
  decode_u32 : bytes -> option (Z * bytes);
  encode_u64 : Z -> bytes;
  decode_u64 : bytes -> option (Z * bytes);
  encode_int : Z -> bytes;
  decode_int : bytes -> option (Z * bytes);
  encode_string : bytes -> bytes;
  decode_string : bytes -> option (bytes * bytes);
  (** [ENCODE_START(v, compat, bl)], the encoding of the body,
      [ENCODE_FINISH(bl)] *)
  ENCODE_SECTION : Z -> Z -> bytes -> bytes;
  (** what [DECODE_START] keeps for [DECODE_FINISH] *)
  section : Type;
  DECODE_START : Z -> bytes -> option (section * bytes);
  DECODE_FINISH : section -> bytes -> option bytes
}.

Class CephEncodingLaws (E : CephEncoding) : Prop := {
  u32_roundtrip x r : is_u32 x -> decode_u32 (encode_u32 x ++ r) = Some (x, r);
  u64_roundtrip x r : is_u64 x -> decode_u64 (encode_u64 x ++ r) = Some (x, r);
  int_roundtrip x r : is_s32 x -> decode_int (encode_int x ++ r) = Some (x, r);
  string_roundtrip s r :
    blen s < 2 ^ 32 -> decode_string (encode_string s ++ r) = Some (s, r);
  section_roundtrip v compat reader body r :
    0 <= v < 256 -> 0 <= compat < 256 -> blen body < 2 ^ 32 -> compat <= reader ->
    exists sec,
      DECODE_START reader (ENCODE_SECTION v compat body ++ r) = Some (sec, body ++ r) /\
      forall pre post, body = pre ++ post -> DECODE_FINISH sec (post ++ r) = Some r;
  section_too_new v compat reader body r :
    0 <= v < 256 -> 0 <= compat < 256 -> blen body < 2 ^ 32 -> reader < compat ->
    DECODE_START reader (ENCODE_SECTION v compat body ++ r) = None;
  u32_length x : blen (encode_u32 x) = 4;
  u64_length x : blen (encode_u64 x) = 8;
  int_length x : blen (encode_int x) = 4;
  string_length s : blen (encode_string s) = 4 + blen s;
  section_length v compat body : blen (ENCODE_SECTION v compat body) = 6 + blen body;
  (* a decoder gives a value of its C type and consumes what it read *)
  u32_decoded it x r : decode_u32 it = Some (x, r) -> is_u32 x /\ blen it = 4 + blen r;
  u64_decoded it x r : decode_u64 it = Some (x, r) -> is_u64 x /\ blen it = 8 + blen r;
  int_decoded it x r : decode_int it = Some (x, r) -> is_s32 x /\ blen it = 4 + blen r;
  string_decoded it s r : decode_string it = Some (s, r) -> blen it = 4 + blen s + blen r;
  section_started v it sec r : DECODE_START v it = Some (sec, r) -> blen it = 6 + blen r;
  section_finished sec it r : DECODE_FINISH sec it = Some r -> blen r <= blen it
}.

#[export] Hint Rewrite @u32_length @u64_length @int_length @string_length
  @section_length using typeclasses eauto : blen.
