(* ===== verification/WireFormat.v ===== *)
(** * A wire format that satisfies the laws of [CephEncoding]

    Little-endian integers, strings prefixed by a 32-bit length, and sections
    with a six-byte header: version, compatible version, 32-bit length of the
    body.  It instantiates the interface, which shows that the laws can hold
    together, and the witnesses of the development compute with it. *)

From coqutil Require Import Byte Word.LittleEndianList.
From S2P Require Import Prelude CephEncoding.

(** ** Integers *)

Definition put_le (n : nat) (x : Z) : bytes := le_split n x.

Definition get_le (n : nat) (it : bytes) : option (Z * bytes) :=
  if decide (n <= length it)%nat then Some (le_combine (take n it), drop n it) else None.

(** Two's complement of width 32. *)
Definition signed32 (x : Z) : Z := if x <? 2 ^ 31 then x else x - 2 ^ 32.

Definition get_int (it : bytes) : option (Z * bytes) :=
  '(x, it) ← get_le 4 it; Some (signed32 x, it).

(** ** Strings *)

Definition put_string (s : bytes) : bytes := put_le 4 (blen s) ++ s.

Definition get_string (it : bytes) : option (bytes * bytes) :=
  '(n, it) ← get_le 4 it;
  if decide (Z.to_nat n <= length it)%nat
  then Some (take (Z.to_nat n) it, drop (Z.to_nat n) it) else None.

(** ** Sections *)

Definition put_section (v compat : Z) (body : bytes) : bytes :=
  put_le 1 v ++ put_le 1 compat ++ put_le 4 (blen body) ++ body.

(** A section in progress is known by the number of bytes behind its end. *)
Definition start_section (reader : Z) (it : bytes) : option (nat * bytes) :=
  '(_, it) ← get_le 1 it;
  '(compat, it) ← get_le 1 it;
  if reader <? compat then None else
  '(len, it) ← get_le 4 it;
  if decide (Z.to_nat len <= length it)%nat
  then Some ((length it - Z.to_nat len)%nat, it) else None.

Definition finish_section (behind : nat) (it : bytes) : option bytes :=
  if decide (behind <= length it)%nat then Some (drop (length it - behind) it) else None.

#[export] Instance wire_format : CephEncoding := {|
  encode_u32 := put_le 4; decode_u32 := get_le 4;
  encode_u64 := put_le 8; decode_u64 := get_le 8;
  encode_int := put_le 4; decode_int := get_int;
  encode_string := put_string; decode_string := get_string;
  ENCODE_SECTION := put_section;
  section := nat;
  DECODE_START := start_section; DECODE_FINISH := finish_section
|}.

(** ** The laws *)

Lemma length_put_le n x : length (put_le n x) = n.
Proof. apply length_le_split. Qed.

Lemma get_put_le n x r :
  get_le n (put_le n x ++ r) = Some (x mod 2 ^ (Z.of_nat n * 8), r).
Proof.
  unfold get_le. rewrite length_app, length_put_le, decide_True by lia.
  rewrite take_app_le, drop_app_le by (rewrite length_put_le; lia).
  rewrite take_ge, drop_ge by (rewrite length_put_le; lia).
  unfold put_le. by rewrite le_combine_split.
Qed.

Lemma get_put_le_small n x r :
  0 <= x < 2 ^ (Z.of_nat n * 8) -> get_le n (put_le n x ++ r) = Some (x, r).
Proof. intros. rewrite get_put_le. by rewrite Z.mod_small. Qed.

Lemma start_put_section v compat reader body r :
  0 <= v < 256 -> 0 <= compat < 256 -> blen body < 2 ^ 32 ->
  start_section reader (put_section v compat body ++ r) =
    if reader <? compat then None else Some (length r, body ++ r).
Proof.
  intros Hv Hc Hb. pose proof (blen_nonneg body). unfold start_section, put_section.
  rewrite <-!app_assoc, get_put_le_small by done; cbn [mbind option_bind].
  rewrite get_put_le_small by done; cbn [mbind option_bind]. destruct (reader <? compat); [done|].
  rewrite get_put_le_small by done; cbn [mbind option_bind]. unfold blen. rewrite Nat2Z.id, length_app.
  rewrite decide_True by lia. do 2 f_equal. lia.
Qed.

Lemma get_le_decoded n it x r :
  get_le n it = Some (x, r) ->
  0 <= x < 2 ^ (Z.of_nat n * 8) /\ blen it = Z.of_nat n + blen r.
Proof.
  unfold get_le. case_decide as Hn; [|done]. intros [= <- <-]. split.
  - pose proof (le_combine_bound (take n it)) as Hb. rewrite length_take, Nat.min_l in Hb by done.
    by rewrite (Z.mul_comm (Z.of_nat n)).
  - unfold blen. rewrite length_drop. lia.
Qed.

Lemma get_string_decoded it s r : get_string it = Some (s, r) -> blen it = 4 + blen s + blen r.
Proof.
  unfold get_string. destruct (get_le 4 it) as [[n it']|] eqn:H; [|done].
  cbn [mbind option_bind]. apply get_le_decoded in H as [_ H]. case_decide; [|done].
  intros [= <- <-]. unfold blen in *. rewrite length_take, length_drop. lia.
Qed.

Lemma start_section_decoded v it sec r : start_section v it = Some (sec, r) -> blen it = 6 + blen r.
Proof.
  unfold start_section. destruct (get_le 1 it) as [[? it1]|] eqn:H1; [|done].
  cbn [mbind option_bind]. destruct (get_le 1 it1) as [[compat it2]|] eqn:H2; [|done].
  cbn [mbind option_bind]. destruct (v <? compat); [done|].
  destruct (get_le 4 it2) as [[len it3]|] eqn:H3; [|done]. cbn [mbind option_bind].
  case_decide; [|done]. intros [= _ <-].
  apply get_le_decoded in H1 as [_ H1], H2 as [_ H2], H3 as [_ H3]. lia.
Qed.

#[export] Instance wire_format_laws : CephEncodingLaws wire_format.
Proof.
  split; cbn [encode_u32 decode_u32 encode_u64 decode_u64 encode_int decode_int
    encode_string decode_string ENCODE_SECTION section DECODE_START DECODE_FINISH
    wire_format].
  - intros x r H. by apply get_put_le_small.
  - intros x r H. by apply get_put_le_small.
  - intros x r H. unfold get_int. rewrite get_put_le; cbn [mbind option_bind]. do 2 f_equal.
    unfold is_s32 in H. unfold signed32. change (Z.of_nat 4 * 8) with 32. destruct (decide (0 <= x)).
    + rewrite Z.mod_small by lia. destruct (Z.ltb_spec x (2 ^ 31)); lia.
    + rewrite <-(Z.mod_add x 1), Z.mod_small by lia.
      destruct (Z.ltb_spec (x + 1 * 2 ^ 32) (2 ^ 31)); lia.
  - intros s r H. pose proof (blen_nonneg s). unfold get_string, put_string.
    rewrite <-app_assoc, get_put_le_small by done; cbn [mbind option_bind].
    unfold blen. rewrite Nat2Z.id, length_app, decide_True by lia.
    by rewrite take_app_length, drop_app_length.
  - intros v compat reader body r ??? Hc. exists (length r).
    rewrite start_put_section by done. destruct (Z.ltb_spec reader compat); [lia|].
    split; [done|]. intros pre post ->. unfold finish_section.
    rewrite length_app, decide_True by lia.
    replace (length post + length r - length r)%nat with (length post) by lia.
    by rewrite drop_app_length.
  - intros v compat reader body r ????. rewrite start_put_section by done.
    by destruct (Z.ltb_spec reader compat); [|lia].
  - intros x. unfold blen. by rewrite length_put_le.
  - intros x. unfold blen. by rewrite length_put_le.
  - intros x. unfold blen. by rewrite length_put_le.
  - intros s. unfold blen, put_string. rewrite length_app, length_put_le. lia.
  - intros v compat body. unfold blen, put_section.
    rewrite !length_app, !length_put_le. lia.
  - intros it x r H. by apply get_le_decoded in H.
  - intros it x r H. by apply get_le_decoded in H.
  - intros it x r. unfold get_int. destruct (get_le 4 it) as [[y it']|] eqn:H; [|done].
    cbn [mbind option_bind]. intros [= <- <-]. apply get_le_decoded in H as [Hy H].
    split; [|done]. unfold is_s32, signed32. change (Z.of_nat 4 * 8) with 32 in Hy.
    destruct (Z.ltb_spec y (2 ^ 31)); lia.
  - intros it s r. apply get_string_decoded.
  - intros v it sec r. apply start_section_decoded.
  - intros sec it r. unfold finish_section. case_decide; [|done]. intros [= <-].
    unfold blen. rewrite length_drop. lia.
Qed.
