(* ===== verification/Types.v ===== *)
(** * The replication messages ([Types.h], [Types.cc]) *)

From S2P Require Import Prelude CephEncoding WireFormat.

(** ** Constants (Types.h) *)

Definition MSG_SIZE : Z := 4096.

Definition KILOBYTE : Z := 1024.
Definition MEGABYTE : Z := 1024 * KILOBYTE.
Definition GIGABYTE : Z := 1024 * MEGABYTE.
Definition SIZE_10GB : Z := 10 * GIGABYTE.
Definition REQUIRE_SIZE : Z := SIZE_10GB.

Definition TIMEOUT_15S : Z := 15000.
Definition TIMEOUT_1500S : Z := 1500000.

Definition RWL_REPLICA_INIT_REQUEST : Z := 0x1.
Definition RWL_REPLICA_INIT_SUCCESSED : Z := 0x11.
Definition RWL_REPLICA_INIT_FAILED : Z := 0x12.
Definition RWL_REPLICA_FINISHED_REQUEST : Z := 0x2.
Definition RWL_REPLICA_FINISHED_SUCCCESSED : Z := 0x21.
Definition RWL_REPLICA_FINISHED_FAILED : Z := 0x22.

(** ** Data *)

Record RwlCacheInfo := {
  cache_id : Z;
  cache_size : Z;
  pool_name : bytes;
  image_name : bytes
}.

Record RpmaConfigDescriptor := {
  mr_desc_size : Z;
  pcfg_desc_size : Z;
  descriptors : bytes
}.

(** The base class; [RwlReplicaFinishedRequest] and
    [RwlReplicaFinishedRequestReply] add nothing to it. *)
Record RwlReplicaRequest := { type : Z }.

(** The constructors of the two derived classes. *)
Definition RwlReplicaFinishedRequest (ty : Z) : RwlReplicaRequest := {| type := ty |}.
Definition RwlReplicaFinishedRequestReply (ty : Z) : RwlReplicaRequest := {| type := ty |}.

Record RwlReplicaInitRequest := {
  init_type : Z;
  info : RwlCacheInfo
}.

Record RwlReplicaInitRequestReply := {
  reply_type : Z;
  desc : RpmaConfigDescriptor
}.

(** ** Encoders and decoders (Types.cc) *)

Section Codec.
Context {E : CephEncoding}.

Definition RwlCacheInfo_encode (this : RwlCacheInfo) (bl : bytes) : bytes :=
  bl ++ ENCODE_SECTION 1 1
    (encode_u32 (cache_id this) ++
     encode_u64 (cache_size this) ++
     encode_string (pool_name this) ++
     encode_string (image_name this)).

Definition RwlCacheInfo_decode (it : bytes) : option (RwlCacheInfo * bytes) :=
  '(sec, it) ← DECODE_START 1 it;
  '(id, it) ← decode_u32 it;
  '(size, it) ← decode_u64 it;
  '(pool, it) ← decode_string it;
  '(image, it) ← decode_string it;
  it ← DECODE_FINISH sec it;
  Some ({| cache_id := id; cache_size := size;
           pool_name := pool; image_name := image |}, it).

Definition RpmaConfigDescriptor_encode (this : RpmaConfigDescriptor) (bl : bytes) : bytes :=
  bl ++ ENCODE_SECTION 1 1
    (encode_u32 (mr_desc_size this) ++
     encode_u32 (pcfg_desc_size this) ++
     encode_string (descriptors this)).

Definition RpmaConfigDescriptor_decode (it : bytes)
    : option (RpmaConfigDescriptor * bytes) :=
  '(sec, it) ← DECODE_START 1 it;
  '(mr, it) ← decode_u32 it;
  '(pcfg, it) ← decode_u32 it;
  '(d, it) ← decode_string it;
  it ← DECODE_FINISH sec it;
  Some ({| mr_desc_size := mr; pcfg_desc_size := pcfg; descriptors := d |}, it).

Definition RwlReplicaRequest_encode (this : RwlReplicaRequest) (bl : bytes) : bytes :=
  bl ++ ENCODE_SECTION 1 1 (encode_int (type this)).

Definition RwlReplicaRequest_decode (it : bytes) : option (RwlReplicaRequest * bytes) :=
  '(sec, it) ← DECODE_START 1 it;
  '(ty, it) ← decode_int it;
  it ← DECODE_FINISH sec it;
  Some ({| type := ty |}, it).

Definition RwlReplicaInitRequest_encode (this : RwlReplicaInitRequest) (bl : bytes) : bytes :=
  bl ++ ENCODE_SECTION 1 1
    (RwlCacheInfo_encode (info this) (encode_int (init_type this))).

Definition RwlReplicaInitRequest_decode (it : bytes)
    : option (RwlReplicaInitRequest * bytes) :=
  '(sec, it) ← DECODE_START 1 it;
  '(ty, it) ← decode_int it;
  '(i, it) ← RwlCacheInfo_decode it;
  it ← DECODE_FINISH sec it;
  Some ({| init_type := ty; info := i |}, it).

Definition RwlReplicaInitRequestReply_encode (this : RwlReplicaInitRequestReply)
    (bl : bytes) : bytes :=
  bl ++ ENCODE_SECTION 1 1
    (RpmaConfigDescriptor_encode (desc this) (encode_int (reply_type this))).

Definition RwlReplicaInitRequestReply_decode (it : bytes)
    : option (RwlReplicaInitRequestReply * bytes) :=
  '(sec, it) ← DECODE_START 1 it;
  '(ty, it) ← decode_int it;
  '(d, it) ← RpmaConfigDescriptor_decode it;
  it ← DECODE_FINISH sec it;
  Some ({| reply_type := ty; desc := d |}, it).
End Codec.

(** ** Well-formed messages: every field fits its type and its section *)

Definition wf_cache_info (i : RwlCacheInfo) : Prop :=
  is_u32 (cache_id i) /\ is_u64 (cache_size i) /\
  blen (pool_name i) + blen (image_name i) < 2 ^ 31.

Definition wf_descriptor (d : RpmaConfigDescriptor) : Prop :=
  is_u32 (mr_desc_size d) /\ is_u32 (pcfg_desc_size d) /\
  blen (descriptors d) < 2 ^ 31.

Definition wf_init_request (m : RwlReplicaInitRequest) : Prop :=
  is_s32 (init_type m) /\ wf_cache_info (info m).

Definition wf_init_reply (m : RwlReplicaInitRequestReply) : Prop :=
  is_s32 (reply_type m) /\ wf_descriptor (desc m).

(** ** Lemmas *)

Section Lemmas.
Context {E : CephEncoding} {EL : CephEncodingLaws E}.

(** Reading a prefix [pre] of a section of version 1 with a version-1 reader:
    the iterator ends behind the whole section. *)
Lemma section_read pre post r :
  blen (pre ++ post) < 2 ^ 32 ->
  exists sec,
    DECODE_START 1 (ENCODE_SECTION 1 1 (pre ++ post) ++ r) = Some (sec, pre ++ post ++ r) /\
    DECODE_FINISH sec (post ++ r) = Some r.
Proof.
  intros Hlen.
  destruct (section_roundtrip 1 1 1 (pre ++ post) r) as (sec & Hs & Hf); try lia.
  exists sec. split; [by rewrite Hs, <-app_assoc | by eapply Hf].
Qed.

(** A section read to its end. *)
Lemma section_read_all body r :
  blen body < 2 ^ 32 ->
  exists sec,
    DECODE_START 1 (ENCODE_SECTION 1 1 body ++ r) = Some (sec, body ++ r) /\
    DECODE_FINISH sec r = Some r.
Proof.
  intros Hlen. destruct (section_read body [] r) as (sec & Hs & Hf);
    [by rewrite app_nil_r|].
  rewrite app_nil_r in Hs. by exists sec.
Qed.

Lemma cache_info_length i bl :
  blen (RwlCacheInfo_encode i bl) =
    blen bl + 26 + blen (pool_name i) + blen (image_name i).
Proof. unfold RwlCacheInfo_encode. autorewrite with blen. lia. Qed.

Lemma descriptor_length d bl :
  blen (RpmaConfigDescriptor_encode d bl) = blen bl + 18 + blen (descriptors d).
Proof. unfold RpmaConfigDescriptor_encode. autorewrite with blen. lia. Qed.

Lemma request_length m bl : blen (RwlReplicaRequest_encode m bl) = blen bl + 10.
Proof. unfold RwlReplicaRequest_encode. autorewrite with blen. lia. Qed.

Lemma init_request_length m bl :
  blen (RwlReplicaInitRequest_encode m bl) =
    blen bl + 36 + blen (pool_name (info m)) + blen (image_name (info m)).
Proof.
  unfold RwlReplicaInitRequest_encode. autorewrite with blen.
  rewrite cache_info_length. autorewrite with blen. lia.
Qed.

Lemma init_reply_length m bl :
  blen (RwlReplicaInitRequestReply_encode m bl) =
    blen bl + 28 + blen (descriptors (desc m)).
Proof.
  unfold RwlReplicaInitRequestReply_encode. autorewrite with blen.
  rewrite descriptor_length. autorewrite with blen. lia.
Qed.

Hint Rewrite cache_info_length descriptor_length : blen.

Lemma cache_info_decode_encode i r :
  wf_cache_info i -> RwlCacheInfo_decode (RwlCacheInfo_encode i [] ++ r) = Some (i, r).
Proof.
  intros (Hid & Hsize & Hlen). unfold RwlCacheInfo_decode, RwlCacheInfo_encode.
  pose proof (blen_nonneg (pool_name i)). pose proof (blen_nonneg (image_name i)).
  edestruct section_read_all as (sec & Hs & Hf);
    [|rewrite app_nil_l, Hs; simpl].
  { autorewrite with blen. lia. }
  rewrite <-!app_assoc, u32_roundtrip by done; simpl.
  rewrite u64_roundtrip by done; simpl.
  rewrite !string_roundtrip by lia; simpl.
  rewrite string_roundtrip by lia; simpl. rewrite Hf. by destruct i.
Qed.

Lemma descriptor_decode_encode d r :
  wf_descriptor d ->
  RpmaConfigDescriptor_decode (RpmaConfigDescriptor_encode d [] ++ r) = Some (d, r).
Proof.
  intros (Hmr & Hpcfg & Hlen).
  unfold RpmaConfigDescriptor_decode, RpmaConfigDescriptor_encode.
  edestruct section_read_all as (sec & Hs & Hf); [|rewrite app_nil_l, Hs; simpl].
  { autorewrite with blen. lia. }
  rewrite <-!app_assoc, u32_roundtrip by done; simpl.
  rewrite u32_roundtrip by done; simpl.
  rewrite string_roundtrip by lia; simpl. rewrite Hf. by destruct d.
Qed.
Lemma init_reply_decode_encode m r :
  wf_init_reply m ->
  RwlReplicaInitRequestReply_decode (RwlReplicaInitRequestReply_encode m [] ++ r) =
    Some (m, r).
Proof.
  intros [Hty Hdesc]. destruct Hdesc as (? & ? & Hlen) eqn:Hi.
  unfold RwlReplicaInitRequestReply_decode, RwlReplicaInitRequestReply_encode.
  edestruct section_read_all as (sec & Hs & Hf); [|rewrite app_nil_l, Hs; simpl].
  { rewrite descriptor_length. autorewrite with blen. lia. }
  unfold RpmaConfigDescriptor_encode. rewrite <-app_assoc, int_roundtrip by done; simpl.
  pose proof (descriptor_decode_encode (desc m) r Hdesc) as Hd.
  unfold RpmaConfigDescriptor_encode in Hd. rewrite app_nil_l in Hd. rewrite Hd; simpl.
  rewrite Hf. by destruct m.
Qed.

(** A message without a body, read as a reply: the type is that of the message. *)
Lemma init_reply_of_request ty r reply r' :
  is_s32 ty ->
  RwlReplicaInitRequestReply_decode (RwlReplicaRequest_encode {| type := ty |} [] ++ r) =
    Some (reply, r') -> reply_type reply = ty.
Proof.
  intros Hty. unfold RwlReplicaInitRequestReply_decode, RwlReplicaRequest_encode.
  edestruct section_read_all as (sec & Hs & _); [|rewrite app_nil_l, Hs; simpl].
  { autorewrite with blen. lia. }
  rewrite int_roundtrip by done; simpl.
  destruct (RpmaConfigDescriptor_decode r) as [[d it]|]; [simpl|done].
  destruct (DECODE_FINISH sec it); [simpl|done]. by intros [= <- _].
Qed.

(** *** What the decoders give back *)

(** A run of decoders that succeeded, step by step, with what each step consumed. *)
Ltac decoded_step H :=
  let x := fresh "x" in let it := fresh "it" in let Hx := fresh "Hx" in
  apply bind_Some in H as ([x it] & Hx & H);
  first [apply section_started in Hx | apply u32_decoded in Hx as [? Hx]
        | apply u64_decoded in Hx as [? Hx] | apply int_decoded in Hx as [? Hx]
        | apply string_decoded in Hx | idtac].
Ltac decoded H :=
  repeat decoded_step H;
  let it := fresh "it" in let Hx := fresh "Hx" in
  apply bind_Some in H as (it & Hx & H); apply section_finished in Hx; injection H as <- <-.

Lemma cache_info_decoded it i r :
  RwlCacheInfo_decode it = Some (i, r) ->
  is_u32 (cache_id i) /\ is_u64 (cache_size i) /\
  blen r + blen (pool_name i) + blen (image_name i) + 26 <= blen it.
Proof.
  intros H. unfold RwlCacheInfo_decode in H. decoded H. cbn [cache_id cache_size pool_name image_name].
  split_and!; [done..|lia].
Qed.

Lemma descriptor_decoded it d r :
  RpmaConfigDescriptor_decode it = Some (d, r) ->
  is_u32 (mr_desc_size d) /\ is_u32 (pcfg_desc_size d) /\
  blen r + blen (descriptors d) + 18 <= blen it.
Proof.
  intros H. unfold RpmaConfigDescriptor_decode in H. decoded H.
  cbn [mr_desc_size pcfg_desc_size descriptors]. split_and!; [done..|lia].
Qed.

Lemma request_decoded it m r :
  RwlReplicaRequest_decode it = Some (m, r) -> is_s32 (type m) /\ blen r + 10 <= blen it.
Proof. intros H. unfold RwlReplicaRequest_decode in H. decoded H. split; [done|lia]. Qed.

Lemma init_request_decoded it m r :
  RwlReplicaInitRequest_decode it = Some (m, r) -> blen it < 2 ^ 31 ->
  wf_init_request m /\ blen (RwlReplicaInitRequest_encode m []) + blen r <= blen it.
Proof.
  intros H Hlen. unfold RwlReplicaInitRequest_decode in H. decoded H.
  apply cache_info_decoded in Hx1 as (Hid & Hsize & Hx1). rewrite init_request_length.
  pose proof (blen_nonneg it3). change (blen []) with 0. cbn [info].
  split; [|lia]. split; [done|]. unfold wf_cache_info. cbn [info]. split_and!; [done..|lia].
Qed.

Lemma init_reply_decoded it m r :
  RwlReplicaInitRequestReply_decode it = Some (m, r) -> blen it < 2 ^ 31 ->
  wf_init_reply m /\ blen (RwlReplicaInitRequestReply_encode m []) + blen r <= blen it.
Proof.
  intros H Hlen. unfold RwlReplicaInitRequestReply_decode in H. decoded H.
  apply descriptor_decoded in Hx1 as (Hmr & Hp & Hx1). rewrite init_reply_length.
  pose proof (blen_nonneg it3). change (blen []) with 0. cbn [desc].
  split; [|lia]. split; [done|]. unfold wf_descriptor. cbn [desc]. split_and!; [done..|lia].
Qed.
End Lemmas.

(** ** The test program ([test_demo.cc])

    It encodes a cache description and a configuration descriptor one after the
    other, copies the bytes to the start of a 4096-byte buffer and decodes both
    from that buffer with one iterator. *)
Definition test_demo {E : CephEncoding} (buf : bytes) (i : RwlCacheInfo)
    (d : RpmaConfigDescriptor) : option (RwlCacheInfo * RpmaConfigDescriptor) :=
  let bl1 := RpmaConfigDescriptor_encode d (RwlCacheInfo_encode i []) in
  bl ← memcpy_at 0 bl1 buf;
  '(info2, it) ← RwlCacheInfo_decode bl;
  '(desc2, _) ← RpmaConfigDescriptor_decode it;
  Some (info2, desc2).

(** ** Properties *)

Section Properties.
Context {E : CephEncoding} {EL : CephEncodingLaws E}.

(** C15: a well-formed init request decodes to itself, from a buffer that holds
    anything behind it, and the iterator ends exactly behind the message. *)
Theorem init_request_roundtrip m r :
  wf_init_request m ->
  RwlReplicaInitRequest_decode (RwlReplicaInitRequest_encode m [] ++ r) = Some (m, r).
Proof.
  intros [Hty Hinfo]. destruct Hinfo as (? & ? & Hlen) eqn:Hi.
  unfold RwlReplicaInitRequest_decode, RwlReplicaInitRequest_encode.
  edestruct section_read_all as (sec & Hs & Hf); [|rewrite app_nil_l, Hs; simpl].
  { rewrite cache_info_length. autorewrite with blen. lia. }
  unfold RwlCacheInfo_encode. rewrite <-app_assoc, int_roundtrip by done; simpl.
  pose proof (cache_info_decode_encode (info m) r Hinfo) as Hd.
  unfold RwlCacheInfo_encode in Hd. rewrite app_nil_l in Hd. rewrite Hd; simpl.
  rewrite Hf. by destruct m.
Qed.

(** C16: a well-formed init reply decodes to itself, descriptors included, from a
    buffer that holds anything behind it. *)
Theorem init_reply_roundtrip m r :
  wf_init_reply m ->
  RwlReplicaInitRequestReply_decode (RwlReplicaInitRequestReply_encode m [] ++ r) =
    Some (m, r).
Proof. apply init_reply_decode_encode. Qed.

(** The base-class decoder, which the server uses to tell requests apart,
    reads the type of every kind of message (finished request or reply, init
    request, init reply) and skips the rest of it. *)
Theorem request_decode_any_message ty i d r :
  is_s32 ty -> wf_cache_info i -> wf_descriptor d ->
  RwlReplicaRequest_decode (RwlReplicaRequest_encode {| type := ty |} [] ++ r) =
    Some ({| type := ty |}, r) /\
  RwlReplicaRequest_decode
    (RwlReplicaInitRequest_encode {| init_type := ty; info := i |} [] ++ r) =
    Some ({| type := ty |}, r) /\
  RwlReplicaRequest_decode
    (RwlReplicaInitRequestReply_encode {| reply_type := ty; desc := d |} [] ++ r) =
    Some ({| type := ty |}, r).
Proof.
  intros Hty (_ & _ & Hi) (_ & _ & Hd).
  assert (Hpeek : forall rest, blen rest < 2 ^ 32 - 4 ->
    RwlReplicaRequest_decode (ENCODE_SECTION 1 1 (encode_int ty ++ rest) ++ r) =
      Some ({| type := ty |}, r)).
  { intros rest Hrest. unfold RwlReplicaRequest_decode.
    destruct (section_read (encode_int ty) rest r) as (sec & Hs & Hf).
    { autorewrite with blen. lia. }
    rewrite Hs; simpl. rewrite int_roundtrip by done; simpl. by rewrite Hf. }
  split_and!.
  - rewrite <-(Hpeek []); [|done]. by rewrite app_nil_r.
  - apply Hpeek. autorewrite with blen. cbn [info]. lia.
  - apply Hpeek. autorewrite with blen. cbn [desc]. lia.
Qed.

(** C17: whatever bytes arrive, a message that the decoders accept is well typed: each
    field is in the range of its C type and the strings are shorter than the
    buffer, so that encoding it again takes no more than the bytes that were read,
    and every message that is accepted is one that the codec can transport. *)
Theorem decoded_messages_well_typed it :
  blen it < 2 ^ 31 ->
  (forall m r, RwlReplicaRequest_decode it = Some (m, r) ->
     is_s32 (type m) /\ blen (RwlReplicaRequest_encode m []) + blen r <= blen it) /\
  (forall m r, RwlReplicaInitRequest_decode it = Some (m, r) ->
     wf_init_request m /\ blen (RwlReplicaInitRequest_encode m []) + blen r <= blen it) /\
  (forall m r, RwlReplicaInitRequestReply_decode it = Some (m, r) ->
     wf_init_reply m /\ blen (RwlReplicaInitRequestReply_encode m []) + blen r <= blen it).
Proof.
  intros Hlen. split_and!; intros m r H.
  - apply request_decoded in H as [? ?]. rewrite request_length. change (blen []) with 0.
    split; [done|lia].
  - by apply init_request_decoded.
  - by apply init_reply_decoded.
Qed.

(** Every decoder of the protocol refuses a message whose sender declares
    that a reader of version 1 cannot understand it. *)
Theorem decoders_refuse_newer v compat body r :
  0 <= v < 256 -> 1 < compat < 256 -> blen body < 2 ^ 32 ->
  let msg := ENCODE_SECTION v compat body ++ r in
  RwlReplicaRequest_decode msg = None /\
  RwlReplicaInitRequest_decode msg = None /\
  RwlReplicaInitRequestReply_decode msg = None /\
  RwlCacheInfo_decode msg = None /\
  RpmaConfigDescriptor_decode msg = None.
Proof.
  intros Hv Hc Hb msg.
  assert (Hs : DECODE_START 1 msg = None) by (apply section_too_new; lia).
  unfold RwlReplicaRequest_decode, RwlReplicaInitRequest_decode,
    RwlReplicaInitRequestReply_decode, RwlCacheInfo_decode, RpmaConfigDescriptor_decode.
  by rewrite Hs.
Qed.

(** The test program prints what it encoded: whenever the two structures are
    well formed and fit the 4096-byte buffer, decoding one after the other from
    the shared buffer gives both back. *)
Theorem test_demo_roundtrip buf i d :
  wf_cache_info i -> wf_descriptor d -> blen buf = MSG_SIZE ->
  44 + blen (pool_name i) + blen (image_name i) + blen (descriptors d) <= MSG_SIZE ->
  test_demo buf i d = Some (i, d).
Proof.
  intros Hi Hd Hbuf Hfit. unfold test_demo.
  assert (Hlen : blen (RpmaConfigDescriptor_encode d (RwlCacheInfo_encode i [])) <= blen buf).
  { rewrite descriptor_length, cache_info_length. change (blen []) with 0. lia. }
  unfold memcpy_at. rewrite decide_True by (unfold blen in Hlen; lia); simpl.
  unfold RpmaConfigDescriptor_encode at 1. rewrite <-app_assoc.
  rewrite cache_info_decode_encode by done; simpl.
  pose proof (descriptor_decode_encode d) as Hdd.
  unfold RpmaConfigDescriptor_encode at 1 in Hdd. simpl in Hdd.
  by rewrite Hdd.
Qed.
End Properties.

(** ** Witnesses *)

(** The structures of [test_demo.cc]. *)
Definition demo_info : RwlCacheInfo :=
  {| cache_id := 123; cache_size := 1024 * 1024;
     pool_name := str "rbd"; image_name := str "test" |}.
Definition demo_desc : RpmaConfigDescriptor :=
  {| mr_desc_size := 10; pcfg_desc_size := 1; descriptors := str "abcdef" |}.

Lemma demo_info_wf : wf_cache_info demo_info.
Proof. repeat split; vm_compute; congruence. Qed.

Lemma demo_desc_wf : wf_descriptor demo_desc.
Proof. repeat split; vm_compute; congruence. Qed.

Lemma init_request_roundtrip_witness :
  let m := {| init_type := RWL_REPLICA_INIT_REQUEST; info := demo_info |} in
  wf_init_request m /\
  RwlReplicaInitRequest_decode (RwlReplicaInitRequest_encode m [] ++ [x00]) =
    Some (m, [x00]).
Proof.
  intros m. assert (H : wf_init_request m).
  { split; [split; vm_compute; congruence | apply demo_info_wf]. }
  split; [exact H | exact (init_request_roundtrip m [x00] H)].
Defined.

Lemma init_reply_roundtrip_witness :
  let m := {| reply_type := RWL_REPLICA_INIT_SUCCESSED; desc := demo_desc |} in
  wf_init_reply m /\
  RwlReplicaInitRequestReply_decode (RwlReplicaInitRequestReply_encode m [] ++ [xff]) =
    Some (m, [xff]).
Proof.
  intros m. assert (H : wf_init_reply m).
  { split; [split; vm_compute; congruence | apply demo_desc_wf]. }
  split; [exact H | exact (init_reply_roundtrip m [xff] H)].
Defined.

Lemma request_decode_any_message_witness :
  RwlReplicaRequest_decode
    (RwlReplicaInitRequest_encode
       {| init_type := RWL_REPLICA_INIT_REQUEST; info := demo_info |} [] ++ [x01]) =
    Some ({| type := RWL_REPLICA_INIT_REQUEST |}, [x01]).
Proof.
  apply (request_decode_any_message RWL_REPLICA_INIT_REQUEST demo_info demo_desc [x01]).
  - split; vm_compute; congruence.
  - apply demo_info_wf.
  - apply demo_desc_wf.
Defined.

Lemma decoded_messages_well_typed_witness :
  let it := RwlReplicaInitRequest_encode
    {| init_type := RWL_REPLICA_INIT_REQUEST; info := demo_info |} [] ++ [x01] in
  exists m r, RwlReplicaInitRequest_decode it = Some (m, r) /\ wf_init_request m /\
    blen (RwlReplicaInitRequest_encode m []) + blen r <= blen it.
Proof.
  intros it. assert (Hlen : blen it < 2 ^ 31) by (vm_compute; congruence).
  destruct (decoded_messages_well_typed it Hlen) as (_ & Hinit & _).
  assert (H : RwlReplicaInitRequest_decode it = Some
    ({| init_type := RWL_REPLICA_INIT_REQUEST; info := demo_info |}, [x01])) by reflexivity.
  eexists _, _. split; [exact H|]. exact (Hinit _ _ H).
Defined.

Lemma decoders_refuse_newer_witness :
  RwlReplicaRequest_decode (ENCODE_SECTION 2 2 [x01] ++ []) = None.
Proof. apply (decoders_refuse_newer 2 2 [x01] []); [lia | lia | done]. Defined.

Lemma test_demo_roundtrip_witness :
  test_demo (replicate 4096 x00) demo_info demo_desc = Some (demo_info, demo_desc).
Proof.
  apply (test_demo_roundtrip (replicate 4096 x00) demo_info demo_desc).
  - apply demo_info_wf.
  - apply demo_desc_wf.
  - reflexivity.
  - vm_compute. congruence.
Defined.
