(* ===== verification/MemoryManager.v ===== *)
(** * The replica's memory ([MemoryManager.h], [MemoryManager.cc])

    A memory manager maps a file of persistent memory of the requested size, and
    falls back to the heap when no such mapping can be had. *)

From S2P Require Import Prelude Librpma Effects LibrpmaApi Posix Resources.

Record MemoryManager := {
  _data : Z;
  _size : Z;
  _is_pmem : bool;
  _path : bytes
}.

Definition set_data (p : Z) (s : MemoryManager) : MemoryManager :=
  {| _data := p; _size := _size s; _is_pmem := _is_pmem s; _path := _path s |}.
Definition set_size (n : Z) (s : MemoryManager) : MemoryManager :=
  {| _data := _data s; _size := n; _is_pmem := _is_pmem s; _path := _path s |}.
Definition set_is_pmem (b : bool) (s : MemoryManager) : MemoryManager :=
  {| _data := _data s; _size := _size s; _is_pmem := b; _path := _path s |}.
Definition set_path (p : bytes) (s : MemoryManager) : MemoryManager :=
  {| _data := _data s; _size := _size s; _is_pmem := _is_pmem s; _path := p |}.

(** [MemoryManager() {}]; [_size] has no initializer. *)
Definition MemoryManager_default (size : Z) : MemoryManager :=
  {| _data := NULL; _size := size; _is_pmem := false; _path := [] |}.

Section Operations.
Context {O : Oracle}.

(** Octal 0600. *)
Definition MODE_0600 : Z := 384.

(** The end of [get_memory_from_pmem]: a mapping that is not persistent memory of
    the requested size is given back. *)
Definition keep_or_unmap (m : pmem_mapping) : M MemoryManager Z :=
  size ← gets _size;
  modify (set_data (pm_addr m));;
  (if (pm_is_pmem m =? 0) || negb (pm_len m =? size) || (pm_addr m =? NULL)
   then if negb (pm_addr m =? NULL)
        then pmem_unmap (pm_addr m) size;; modify (set_data NULL)
        else mret tt
   else mret tt);;
  gets _data.

Definition get_memory_from_pmem (path : bytes) : M MemoryManager Z :=
  if bool_decide (path = []) then mret NULL else
  len0 ← indeterminate "len";
  is_pmem0 ← indeterminate "is_pmem";
  found ← access_F_OK path;
  size ← gets _size;
  m ← (if found =? 0
       then pmem_map_file path 0 0 MODE_0600 len0 is_pmem0
       else pmem_map_file path size PMEM_FILE_CREATE MODE_0600 len0 is_pmem0);
  keep_or_unmap m.

Definition get_memory_from_dram : M MemoryManager Z :=
  size ← gets _size;
  p ← malloc size;
  modify (set_data p);;
  gets _data.

(** The part that [init] and the constructor share: try the file [path], then
    the heap. *)
Definition acquire_memory (path : bytes) : M MemoryManager unit :=
  p ← get_memory_from_pmem path;
  modify (set_data p);;
  if negb (p =? NULL) then modify (set_is_pmem true) else
  modify (set_is_pmem false);;
  p ← get_memory_from_dram;
  modify (set_data p);;
  if p =? NULL then throw (runtime_error "memory malloc failed") else mret tt.

(** The constructor with arguments: it records the prefixed path and maps the
    file at the path it was given. *)
Definition MemoryManager_ctor (size : Z) (path : bytes) : M MemoryManager unit :=
  modify (set_size size);;
  modify (set_path (str "/mnt/pmem/" ++ path));;
  modify (set_size size);;
  acquire_memory path.

Definition init (size : Z) (path : bytes) : M MemoryManager unit :=
  modify (set_path (str "/mnt/pmem/" ++ path));;
  modify (set_size size);;
  full ← gets _path;
  acquire_memory full.

(** [pmem_unmap] or [free], then [_data = nullptr]: the end of both
    [close_and_remove] and the destructor. *)
Definition release_memory : M MemoryManager unit :=
  s ← get;
  (if _is_pmem s then pmem_unmap (_data s) (_size s);; mret tt
   else free (_data s));;
  modify (set_data NULL).

Definition close_and_remove : M MemoryManager Z :=
  p ← gets _data;
  if p =? NULL then mret 0 else
  release_memory;;
  path ← gets _path;
  remove path.

Definition MemoryManager_dtor : M MemoryManager unit :=
  p ← gets _data;
  if p =? NULL then mret tt else release_memory.

Definition get_pointer : M MemoryManager Z := gets _data.
Definition size : M MemoryManager Z := gets _size.
Definition is_pmem : M MemoryManager bool := gets _is_pmem.
End Operations.

(** ** Specification *)

(** The memory the object owns, in the terms of the ledger. *)
Definition owned (s : MemoryManager) : gmultiset res :=
  if _data s =? NULL then ∅
  else if _is_pmem s then {[+ RMap (_data s) (_size s) +]}
  else {[+ RHeap (_data s) +]}.

(** The documented behaviour of the file mapping when it succeeds on a file of
    the requested size: the length it reports is that size. *)
Definition maps_whole_files (O : Oracle) (n : Z) : Prop :=
  forall t path len flags mode,
    let m := answer_of t (C_pmem_map_file path len flags mode) in
    pm_addr m <> NULL -> pm_len m = n.

(** ** Lemmas *)

Ltac mm_unfold :=
  unfold access_F_OK, pmem_map_file, pmem_unmap, malloc, free, remove, indeterminate.

Section Lemmas.
Context {O : Oracle}.

Lemma owned_null s : _data s = NULL -> owned s = ∅.
Proof. intros H. unfold owned. by rewrite H. Qed.

(** The effect of the two mapping calls on the ledger. *)
Lemma ledger_map t L path len flags mode m :
  ledger t = Some L ->
  ledger (t ++ [Ev (C_pmem_map_file path len flags mode) m]) =
    Some (if pm_addr m =? NULL then L else L ⊎ {[+ RMap (pm_addr m) (pm_len m) +]}).
Proof.
  intros HL. destruct (pm_addr m =? NULL) eqn:E.
  - apply ledger_neutral; try done. simpl. by rewrite E.
  - apply ledger_acquire; try done. simpl. by rewrite E.
Qed.

Lemma ledger_malloc t L n p :
  ledger t = Some L ->
  ledger (t ++ [Ev (C_malloc n) p]) =
    Some (if p =? NULL then L else L ⊎ {[+ RHeap p +]}).
Proof.
  intros HL. destruct (p =? NULL) eqn:E.
  - apply ledger_neutral; try done. simpl. by rewrite E.
  - apply ledger_acquire; try done. simpl. by rewrite E.
Qed.

(** What the mapping functions promise their callers about the ledger. *)
Definition mapped (L : gmultiset res) (n p : Z) : gmultiset res :=
  if p =? NULL then L else L ⊎ {[+ RMap p n +]}.

Lemma wp_keep_or_unmap m s t L :
  (pm_addr m <> NULL -> pm_len m = _size s) ->
  ledger t = Some (mapped L (pm_len m) (pm_addr m)) ->
  wp (keep_or_unmap m)
    (returns (fun p s' t' => s' = set_data p s /\ ledger t' = Some (mapped L (_size s) p))) s t.
Proof.
  intros Hlen HL. unfold keep_or_unmap, mapped in *. mm_unfold.
  wp_steps; simpl; destruct (Z.eqb_spec (pm_addr m) NULL) as [E|E];
    rewrite ?orb_true_r, ?orb_false_r in *; simpl in *; try done;
    rewrite Hlen in HL by done; try done.
  split; [done|]. by eapply ledger_release.
Qed.

Lemma wp_pmem_map_file path len flags mode len0 is_pmem0 s t L (Q : _ -> _ -> _ -> Prop) :
  maps_whole_files O (_size s) -> ledger t = Some L ->
  (forall m t', (pm_addr m <> NULL -> pm_len m = _size s) ->
     ledger t' = Some (mapped L (pm_len m) (pm_addr m)) -> Q (Ret m) s t') ->
  wp (pmem_map_file path len flags mode len0 is_pmem0) Q s t.
Proof.
  intros Hmaps HL HQ. unfold pmem_map_file. wp_steps.
  pose proof (ledger_map t L path len flags mode a HL) as HL'.
  pose proof (Hmaps t path len flags mode) as Hlen. rewrite H in Hlen; simpl in Hlen.
  apply HQ; unfold mapped; destruct (pm_addr a =? NULL) eqn:E; simpl; try rewrite E; done.
Qed.

Lemma wp_get_memory_from_pmem path s t L :
  maps_whole_files O (_size s) -> _data s = NULL -> ledger t = Some L ->
  wp (get_memory_from_pmem path)
    (returns (fun p s' t' => s' = set_data p s /\ ledger t' = Some (mapped L (_size s) p))) s t.
Proof.
  intros Hmaps Hnull HL. unfold get_memory_from_pmem. unfold access_F_OK, indeterminate.
  case_bool_decide as Hp.
  { wp_step. split; [|done]. destruct s; simpl in *; by subst. }
  do 8 wp_step.
  apply wp_bind. apply wp_if; intros _;
    (eapply wp_pmem_map_file; [done| by repeat (apply ledger_neutral; [|done..])|]);
    intros; by apply wp_keep_or_unmap.
Qed.

Lemma wp_acquire_memory path s t L :
  maps_whole_files O (_size s) -> _data s = NULL -> ledger t = Some L ->
  wp (acquire_memory path) (fun o s' t' =>
      _size s' = _size s /\ _path s' = _path s /\
      ledger t' = Some (L ⊎ owned s') /\
      match o with
      | Ret _ => _data s' <> NULL
      | Throw e => e = runtime_error "memory malloc failed" /\ _data s' = NULL
      | Faulted _ => False
      end) s t.
Proof.
  intros Hmaps Hnull HL. unfold acquire_memory, get_memory_from_dram.
  apply wp_bind. eapply wp_mono; [by apply wp_get_memory_from_pmem|].
  intros [p| |] s1 t1; simpl; [|done..]. intros [-> H1]. unfold malloc.
  wp_steps; bools; simpl; split_and!; try done; unfold mapped, owned in *; simpl;
    rewrite ?(proj2 (Z.eqb_neq _ _)) in * by done; try done; subst p;
    (rewrite (ledger_malloc _ L); [|done]); repeat case_match; f_equal; multiset_solver.
Qed.

Lemma wp_MemoryManager_init n path s t L :
  maps_whole_files O n -> _data s = NULL -> ledger t = Some L ->
  wp (init n path) (fun o s' t' =>
      _size s' = n /\ _path s' = str "/mnt/pmem/" ++ path /\
      ledger t' = Some (L ⊎ owned s') /\
      match o with
      | Ret _ => _data s' <> NULL
      | Throw e => e = runtime_error "memory malloc failed" /\ _data s' = NULL
      | Faulted _ => False
      end) s t.
Proof.
  intros Hmaps Hnull HL. unfold init. do 6 wp_step.
  eapply wp_mono; [by apply wp_acquire_memory|]. simpl. by intros.
Qed.

Lemma wp_release_memory s t L :
  _data s <> NULL -> ledger t = Some (L ⊎ owned s) ->
  wp release_memory
    (returns (fun _ s' t' => s' = set_data NULL s /\ ledger t' = Some L)) s t.
Proof.
  intros Hp HL. unfold release_memory, owned in *. mm_unfold.
  apply Z.eqb_neq in Hp. rewrite Hp in HL.
  wp_steps; simpl; (split; [done|]); rewrite H in HL; by eapply ledger_release.
Qed.

Lemma wp_dtor s t L :
  ledger t = Some (L ⊎ owned s) ->
  wp MemoryManager_dtor
    (returns (fun _ s' t' => s' = set_data NULL s /\ ledger t' = Some L)) s t.
Proof.
  intros HL. unfold MemoryManager_dtor. wp_steps; bools; simpl.
  - rewrite owned_null in HL by done. rewrite HL. split; [|f_equal; multiset_solver].
    destruct s; simpl in *; by subst.
  - by apply wp_release_memory.
Qed.

Lemma wp_close_and_remove s t L :
  ledger t = Some (L ⊎ owned s) ->
  wp close_and_remove (returns (fun r s' t' =>
      s' = set_data NULL s /\ ledger t' = Some L /\
      if _data s =? NULL then r = 0 /\ t' = t
      else exists t1, t' = t1 ++ [Ev (C_remove (_path s)) r])) s t.
Proof.
  intros HL. unfold close_and_remove, remove. wp_step. wp_step. wp_step.
  - wp_step. simpl. rewrite H. bools. rewrite owned_null in HL by done. rewrite HL.
    split_and!; try done; [destruct s; simpl in *; by subst | f_equal; multiset_solver].
  - rewrite H. bools. wp_step. eapply wp_mono; [by apply wp_release_memory|].
    intros [] s1 t1; simpl; [|done..]. intros [-> H1]. wp_steps.
    split_and!; [done | by apply ledger_neutral | by eexists].
Qed.
End Lemmas.

(** ** Properties *)

Section Properties.
Context {O : Oracle}.


(** C21: [close_and_remove] gives back exactly the memory the object owns, by the
    call that matches its kind, and then its result is that of removing the file;
    on an object that owns nothing it makes no call and returns 0. *)
Theorem close_and_remove_releases s t L :
  ledger t = Some (L ⊎ owned s) ->
  wp close_and_remove (returns (fun r s' t' =>
      s' = set_data NULL s /\ ledger t' = Some L /\
      if _data s =? NULL then r = 0 /\ t' = t
      else exists t1, t' = t1 ++ [Ev (C_remove (_path s)) r])) s t.
Proof. apply wp_close_and_remove. Qed.

(** Over the whole life of a manager (default construction, [init], any number
    of closes, destruction) every byte of memory is given back exactly once: the
    ledger ends as it started, also when [init] throws. *)
Theorem lifecycle_balanced n path closes junk t L :
  maps_whole_files O n -> ledger t = Some L ->
  wp (on_throw
        (init n path;; Nat.iter closes (fun m => close_and_remove;; m) (mret tt);;
         MemoryManager_dtor)
        MemoryManager_dtor)
     (fun o s' t' => ledger t' = Some L /\ _data s' = NULL /\ forall f, o <> Faulted f)
     (MemoryManager_default junk) t.
Proof.
  intros Hmaps HL. apply wp_on_throw, wp_bind. unfold init. do 6 wp_step.
  eapply wp_mono; [by apply (wp_acquire_memory _ _ _ L)|].
  intros [[]|e|f] s1 t1 (_ & _ & H1 & Ho); [| |done]; clear Ho.
  - apply wp_bind.
    assert (Hiter : wp (Nat.iter closes (fun m => close_and_remove;; m) (mret tt))
      (returns (fun _ s' t' => ledger t' = Some (L ⊎ owned s'))) s1 t1).
    { revert s1 t1 H1. induction closes as [|k IH]; intros s1 t1 H1; simpl; [by wp_step|].
      wp_step. eapply wp_mono; [by apply wp_close_and_remove|].
      intros [r| |] s2 t2; simpl; [|done..]. intros (-> & H2 & _). apply IH.
      rewrite owned_null, H2 by done. f_equal. multiset_solver. }
    eapply wp_mono; [exact Hiter|]. intros [[]| |] s2 t2; simpl; [|done..]. intros H2.
    eapply wp_mono; [by apply wp_dtor|].
    intros [[]| |] s3 t3; simpl; [|done..]. by intros [-> ?].
  - eapply wp_mono; [by apply (wp_dtor _ _ L)|].
    intros [[]| |] s3 t3; simpl; [|done..]. by intros [-> ?].
Qed.

(** C38: an existing file whose length is not the requested one is mapped and then
    unmapped with the requested length instead of the mapped one, which breaks the
    resource rules: the mapping is not given back as it was obtained. *)
Theorem stale_file_unmapped_with_wrong_length path m s t L :
  path <> [] -> ledger t = Some L ->
  (forall t', answer_of t' (C_access path) = 0) ->
  (forall t', answer_of t' (C_pmem_map_file path 0 0 MODE_0600) = m) ->
  pm_addr m <> NULL -> pm_len m <> _size s ->
  RMap (pm_addr m) (_size s) ∉ L ->
  wp (get_memory_from_pmem path)
     (fun o _ t' => o = Ret NULL /\ ledger t' = None) s t.
Proof.
  intros Hpath HL Hacc Hmap Hp Hlen HnotL. unfold get_memory_from_pmem, keep_or_unmap. mm_unfold.
  apply Z.eqb_neq in Hp. apply Z.eqb_neq in Hlen.
  rewrite bool_decide_eq_false_2 by done. do 6 wp_step. known_answer Hacc. do 5 wp_step; [|done].
  wp_step. known_answer Hmap. wp_step. rewrite Hp.
  do 4 wp_step. rewrite Hlen, Hp, orb_true_r; cbn [negb orb]. wp_steps. split; [done|].
  assert (HL1 : forall a a0, ledger (((t ++ [Ev (C_indeterminate "len") a]) ++
    [Ev (C_indeterminate "is_pmem") a0]) ++ [Ev (C_access path) 0]) = Some L).
  { intros. by repeat (apply ledger_neutral; [|done..]). }
  rewrite ledger_snoc, (ledger_map _ L) by apply HL1. rewrite Hp. cbn [mbind option_bind].
  unfold check. rewrite decide_False; [done|]. simpl. intros [_ Hin].
  apply Z.eqb_neq in Hlen. apply HnotL. multiset_solver.
Qed.

(** The constructor looks for its file at the path it is given, while the
    path it records, which [close_and_remove] later removes, is the prefixed one
    that [init] would have used: the two ways to set up a manager disagree. *)
Theorem ctor_probes_unprefixed_path n path s t :
  wp (MemoryManager_ctor n path) (fun _ s' t' =>
      _path s' = str "/mnt/pmem/" ++ path /\
      exists evs, t' = t ++ evs /\
        Forall (fun e => match e with
          | Ev (C_access p) _ | Ev (C_pmem_map_file p _ _ _) _ => p = path
          | _ => True end) evs) s t.
Proof.
  unfold MemoryManager_ctor, acquire_memory, get_memory_from_pmem, get_memory_from_dram,
    keep_or_unmap. mm_unfold.
  case_bool_decide; wp_steps; (split; [done|]);
    first [exists []; split; [by rewrite app_nil_r | constructor]
          | eexists; rewrite <-?app_assoc; split; [reflexivity | by repeat constructor]].
Qed.
End Properties.

(** ** Witnesses *)

(** A host with persistent memory: the file exists, has [n] bytes and is mapped;
    removing it succeeds. *)
Definition pmem_host (n : Z) : Oracle := fun _ c =>
  match c return answer c with
  | C_pmem_map_file _ _ _ _ => PmemMapping 65536 n 1
  | C_malloc _ => 8192
  | c => zero_answer c
  end.


Lemma close_and_remove_releases_witness :
  let O := pmem_host 10 in
  let s := {| _data := 8192; _size := 10; _is_pmem := false; _path := str "f" |} in
  let t := [Ev (C_malloc 10) 8192] in
  wp close_and_remove (returns (fun r s' t' =>
      s' = set_data NULL s /\ ledger t' = Some ∅ /\
      if _data s =? NULL then r = 0 /\ t' = t
      else exists t1, t' = t1 ++ [Ev (C_remove (_path s)) r])) s t.
Proof.
  intros O s t. apply (close_and_remove_releases s t ∅).
  by apply ledger_compute.
Defined.

Lemma lifecycle_balanced_witness :
  let O := pmem_host 10 in
  wp (on_throw
        (init 10 (str "a");; Nat.iter 2 (fun m => close_and_remove;; m) (mret tt);;
         MemoryManager_dtor)
        MemoryManager_dtor)
     (fun o s' t' => ledger t' = Some ∅ /\ _data s' = NULL /\ forall f, o <> Faulted f)
     (MemoryManager_default 7) [].
Proof. intros O. apply (lifecycle_balanced 10 (str "a") 2 7 [] ∅); done. Defined.

Lemma stale_file_unmapped_with_wrong_length_witness :
  let O := pmem_host 10 in
  wp (get_memory_from_pmem (str "a"))
     (fun o _ t' => o = Ret NULL /\ ledger t' = None) (set_size 20 (MemoryManager_default 0)) [].
Proof.
  intros O.
  apply (stale_file_unmapped_with_wrong_length (str "a") (PmemMapping 65536 10 1)
    (set_size 20 (MemoryManager_default 0)) [] ∅); try done.
  set_solver.
Defined.
