(* ===== verification/Reactor.v ===== *)
(** * The event loop ([EventHandler.h], [Reactor.h], [Reactor.cc])

    The reactor keeps a table from file descriptors to event handles and hands
    the kernel, with each descriptor, a pointer to the entry of the table.  The
    model keeps the address of every entry, so that a pointer the kernel returns
    can be stale. *)

From S2P Require Import Prelude Librpma Effects LibrpmaApi Posix Resources Types.

(** ** Data *)

Inductive EventType := ACCEPT_EVENT | CONNECTION_EVENT | COMPLETION_EVENT.

#[export] Instance EventType_eq_dec : EqDecision EventType.
Proof. solve_decision. Defined.

(** A shared pointer to a handler: the address of the object, and its
    [get_handle] method, which reads the descriptors the object was built with. *)
Record EventHandlerPtr := HandlerPtr {
  eh_ptr : Z;
  get_handle : EventType -> Z
}.

Record EventHandle := {
  eh_type : EventType;
  eh_handler : Z
}.

(** An entry of the table is a node of the hash map, with its own address. *)
Record Reactor := {
  _epoll : Z;
  event_table : gmap Z (Z * EventHandle);
  next_node : Z
}.

Definition set_table (m : gmap Z (Z * EventHandle)) (r : Reactor) : Reactor :=
  {| _epoll := _epoll r; event_table := m; next_node := next_node r |}.

Definition new_reactor (ep : Z) : Reactor :=
  {| _epoll := ep; event_table := ∅; next_node := 1 |}.

(** ** Operations *)

Section Operations.
Context {O : Oracle}.

(** [Reactor::Reactor()], as a computation that gives the new object. *)
Definition Reactor_ctor {S} : M S Reactor :=
  ep ← epoll_create1;
  if ep =? -1 then throw (runtime_error "epoll_create1 failed") else mret (new_reactor ep).

Definition Reactor_dtor : M Reactor unit :=
  ep ← gets _epoll; _ ← close_fd ep; mret tt.

Definition fd_set_nonblock (fd : Z) : M Reactor Z :=
  '(ret, errno) ← fcntl_getfl fd;
  if ret <? 0 then mret errno else
  let flags := Z.lor ret O_NONBLOCK in
  '(ret, errno) ← fcntl_setfl fd flags;
  if ret <? 0 then mret errno else mret 0.

(** [event_table.emplace(fd, EventHandle())] followed by the assignments through
    the reference [event_table[fd]]: an entry that exists keeps its node.  Gives
    the address of the entry. *)
Definition emplace (fd : Z) (eh : EventHandle) : M Reactor Z := fun r t =>
  match event_table r !! fd with
  | Some (node, _) => (Ret node, set_table (<[fd := (node, eh)]> (event_table r)) r, t)
  | None =>
      let node := next_node r in
      (Ret node,
       {| _epoll := _epoll r; event_table := <[fd := (node, eh)]> (event_table r);
          next_node := node + 1 |}, t)
  end.

Definition erase (fd : Z) : M Reactor unit :=
  modify (fun r => set_table (delete fd (event_table r)) r).

Definition register_handler (eh : EventHandlerPtr) (et : EventType) : M Reactor Z :=
  let fd := get_handle eh et in
  if fd =? -1 then mret (-1) else
  ret ← fd_set_nonblock fd;
  if negb (ret =? 0) then mret (-1) else
  node ← emplace fd {| eh_type := et; eh_handler := eh_ptr eh |};
  ep ← gets _epoll;
  '(ret, errno) ← epoll_ctl_add ep (get_handle eh et) node;
  if negb (ret =? 0) then erase fd;; mret errno else
  mret 0.

Definition remove_handler (eh : EventHandlerPtr) (et : EventType) : M Reactor Z :=
  let fd := get_handle eh et in
  if fd =? -1 then mret (-1) else
  ep ← gets _epoll;
  epoll_ctl_del ep fd;;
  erase fd;;
  mret 0.

Definition empty_table (r : Reactor) : bool := bool_decide (event_table r = ∅).

(** Dereferencing the pointer the kernel gives back: the entry with that
    address, if it is still in the table. *)
Definition deref (r : Reactor) (node : Z) : option EventHandle :=
  (fun x => x.2.2) <$> List.find (fun x => x.2.1 =? node) (map_to_list (event_table r)).

(** The loop runs on the state [W] of the whole process, in which the handlers
    live beside the reactor; [handle] is the virtual call [handler->handle(type)]. *)
Section Loop.
Context {W : Type} (reactor_of : W -> Reactor) (handle : Z -> EventType -> M W Z).

(** One turn of the loop of [handle_events]: [Some ret] leaves the loop. *)
Definition handle_event : M W (option Z) :=
  ep ← gets (fun w => _epoll (reactor_of w));
  '(ret, ptr) ← epoll_wait ep TIMEOUT_1500S;
  if negb (ret =? 1) then mret (Some ret) else
  r ← gets reactor_of;
  eh ← of_option (UseAfterFree ptr) (deref r ptr);
  handle (eh_handler eh) (eh_type eh);;
  w ← get;
  if empty_table (reactor_of w) then mret (Some ret) else mret None.

(** At most [fuel] turns; [None] when the loop is still running then. *)
Fixpoint handle_events (fuel : nat) : M W (option Z) :=
  match fuel with
  | 0%nat => mret None
  | S fuel =>
      out ← handle_event;
      match out with Some ret => mret (Some ret) | None => handle_events fuel end
  end.
End Loop.
End Operations.

(** ** Specification *)

(** The kernel's interest list of one epoll instance, from the successful calls
    in the trace: which descriptor is watched, with which pointer. *)
Definition interest_step (ep : Z) (m : gmap Z Z) (e : event) : gmap Z Z :=
  match e with
  | Ev c a =>
    match c return answer c -> gmap Z Z with
    | C_epoll_ctl_add ep' fd node => fun a =>
        if (ep' =? ep) && (a.1 =? 0) then <[fd := node]> m else m
    | C_epoll_ctl_del ep' fd => fun a =>
        if (ep' =? ep) && (a =? 0) then delete fd m else m
    | _ => fun _ => m
    end a
  end.

Definition interest (ep : Z) (t : trace) : gmap Z Z := foldl (interest_step ep) ∅ t.

(** What epoll(7) documents: a descriptor that is watched cannot be added again
    and can be removed, a failure sets [errno], and only pointers of watched descriptors are reported. *)
Class EpollDocumented (O : Oracle) : Prop := {
  add_again_fails ep fd p t :
    is_Some (interest ep t !! fd) -> (answer_of t (C_epoll_ctl_add ep fd p)).1 <> 0;
  add_failure_has_errno ep fd p t :
    (answer_of t (C_epoll_ctl_add ep fd p)).1 <> 0 ->
    (answer_of t (C_epoll_ctl_add ep fd p)).2 <> 0;
  del_succeeds ep fd t :
    is_Some (interest ep t !! fd) -> answer_of t (C_epoll_ctl_del ep fd) = 0;
  wait_reports_watched ep timeout t p :
    answer_of t (C_epoll_wait ep timeout) = (1, p) ->
    exists fd, interest ep t !! fd = Some p
}.

(** Every pointer the kernel holds is the address of a live entry, the entry of
    the descriptor it watches; entries have distinct addresses. *)
Record reactor_inv (r : Reactor) (t : trace) : Prop := {
  inv_watched fd n :
    interest (_epoll r) t !! fd = Some n -> exists eh, event_table r !! fd = Some (n, eh);
  inv_bound fd n eh : event_table r !! fd = Some (n, eh) -> n < next_node r;
  inv_distinct fd fd' n eh eh' :
    event_table r !! fd = Some (n, eh) -> event_table r !! fd' = Some (n, eh') -> fd = fd'
}.

(** ** Lemmas *)

Lemma interest_snoc ep t e : interest ep (t ++ [e]) = interest_step ep (interest ep t) e.
Proof. unfold interest. by rewrite foldl_app. Qed.

(** Calls other than [epoll_ctl] leave the interest list alone. *)
Definition is_epoll_ctl (c : call) : bool :=
  match c with C_epoll_ctl_add _ _ _ | C_epoll_ctl_del _ _ => true | _ => false end.

Lemma interest_other ep t c a :
  is_epoll_ctl c = false -> interest ep (t ++ [Ev c a]) = interest ep t.
Proof. intros H. rewrite interest_snoc. by destruct c. Qed.

Lemma reactor_inv_other r t c a :
  is_epoll_ctl c = false -> reactor_inv r t -> reactor_inv r (t ++ [Ev c a]).
Proof.
  intros Hc [H1 H2 H3]. split; [|done..]. intros fd n. rewrite interest_other by done. auto.
Qed.
#[export] Hint Resolve reactor_inv_other : rpma.

Lemma new_reactor_inv ep t : interest ep t = ∅ -> reactor_inv (new_reactor ep) t.
Proof.
  intros H. split; simpl.
  - intros fd n. by rewrite H, lookup_empty.
  - intros fd n eh. by rewrite lookup_empty.
  - intros fd fd' n eh eh'. by rewrite lookup_empty.
Qed.

Lemma find_unique {A} (f : A -> bool) (l : list A) x :
  x ∈ l -> f x = true -> (forall y, y ∈ l -> f y = true -> y = x) -> List.find f l = Some x.
Proof.
  intros Hx Hf Huniq. destruct (List.find f l) as [y|] eqn:E.
  - apply List.find_some in E as [Hy Hfy]. f_equal. apply Huniq; [by apply list_elem_of_In|done].
  - apply list_elem_of_In, (List.find_none _ _ E) in Hx. congruence.
Qed.

(** A pointer to a live entry is dereferenced to that entry. *)
Lemma deref_live r t fd n eh :
  reactor_inv r t -> event_table r !! fd = Some (n, eh) -> deref r n = Some eh.
Proof.
  intros Hinv Hfd. unfold deref.
  rewrite (find_unique _ _ (fd, (n, eh))); [done| |by simpl; rewrite Z.eqb_refl|].
  - by apply elem_of_map_to_list.
  - intros [fd' [n' eh']] Hy Hn; simpl in *. apply elem_of_map_to_list in Hy. bools. subst n'.
    assert (fd' = fd) as -> by eauto using inv_distinct. congruence.
Qed.

(** No entry has the address, so dereferencing it is a use after free. *)
Lemma deref_dead r n :
  (forall fd eh, event_table r !! fd <> Some (n, eh)) -> deref r n = None.
Proof.
  intros H. unfold deref. destruct (List.find _ _) as [[fd [n' eh]]|] eqn:E; [|done].
  apply List.find_some in E as [Hin Hn]; simpl in Hn. bools. subst n'.
  apply list_elem_of_In, elem_of_map_to_list in Hin. by destruct (H fd eh).
Qed.

Section Lemmas.
Context {O : Oracle}.

(** Making a descriptor non-blocking changes neither the table nor the interest
    list. *)
Lemma wp_fd_set_nonblock fd r t (Q : outcome Z -> Reactor -> trace -> Prop) :
  (forall ret t', (forall ep, interest ep t' = interest ep t) -> Q (Ret ret) r t') ->
  wp (fd_set_nonblock fd) Q r t.
Proof.
  intros HQ. unfold fd_set_nonblock, fcntl_getfl, fcntl_setfl.
  wp_steps; apply HQ; intros ep; by rewrite !interest_other.
Qed.

Lemma reactor_inv_interest r t t' :
  interest (_epoll r) t' = interest (_epoll r) t -> reactor_inv r t -> reactor_inv r t'.
Proof. intros H [H1 H2 H3]. split; [|done..]. intros fd n. rewrite H. auto. Qed.

(** A new entry with a new address, not yet or now known to the kernel. *)
Lemma reactor_inv_insert r t t' fd eh :
  let r' := {| _epoll := _epoll r;
               event_table := <[fd := (next_node r, eh)]> (event_table r);
               next_node := next_node r + 1 |} in
  reactor_inv r t -> event_table r !! fd = None ->
  (interest (_epoll r) t' = interest (_epoll r) t \/
   interest (_epoll r) t' = <[fd := next_node r]> (interest (_epoll r) t)) ->
  reactor_inv r' t'.
Proof.
  intros r' Hinv Hnone Hint. split; simpl.
  - intros fd' n Hn.
    assert (Hcase : fd' = fd /\ n = next_node r \/ interest (_epoll r) t !! fd' = Some n).
    { destruct Hint as [Hint|Hint]; rewrite Hint in Hn; [by right|].
      apply lookup_insert_Some in Hn as [[<- <-]|[_ Hn]]; [by left | by right]. }
    destruct Hcase as [[-> ->]|Hold]; [rewrite lookup_insert_eq; by eexists|].
    destruct (inv_watched _ _ Hinv _ _ Hold) as [eh' He].
    exists eh'. rewrite lookup_insert_ne; [done|]. intros ->. congruence.
  - intros fd' n eh'. rewrite lookup_insert_Some. intros [[_ [= <- <-]]|[_ Hn]]; [lia|].
    pose proof (inv_bound _ _ Hinv _ _ _ Hn). lia.
  - intros fd1 fd2 n eh1 eh2. rewrite !lookup_insert_Some.
    intros [[<- E1]|[_ E1]] [[<- E2]|[_ E2]]; simplify_eq; [done| | |by eapply inv_distinct].
    + pose proof (inv_bound _ _ Hinv _ _ _ E2). lia.
    + pose proof (inv_bound _ _ Hinv _ _ _ E1). lia.
Qed.

(** Dropping an entry that the kernel does not watch. *)
Lemma reactor_inv_delete r t fd :
  interest (_epoll r) t !! fd = None -> reactor_inv r t ->
  reactor_inv (set_table (delete fd (event_table r)) r) t.
Proof.
  intros Hnone [H1 H2 H3]. split; simpl.
  - intros fd' n Hn. destruct (H1 _ _ Hn) as [eh He]. exists eh.
    rewrite lookup_delete_ne; [done|]. intros ->. congruence.
  - intros fd' n eh. rewrite lookup_delete_Some. intros [_ ?]. eauto.
  - intros fd1 fd2 n e1 e2. rewrite !lookup_delete_Some. intros [_ ?] [_ ?]. eauto.
Qed.
End Lemmas.

Lemma calls_emplace P fd eh : calls P (emplace fd eh).
Proof. apply calls_pure. intros r t. unfold emplace. by destruct (event_table r !! fd) as [[]|]. Qed.
#[export] Hint Resolve calls_emplace : calls.

Section Specs.
Context {O : Oracle} {OD : EpollDocumented O}.

Lemma wp_register_handler eh et r t :
  let fd := get_handle eh et in
  let e := {| eh_type := et; eh_handler := eh_ptr eh |} in
  reactor_inv r t -> event_table r !! fd = None ->
  wp (register_handler eh et) (returns (fun ret r' t' =>
      reactor_inv r' t' /\ _epoll r' = _epoll r /\
      (ret = 0 /\ fd <> -1 /\ event_table r' = <[fd := (next_node r, e)]> (event_table r) /\
         interest (_epoll r) t' = <[fd := next_node r]> (interest (_epoll r) t) \/
       ret <> 0 /\ event_table r' = event_table r /\
         interest (_epoll r) t' = interest (_epoll r) t))) r t.
Proof.
  intros fd e Hinv Hnone. unfold register_handler. fold fd. fold e.
  apply wp_if; intros Hfd; [wp_step; simpl; split_and!; [done | done | by right]|].
  apply wp_bind, wp_fd_set_nonblock. intros ret t1 H1.
  apply wp_if; intros Hret.
  { wp_step. simpl. split_and!; [|done|by right; auto].
    eapply reactor_inv_interest; [apply H1 | done]. }
  apply wp_bind. unfold emplace, wp at 1. rewrite Hnone.
  unfold epoll_ctl_add. do 4 wp_step.
  set (r1 := {| _epoll := _ |}).
  assert (Hstep : forall ep, interest ep (t1 ++ [Ev (C_epoll_ctl_add (_epoll r) fd (next_node r)) a])
    = interest_step ep (interest ep t) (Ev (C_epoll_ctl_add (_epoll r) fd (next_node r)) a)).
  { intros ep. by rewrite interest_snoc, H1. }
  simpl in Hstep. destruct a as [ret' errno]; simpl in *. apply wp_if; intros Hok; bools.
  - unfold erase. wp_steps. simpl. unfold set_table; simpl. rewrite delete_insert_id by done.
    pose proof (add_failure_has_errno (_epoll r) fd (next_node r) t1) as Herr.
    rewrite H in Herr; simpl in Herr.
    assert (Hi : interest (_epoll r) (t1 ++ [Ev (C_epoll_ctl_add (_epoll r) fd (next_node r)) (ret', errno)])
      = interest (_epoll r) t).
    { rewrite Hstep. apply Z.eqb_neq in Hok. by rewrite Hok, andb_false_r. }
    split_and!; [|done|right; auto].
    destruct Hinv as [I1 I2 I3]. split; simpl; [|intros ? ? ? Hx; apply I2 in Hx; lia|done].
    intros fd' n. rewrite Hi. auto.
  - wp_step. simpl. subst ret'. specialize (Hstep (_epoll r)). rewrite Z.eqb_refl in Hstep.
    simpl in Hstep. split_and!; [|done|by left].
    eapply reactor_inv_insert; eauto.
Qed.

Lemma wp_remove_handler eh et r t :
  let fd := get_handle eh et in
  reactor_inv r t ->
  wp (remove_handler eh et) (returns (fun ret r' t' =>
      reactor_inv r' t' /\ _epoll r' = _epoll r /\
      if fd =? -1 then ret = -1 /\ r' = r /\ t' = t
      else ret = 0 /\ event_table r' = delete fd (event_table r) /\
           interest (_epoll r) t' = delete fd (interest (_epoll r) t))) r t.
Proof.
  intros fd Hinv. unfold remove_handler. fold fd.
  apply wp_if; intros Hfd; rewrite Hfd; [wp_step; simpl; by auto|].
  unfold epoll_ctl_del, erase. wp_steps. simpl.
  assert (Hi : interest (_epoll r) (t ++ [Ev (C_epoll_ctl_del (_epoll r) fd) a])
    = delete fd (interest (_epoll r) t)).
  { rewrite interest_snoc; simpl. rewrite Z.eqb_refl; simpl.
    destruct (interest (_epoll r) t !! fd) eqn:E.
    - pose proof (del_succeeds (_epoll r) fd t ltac:(eauto)) as Hd.
      rewrite H in Hd. by rewrite Hd.
    - rewrite delete_id by done. by destruct (a =? 0). }
  split_and!; try done.
  destruct Hinv as [I1 I2 I3]. split; simpl.
  - intros fd' n. rewrite Hi. intros [Hne Hn]%lookup_delete_Some.
    rewrite lookup_delete_ne by done. auto.
  - intros fd' n eh'. rewrite lookup_delete_Some. intros [_ ?]. eauto.
  - intros fd1 fd2 n e1 e2. rewrite !lookup_delete_Some. intros [_ ?] [_ ?]. eauto.
Qed.

(** The pointer reported by [epoll_wait] is the address of a live entry, and the
    handler called is the one registered for that descriptor. *)
Lemma wp_handle_event {W} (reactor_of : W -> Reactor) handle
    (Q : outcome (option Z) -> W -> trace -> Prop) w t :
  let wait a := t ++ [Ev (C_epoll_wait (_epoll (reactor_of w)) TIMEOUT_1500S) a] in
  reactor_inv (reactor_of w) t ->
  (forall ret a, ret <> 1 -> reactor_inv (reactor_of w) (wait a) ->
     Q (Ret (Some ret)) w (wait a)) ->
  (forall fd n eh a, event_table (reactor_of w) !! fd = Some (n, eh) ->
     reactor_inv (reactor_of w) (wait a) ->
     wp (handle (eh_handler eh) (eh_type eh)) (fun o w' t'' =>
       match o with
       | Ret _ => Q (Ret (if empty_table (reactor_of w') then Some 1 else None)) w' t''
       | Throw e => Q (Throw e) w' t''
       | Faulted f => Q (Faulted f) w' t''
       end) w (wait a)) ->
  wp (handle_event reactor_of handle) Q w t.
Proof.
  intros wait Hinv Hexit Hcall. unfold handle_event, epoll_wait. do 4 wp_step. destruct a as [ret ptr].
  apply wp_if; intros Hret; bools.
  { wp_step. apply Hexit; [done|]. by apply reactor_inv_other. }
  subst ret. do 3 wp_step.
  destruct (wait_reports_watched _ _ _ _ H) as [fd Hfd].
  destruct (inv_watched _ _ Hinv _ _ Hfd) as [eh He].
  apply wp_of_option. rewrite (deref_live _ _ _ _ _ Hinv He). wp_step.
  eapply wp_mono; [eapply Hcall; [done | by apply reactor_inv_other]|].
  intros [] w' t'; [|done..]. intros HQ. do 2 wp_step. by destruct (empty_table _).
Qed.
End Specs.

(** ** Properties *)

Section Properties.
Context {O : Oracle} {OD : EpollDocumented O}.

(** C19: registering a descriptor that is not in the table keeps the reactor's
    invariant and is all or nothing: either it returns 0 and the table and the
    kernel's interest list both gain the descriptor, with the same entry, or it
    returns an error and neither has changed. *)
Theorem register_handler_atomic eh et r t :
  let fd := get_handle eh et in
  let e := {| eh_type := et; eh_handler := eh_ptr eh |} in
  reactor_inv r t -> event_table r !! fd = None ->
  wp (register_handler eh et) (returns (fun ret r' t' =>
      reactor_inv r' t' /\ _epoll r' = _epoll r /\
      (ret = 0 /\ fd <> -1 /\ event_table r' = <[fd := (next_node r, e)]> (event_table r) /\
         interest (_epoll r) t' = <[fd := next_node r]> (interest (_epoll r) t) \/
       ret <> 0 /\ event_table r' = event_table r /\
         interest (_epoll r) t' = interest (_epoll r) t))) r t.
Proof. apply wp_register_handler. Qed.

(** Removing a handler takes its descriptor out of the table and out of the
    kernel's interest list together and keeps the invariant, whether or not it was
    registered; a handler without a descriptor for the event is refused. *)
Theorem remove_handler_removes eh et r t :
  let fd := get_handle eh et in
  reactor_inv r t ->
  wp (remove_handler eh et) (returns (fun ret r' t' =>
      reactor_inv r' t' /\ _epoll r' = _epoll r /\
      if fd =? -1 then ret = -1 /\ r' = r /\ t' = t
      else ret = 0 /\ event_table r' = delete fd (event_table r) /\
           interest (_epoll r) t' = delete fd (interest (_epoll r) t))) r t.
Proof. apply wp_remove_handler. Qed.

(** C14: the event loop never follows a stale pointer: as long as the handlers it
    calls keep the reactor's invariant and do not fault, neither does the loop,
    over any number of turns; and when it returns, either the wait did not report
    an event or the table is empty. *)
Theorem handle_events_safe {W} (reactor_of : W -> Reactor) handle fuel w t :
  (forall h et w t, reactor_inv (reactor_of w) t ->
     wp (handle h et) (fun o w' t' =>
       reactor_inv (reactor_of w') t' /\ forall f, o <> Faulted f) w t) ->
  reactor_inv (reactor_of w) t ->
  wp (handle_events reactor_of handle fuel) (fun o w' t' =>
      reactor_inv (reactor_of w') t' /\
      match o with
      | Ret (Some ret) => ret <> 1 \/ empty_table (reactor_of w') = true
      | Ret None | Throw _ => True
      | Faulted _ => False
      end) w t.
Proof.
  intros Hhandle. revert w t. induction fuel as [|fuel IH]; intros w t Hinv; simpl; [by wp_step|].
  wp_step. apply wp_handle_event; [done| |].
  - intros ret t' Hret Hinv'. wp_step. auto.
  - intros fd n eh t' _ Hinv'. eapply wp_mono; [by apply Hhandle|].
    intros o w' t'' [Hinv'' Hnf]. destruct o as [r|e|f]; [|done|by destruct (Hnf f)].
    destruct (empty_table (reactor_of w')) eqn:E; [wp_step; auto | by apply IH].
Qed.

(** C39: registering a descriptor a second time destroys the entry of the first
    registration while the kernel keeps its pointer: the next event on that
    descriptor is a use after free. *)
Theorem register_twice_dangles eh et r t n e :
  let fd := get_handle eh et in
  reactor_inv r t -> fd <> -1 ->
  event_table r !! fd = Some (n, e) -> interest (_epoll r) t !! fd = Some n ->
  (forall t', 0 <= (answer_of t' (C_fcntl_getfl fd)).1) ->
  (forall t' flags, 0 <= (answer_of t' (C_fcntl_setfl fd flags)).1) ->
  wp (register_handler eh et) (returns (fun ret r' t' =>
      ret <> 0 /\ interest (_epoll r') t' !! fd = Some n /\ deref r' n = None)) r t.
Proof.
  intros fd Hinv Hfd Htab Hint Hget Hset. unfold register_handler. fold fd.
  rewrite (proj2 (Z.eqb_neq _ _) Hfd).
  unfold fd_set_nonblock, fcntl_getfl, fcntl_setfl. do 3 wp_step.
  pose proof (Hget t) as Hg. rewrite H in Hg. destruct a as [ret errno]; simpl in Hg.
  rewrite (proj2 (Z.ltb_ge _ _) Hg). do 2 wp_step.
  pose proof (Hset (t ++ [Ev (C_fcntl_getfl fd) (ret, errno)]) (Z.lor ret O_NONBLOCK)) as Hs.
  rewrite H0 in Hs. destruct a as [ret2 errno2]; simpl in Hs.
  rewrite (proj2 (Z.ltb_ge _ _) Hs). wp_step. simpl. apply wp_bind.
  unfold emplace, wp at 1. rewrite Htab. unfold epoll_ctl_add, erase. do 4 wp_step.
  set (t2 := _ ++ [Ev (C_fcntl_setfl _ _) _]) in *.
  assert (Hi : forall ep, interest ep t2 = interest ep t).
  { intros ep. unfold t2. by rewrite !interest_other. }
  pose proof (add_again_fails (_epoll r) fd n t2) as Hagain. simpl in H1, Hagain.
  rewrite H1, Hi in Hagain. pose proof (add_failure_has_errno (_epoll r) fd n t2) as Herr.
  rewrite H1 in Herr. destruct a as [ret3 errno3]; simpl in *.
  assert (Hr3 : ret3 <> 0) by eauto. rewrite (proj2 (Z.eqb_neq _ _) Hr3). cbn [negb].
  wp_steps. simpl.
  split_and!; [by eauto| |].
  - rewrite interest_snoc; simpl. rewrite (proj2 (Z.eqb_neq _ _) Hr3), andb_false_r. by rewrite Hi.
  - apply deref_dead. simpl. intros fd' e'. rewrite delete_insert_eq, lookup_delete_Some.
    intros [Hne Hx]. by apply Hne; eapply inv_distinct.
Qed.
End Properties.

(** ** Witnesses *)

(** A kernel that implements epoll: it watches what was added and not removed,
    and reports a watched descriptor whenever there is one. *)
Definition epoll_host : Oracle := fun t c =>
  match c return answer c with
  | C_epoll_ctl_add ep fd _ =>
      if bool_decide (is_Some (interest ep t !! fd)) then (-1, 17) else (0, 0)
  | C_epoll_ctl_del ep fd => if bool_decide (is_Some (interest ep t !! fd)) then 0 else -1
  | C_epoll_wait ep _ =>
      match map_to_list (interest ep t) with (_, p) :: _ => (1, p) | [] => (0, 0) end
  | c => zero_answer c
  end.

#[export] Instance epoll_host_documented : EpollDocumented epoll_host.
Proof.
  split.
  - intros ep fd p t H. unfold answer_of, epoll_host. by rewrite bool_decide_eq_true_2.
  - intros ep fd p t. unfold answer_of, epoll_host. by case_bool_decide.
  - intros ep fd t H. unfold answer_of, epoll_host. by rewrite bool_decide_eq_true_2.
  - intros ep timeout t p. unfold answer_of, epoll_host.
    destruct (map_to_list (interest ep t)) as [|[fd q] l] eqn:E; [done|]. intros [= ->].
    exists fd. apply elem_of_map_to_list. rewrite E. left.
Qed.

(** A handler at address 500 with descriptors 7 and 8. *)
Definition demo_handler : EventHandlerPtr := HandlerPtr 500 (fun et =>
  match et with ACCEPT_EVENT => -1 | CONNECTION_EVENT => 7 | COMPLETION_EVENT => 8 end).

(** The reactor in which its connection descriptor is registered. *)
Definition demo_entry : EventHandle := {| eh_type := CONNECTION_EVENT; eh_handler := 500 |}.
Definition demo_reactor : Reactor :=
  {| _epoll := 3; event_table := {[7 := (1, demo_entry)]}; next_node := 2 |}.
Definition demo_trace : trace := [Ev (C_epoll_ctl_add 3 7 1) (0, 0)].

Lemma demo_reactor_inv : reactor_inv demo_reactor demo_trace.
Proof.
  apply (reactor_inv_insert (new_reactor 3) [] demo_trace 7 demo_entry);
    [by apply new_reactor_inv | done | by right].
Qed.

Lemma register_handler_atomic_witness :
  let e := {| eh_type := COMPLETION_EVENT; eh_handler := 500 |} in
  wp (register_handler (O := epoll_host) demo_handler COMPLETION_EVENT)
    (returns (fun ret r' t' =>
      reactor_inv r' t' /\ _epoll r' = 3 /\
      (ret = 0 /\ 8 <> -1 /\ event_table r' = <[8 := (2, e)]> {[7 := (1, demo_entry)]} /\
         interest 3 t' = <[8 := 2]> (interest 3 demo_trace) \/
       ret <> 0 /\ event_table r' = {[7 := (1, demo_entry)]} /\
         interest 3 t' = interest 3 demo_trace)))
    demo_reactor demo_trace.
Proof.
  apply (register_handler_atomic (O := epoll_host) demo_handler COMPLETION_EVENT
    demo_reactor demo_trace).
  - apply demo_reactor_inv.
  - reflexivity.
Defined.

Lemma remove_handler_removes_witness :
  wp (remove_handler (O := epoll_host) demo_handler CONNECTION_EVENT)
    (returns (fun ret r' t' =>
      reactor_inv r' t' /\ _epoll r' = 3 /\
      ret = 0 /\ event_table r' = delete 7 {[7 := (1, demo_entry)]} /\
      interest 3 t' = delete 7 (interest 3 demo_trace)))
    demo_reactor demo_trace.
Proof.
  apply (remove_handler_removes (O := epoll_host) demo_handler CONNECTION_EVENT
    demo_reactor demo_trace).
  apply demo_reactor_inv.
Defined.

(** A handler that removes itself when it is called. *)
Definition demo_handle (h : Z) (et : EventType) : M Reactor Z :=
  remove_handler (O := epoll_host) demo_handler et.

Lemma handle_events_safe_witness :
  wp (handle_events (O := epoll_host) id demo_handle 3) (fun o w' t' =>
      reactor_inv (id w') t' /\
      match o with
      | Ret (Some ret) => ret <> 1 \/ empty_table (id w') = true
      | Ret None | Throw _ => True
      | Faulted _ => False
      end) demo_reactor demo_trace.
Proof.
  apply (handle_events_safe (O := epoll_host) id demo_handle 3 demo_reactor demo_trace).
  - intros h et w t Hinv.
    eapply wp_mono; [exact (wp_remove_handler (O := epoll_host) demo_handler et w t Hinv)|].
    intros o w' t'. destruct o; simpl; [|intros []|intros []]. intros [Hinv' _].
    split; [exact Hinv'|discriminate].
  - apply demo_reactor_inv.
Defined.

Lemma register_twice_dangles_witness :
  wp (register_handler (O := epoll_host) demo_handler CONNECTION_EVENT)
    (returns (fun ret r' t' =>
      ret <> 0 /\ interest (_epoll r') t' !! 7 = Some 1 /\ deref r' 1 = None))
    demo_reactor demo_trace.
Proof.
  apply (register_twice_dangles (O := epoll_host) demo_handler CONNECTION_EVENT
    demo_reactor demo_trace 1 demo_entry); try reflexivity; try discriminate.
  apply demo_reactor_inv.
Defined.
