(* ===== verification/RpmaOp.v ===== *)
(** * Posted operations ([RpmaOp.h])

    An operation posted to librpma is an object that holds the callback to run
    when it completes; its address travels through librpma as the operation's
    context.  Objects live in a heap, from which completions and destructors
    delete them. *)

From S2P Require Import Prelude Librpma Effects LibrpmaApi.

(** ** Data *)

(** The values of [std::function<void()>] that the sources build: the empty
    function and one constructor per lambda, with what it captures.  The lambdas
    of the client capture local variables of a caller by reference; [frame]
    names that caller's activation. *)
Inductive callback :=
  | no_callback
  | deal_require_cb
  | init_replica_cb (frame : Z)
  | close_replica_cb (frame : Z)
  | set_completed_cb (frame : Z).

(** The classes derived from [RpmaOp]. *)
Inductive op_class :=
  | RpmaRecv | RpmaReqRecv | RpmaSend | RpmaWrite | RpmaFlush | RpmaRead
  | RpmaWriteAtomic.

Record RpmaOp := {
  class : op_class;
  func : callback
}.

#[export] Instance callback_eq_dec : EqDecision callback.
Proof. solve_decision. Defined.
#[export] Instance op_class_eq_dec : EqDecision op_class.
Proof. solve_decision. Defined.
#[export] Instance RpmaOp_eq_dec : EqDecision RpmaOp.
Proof. solve_decision. Defined.

(** The live operation objects; a new object gets an address never used before. *)
Record op_heap := {
  ops : gmap Z RpmaOp;
  next_op : Z
}.

(** ** Operations *)

Section Operations.
Context {O : Oracle}.

(** [std::make_unique<...>(callback)] *)
Definition new_op (k : op_class) (cb : callback) : M op_heap Z := fun h t =>
  (Ret (next_op h),
   {| ops := <[next_op h := {| class := k; func := cb |}]> (ops h);
      next_op := next_op h + 1 |}, t).

(** [delete p], and the end of a [unique_ptr] that still owns [p] *)
Definition delete_op (p : Z) : M op_heap unit := fun h t =>
  match ops h !! p with
  | Some _ => (Ret tt, {| ops := delete p (ops h); next_op := next_op h |}, t)
  | None => (Faulted (UseAfterFree p), h, t)
  end.

(** Reading the callback of the object at [p]. *)
Definition op_func (p : Z) : M op_heap callback := fun h t =>
  match ops h !! p with
  | Some o => (Ret (func o), h, t)
  | None => (Faulted (UseAfterFree p), h, t)
  end.

(** [do_callback()]: nothing for an empty function; [run] is the call itself. *)
Definition do_callback {S} (run : callback -> M S unit) (cb : callback) : M S unit :=
  if bool_decide (cb = no_callback) then mret tt else run cb.

(** The call operators. *)
Section Calls.
Context {S : Type}.
Definition RpmaRecv_call (conn dst offset len op_context : Z) : M S Z :=
  rpma_recv conn dst offset len op_context.
Definition RpmaReqRecv_call (req dst offset len op_context : Z) : M S Z :=
  rpma_conn_req_recv req dst offset len op_context.
Definition RpmaSend_call (conn src offset len flags op_context : Z) : M S Z :=
  rpma_send conn src offset len flags op_context.
Definition RpmaWrite_call (conn dst dst_offset src src_offset len flags op_context : Z)
    : M S Z :=
  rpma_write conn dst dst_offset src src_offset len flags op_context.
Definition RpmaFlush_call (conn dst dst_offset len : Z) (type : rpma_flush_type)
    (flags op_context : Z) : M S Z :=
  rpma_flush conn dst dst_offset len type flags op_context.
Definition RpmaRead_call (conn dst dst_offset src src_offset len flags op_context : Z)
    : M S Z :=
  rpma_read conn dst dst_offset src src_offset len flags op_context.
Definition RpmaWriteAtomic_call (conn dst dst_offset src src_offset flags op_context : Z)
    : M S Z :=
  rpma_write_atomic conn dst dst_offset src src_offset flags op_context.
End Calls.
End Operations.

(** ** Specification: the operations librpma still has to complete

    One queue per connection request and one per connection, computed from the
    trace: a new request starts with an empty queue, posting adds the context of the operation, connecting turns the queue
    of the request into that of the connection, and a completion takes its
    context out. *)

Inductive queue := QReq (req : Z) | QConn (conn : Z).

#[export] Instance queue_eq_dec : EqDecision queue.
Proof. solve_decision. Defined.
#[export] Instance queue_countable : Countable queue.
Proof.
  refine (inj_countable'
    (fun q => match q with QReq r => (false, r) | QConn c => (true, c) end)
    (fun k => match k with (false, r) => QReq r | (true, c) => QConn c end) _).
  by intros [].
Defined.

Definition queued (m : gmap queue (gset Z)) (q : queue) : gset Z := default ∅ (m !! q).

(** A successful post; an operation without context has nothing to track. *)
Definition post (q : queue) (ctx ret : Z) (m : gmap queue (gset Z)) : gmap queue (gset Z) :=
  if (ret =? 0) && negb (ctx =? NULL) then <[q := {[ctx]} ∪ queued m q]> m else m.

Definition queue_step (m : gmap queue (gset Z)) (e : event) : gmap queue (gset Z) :=
  match e with
  | Ev c a =>
    match c return answer c -> gmap queue (gset Z) with
    | C_ep_next_conn_req _ _ => fun a => if a.1 =? 0 then <[QReq a.2 := ∅]> m else m
    | C_conn_req_new _ _ _ _ => fun a => if a.1 =? 0 then <[QReq a.2 := ∅]> m else m
    | C_conn_req_recv req _ _ _ ctx => fun ret => post (QReq req) ctx ret m
    | C_recv conn _ _ _ ctx => fun ret => post (QConn conn) ctx ret m
    | C_send conn _ _ _ _ ctx => fun ret => post (QConn conn) ctx ret m
    | C_write conn _ _ _ _ _ _ ctx => fun ret => post (QConn conn) ctx ret m
    | C_write_atomic conn _ _ _ _ _ ctx => fun ret => post (QConn conn) ctx ret m
    | C_read conn _ _ _ _ _ _ ctx => fun ret => post (QConn conn) ctx ret m
    | C_flush conn _ _ _ _ _ ctx => fun ret => post (QConn conn) ctx ret m
    | C_conn_req_connect req => fun a =>
        if a.1 =? 0 then <[QConn a.2 := queued m (QReq req)]> (delete (QReq req) m)
        else delete (QReq req) m
    | C_conn_completion_get conn => fun a =>
        if a.1 =? 0
        then <[QConn conn := queued m (QConn conn) ∖ {[op_context a.2]}]> m else m
    | _ => fun _ => m
    end a
  end.

Definition outstanding (q : queue) (t : trace) : gset Z :=
  queued (foldl queue_step ∅ t) q.

(** What the header says of completions: each belongs to an operation already
    posted on the connection and not completed before. *)
Class CompletionDocumented (O : Oracle) : Prop :=
  completion_of_posted t conn cmpl :
    answer_of t (C_conn_completion_get conn) = (0, cmpl) ->
    op_context cmpl <> NULL ->
    op_context cmpl ∈ outstanding (QConn conn) t.

(** ** Lemmas *)

Lemma queued_insert m q q' X :
  queued (<[q := X]> m) q' = if decide (q = q') then X else queued m q'.
Proof. unfold queued. rewrite lookup_insert. by case_decide. Qed.

Lemma queued_post m q q' ctx ret :
  queued (post q ctx ret m) q' =
    if decide (q = q' /\ ret = 0 /\ ctx <> NULL) then {[ctx]} ∪ queued m q' else queued m q'.
Proof.
  unfold post. destruct (Z.eqb_spec ret 0), (Z.eqb_spec ctx NULL); simpl;
    rewrite ?queued_insert; repeat case_decide; intuition (subst; congruence || done).
Qed.

Definition touches_queue (c : call) : bool :=
  match c with
  | C_ep_next_conn_req _ _ | C_conn_req_new _ _ _ _
  | C_conn_req_recv _ _ _ _ _ | C_recv _ _ _ _ _ | C_send _ _ _ _ _ _
  | C_write _ _ _ _ _ _ _ _ | C_write_atomic _ _ _ _ _ _ _ | C_read _ _ _ _ _ _ _ _
  | C_flush _ _ _ _ _ _ _ | C_conn_req_connect _ | C_conn_completion_get _ => true
  | _ => false
  end.

Lemma outstanding_other q t c a :
  touches_queue c = false -> outstanding q (t ++ [Ev c a]) = outstanding q t.
Proof. intros H. unfold outstanding. rewrite foldl_app; simpl. by destruct c. Qed.

Lemma outstanding_recv q t conn dst off len ctx ret :
  outstanding q (t ++ [Ev (C_recv conn dst off len ctx) ret]) =
    if decide (QConn conn = q /\ ret = 0 /\ ctx <> NULL) then {[ctx]} ∪ outstanding q t
    else outstanding q t.
Proof. unfold outstanding. rewrite foldl_app; simpl. apply queued_post. Qed.

Lemma outstanding_send q t conn src off len flags ctx ret :
  outstanding q (t ++ [Ev (C_send conn src off len flags ctx) ret]) =
    if decide (QConn conn = q /\ ret = 0 /\ ctx <> NULL) then {[ctx]} ∪ outstanding q t
    else outstanding q t.
Proof. unfold outstanding. rewrite foldl_app; simpl. apply queued_post. Qed.

Lemma outstanding_write q t conn dst doff src soff len flags ctx ret :
  outstanding q (t ++ [Ev (C_write conn dst doff src soff len flags ctx) ret]) =
    if decide (QConn conn = q /\ ret = 0 /\ ctx <> NULL) then {[ctx]} ∪ outstanding q t
    else outstanding q t.
Proof. unfold outstanding. rewrite foldl_app; simpl. apply queued_post. Qed.

Lemma outstanding_flush q t conn dst off len ty flags ctx ret :
  outstanding q (t ++ [Ev (C_flush conn dst off len ty flags ctx) ret]) =
    if decide (QConn conn = q /\ ret = 0 /\ ctx <> NULL) then {[ctx]} ∪ outstanding q t
    else outstanding q t.
Proof. unfold outstanding. rewrite foldl_app; simpl. apply queued_post. Qed.

Lemma outstanding_completion q t conn a :
  outstanding q (t ++ [Ev (C_conn_completion_get conn) a]) =
    if decide (QConn conn = q /\ a.1 = 0) then outstanding q t ∖ {[op_context a.2]}
    else outstanding q t.
Proof.
  unfold outstanding. rewrite foldl_app; simpl. destruct (Z.eqb_spec a.1 0);
    rewrite ?queued_insert; repeat case_decide; intuition (subst; congruence || done).
Qed.

Lemma outstanding_next_conn_req q t ep cfg a :
  outstanding q (t ++ [Ev (C_ep_next_conn_req ep cfg) a]) =
    if decide (QReq a.2 = q /\ a.1 = 0) then ∅ else outstanding q t.
Proof.
  unfold outstanding. rewrite foldl_app; simpl. destruct (Z.eqb_spec a.1 0);
    rewrite ?queued_insert; repeat case_decide; intuition (subst; congruence || done).
Qed.

Lemma outstanding_conn_req_new q t peer addr port cfg a :
  outstanding q (t ++ [Ev (C_conn_req_new peer addr port cfg) a]) =
    if decide (QReq a.2 = q /\ a.1 = 0) then ∅ else outstanding q t.
Proof.
  unfold outstanding. rewrite foldl_app; simpl. destruct (Z.eqb_spec a.1 0);
    rewrite ?queued_insert; repeat case_decide; intuition (subst; congruence || done).
Qed.

Lemma outstanding_req_recv q t req dst off len ctx ret :
  outstanding q (t ++ [Ev (C_conn_req_recv req dst off len ctx) ret]) =
    if decide (QReq req = q /\ ret = 0 /\ ctx <> NULL) then {[ctx]} ∪ outstanding q t
    else outstanding q t.
Proof. unfold outstanding. rewrite foldl_app; simpl. apply queued_post. Qed.

(** The connection starts with what was posted on its request. *)
Lemma outstanding_connect t req c :
  outstanding (QConn c) (t ++ [Ev (C_conn_req_connect req) (0, c)]) =
    outstanding (QReq req) t.
Proof.
  unfold outstanding. rewrite foldl_app; simpl. by rewrite queued_insert, decide_True.
Qed.

Lemma outstanding_connect_failed t req c a :
  a.1 <> 0 -> outstanding (QConn c) (t ++ [Ev (C_conn_req_connect req) a]) =
    outstanding (QConn c) t.
Proof.
  intros Ha. unfold outstanding. rewrite foldl_app; simpl.
  rewrite (proj2 (Z.eqb_neq _ _) Ha). unfold queued. by rewrite lookup_delete_ne.
Qed.

(** The heap operations make no call. *)
Lemma calls_new_op P k cb : calls P (new_op k cb).
Proof. by apply calls_pure. Qed.
Lemma calls_delete_op P p : calls P (delete_op p).
Proof. apply calls_pure. intros h t. unfold delete_op. by destruct (ops h !! p). Qed.
Lemma calls_op_func P p : calls P (op_func p).
Proof. apply calls_pure. intros h t. unfold op_func. by destruct (ops h !! p). Qed.
#[export] Hint Resolve calls_new_op calls_delete_op calls_op_func : calls.
