(* ===== verification/Quiet.v ===== *)
(** * Calls that post nothing and do not touch an interest list

    Most calls leave the operations outstanding at librpma and the kernel's
    interest lists alone; a component that makes only such calls cannot disturb
    what the table of operations and the reactor's table rely on. *)

From S2P Require Import Prelude Librpma Effects LibrpmaApi Posix MemoryManager Reactor RpmaOp.

Definition keeps_queues (c : call) : bool := negb (touches_queue c).
Definition keeps_interest (c : call) : bool := negb (is_epoll_ctl c).
Definition quiet_call (c : call) : bool := keeps_queues c && keeps_interest c.

Lemma quiet_keeps_queues c : quiet_call c = true -> keeps_queues c = true.
Proof. unfold quiet_call. intros [? _]%andb_true_iff. done. Qed.

Lemma quiet_keeps_interest c : quiet_call c = true -> keeps_interest c = true.
Proof. unfold quiet_call. intros [_ ?]%andb_true_iff. done. Qed.

Lemma extends_outstanding t t' q :
  extends keeps_queues t t' -> outstanding q t' = outstanding q t.
Proof.
  intros (evs & -> & H). induction evs as [|[c a] evs IH] using rev_ind; [by rewrite app_nil_r|].
  apply Forall_app in H as [H [Hc _]%Forall_cons]. rewrite app_assoc.
  simpl in Hc. apply negb_true_iff in Hc. rewrite outstanding_other by done. auto.
Qed.

Lemma extends_interest t t' ep :
  extends keeps_interest t t' -> interest ep t' = interest ep t.
Proof.
  intros (evs & -> & H). induction evs as [|[c a] evs IH] using rev_ind; [by rewrite app_nil_r|].
  apply Forall_app in H as [H [Hc _]%Forall_cons]. rewrite app_assoc.
  simpl in Hc. apply negb_true_iff in Hc. rewrite interest_other by done. auto.
Qed.

Lemma extends_prefix P t t' : extends P t t' -> t `prefix_of` t'.
Proof. intros (evs & -> & _). by eexists. Qed.

Lemma quiet_outstanding t t' q :
  extends quiet_call t t' -> outstanding q t' = outstanding q t.
Proof.
  intros H. apply extends_outstanding. eapply extends_weaken; [|exact H].
  apply quiet_keeps_queues.
Qed.

Lemma quiet_interest t t' ep :
  extends quiet_call t t' -> interest ep t' = interest ep t.
Proof.
  intros H. apply extends_interest. eapply extends_weaken; [|exact H].
  apply quiet_keeps_interest.
Qed.

Section Quiet.
Context {O : Oracle}.

Lemma quiet_init n path : calls quiet_call (MemoryManager.init n path).
Proof. footprint. Qed.
Lemma quiet_close_and_remove : calls quiet_call close_and_remove.
Proof. footprint. Qed.
Lemma quiet_MemoryManager_dtor : calls quiet_call MemoryManager_dtor.
Proof. footprint. Qed.
End Quiet.

#[export] Hint Resolve quiet_init quiet_close_and_remove quiet_MemoryManager_dtor : calls.
