(* ===== verification/Descriptors.v ===== *)
(** * The file descriptors of connections and endpoints

    Which descriptor belongs to which object is computed from the trace, like the
    queues and the interest list: asking an object for its descriptor adds it,
    destroying the object takes its descriptors out. *)

From S2P Require Import Prelude Librpma Effects LibrpmaApi Resources Reactor RpmaOp Quiet.

(** What a descriptor is for. *)
Inductive fd_use := FdEvent (conn : Z) | FdCompletion (conn : Z) | FdListen (ep : Z).

#[export] Instance fd_use_eq_dec : EqDecision fd_use.
Proof. solve_decision. Defined.

(** The descriptors that do not belong to the connection [c]. *)
Definition without_conn (c : Z) (m : gmap Z fd_use) : gmap Z fd_use :=
  filter (fun e => e.2 <> FdEvent c /\ e.2 <> FdCompletion c) m.
Definition without_ep (ep : Z) (m : gmap Z fd_use) : gmap Z fd_use :=
  filter (fun e => e.2 <> FdListen ep) m.

Definition fd_step (m : gmap Z fd_use) (e : event) : gmap Z fd_use :=
  match e with
  | Ev c a =>
    match c return answer c -> gmap Z fd_use with
    | C_conn_get_event_fd cn => fun a => if a.1 =? 0 then <[a.2 := FdEvent cn]> m else m
    | C_conn_get_completion_fd cn => fun a =>
        if a.1 =? 0 then <[a.2 := FdCompletion cn]> m else m
    | C_ep_get_fd ep => fun a => if a.1 =? 0 then <[a.2 := FdListen ep]> m else m
    | C_conn_delete cn => fun _ => without_conn cn m
    | C_ep_shutdown ep => fun _ => without_ep ep m
    | _ => fun _ => m
    end a
  end.

Definition fds (t : trace) : gmap Z fd_use := foldl fd_step ∅ t.

(** What POSIX and the header say: a descriptor is not negative, and objects that
    exist at the same time have different descriptors. *)
Class FdsDocumented (O : Oracle) : Prop := {
  event_fd_own t c fd : answer_of t (C_conn_get_event_fd c) = (0, fd) ->
    0 <= fd /\ forall u, fds t !! fd = Some u -> u = FdEvent c;
  completion_fd_own t c fd : answer_of t (C_conn_get_completion_fd c) = (0, fd) ->
    0 <= fd /\ forall u, fds t !! fd = Some u -> u = FdCompletion c;
  listen_fd_own t ep fd : answer_of t (C_ep_get_fd ep) = (0, fd) ->
    0 <= fd /\ forall u, fds t !! fd = Some u -> u = FdListen ep
}.

(** ** Lemmas *)

Definition is_fd_call (c : call) : bool :=
  match c with
  | C_conn_get_event_fd _ | C_conn_get_completion_fd _ | C_ep_get_fd _
  | C_conn_delete _ | C_ep_shutdown _ => true
  | _ => false
  end.
Definition keeps_fds (c : call) : bool := negb (is_fd_call c).

Lemma fds_snoc t e : fds (t ++ [e]) = fd_step (fds t) e.
Proof. unfold fds. by rewrite foldl_app. Qed.

Lemma extends_fds t t' : extends keeps_fds t t' -> fds t' = fds t.
Proof.
  intros (evs & -> & H). induction evs as [|[c a] evs IH] using rev_ind; [by rewrite app_nil_r|].
  apply Forall_app in H as [H [Hc _]%Forall_cons]. rewrite app_assoc, fds_snoc, <-IH by done.
  apply negb_true_iff in Hc. by destruct c.
Qed.

Lemma lookup_without_conn c m fd u :
  without_conn c m !! fd = Some u <-> m !! fd = Some u /\ u <> FdEvent c /\ u <> FdCompletion c.
Proof. apply map_lookup_filter_Some. Qed.

(** A descriptor of the connection that was free, or already its own. *)
Lemma without_conn_insert c m fd u :
  u = FdEvent c \/ u = FdCompletion c -> (forall u', m !! fd = Some u' -> u' = u) ->
  without_conn c (<[fd := u]> m) = without_conn c m.
Proof.
  intros Hu Hown. apply map_eq. intros i. apply option_eq. intros v.
  rewrite !lookup_without_conn. destruct (decide (i = fd)) as [->|].
  - rewrite lookup_insert_eq. split.
    + intros ([= <-] & ? & ?). tauto.
    + intros (Hv & ? & ?). apply Hown in Hv. subst v. tauto.
  - by rewrite lookup_insert_ne.
Qed.

(** Nothing to take out. *)
Lemma without_conn_id c m :
  (forall fd u, m !! fd = Some u -> u <> FdEvent c /\ u <> FdCompletion c) ->
  without_conn c m = m.
Proof. intros H. apply map_filter_id. intros i v Hv. by eapply H. Qed.
