(* ===== verification/Host.v ===== *)
(** * A concrete host

    An implementation of the calls that satisfies every documented hypothesis of
    the development at once: it hands out a new address for every object,
    watches what is added to an epoll instance, completes the operations that were
    posted, and maps files of persistent memory, all of the same size.  The theorems are instantiated
    on it. *)

From S2P Require Import Prelude Librpma Effects LibrpmaApi Posix Resources Reactor RpmaOp.
From S2P Require Import Descriptors.

(** A new address: no earlier call of the run returned it. *)
Definition fresh (t : trace) : Z := 1000 + Z.of_nat (length t).

(** Above every number of a list. *)
Definition above (l : list Z) : Z := 1 + foldr Z.max 0 l.

(** A descriptor no object uses, and a connection nobody holds. *)
Definition free_fd (t : trace) : Z := above (fresh t :: (map_to_list (fds t)).*1).
Definition free_conn (t : trace) : Z :=
  above (fresh t :: match ledger t with
                    | Some L => omap (fun r => match r with RConn c => Some c | _ => None end) (elements L)
                    | None => []
                    end).

Definition sized_host (size : Z) : Oracle := fun t c =>
  match c return answer c with
  | C_get_ibv_context _ _ | C_peer_new _ | C_peer_cfg_new | C_peer_cfg_from_descriptor _ _
  | C_mr_reg _ _ _ _ | C_mr_remote_from_descriptor _ _ | C_conn_cfg_new
  | C_ep_listen _ _ _ | C_ep_next_conn_req _ _ | C_conn_req_new _ _ _ _ => (0, fresh t)
  | C_conn_req_connect _ => (0, free_conn t)
  | C_ep_get_fd _ | C_conn_get_event_fd _ | C_conn_get_completion_fd _ => (0, free_fd t)
  | C_peer_cfg_get_descriptor_size _ => (0, 1)
  | C_peer_cfg_get_descriptor _ => (0, [x01])
  | C_peer_cfg_get_direct_write_to_pmem _ => (0, true)
  | C_mr_get_descriptor_size _ => (0, 4)
  | C_mr_get_descriptor _ => (0, [xaa; xbb; xcc; xdd])
  | C_mr_remote_get_size _ => (0, 2 ^ 40)
  | C_conn_next_event _ => (0, RPMA_CONN_CLOSED)
  | C_conn_completion_get cn =>
      match elements (outstanding (QConn cn) t) with
      | p :: _ => (0, Completion p RPMA_OP_RECV 0 IBV_WC_SUCCESS)
      | [] => (RPMA_E_NO_COMPLETION, Completion NULL RPMA_OP_RECV 0 IBV_WC_SUCCESS)
      end
  | C_pmem_map_file _ _ _ _ => PmemMapping (fresh t) size 1
  | C_malloc _ => fresh t
  | C_access _ => -1
  | C_bufferptr _ => (fresh t, [])
  | C_epoll_create1 => fresh t
  | C_epoll_ctl_add ep fd _ =>
      if bool_decide (is_Some (interest ep t !! fd)) then (-1, 17) else (0, 0)
  | C_epoll_ctl_del ep fd => if bool_decide (is_Some (interest ep t !! fd)) then 0 else -1
  | C_epoll_wait ep _ =>
      match map_to_list (interest ep t) with (_, p) :: _ => (1, p) | [] => (0, 0) end
  | C_clock_now => 10 * 1000 * 1000 * Z.of_nat (length t)
  | c => zero_answer c
  end.

(** The host of the small examples: its files have ten bytes. *)
Abbreviation host := (sized_host 10).

Lemma above_lt l x : x ∈ l -> x < above l.
Proof.
  intros Hx. unfold above. induction Hx as [|? ? ? ? IH]; simpl; lia.
Qed.

Lemma above_pos l : 0 < above l.
Proof. unfold above. induction l; simpl; lia. Qed.

Lemma free_fd_free t : fds t !! free_fd t = None.
Proof.
  destruct (fds t !! free_fd t) as [u|] eqn:Hu; [|done].
  assert (Hin : free_fd t ∈ fresh t :: (map_to_list (fds t)).*1).
  { right. apply list_elem_of_fmap. exists (free_fd t, u). split; [done|].
    by apply elem_of_map_to_list. }
  apply above_lt in Hin. unfold free_fd in *. lia.
Qed.

#[export] Instance host_rpma size : RpmaDocumented (sized_host size).
Proof.
  split.
  - intros t c Hc. destruct c; try done; try (by left). unfold answer_of, sized_host.
    case_match; simpl; [right; set_solver | by left].
  - intros t c p. destruct c; simpl; intros [=]; subst p; unfold NULL;
      first [unfold fresh; lia | unfold free_conn;
             match goal with |- above ?l <> 0 => pose proof (above_pos l) end; lia].
Qed.

#[export] Instance host_completion size : CompletionDocumented (sized_host size).
Proof.
  intros t cn cmpl. unfold answer_of, sized_host.
  destruct (elements (outstanding (QConn cn) t)) as [|p l] eqn:E; [done|].
  intros [= <-] _. simpl. apply elem_of_elements. rewrite E. left.
Qed.

#[export] Instance host_epoll size : EpollDocumented (sized_host size).
Proof.
  split.
  - intros ep fd p t H. unfold answer_of, sized_host. by rewrite bool_decide_eq_true_2.
  - intros ep fd p t. unfold answer_of, sized_host. by case_bool_decide.
  - intros ep fd t H. unfold answer_of, sized_host. by rewrite bool_decide_eq_true_2.
  - intros ep timeout t p. unfold answer_of, sized_host.
    destruct (map_to_list (interest ep t)) as [|[fd q] l] eqn:E; [done|]. intros [= ->].
    exists fd. apply elem_of_map_to_list. rewrite E. left.
Qed.

#[export] Instance host_fds size : FdsDocumented (sized_host size).
Proof.
  split; intros t c fd [= <-]; (split; [pose proof (above_pos (fresh t :: (map_to_list (fds t)).*1)); unfold free_fd; lia|]);
    intros u; by rewrite free_fd_free.
Qed.

#[export] Instance host_connections size : ConnectionsFresh (sized_host size).
Proof.
  intros t L req c HL [= <-] Hin.
  assert (Hc : free_conn t ∈ fresh t :: omap (fun r => match r with RConn c => Some c | _ => None end)
    (elements L)).
  { right. apply list_elem_of_omap. exists (RConn (free_conn t)). split; [|done].
    by apply gmultiset_elem_of_elements. }
  apply above_lt in Hc. unfold free_conn in Hc. rewrite HL in Hc. lia.
Qed.
