(* ===== verification/RpmaConn.v ===== *)
(** * The owner of a connection (class [RpmaConn] of [EventOp.h], [EventOp.cc]) *)

From S2P Require Import Prelude Librpma Effects LibrpmaApi Posix Resources.

Record RpmaConn := {
  conn : Z;
  disconnected : bool
}.

(** [RpmaConn()] and [RpmaConn(conn)] *)
Definition RpmaConn_default : RpmaConn := {| conn := NULL; disconnected := true |}.
Definition RpmaConn_of (c : Z) : RpmaConn := {| conn := c; disconnected := false |}.

Definition set_disconnected (c : RpmaConn) : RpmaConn :=
  {| conn := conn c; disconnected := true |}.
Definition set_conn (p : Z) (c : RpmaConn) : RpmaConn :=
  {| conn := p; disconnected := disconnected c |}.

Section Operations.
Context {O : Oracle}.

Definition RpmaConn_dtor : M RpmaConn unit :=
  c ← get;
  if conn c =? NULL then mret tt else
  (if negb (disconnected c) then rpma_conn_disconnect (conn c);; mret tt else mret tt);;
  '(_, p) ← rpma_conn_delete (conn c);
  modify (set_conn p);;
  modify (set_conn NULL).

Definition RpmaConn_reset (c : Z) : M RpmaConn unit :=
  modify (fun _ => RpmaConn_of c).

Definition RpmaConn_get : M RpmaConn Z := gets conn.

Definition RpmaConn_disconnect : M RpmaConn Z :=
  modify set_disconnected;;
  c ← gets conn;
  rpma_conn_disconnect c.
End Operations.

(** ** Specification *)

(** librpma deletes connections that are "already closed": the connection has
    been torn down, at some point, before it is deleted. *)
Definition torn_down (c : Z) (t : trace) : Prop :=
  exists a, Ev (C_conn_disconnect c) a ∈ t.

(** The state of the object and the trace agree: an object that says it is
    disconnected, and holds a connection, has torn that connection down. *)
Definition conn_inv (s : RpmaConn) (t : trace) : Prop :=
  conn s <> NULL -> disconnected s = true -> torn_down (conn s) t.

Definition owned_conn (s : RpmaConn) : gmultiset res :=
  if conn s =? NULL then ∅ else {[+ RConn (conn s) +]}.

(** ** Lemmas *)

Lemma torn_down_app c t t' : torn_down c t -> torn_down c (t ++ t').
Proof. intros [a H]. exists a. set_solver. Qed.

Lemma conn_inv_app s t t' : conn_inv s t -> conn_inv s (t ++ t').
Proof. intros H ??. apply torn_down_app. auto. Qed.

Lemma conn_inv_prefix s t t' : conn_inv s t -> t `prefix_of` t' -> conn_inv s t'.
Proof. intros H [? ->]. by apply conn_inv_app. Qed.

Lemma ledger_use_conn t L c call (a : answer call) :
  uses call = nonnull RConn c -> releases call = None -> acquires (Ev call a) = None ->
  (c <> NULL -> RConn c ∈ L) -> ledger t = Some L -> ledger (t ++ [Ev call a]) = Some L.
Proof.
  intros Hu Hr Ha Hin HL. apply ledger_use; try done. rewrite Hu. by apply Forall_nonnull.
Qed.

Section Lemmas.
Context {O : Oracle}.

Lemma owned_conn_in s L : conn s <> NULL -> RConn (conn s) ∈ L ⊎ owned_conn s.
Proof. intros H. unfold owned_conn. rewrite (proj2 (Z.eqb_neq _ _) H). multiset_solver. Qed.

Lemma wp_RpmaConn_disconnect s t L :
  ledger t = Some (L ⊎ owned_conn s) ->
  wp RpmaConn_disconnect (returns (fun ret s' t' =>
      s' = set_disconnected s /\ t' = t ++ [Ev (C_conn_disconnect (conn s)) ret] /\
      ledger t' = Some (L ⊎ owned_conn s'))) s t.
Proof.
  intros HL. unfold RpmaConn_disconnect, rpma_conn_disconnect. wp_steps. simpl.
  split_and!; [done..|]. change (owned_conn (set_disconnected s)) with (owned_conn s).
  eapply ledger_use_conn; try done. apply owned_conn_in.
Qed.

Lemma wp_RpmaConn_dtor s t L :
  ledger t = Some (L ⊎ owned_conn s) -> conn_inv s t ->
  wp RpmaConn_dtor (returns (fun _ s' t' =>
      conn s' = NULL /\ ledger t' = Some L /\
      if conn s =? NULL then t' = t
      else exists t1 a, t' = t1 ++ [Ev (C_conn_delete (conn s)) a] /\ torn_down (conn s) t1))
    s t.
Proof.
  intros HL Hinv. unfold RpmaConn_dtor, rpma_conn_disconnect, rpma_conn_delete.
  do 2 wp_step. apply wp_if; intros Hc; rewrite Hc.
  { wp_step. simpl. unfold owned_conn in HL. rewrite Hc in HL. bools.
    split_and!; try done. rewrite HL. f_equal. multiset_solver. }
  pose proof (owned_conn_in s L) as Hin. unfold owned_conn in *. rewrite Hc in *. bools.
  wp_steps; bools; simpl; (split; [done|]); (split; [|do 2 eexists; split; [done|]]).
  - eapply ledger_release; try done. by eapply ledger_use_conn.
  - exists a. set_solver.
  - by eapply ledger_release.
  - by apply Hinv.
Qed.
End Lemmas.

(** ** Properties *)

Section Properties.
Context {O : Oracle}.

(** A connection object given a connection, disconnected any number of times
    and destroyed, deletes the connection exactly once, gives nothing else back,
    and never deletes it before tearing it down. *)
Theorem RpmaConn_lifecycle c n t L :
  c <> NULL -> ledger t = Some (L ⊎ {[+ RConn c +]}) ->
  wp (RpmaConn_reset c;; Nat.iter n (fun m => RpmaConn_disconnect;; m) (mret tt);;
      RpmaConn_dtor)
    (returns (fun _ s' t' => conn s' = NULL /\ ledger t' = Some L /\
       exists t1 a, t' = t1 ++ [Ev (C_conn_delete c) a] /\ torn_down c t1))
    RpmaConn_default t.
Proof.
  intros Hc HL. unfold RpmaConn_reset. do 3 wp_step.
  assert (Hiter : forall s t, conn s = c -> conn_inv s t -> ledger t = Some (L ⊎ owned_conn s) ->
    wp (Nat.iter n (fun m => RpmaConn_disconnect;; m) (mret tt)) (returns (fun _ s' t' =>
      conn s' = c /\ conn_inv s' t' /\ ledger t' = Some (L ⊎ owned_conn s'))) s t).
  { clear t HL. induction n as [|n IH]; intros s t Hs Hinv HL; simpl; [by wp_step|].
    wp_step. eapply wp_mono; [by apply wp_RpmaConn_disconnect|].
    intros [ret| |] s' t'; simpl; [|done..]. intros (-> & -> & HL'). apply IH; [done| |done].
    intros _ _. exists ret. set_solver. }
  apply Z.eqb_neq in Hc as Hc'.
  eapply wp_mono; [apply Hiter; [done|done|by unfold owned_conn; simpl; rewrite Hc']|].
  intros [[]| |] s' t'; simpl; [|done..]. intros (Hs & Hinv & HL').
  eapply wp_mono; [by apply wp_RpmaConn_dtor|]. rewrite Hs, Hc'.
  intros [[]| |]; simpl; [|done..]. done.
Qed.
End Properties.

Lemma RpmaConn_lifecycle_witness :
  let O : Oracle := fun _ => zero_answer in
  let t := [Ev (C_ep_next_conn_req NULL NULL) (0, 5); Ev (C_conn_req_connect 5) (0, 9)] in
  wp (RpmaConn_reset 9;; Nat.iter 2 (fun m => RpmaConn_disconnect;; m) (mret tt);;
      RpmaConn_dtor)
    (returns (fun _ s' t' => conn s' = NULL /\ ledger t' = Some ∅ /\
       exists t1 a, t' = t1 ++ [Ev (C_conn_delete 9) a] /\ torn_down 9 t1))
    RpmaConn_default t.
Proof.
  intros O t. apply (RpmaConn_lifecycle 9 2 t ∅); [done|]. by apply ledger_compute.
Defined.
