(* ===== verification/ConnectionHandler.v ===== *)
(** * Connections ([ConnectionHandler] of [EventOp.h], [EventOp.cc])

    The part shared by the server's and the client's end of a connection: the
    message buffers, the table of posted operations, and the handling of
    connection events and completions. *)

From S2P Require Import Prelude Librpma Effects LibrpmaApi Posix Resources Types.
From S2P Require Import Reactor RpmaOp Host RpmaConn.

(** ** Data *)

Record ConnectionHandler := {
  callback_table : gset Z;
  _peer : Z;
  _conn : RpmaConn;
  send_bl : bufferlist;
  send_mr : Z;
  recv_bl : bufferlist;
  recv_mr : Z;
  _conn_fd : Z;
  _comp_fd : Z;
  connected : bool
}.

Definition with_table (x : gset Z) (c : ConnectionHandler) : ConnectionHandler :=
  Build_ConnectionHandler x (_peer c) (_conn c) (send_bl c) (send_mr c) (recv_bl c)
    (recv_mr c) (_conn_fd c) (_comp_fd c) (connected c).
Definition with_peer (x : Z) (c : ConnectionHandler) : ConnectionHandler :=
  Build_ConnectionHandler (callback_table c) x (_conn c) (send_bl c) (send_mr c) (recv_bl c)
    (recv_mr c) (_conn_fd c) (_comp_fd c) (connected c).
Definition with_conn (x : RpmaConn) (c : ConnectionHandler) : ConnectionHandler :=
  Build_ConnectionHandler (callback_table c) (_peer c) x (send_bl c) (send_mr c) (recv_bl c)
    (recv_mr c) (_conn_fd c) (_comp_fd c) (connected c).
Definition with_send_bl (x : bufferlist) (c : ConnectionHandler) : ConnectionHandler :=
  Build_ConnectionHandler (callback_table c) (_peer c) (_conn c) x (send_mr c) (recv_bl c)
    (recv_mr c) (_conn_fd c) (_comp_fd c) (connected c).
Definition with_send_mr (x : Z) (c : ConnectionHandler) : ConnectionHandler :=
  Build_ConnectionHandler (callback_table c) (_peer c) (_conn c) (send_bl c) x (recv_bl c)
    (recv_mr c) (_conn_fd c) (_comp_fd c) (connected c).
Definition with_recv_bl (x : bufferlist) (c : ConnectionHandler) : ConnectionHandler :=
  Build_ConnectionHandler (callback_table c) (_peer c) (_conn c) (send_bl c) (send_mr c) x
    (recv_mr c) (_conn_fd c) (_comp_fd c) (connected c).
Definition with_recv_mr (x : Z) (c : ConnectionHandler) : ConnectionHandler :=
  Build_ConnectionHandler (callback_table c) (_peer c) (_conn c) (send_bl c) (send_mr c)
    (recv_bl c) x (_conn_fd c) (_comp_fd c) (connected c).
Definition with_conn_fd (x : Z) (c : ConnectionHandler) : ConnectionHandler :=
  Build_ConnectionHandler (callback_table c) (_peer c) (_conn c) (send_bl c) (send_mr c)
    (recv_bl c) (recv_mr c) x (_comp_fd c) (connected c).
Definition with_comp_fd (x : Z) (c : ConnectionHandler) : ConnectionHandler :=
  Build_ConnectionHandler (callback_table c) (_peer c) (_conn c) (send_bl c) (send_mr c)
    (recv_bl c) (recv_mr c) (_conn_fd c) x (connected c).
Definition with_connected (x : bool) (c : ConnectionHandler) : ConnectionHandler :=
  Build_ConnectionHandler (callback_table c) (_peer c) (_conn c) (send_bl c) (send_mr c)
    (recv_bl c) (recv_mr c) (_conn_fd c) (_comp_fd c) x.

(** [ConnectionHandler::ConnectionHandler()]; the descriptors have no
    initializer. *)
Definition ConnectionHandler_ctor (conn_fd comp_fd : Z) : ConnectionHandler :=
  Build_ConnectionHandler ∅ NULL RpmaConn_default empty_bufferlist NULL empty_bufferlist
    NULL conn_fd comp_fd false.

(** What the handlers of a process share: the heap of operations, the use counts
    of the shared peers, and the reactor as long as it is alive. *)
Record Proc := {
  heap : op_heap;
  peers : gmap Z nat;
  reactor : option Reactor
}.

Definition with_heap (h : op_heap) (p : Proc) : Proc :=
  {| heap := h; peers := peers p; reactor := reactor p |}.
Definition with_peers (m : gmap Z nat) (p : Proc) : Proc :=
  {| heap := heap p; peers := m; reactor := reactor p |}.
Definition with_reactor (r : option Reactor) (p : Proc) : Proc :=
  {| heap := heap p; peers := peers p; reactor := r |}.

(** A method of a handler of class [H] runs on the object, known by its
    address, and on the state of the process. *)
Record Ctx (H : Type) := {
  this : Z;
  self : H;
  proc : Proc
}.
Arguments this {H}.
Arguments self {H}.
Arguments proc {H}.

Definition with_self {H} (h : H) (c : Ctx H) : Ctx H :=
  {| this := this c; self := h; proc := proc c |}.
Definition with_proc {H} (p : Proc) (c : Ctx H) : Ctx H :=
  {| this := this c; self := self c; proc := p |}.

(** Classes derived from [ConnectionHandler]: access to the base object. *)
Class HasConnection (H : Type) := {
  ch_of : H -> ConnectionHandler;
  set_ch : ConnectionHandler -> H -> H
}.

Class HasConnectionLaws (H : Type) `{HasConnection H} : Prop := {
  ch_of_set_ch c h : ch_of (set_ch c h) = c;
  set_ch_set_ch c c' h : set_ch c (set_ch c' h) = set_ch c h;
  set_ch_of h : set_ch (ch_of h) h = h
}.

#[export] Instance ConnectionHandler_HasConnection : HasConnection ConnectionHandler :=
  {| ch_of c := c; set_ch c _ := c |}.

(** ** Operations on the handler alone *)

Section Operations.
Context {O : Oracle}.

(** [unique_rpma_mr_ptr]: resetting it deregisters the region it held
    ([RpmaMRDeleter]). *)
Definition mr_delete {S} (mr : Z) : M S unit :=
  if mr =? NULL then mret tt else rpma_mr_dereg mr;; mret tt.

Definition init_send_recv_buffer : M ConnectionHandler unit :=
  bl ← new_bufferlist MSG_SIZE;
  modify (with_recv_bl bl);;
  c ← get;
  '(ret, mr) ← rpma_mr_reg (_peer c) (bl_addr bl) MSG_SIZE RPMA_MR_USAGE_RECV NULL;
  if negb (ret =? 0) then throw (runtime_error "recv memory region registers failed.") else
  modify (with_recv_mr mr);;
  mr_delete (recv_mr c);;
  bl ← new_bufferlist MSG_SIZE;
  modify (with_send_bl bl);;
  c ← get;
  '(ret, mr) ← rpma_mr_reg (_peer c) (bl_addr bl) MSG_SIZE RPMA_MR_USAGE_SEND NULL;
  if negb (ret =? 0) then throw (runtime_error "send memory region registers failed.") else
  modify (with_send_mr mr);;
  mr_delete (send_mr c).

Definition init_conn_fd : M ConnectionHandler unit :=
  c ← get;
  '(ret, fd) ← rpma_conn_get_event_fd (conn (_conn c)) (_conn_fd c);
  modify (with_conn_fd fd);;
  if negb (ret =? 0) then throw (runtime_error "get the connection's event fd failed") else
  c ← get;
  '(ret, fd) ← rpma_conn_get_completion_fd (conn (_conn c)) (_comp_fd c);
  modify (with_comp_fd fd);;
  if negb (ret =? 0) then throw (runtime_error "get the connection's completion fd failed") else
  mret tt.

Definition ch_get_handle (c : ConnectionHandler) (et : EventType) : Z :=
  match et with
  | CONNECTION_EVENT => _conn_fd c
  | COMPLETION_EVENT => _comp_fd c
  | _ => -1
  end.

Definition on_conn {A} : M RpmaConn A -> M ConnectionHandler A := zoom _conn with_conn.

(** [assert(bl.length() < MSG_SIZE); memcpy(send_bl.c_str(), bl.c_str(), bl.length());] *)
Definition fill_send_buffer (bl : bytes) : M ConnectionHandler unit :=
  assert (blen bl <? MSG_SIZE);;
  c ← get;
  data ← of_option OutOfBounds (memcpy_at 0 bl (bl_data (send_bl c)));
  modify (with_send_bl {| bl_addr := bl_addr (send_bl c); bl_data := data |}).

(** ** Operations that involve the process *)

(** Used by the acceptor and by the client to make their peer. *)
Definition common_peer_via_address {S} (addr : bytes) (type : rpma_util_ibv_context_type)
    (peer : Z) : M S (Z * Z) :=
  '(ret, dev) ← rpma_utils_get_ibv_context addr type NULL;
  if negb (ret =? 0) then mret (ret, peer) else
  rpma_peer_new dev peer.

(** A shared peer loses one owner; the last one deletes it ([RpmaPeerDeleter]). *)
Definition peer_release (p : Z) : M Proc unit :=
  if p =? NULL then mret tt else
  m ← gets peers;
  match m !! p with
  | Some (S (S n)) => modify (with_peers (<[p := S n]> m))
  | Some 1%nat => modify (with_peers (delete p m));; rpma_peer_delete p;; mret tt
  | _ => fail_with (UseAfterFree p)
  end.

(** [_peer.reset(peer, RpmaPeerDeleter())]: a new control block. *)
Definition peer_own (p : Z) : M Proc unit :=
  modify (fun s => with_peers (<[p := 1%nat]> (peers s)) s).

(** [_peer = peer]: one more owner. *)
Definition peer_share (p : Z) : M Proc unit :=
  modify (fun s => with_peers (alter S p (peers s)) s).

Section Methods.
Context {H : Type} {HC : HasConnection H}.

Definition on_ch {A} : M ConnectionHandler A -> M (Ctx H) A :=
  zoom (fun x => ch_of (self x)) (fun c x => with_self (set_ch c (self x)) x).
Definition on_proc {A} : M Proc A -> M (Ctx H) A := zoom proc with_proc.
Definition on_heap {A} (m : M op_heap A) : M (Ctx H) A := on_proc (zoom heap with_heap m).

(** [_reactor_manager.lock()]: [m] runs on the reactor if it is alive. *)
Definition on_reactor (dead : Z) (m : M Reactor Z) : M (Ctx H) Z := fun x t =>
  match reactor (proc x) with
  | Some r =>
      match m r t with
      | (o, r', t') => (o, with_proc (with_reactor (Some r') (proc x)) x, t')
      end
  | None => (Ret dead, x, t)
  end.

(** [shared_from_this()] *)
Definition this_ptr (x : Ctx H) : EventHandlerPtr :=
  HandlerPtr (this x) (ch_get_handle (ch_of (self x))).

(** The bodies of [register_self] and [remove_self], which [RPMAHandler] and
    [ClientHandler] define alike. *)
Definition conn_register_self : M (Ctx H) Z :=
  me ← gets this_ptr;
  on_reactor 0
    (ret ← register_handler me CONNECTION_EVENT;
     if negb (ret =? 0) then mret ret else
     ret ← register_handler me COMPLETION_EVENT;
     if negb (ret =? 0) then remove_handler me CONNECTION_EVENT;; mret ret else
     mret ret).

Definition conn_remove_self : M (Ctx H) Z :=
  me ← gets this_ptr;
  on_reactor 0
    (ret ← remove_handler me CONNECTION_EVENT;
     ret' ← remove_handler me COMPLETION_EVENT;
     mret (Z.lor ret ret')).

(** What [send], [recv], [write], [flush] and the receives of the server have in
    common: a new operation is posted by [post]; if that succeeds it is recorded
    and outlives the call, otherwise it is destroyed. *)
Definition post_op (k : op_class) (cb : callback) (post : Z -> M (Ctx H) Z) : M (Ctx H) Z :=
  p ← on_heap (new_op k cb);
  ret ← post p;
  (if ret =? 0
   then on_ch (modify (fun c => with_table ({[p]} ∪ callback_table c) c))
   else on_heap (delete_op p));;
  mret ret.

Definition send (cb : callback) : M (Ctx H) Z :=
  post_op RpmaSend cb (fun usend =>
    c ← gets (fun x => ch_of (self x));
    RpmaSend_call (conn (_conn c)) (send_mr c) 0 MSG_SIZE RPMA_F_COMPLETION_ALWAYS usend).

Definition recv (cb : callback) : M (Ctx H) Z :=
  post_op RpmaRecv cb (fun rec =>
    c ← gets (fun x => ch_of (self x));
    RpmaRecv_call (conn (_conn c)) (recv_mr c) 0 MSG_SIZE rec).

(** The virtual methods of the derived class, and the call of a callback. *)
Section Virtual.
Context (remove_self : M (Ctx H) Z) (run_callback : callback -> M (Ctx H) unit).

Definition handle_connection_event : M (Ctx H) Z :=
  c ← gets (fun x => ch_of (self x));
  '(ret, event) ← rpma_conn_next_event (conn (_conn c));
  if negb (ret =? 0) then
    if ret =? RPMA_E_NO_EVENT then mret 0 else
    on_ch (on_conn RpmaConn_disconnect);;
    mret ret
  else
  match event with
  | RPMA_CONN_ESTABLISHED => on_ch (modify (with_connected true));; mret 0
  | RPMA_CONN_CLOSED | RPMA_CONN_LOST | RPMA_CONN_UNDEFINED =>
      on_ch (modify (with_connected false));;
      remove_self
  end.

(** A completed operation: it leaves the table, its callback runs, and the
    object is destroyed, also when the callback throws. *)
Definition complete_op (p : Z) : M (Ctx H) unit :=
  on_ch (modify (fun c => with_table (callback_table c ∖ {[p]}) c));;
  on_throw
    (cb ← on_heap (op_func p); do_callback run_callback cb)
    (on_heap (delete_op p));;
  on_heap (delete_op p).

Definition handle_completion : M (Ctx H) Z :=
  c ← gets (fun x => ch_of (self x));
  ret ← rpma_conn_completion_wait (conn (_conn c));
  if negb (ret =? 0) then
    if ret =? RPMA_E_NO_COMPLETION then mret 0 else
    on_ch (on_conn RpmaConn_disconnect);;
    mret ret
  else
  '(ret, cmpl) ← rpma_conn_completion_get (conn (_conn c));
  if negb (ret =? 0) then
    if ret =? RPMA_E_NO_COMPLETION then mret 0 else
    on_ch (on_conn RpmaConn_disconnect);;
    mret ret
  else
  if negb (op_status cmpl =? IBV_WC_SUCCESS) then mret ret else
  (if negb (op_context cmpl =? NULL) then complete_op (op_context cmpl) else mret tt);;
  mret ret.

Definition ch_handle (et : EventType) : M (Ctx H) Z :=
  match et with
  | CONNECTION_EVENT => handle_connection_event
  | COMPLETION_EVENT => handle_completion
  | _ => mret (-1)
  end.
End Virtual.

(** [for (auto &it : callback_table) delete it] *)
Fixpoint delete_ops (ps : list Z) : M (Ctx H) unit :=
  match ps with
  | [] => mret tt
  | p :: ps => on_heap (delete_op p);; delete_ops ps
  end.

(** The destructor: its body, then the members in the reverse of their order. *)
Definition ConnectionHandler_dtor : M (Ctx H) unit :=
  c ← gets (fun x => ch_of (self x));
  delete_ops (elements (callback_table c));;
  mr_delete (recv_mr c);;
  mr_delete (send_mr c);;
  on_ch (on_conn RpmaConn_dtor);;
  on_proc (peer_release (_peer c)).
End Methods.
End Operations.

(** Footprints of the recursive and of the conditional operation. *)
Section Footprints.
Context {O : Oracle} {H : Type}.

Lemma calls_on_reactor P d (m : M Reactor Z) : calls P m -> calls P (on_reactor (H := H) d m).
Proof.
  intros Hm x t. unfold wp, on_reactor. destruct (reactor (proc x)) as [r|]; [|apply extends_refl].
  specialize (Hm r t). unfold wp in Hm. by destruct (m r t) as [[o r'] t'].
Qed.
Lemma calls_delete_ops P ps : calls P (delete_ops (H := H) ps).
Proof. induction ps as [|p ps IH]; simpl; [apply calls_ret|]. by apply calls_bind; [footprint|]. Qed.
End Footprints.
#[export] Hint Resolve calls_delete_ops : calls.
#[export] Hint Extern 1 (calls _ (on_reactor _ _)) => apply calls_on_reactor; footprint : calls.

(** ** Specification *)

Definition owned_mr (mr : Z) : gmultiset res := if mr =? NULL then ∅ else {[+ RMr mr +]}.

(** The librpma objects a connection handler owns by itself. *)
Definition owned_ch (c : ConnectionHandler) : gmultiset res :=
  owned_mr (recv_mr c) ⊎ owned_mr (send_mr c) ⊎ owned_conn (_conn c).

(** Table, heap and librpma agree: every operation in the table is a live object,
    and every operation librpma has still to complete is in the table. *)
Record ops_inv (c : ConnectionHandler) (h : op_heap) (t : trace) : Prop := {
  oi_live p : p ∈ callback_table c -> is_Some (ops h !! p);
  oi_bound p : is_Some (ops h !! p) -> 0 < p < next_op h;
  oi_next : 0 < next_op h;
  oi_outstanding : outstanding (QConn (conn (_conn c))) t ⊆ callback_table c
}.

Definition ops_ok {H} {HC : HasConnection H} (x : Ctx H) (t : trace) : Prop :=
  ops_inv (ch_of (self x)) (heap (proc x)) t.

(** What running other code does to the operations that already exist: nothing
    happens to the objects, and what enters the table is new. *)
Record ops_grow (c c' : ConnectionHandler) (h h' : op_heap) : Prop := {
  og_next : next_op h <= next_op h';
  og_old p : p < next_op h -> ops h' !! p = ops h !! p;
  og_table p : p ∈ callback_table c' -> p ∈ callback_table c \/ next_op h <= p
}.

Definition grows {H} {HC : HasConnection H} (x x' : Ctx H) : Prop :=
  ops_grow (ch_of (self x)) (ch_of (self x')) (heap (proc x)) (heap (proc x')).

(** The send buffer after [bl] has been copied to its start. *)
Definition filled (bl : bytes) (b : bufferlist) : bufferlist :=
  {| bl_addr := bl_addr b; bl_data := bl ++ drop (length bl) (bl_data b) |}.

(** Every live operation has an address below the next one. *)
Definition heap_ok (h : op_heap) : Prop :=
  0 < next_op h /\ forall p, is_Some (ops h !! p) -> 0 < p < next_op h.

(** The states between the steps of a completion: the operation has left the
    table; the operation object is gone; the connection has been torn down. *)
Definition erased {H} {HC : HasConnection H} (p : Z) (x : Ctx H) : Ctx H :=
  let c := ch_of (self x) in
  with_self (set_ch (with_table (callback_table c ∖ {[p]}) c) (self x)) x.
Definition freed {H} (p : Z) (x : Ctx H) : Ctx H :=
  let h := heap (proc x) in
  with_proc (with_heap {| ops := delete p (ops h); next_op := next_op h |} (proc x)) x.
Definition torn {H} {HC : HasConnection H} (x : Ctx H) : Ctx H :=
  let c := ch_of (self x) in
  with_self (set_ch (with_conn (set_disconnected (_conn c)) c) (self x)) x.

(** The contract of a callback: it keeps the agreement, touches no existing
    operation, and does not fault. *)
Definition callback_ok {H} {HC : HasConnection H} (run_callback : callback -> M (Ctx H) unit)
    : Prop :=
  forall cb x t, ops_ok x t ->
    wp (run_callback cb) (fun o x' t' =>
      ops_ok x' t' /\ grows x x' /\ forall f, o <> Faulted f) x t.

(** ** Lemmas *)

Lemma grow_refl c h : ops_grow c c h h.
Proof. split; [lia | done | by left]. Qed.

Lemma grow_trans c1 c2 c3 h1 h2 h3 :
  ops_grow c1 c2 h1 h2 -> ops_grow c2 c3 h2 h3 -> ops_grow c1 c3 h1 h3.
Proof.
  intros [N1 O1 T1] [N2 O2 T2]. split; [lia| |].
  - intros p Hp. rewrite O2 by lia. auto.
  - intros p Hp. destruct (T2 p Hp) as [Hp'|]; [auto | right; lia].
Qed.

Lemma ops_inv_other c h t call a :
  touches_queue call = false -> ops_inv c h t -> ops_inv c h (t ++ [Ev call a]).
Proof. intros Hc [I1 I2 I3 I4]. split; try done. by rewrite outstanding_other. Qed.

(** The invariant only looks at the table and at the connection. *)
Lemma ops_inv_ext c c' h t :
  callback_table c' = callback_table c -> conn (_conn c') = conn (_conn c) ->
  ops_inv c h t -> ops_inv c' h t.
Proof. intros Ht Hc [I1 I2 I3 I4]. split; rewrite ?Ht, ?Hc; done. Qed.

Lemma grow_ext c c1 c' c1' h h' :
  callback_table c1 = callback_table c -> callback_table c1' = callback_table c' ->
  ops_grow c c' h h' -> ops_grow c1 c1' h h'.
Proof. intros H1 H2 [G1 G2 G3]. split; [done..|]. by rewrite H1, H2. Qed.

(** A new object, before it is posted. *)
Lemma ops_inv_new c h t o :
  ops_inv c h t ->
  ops_inv c {| ops := <[next_op h := o]> (ops h); next_op := next_op h + 1 |} t.
Proof.
  intros [I1 I2 I3 I4]. split; simpl; [| |lia|done].
  - intros p Hp. destruct (decide (p = next_op h)) as [->|]; [by rewrite lookup_insert_eq|].
    rewrite lookup_insert_ne; auto.
  - intros p. destruct (decide (p = next_op h)) as [->|]; [lia|].
    rewrite lookup_insert_ne by done. intros Hp. apply I2 in Hp. lia.
Qed.

Lemma not_in_table c h t : ops_inv c h t -> next_op h ∉ callback_table c.
Proof. intros Hinv Hp. apply (oi_live _ _ _ Hinv), (oi_bound _ _ _ Hinv) in Hp. lia. Qed.

(** Deleting an object that is not in the table. *)
Lemma ops_inv_delete c h t p :
  p ∉ callback_table c -> ops_inv c h t ->
  ops_inv c {| ops := delete p (ops h); next_op := next_op h |} t.
Proof.
  intros Hp [I1 I2 I3 I4]. split; simpl; [| |done..].
  - intros q Hq. rewrite lookup_delete_ne; [auto|]. intros ->. done.
  - intros q [o Ho]. apply lookup_delete_Some in Ho as [_ Ho]. eauto.
Qed.

Lemma blen_filled bl b :
  blen bl <= blen (bl_data b) -> blen (bl_data (filled bl b)) = blen (bl_data b).
Proof. unfold filled, blen. simpl. rewrite length_app, length_drop. lia. Qed.

Section Lemmas.
Context {O : Oracle} {H : Type} {HC : HasConnection H} {HCL : HasConnectionLaws H}.

Lemma wp_on_ch {A} (m : M ConnectionHandler A) Q (x : Ctx H) t :
  wp m (fun o c t' => Q o (with_self (set_ch c (self x)) x) t') (ch_of (self x)) t ->
  wp (on_ch m) Q x t.
Proof. intros. by apply wp_zoom. Qed.

Lemma wp_on_heap {A} (m : M op_heap A) Q (x : Ctx H) t :
  wp m (fun o h t' => Q o (with_proc (with_heap h (proc x)) x) t') (heap (proc x)) t ->
  wp (on_heap m) Q x t.
Proof. intros. by apply wp_zoom, wp_zoom. Qed.

Lemma wp_new_op k cb Q (x : Ctx H) t :
  let h := heap (proc x) in
  Q (Ret (next_op h)) (with_proc (with_heap
      {| ops := <[next_op h := {| class := k; func := cb |}]> (ops h);
         next_op := next_op h + 1 |} (proc x)) x) t ->
  wp (on_heap (new_op k cb)) Q x t.
Proof. intros. by apply wp_on_heap. Qed.

Lemma wp_delete_op p Q (x : Ctx H) t :
  let h := heap (proc x) in
  is_Some (ops h !! p) ->
  Q (Ret tt) (with_proc (with_heap
      {| ops := delete p (ops h); next_op := next_op h |} (proc x)) x) t ->
  wp (on_heap (delete_op p)) Q x t.
Proof.
  intros h [o Ho] HQ. apply wp_on_heap. unfold wp, delete_op. fold h. by rewrite Ho.
Qed.

(** A call that posts at most the operation [p] on the connection of [x]; [R] is
    what else is known of the trace, given [p] and the result. *)
Definition posts (R : Z -> Z -> trace -> Prop) (post : Z -> M (Ctx H) Z)
    (x : Ctx H) (t : trace) : Prop :=
  let q := QConn (conn (_conn (ch_of (self x)))) in
  forall p pr, p <> NULL ->
    wp (post p) (returns (fun ret x' t' => x' = with_proc pr x /\ R p ret t' /\
      outstanding q t' ⊆ if ret =? 0 then {[p]} ∪ outstanding q t else outstanding q t))
      (with_proc pr x) t.

Lemma wp_post_op R k cb post x t :
  ops_ok x t -> posts R post x t ->
  wp (post_op k cb post) (returns (fun ret x' t' =>
      ops_ok x' t' /\ grows x x' /\ R (next_op (heap (proc x))) ret t' /\
      this x' = this x /\ reactor (proc x') = reactor (proc x) /\
      peers (proc x') = peers (proc x) /\
      let p := next_op (heap (proc x)) in
      if ret =? 0
      then self x' = set_ch (with_table ({[p]} ∪ callback_table (ch_of (self x)))
                               (ch_of (self x))) (self x) /\
           ops (heap (proc x')) = <[p := {| class := k; func := cb |}]> (ops (heap (proc x)))
      else self x' = self x /\ ops (heap (proc x')) = ops (heap (proc x)))) x t.
Proof.
  intros Hok Hpost. unfold post_op. apply wp_bind, wp_new_op. cbn beta iota.
  set (h := heap (proc x)). set (p := next_op h).
  set (h1 := {| ops := _ |}).
  pose proof (ops_inv_new _ _ _ {| class := k; func := cb |} Hok) as Hnew. fold h h1 in Hnew.
  pose proof (not_in_table _ _ _ Hok) as Hfresh. fold h p in Hfresh.
  assert (Hp : p <> NULL) by (pose proof (oi_next _ _ _ Hok); unfold p, h, NULL; lia).
  apply wp_bind. eapply wp_mono; [apply (Hpost p (with_heap h1 (proc x)) Hp)|].
  intros [ret| |] x1 t1; simpl; [|done..]. intros (-> & HR & Hout).
  wp_step. destruct (ret =? 0) eqn:Hret.
  - apply wp_on_ch. do 2 wp_step. simpl. rewrite Hret.
    split_and!; try done.
    + unfold ops_ok; simpl. rewrite ch_of_set_ch. destruct Hnew as [I1 I2 I3 I4].
      split; simpl; [|done..|]; [|etrans; [exact Hout|]; by apply union_mono_l].
      intros q [->%elem_of_singleton|Hq]%elem_of_union; [by rewrite lookup_insert_eq | auto].
    + unfold grows; simpl. rewrite ch_of_set_ch. split; simpl; fold h; [lia| |].
      * intros q Hq. apply lookup_insert_ne. unfold p. lia.
      * intros q [->%elem_of_singleton|Hq]%elem_of_union; [right; unfold p; lia | by left].
  - apply wp_delete_op; [by simpl; rewrite lookup_insert_eq|]. wp_step. simpl. rewrite Hret.
    assert (Hnone : ops h !! p = None).
    { destruct (ops h !! p) eqn:E; [|done].
      pose proof (oi_bound _ _ _ Hok p) as Hb. fold h in Hb. rewrite E in Hb.
      specialize (Hb ltac:(eauto)). unfold p in *. lia. }
    rewrite delete_insert_id by done. split_and!; try done.
    + unfold ops_ok; simpl. destruct Hok as [I1 I2 I3 I4]. fold h in I1, I2, I3.
      split; simpl; [done| |lia|by etrans].
      intros q Hq. apply I2 in Hq. lia.
    + split; simpl; fold h; [lia | done | by left].
Qed.

Lemma posts_send (R : Z -> Z -> trace -> Prop) x t :
  let c := ch_of (self x) in
  (forall p ret, p <> NULL ->
     answer_of t (C_send (conn (_conn c)) (send_mr c) 0 MSG_SIZE RPMA_F_COMPLETION_ALWAYS p) = ret ->
     R p ret (t ++ [Ev (C_send (conn (_conn c)) (send_mr c) 0 MSG_SIZE
                          RPMA_F_COMPLETION_ALWAYS p) ret])) ->
  posts R (fun p => c ← gets (fun x => ch_of (self x));
    RpmaSend_call (conn (_conn c)) (send_mr c) 0 MSG_SIZE RPMA_F_COMPLETION_ALWAYS p) x t.
Proof.
  intros c HR p pr Hp. unfold RpmaSend_call, rpma_send. wp_steps. simpl.
  split_and!; [done | by apply HR|].
  rewrite outstanding_send. destruct (Z.eqb_spec a 0); case_decide; set_solver.
Qed.

Lemma posts_recv (R : Z -> Z -> trace -> Prop) x t :
  let c := ch_of (self x) in
  (forall p ret, p <> NULL ->
     answer_of t (C_recv (conn (_conn c)) (recv_mr c) 0 MSG_SIZE p) = ret ->
     R p ret (t ++ [Ev (C_recv (conn (_conn c)) (recv_mr c) 0 MSG_SIZE p) ret])) ->
  posts R (fun p => c ← gets (fun x => ch_of (self x));
    RpmaRecv_call (conn (_conn c)) (recv_mr c) 0 MSG_SIZE p) x t.
Proof.
  intros c HR p pr Hp. unfold RpmaRecv_call, rpma_recv. wp_steps. simpl.
  split_and!; [done | by apply HR|].
  rewrite outstanding_recv. destruct (Z.eqb_spec a 0); case_decide; set_solver.
Qed.

Lemma wp_fill_send_buffer bl Q (x : Ctx H) t :
  let c := ch_of (self x) in
  blen bl < MSG_SIZE -> blen (bl_data (send_bl c)) = MSG_SIZE ->
  Q (Ret tt) (with_self (set_ch (with_send_bl (filled bl (send_bl c)) c) (self x)) x) t ->
  wp (on_ch (fill_send_buffer bl)) Q x t.
Proof.
  intros c Hlen Hbuf HQ. apply wp_on_ch. unfold fill_send_buffer.
  rewrite (proj2 (Z.ltb_lt _ _) Hlen). apply wp_bind, wp_assert; [intros _|done].
  do 4 wp_step.
  unfold memcpy_at. rewrite decide_True by (unfold c, blen in *; lia). wp_step. apply HQ.
Qed.

Lemma ops_ok_ext (x : Ctx H) c pr t :
  callback_table c = callback_table (ch_of (self x)) ->
  conn (_conn c) = conn (_conn (ch_of (self x))) -> heap pr = heap (proc x) ->
  ops_ok x t -> ops_ok (with_proc pr (with_self (set_ch c (self x)) x)) t.
Proof.
  intros Ht Hc Hh Hok. unfold ops_ok; simpl. rewrite ch_of_set_ch, Hh. by eapply ops_inv_ext.
Qed.

Lemma wp_disconnect (x : Ctx H) t (Q : outcome Z -> Ctx H -> trace -> Prop) :
  (forall ret, Q (Ret ret) (torn x)
     (t ++ [Ev (C_conn_disconnect (conn (_conn (ch_of (self x))))) ret])) ->
  wp (on_ch (on_conn RpmaConn_disconnect)) Q x t.
Proof.
  intros HQ. apply wp_on_ch, wp_zoom. unfold RpmaConn_disconnect, rpma_conn_disconnect.
  wp_steps. apply HQ.
Qed.

Lemma ops_ok_torn (x : Ctx H) t : ops_ok x t -> ops_ok (torn x) t.
Proof. intros Hok. by apply (ops_ok_ext x _ (proc x)). Qed.

Lemma wp_op_func p o Q (x : Ctx H) t :
  ops (heap (proc x)) !! p = Some o -> Q (Ret (func o)) x t -> wp (on_heap (op_func p)) Q x t.
Proof.
  intros Ho HQ. apply wp_on_heap. unfold wp, op_func. rewrite Ho.
  replace (with_proc _ x) with x; [done|]. by destruct x as [? ? []].
Qed.

Section Virtual.
Context (remove_self : M (Ctx H) Z) (run_callback : callback -> M (Ctx H) unit).

Lemma wp_do_callback cb x t :
  callback_ok run_callback -> ops_ok x t ->
  wp (do_callback run_callback cb) (fun o x' t' =>
      ops_ok x' t' /\ grows x x' /\ forall f, o <> Faulted f) x t.
Proof.
  intros Hcb Hok. unfold do_callback. case_bool_decide; [|by apply Hcb].
  wp_step. split_and!; [done | apply grow_refl | done].
Qed.

(** A completed operation, up to what its callback does. *)
Lemma wp_complete_op p o Q x t :
  ops (heap (proc x)) !! p = Some o ->
  wp (do_callback run_callback (func o)) (fun r x' t' =>
    match r with
    | Ret _ => is_Some (ops (heap (proc x')) !! p) /\ Q (Ret tt) (freed p x') t'
    | Throw e => is_Some (ops (heap (proc x')) !! p) /\ Q (Throw e) (freed p x') t'
    | Faulted f => Q (Faulted f) x' t'
    end) (erased p x) t ->
  wp (complete_op run_callback p) Q x t.
Proof.
  intros Hp Hcb. unfold complete_op. apply wp_bind, wp_on_ch. wp_step. fold (erased p x).
  apply wp_bind, wp_on_throw, wp_bind. eapply wp_op_func; [done|].
  eapply wp_mono; [exact Hcb|]. intros [[]|e|f] x' t'; [| |done];
    intros [Hlive HQ]; by apply wp_delete_op.
Qed.

(** What [handle_completion] does with an error of librpma. *)
Definition completion_error (ret : Z) (x : Ctx H) (t : trace)
    (Q : outcome Z -> Ctx H -> trace -> Prop) : Prop :=
  if ret =? RPMA_E_NO_COMPLETION then Q (Ret 0) x t
  else forall a, Q (Ret ret) (torn x)
         (t ++ [Ev (C_conn_disconnect (conn (_conn (ch_of (self x))))) a]).

Lemma wp_completion_error ret Q x t :
  completion_error ret x t Q ->
  wp (if ret =? RPMA_E_NO_COMPLETION then mret 0
      else on_ch (on_conn RpmaConn_disconnect);; mret ret) Q x t.
Proof.
  unfold completion_error. intros HQ. destruct (ret =? RPMA_E_NO_COMPLETION); [by wp_step|].
  apply wp_bind, wp_disconnect. intros a. wp_step. apply HQ.
Qed.

(** The whole of [handle_completion], up to the completed operation. *)
Lemma wp_handle_completion Q x t :
  let cn := conn (_conn (ch_of (self x))) in
  (forall w, answer_of t (C_conn_completion_wait cn) = w -> w <> 0 ->
     completion_error w x (t ++ [Ev (C_conn_completion_wait cn) w]) Q) ->
  (forall ret cmpl,
     let t1 := t ++ [Ev (C_conn_completion_wait cn) 0] in
     let t2 := t1 ++ [Ev (C_conn_completion_get cn) (ret, cmpl)] in
     answer_of t (C_conn_completion_wait cn) = 0 ->
     answer_of t1 (C_conn_completion_get cn) = (ret, cmpl) ->
     if negb (ret =? 0) then completion_error ret x t2 Q
     else if negb (op_status cmpl =? IBV_WC_SUCCESS) || (op_context cmpl =? NULL)
     then Q (Ret 0) x t2
     else wp (complete_op run_callback (op_context cmpl)) (fun o x' t' =>
            Q (match o with Ret _ => Ret 0 | Throw e => Throw e | Faulted f => Faulted f end)
              x' t') x t2) ->
  wp (handle_completion run_callback) Q x t.
Proof.
  intros cn Hwait Hget.
  unfold handle_completion, rpma_conn_completion_wait, rpma_conn_completion_get.
  do 4 wp_step. fold cn. apply wp_if; intros Hw; bools.
  { apply wp_completion_error. auto. }
  subst a. rewrite Hw. do 2 wp_step. destruct a as [ret cmpl].
  pose proof (Hget ret cmpl Hw ltac:(done)) as HQ. destruct (ret =? 0) eqn:Hret; simpl in HQ |- *.
  2: { by apply wp_completion_error. }
  apply Z.eqb_eq in Hret. subst ret.
  destruct (op_status cmpl =? IBV_WC_SUCCESS); simpl in HQ |- *; [|exact HQ].
  destruct (op_context cmpl =? NULL); simpl; [exact HQ|].
  apply wp_bind. eapply wp_mono; [exact HQ|]. intros [[]| |] x' t'; done.
Qed.

(** Completing an outstanding operation keeps the agreement, if its callback does. *)
Lemma wp_complete_op_safe p x t :
  let c := ch_of (self x) in
  callback_ok run_callback -> ops_ok x t ->
  is_Some (ops (heap (proc x)) !! p) ->
  outstanding (QConn (conn (_conn c))) t ⊆ callback_table c ∖ {[p]} ->
  wp (complete_op run_callback p) (fun o x' t' =>
      ops_ok x' t' /\ (p ∉ callback_table (ch_of (self x'))) /\
      ops (heap (proc x')) !! p = None /\ forall f, o <> Faulted f) x t.
Proof.
  intros c Hcb Hok [op Hp] Hout. eapply wp_complete_op; [done|].
  assert (Hok1 : ops_ok (erased p x) t).
  { unfold ops_ok, erased; simpl. rewrite ch_of_set_ch. destruct Hok as [I1 I2 I3 I4].
    split; simpl; [intros q Hq; apply I1; set_solver | done..]. }
  assert (Hnot : p ∉ callback_table (ch_of (self (erased p x)))).
  { unfold erased; simpl. rewrite ch_of_set_ch. simpl. set_solver. }
  assert (Hb : 0 < p < next_op (heap (proc x))) by (apply (oi_bound _ _ _ Hok); eauto).
  eapply wp_mono; [by apply wp_do_callback|]. intros o x2 t2 (Hok2 & [G1 G2 G3] & Hnf).
  assert (Hn2 : p ∉ callback_table (ch_of (self x2))) by (intros [|]%G3; [done|simpl in *; lia]).
  assert (Hlive : is_Some (ops (heap (proc x2)) !! p)) by (rewrite G2; simpl; [eauto | lia]).
  destruct o as [[]|e|f]; [| |by destruct (Hnf f)]; (split; [done|]); simpl;
    (split_and!; [by apply ops_inv_delete | done | apply lookup_delete_eq | done]).
Qed.

Lemma ops_ok_completion x t w ret cmpl :
  let cn := conn (_conn (ch_of (self x))) in
  ops_ok x t ->
  ops_ok x ((t ++ [Ev (C_conn_completion_wait cn) w]) ++
    [Ev (C_conn_completion_get cn) (ret, cmpl)]).
Proof.
  intros cn [I1 I2 I3 I4]. split; try done. fold cn in I4 |- *.
  rewrite outstanding_completion, outstanding_other by done. case_decide; set_solver.
Qed.

(** The operation a completion names is live, and no longer outstanding. *)
Lemma completed_live {CD : CompletionDocumented O} x t w cmpl :
  let c := ch_of (self x) in let cn := conn (_conn c) in
  let t1 := t ++ [Ev (C_conn_completion_wait cn) w] in
  let t2 := t1 ++ [Ev (C_conn_completion_get cn) (0, cmpl)] in
  ops_ok x t -> answer_of t1 (C_conn_completion_get cn) = (0, cmpl) ->
  op_context cmpl <> NULL ->
  (op_context cmpl ∈ callback_table c) /\
  is_Some (ops (heap (proc x)) !! op_context cmpl) /\
  outstanding (QConn cn) t2 ⊆ callback_table c ∖ {[op_context cmpl]}.
Proof.
  intros c cn t1 t2 Hok Hget Hctx.
  pose proof (completion_of_posted _ _ _ Hget Hctx) as Hposted.
  unfold t1 in Hposted. rewrite outstanding_other in Hposted by done.
  apply (oi_outstanding _ _ _ Hok) in Hposted. split_and!; [done | by apply (oi_live _ _ _ Hok) |].
  unfold t2, t1. rewrite outstanding_completion, outstanding_other, decide_True by done.
  apply difference_mono_r, Hok.
Qed.

Lemma wp_handle_completion_safe {CD : CompletionDocumented O} x t :
  callback_ok run_callback -> ops_ok x t ->
  wp (handle_completion run_callback) (fun o x' t' =>
      ops_ok x' t' /\ forall f, o <> Faulted f) x t.
Proof.
  intros Hcb Hok.
  assert (Herr : forall ret t', ops_ok x t' ->
    completion_error ret x t' (fun o x' t' => ops_ok x' t' /\ forall f, o <> Faulted f)).
  { intros ret t' Hok'. unfold completion_error. case_match; [done|]. intros a.
    split; [|done]. apply ops_ok_torn. by apply ops_inv_other. }
  apply wp_handle_completion; [intros; apply Herr; by apply ops_inv_other|].
  intros ret cmpl t1 t2 Hw Hget. pose proof (ops_ok_completion x t 0 ret cmpl Hok) as Hok2.
  destruct (ret =? 0) eqn:Hret; simpl; [|by apply Herr]. bools. subst ret.
  destruct (_ || _) eqn:Hst; [done|]. bools.
  destruct (completed_live x t 0 cmpl Hok Hget) as (_ & Hlive & Hout); [done|].
  eapply wp_mono; [by apply wp_complete_op_safe|].
  intros o x' t' (Hok' & _ & _ & Hnf). split; [done|].
  destruct o as [| |f]; [done..|by destruct (Hnf f)].
Qed.
End Virtual.
End Lemmas.

(** ** The buffers, the descriptors in the reactor, and the destructor *)

Section Resource_lemmas.
Context {O : Oracle}.

(** A memory region is registered with a peer the process holds. *)
Lemma ledger_mr_reg t L peer ptr size usage a :
  ledger t = Some L -> (peer <> NULL -> RPeer peer ∈ L) ->
  ledger (t ++ [Ev (C_mr_reg peer ptr size usage) a]) =
    Some (if a.1 =? 0 then L ⊎ {[+ RMr a.2 +]} else L).
Proof.
  intros HL Hp. destruct (a.1 =? 0) eqn:E.
  - apply ledger_acquire; try done; [by apply Forall_nonnull | by simpl; rewrite E].
  - apply ledger_use; try done; [by apply Forall_nonnull | by simpl; rewrite E].
Qed.

Lemma wp_mr_delete {S} mr (s : S) t L :
  ledger t = Some (L ⊎ owned_mr mr) ->
  wp (mr_delete mr) (returns (fun _ s' t' =>
    s' = s /\ ledger t' = Some L /\ t `prefix_of` t' /\
    forall q, outstanding q t' = outstanding q t)) s t.
Proof.
  intros HL. unfold mr_delete, rpma_mr_dereg, owned_mr in *. destruct (mr =? NULL) eqn:E.
  - wp_step. simpl. split_and!; [done| |done..]. rewrite HL. f_equal. multiset_solver.
  - wp_steps. simpl. split_and!; [done| |by eexists|intros; by apply outstanding_other].
    by eapply ledger_release.
Qed.

Lemma wp_mr_delete_null {S} (s : S) t Q : Q (Ret tt) s t -> wp (mr_delete NULL) Q s t.
Proof. done. Qed.

Lemma wp_new_bufferlist {S} n (s : S) t L Q :
  ledger t = Some L ->
  (forall bl t', blen (bl_data bl) = Z.max 0 n -> ledger t' = Some L ->
     (forall q, outstanding q t' = outstanding q t) -> Q (Ret bl) s t') ->
  wp (new_bufferlist n) Q s t.
Proof.
  intros HL HQ. unfold new_bufferlist. wp_steps. apply HQ; simpl.
  - unfold blen. rewrite length_take, length_app, length_replicate. lia.
  - by apply ledger_neutral.
  - intros q. by apply outstanding_other.
Qed.

Lemma wp_rpma_mr_reg {RD : RpmaDocumented O} {S} peer ptr n usage mr0 (s : S) t L Q :
  ledger t = Some L -> (peer <> NULL -> RPeer peer ∈ L) ->
  (forall ret raw,
     let t' := t ++ [Ev (C_mr_reg peer ptr n usage) (ret, raw)] in
     let mr := out_on_success ret raw mr0 in
     (forall q, outstanding q t' = outstanding q t) ->
     (if ret =? 0 then mr = raw /\ mr <> NULL /\ ledger t' = Some (L ⊎ {[+ RMr mr +]})
      else mr = mr0 /\ ledger t' = Some L) ->
     Q (Ret (ret, mr)) s t') ->
  wp (rpma_mr_reg peer ptr n usage mr0) Q s t.
Proof.
  intros HL Hp HQ. unfold rpma_mr_reg. do 2 wp_step. destruct a as [ret mr]. wp_step.
  pose proof (documented_out t (C_mr_reg peer ptr n usage) mr) as Hmr. rewrite H in Hmr.
  pose proof (ledger_mr_reg t L peer ptr n usage (ret, mr) HL Hp) as HL'. simpl in *.
  apply HQ; [intros q; by apply outstanding_other|].
  unfold out_on_success. destruct (ret =? 0); auto.
Qed.

Lemma wp_common_peer {RD : RpmaDocumented O} {S} addr ty p0 (s : S) t L Q :
  ledger t = Some L ->
  (forall ret p t', (if ret =? 0 then p <> NULL /\ ledger t' = Some (L ⊎ {[+ RPeer p +]})
                     else p = p0 /\ ledger t' = Some L) -> Q (Ret (ret, p)) s t') ->
  wp (common_peer_via_address addr ty p0) Q s t.
Proof.
  intros HL HQ. unfold common_peer_via_address, rpma_utils_get_ibv_context, rpma_peer_new.
  do 3 wp_step. destruct a as [ret dev]. wp_step.
  set (t1 := t ++ _). assert (HL1 : ledger t1 = Some L) by (by apply ledger_neutral).
  destruct (ret =? 0) eqn:Hret; cbn [negb].
  2: { wp_step. apply HQ. by rewrite Hret. }
  do 2 wp_step. destruct a as [ret' p]. wp_step. apply HQ. unfold out_on_success.
  destruct (ret' =? 0) eqn:Hret'.
  - split; [|apply ledger_acquire; try done; simpl; by rewrite Hret'].
    apply (documented_out t1 (C_peer_new (out_on_success ret dev NULL)) p).
    rewrite H0. simpl. by rewrite Hret'.
  - split; [done|]. apply ledger_neutral; try done. simpl. by rewrite Hret'.
Qed.

Lemma owned_mr_some mr : mr <> NULL -> owned_mr mr = {[+ RMr mr +]}.
Proof. intros H. unfold owned_mr. by rewrite (proj2 (Z.eqb_neq _ _) H). Qed.

Lemma wp_init_send_recv_buffer {RD : RpmaDocumented O} c t L :
  recv_mr c = NULL -> send_mr c = NULL -> (_peer c <> NULL -> RPeer (_peer c) ∈ L) ->
  ledger t = Some (L ⊎ owned_ch c) ->
  wp init_send_recv_buffer (fun o c' t' =>
      (callback_table c' = callback_table c /\ _conn c' = _conn c /\ _peer c' = _peer c) /\
      (forall q, outstanding q t' = outstanding q t) /\
      ledger t' = Some (L ⊎ owned_ch c') /\
      match o with
      | Ret _ => recv_mr c' <> NULL /\ send_mr c' <> NULL /\
          blen (bl_data (recv_bl c')) = MSG_SIZE /\ blen (bl_data (send_bl c')) = MSG_SIZE
      | Throw e => e = runtime_error "recv memory region registers failed." \/
                   e = runtime_error "send memory region registers failed."
      | Faulted _ => False
      end) c t.
Proof.
  intros Hr Hs Hpeer HL.
  assert (Hin : forall X, _peer c <> NULL -> RPeer (_peer c) ∈ L ⊎ X) by (intros; multiset_solver).
  unfold init_send_recv_buffer.
  apply wp_bind. eapply wp_new_bufferlist; [exact HL|]. intros rbl t1 Hrbl HL1 Ho1.
  do 4 wp_step. apply wp_bind. eapply wp_rpma_mr_reg; [exact HL1 | apply Hin|].
  intros ret raw t2 mr Ho2 HL2. cbn beta iota. apply wp_if; intros Hret; bools.
  { rewrite (proj2 (Z.eqb_neq _ _) Hret) in HL2. destruct HL2 as [_ HL2]. wp_step.
    split_and!; try done; [intros q; by rewrite Ho2, Ho1 | by left]. }
  subst ret. destruct HL2 as (_ & Hmr & HL2). clearbody mr t2. do 2 wp_step. unfold owned_ch in HL2.
  rewrite Hr, Hs in HL2. cbn [recv_mr with_recv_bl]. rewrite Hr.
  apply wp_bind, wp_mr_delete_null.
  apply wp_bind. eapply wp_new_bufferlist; [exact HL2|]. intros sbl t3 Hsbl HL3 Ho3.
  do 4 wp_step. apply wp_bind. eapply wp_rpma_mr_reg; [exact HL3 | simpl; multiset_solver|].
  intros ret raw' t4 mr' Ho4 HL4. cbn beta iota. apply wp_if; intros Hret; bools.
  { rewrite (proj2 (Z.eqb_neq _ _) Hret) in HL4. destruct HL4 as [_ HL4]. wp_step.
    split_and!; try done; [intros q; by rewrite Ho4, Ho3, Ho2, Ho1 | | by right].
    rewrite HL4. unfold owned_ch; simpl. rewrite Hs, (owned_mr_some mr) by done.
    f_equal. multiset_solver. }
  subst ret. destruct HL4 as (_ & Hmr' & HL4). clearbody mr' t4. do 2 wp_step. cbn [send_mr with_recv_bl with_recv_mr with_send_bl].
  rewrite Hs. apply wp_mr_delete_null. split_and!; try done; [intros q; by rewrite Ho4, Ho3, Ho2, Ho1|].
  rewrite HL4. unfold owned_ch; simpl. rewrite (owned_mr_some mr), (owned_mr_some mr') by done.
  f_equal. change (owned_mr NULL) with (∅ : gmultiset res). multiset_solver.
Qed.

(** [init_conn_fd] changes only the descriptors. *)
Lemma wp_init_conn_fd c t L :
  ledger t = Some (L ⊎ owned_conn (_conn c)) ->
  wp init_conn_fd (fun o c' t' =>
      c' = with_comp_fd (_comp_fd c') (with_conn_fd (_conn_fd c') c) /\
      ledger t' = Some (L ⊎ owned_conn (_conn c)) /\ forall f, o <> Faulted f) c t.
Proof.
  intros HL. unfold init_conn_fd, rpma_conn_get_event_fd, rpma_conn_get_completion_fd.
  pose proof (owned_conn_in (_conn c) L) as Hin.
  wp_steps; (split_and!; [by destruct c | | done]); simpl;
    by repeat (eapply ledger_use_conn; [done..|]).
Qed.

(** The peer object goes away with its last owner. *)
Definition last_owner (m : gmap Z nat) (p : Z) : gmultiset res :=
  if bool_decide (p <> NULL /\ m !! p = Some 1%nat) then {[+ RPeer p +]} else ∅.

(** A shared pointer that is not empty is counted. *)
Definition counted (m : gmap Z nat) (p : Z) : Prop :=
  p <> NULL -> exists n, m !! p = Some (S n).

Definition drop_owner (m : gmap Z nat) (p : Z) : gmap Z nat :=
  if p =? NULL then m else
  match m !! p with
  | Some (S (S n)) => <[p := S n]> m
  | _ => delete p m
  end.

Lemma wp_peer_release p pr t L :
  counted (peers pr) p -> ledger t = Some (L ⊎ last_owner (peers pr) p) ->
  wp (peer_release p) (returns (fun _ pr' t' =>
      pr' = with_peers (drop_owner (peers pr) p) pr /\ ledger t' = Some L)) pr t.
Proof.
  unfold counted, last_owner, peer_release, rpma_peer_delete, drop_owner.
  intros Hc HL. destruct (Z.eqb_spec p NULL) as [->|Hp].
  { rewrite bool_decide_eq_false_2 in HL by tauto. wp_step. simpl. rewrite HL.
    split; [by destruct pr | f_equal; multiset_solver]. }
  destruct (Hc Hp) as [n Hn]. rewrite Hn in *. do 2 wp_step. rewrite Hn.
  destruct n as [|n].
  - rewrite bool_decide_eq_true_2 in HL by done. wp_steps. simpl. split; [done|].
    by eapply ledger_release.
  - rewrite bool_decide_eq_false_2 in HL by naive_solver. wp_step. simpl. split; [done|].
    rewrite HL. f_equal. multiset_solver.
Qed.
End Resource_lemmas.

Section Method_lemmas.
Context {O : Oracle} {H : Type} {HC : HasConnection H} {HCL : HasConnectionLaws H}.

Lemma wp_delete_ops ps (x : Ctx H) t :
  NoDup ps -> (forall p, p ∈ ps -> is_Some (ops (heap (proc x)) !! p)) ->
  wp (delete_ops ps) (returns (fun _ x' t' => t' = t /\
      exists h', x' = with_proc (with_heap h' (proc x)) x /\
        forall q, ops h' !! q = if decide (q ∈ ps) then None else ops (heap (proc x)) !! q)) x t.
Proof.
  revert x. induction ps as [|p ps IH]; intros x Hnd Hlive; simpl.
  { wp_step. split; [done|]. exists (heap (proc x)). split; [by destruct x as [? ? []]|].
    intros q. done. }
  apply NoDup_cons in Hnd as [Hp Hnd]. apply wp_bind, wp_delete_op; [apply Hlive; left|].
  eapply wp_mono; [apply IH; [done|]|].
  - intros q Hq. simpl. rewrite lookup_delete_ne by (by intros ->). apply Hlive. by right.
  - intros [[]| |] x' t'; simpl; [|done..]. intros (-> & h' & -> & Hh'). split; [done|].
    exists h'. split; [done|]. intros q. rewrite Hh'. destruct (decide (q = p)) as [->|Hne].
    + rewrite (decide_False (P := p ∈ ps)), lookup_delete_eq, decide_True by (done || left). done.
    + rewrite lookup_delete_ne by done. do 2 case_decide; set_solver.
Qed.

Lemma wp_on_reactor dead m r Q (x : Ctx H) t :
  reactor (proc x) = Some r ->
  wp m (fun o r' t' => Q o (with_proc (with_reactor (Some r') (proc x)) x) t') r t ->
  wp (on_reactor dead m) Q x t.
Proof.
  intros Hr Hm. unfold wp, on_reactor in *. rewrite Hr. by destruct (m r t) as [[? ?] ?].
Qed.
Lemma wp_conn_remove_self {ED : EpollDocumented O} r (x : Ctx H) t :
  let c := ch_of (self x) in
  reactor (proc x) = Some r -> reactor_inv r t -> _conn_fd c <> -1 -> _comp_fd c <> -1 ->
  wp conn_remove_self (returns (fun ret x' t' => exists r',
      x' = with_proc (with_reactor (Some r') (proc x)) x /\ reactor_inv r' t' /\
      ret = 0 /\ _epoll r' = _epoll r /\
      event_table r' = delete (_comp_fd c) (delete (_conn_fd c) (event_table r)) /\
      interest (_epoll r) t' =
        delete (_comp_fd c) (delete (_conn_fd c) (interest (_epoll r) t)))) x t.
Proof.
  intros c Hr Hinv H1 H2. unfold conn_remove_self. wp_step. apply wp_gets.
  eapply wp_on_reactor; [done|]. apply wp_bind.
  eapply wp_mono; [by apply wp_remove_handler|].
  intros [ret| |] r1 t1; simpl; [|done..]. fold c. rewrite (proj2 (Z.eqb_neq _ _) H1).
  intros (Hi1 & He1 & -> & Ht1 & Hn1). apply wp_bind.
  eapply wp_mono; [by apply wp_remove_handler|].
  intros [ret| |] r2 t2; simpl; [|done..]. fold c. rewrite (proj2 (Z.eqb_neq _ _) H2), He1.
  intros (Hi2 & He2 & -> & Ht2 & Hn2). wp_step. exists r2. split_and!; try done.
  - by rewrite Ht2, Ht1.
  - by rewrite Hn2, Hn1.
Qed.

Lemma wp_conn_register_self {ED : EpollDocumented O} r x t :
  let c := ch_of (self x) in
  let e et := {| eh_type := et; eh_handler := this x |} in
  reactor (proc x) = Some r -> reactor_inv r t -> _conn_fd c <> _comp_fd c ->
  event_table r !! _conn_fd c = None -> event_table r !! _comp_fd c = None ->
  wp conn_register_self (returns (fun ret x' t' => exists r',
      x' = with_proc (with_reactor (Some r') (proc x)) x /\ reactor_inv r' t' /\
      (ret = 0 /\ (exists n n',
         event_table r' = <[_comp_fd c := (n', e COMPLETION_EVENT)]>
                         (<[_conn_fd c := (n, e CONNECTION_EVENT)]> (event_table r)) /\
         interest (_epoll r) t' =
           <[_comp_fd c := n']> (<[_conn_fd c := n]> (interest (_epoll r) t))) \/
       ret <> 0 /\ event_table r' = event_table r /\
         interest (_epoll r) t' = interest (_epoll r) t))) x t.
Proof.
  intros c e Hr Hinv Hne H1 H2. unfold conn_register_self. wp_step. apply wp_gets.
  eapply wp_on_reactor; [done|]. apply wp_bind.
  eapply wp_mono; [by apply wp_register_handler|].
  intros [ret| |] r1 t1; simpl; [|done..]. fold c. fold (e CONNECTION_EVENT).
  intros (Hi1 & He1 & [(-> & Hfd & Ht1 & Hn1)|(Hret & Ht1 & Hn1)]); simpl.
  2: { rewrite (proj2 (Z.eqb_neq _ _) Hret). simpl. wp_step. exists r1. split_and!; [done..|by right]. }
  apply wp_bind. eapply wp_mono; [apply wp_register_handler; [done|]|].
  { simpl. fold c. rewrite Ht1. by rewrite lookup_insert_ne. }
  intros [ret| |] r2 t2; simpl; [|done..]. fold c. fold (e COMPLETION_EVENT). rewrite He1, Ht1, Hn1.
  intros (Hi2 & He2 & [(-> & _ & Ht2 & Hn2)|(Hret & Ht2 & Hn2)]); simpl.
  { wp_step. exists r2. split_and!; [done..|]. left. split; [done|]. eauto. }
  rewrite (proj2 (Z.eqb_neq _ _) Hret). simpl. apply wp_bind.
  eapply wp_mono; [by apply wp_remove_handler|]. simpl. fold c. rewrite Ht2, He2, Hn2.
  intros [ret'| |] r3 t3; simpl; [|done..]. fold c in Hfd. intros (Hi3 & He3 & Hcase). wp_step.
  exists r3. split_and!; [done..|]. right. split; [done|].
  assert (Hint : interest (_epoll r) t !! _conn_fd c = None).
  { destruct (interest (_epoll r) t !! _conn_fd c) eqn:E; [|done].
    destruct (inv_watched _ _ Hinv _ _ E) as [? ?]. congruence. }
  rewrite (proj2 (Z.eqb_neq _ _) Hfd) in Hcase. destruct Hcase as (_ & -> & ->).
  by rewrite !delete_insert_id.
Qed.

Lemma wp_ConnectionHandler_dtor (x : Ctx H) t L :
  let c := ch_of (self x) in
  let m := peers (proc x) in
  ops_ok x t -> conn_inv (_conn c) t -> counted m (_peer c) ->
  ledger t = Some (L ⊎ last_owner m (_peer c) ⊎ owned_ch c) ->
  wp ConnectionHandler_dtor (returns (fun _ x' t' =>
      ledger t' = Some L /\ peers (proc x') = drop_owner m (_peer c) /\
      reactor (proc x') = reactor (proc x) /\
      forall p, ops (heap (proc x')) !! p =
        if decide (p ∈ callback_table c) then None else ops (heap (proc x)) !! p)) x t.
Proof.
  intros c m Hok Hconn Hcount HL. unfold ConnectionHandler_dtor. do 2 wp_step. fold c.
  apply wp_bind. eapply wp_mono; [apply wp_delete_ops; [apply NoDup_elements|]|].
  { intros p Hp%elem_of_elements. by apply (oi_live _ _ _ Hok). }
  intros [[]| |] x1 t1; simpl; [|done..]. intros (-> & h' & -> & Hh).
  set (L0 := L ⊎ last_owner m (_peer c)) in *. unfold owned_ch in HL.
  replace (L0 ⊎ _) with (L0 ⊎ owned_conn (_conn c) ⊎ owned_mr (send_mr c) ⊎ owned_mr (recv_mr c))
    in HL by multiset_solver.
  apply wp_bind. eapply wp_mono; [by apply wp_mr_delete|].
  intros [[]| |] x2 t2; simpl; [|done..]. intros (-> & HL2 & Hpre2 & _).
  apply wp_bind. eapply wp_mono; [by apply wp_mr_delete|].
  intros [[]| |] x3 t3; simpl; [|done..]. intros (-> & HL3 & Hpre3 & _).
  apply wp_bind, wp_on_ch, wp_zoom. simpl. fold c.
  eapply wp_mono; [apply wp_RpmaConn_dtor; [done|]|].
  { eapply conn_inv_prefix; [done|]. by etrans. }
  intros [[]| |] s' t4; simpl; [|done..]. intros (_ & HL4 & _).
  apply wp_zoom. simpl. eapply wp_mono; [by apply wp_peer_release|].
  intros [[]| |] pr t5; simpl; [|done..]. intros [-> HL5]. simpl. split_and!; try done.
  intros p. rewrite Hh. do 2 case_decide; set_solver.
Qed.
End Method_lemmas.

(** ** Properties *)

Section Properties.
Context {O : Oracle} {H : Type} {HC : HasConnection H} {HCL : HasConnectionLaws H}.

(** Handling a completion is memory safe: if every completion belongs to an
    operation that was posted and not completed before, and the callbacks keep
    their contract, then no freed operation is touched, none is freed twice, and
    every operation still outstanding stays recorded; whatever librpma answers. *)
Theorem handle_completion_safe {CD : CompletionDocumented O}
    (run_callback : callback -> M (Ctx H) unit) x t :
  callback_ok run_callback -> ops_ok x t ->
  wp (handle_completion run_callback) (fun o x' t' =>
      ops_ok x' t' /\ forall f, o <> Faulted f) x t.
Proof. exact (wp_handle_completion_safe run_callback x t). Qed.

(** C18: a successful completion runs the callback of the operation it names
    exactly once, on the state in which that operation has already left the table,
    and the object is destroyed afterwards, whether the callback returns or throws;
    an exception of the callback leaves the handler. *)
Theorem completion_runs_callback (run_callback : callback -> M (Ctx H) unit) cmpl o
    (R : outcome unit -> Ctx H -> trace -> Prop) x t :
  let cn := conn (_conn (ch_of (self x))) in
  let p := op_context cmpl in
  let t1 := t ++ [Ev (C_conn_completion_wait cn) 0] in
  let t2 := t1 ++ [Ev (C_conn_completion_get cn) (0, cmpl)] in
  answer_of t (C_conn_completion_wait cn) = 0 ->
  answer_of t1 (C_conn_completion_get cn) = (0, cmpl) ->
  op_status cmpl = IBV_WC_SUCCESS -> p <> NULL ->
  ops (heap (proc x)) !! p = Some o -> func o <> no_callback ->
  wp (run_callback (func o)) (fun r x2 t3 =>
    R r x2 t3 /\ is_Some (ops (heap (proc x2)) !! p) /\ forall f, r <> Faulted f)
    (erased p x) t2 ->
  wp (handle_completion run_callback) (fun r x' t' =>
    exists r2 x2, R r2 x2 t' /\ x' = freed p x2 /\
      r = match r2 with Ret _ => Ret 0 | Throw e => Throw e | Faulted f => Faulted f end) x t.
Proof.
  intros cn p t1 t2 Hw Hg Hst Hp Ho Hf Hcb. apply wp_handle_completion; fold cn; fold t1.
  { intros w Hw'. congruence. }
  intros ret cmpl' t1' t2' _ Hg'. subst t1' t2'. rewrite Hg in Hg'. injection Hg' as <- <-.
  unfold p in *. rewrite Hst, (proj2 (Z.eqb_neq _ _) Hp). simpl. eapply wp_complete_op; [done|].
  unfold do_callback. rewrite bool_decide_eq_false_2 by done.
  eapply wp_mono; [exact Hcb|]. intros r x2 t3 (HR & Hlive & Hnf).
  destruct r as [[]|e|f]; [split; [done|]; by do 2 eexists..|by destruct (Hnf f)].
Qed.

(** C26: when librpma reports an error, or a completion whose status is not
    success, no callback runs and no operation is freed: nothing happens when no
    completion is ready, any other error tears the connection down and is
    returned, and a failed operation is dropped silently, its object and its table
    entry left in place. *)
Theorem unsuccessful_completion (run_callback : callback -> M (Ctx H) unit) w ret cmpl x t :
  let cn := conn (_conn (ch_of (self x))) in
  answer_of t (C_conn_completion_wait cn) = w ->
  answer_of (t ++ [Ev (C_conn_completion_wait cn) w]) (C_conn_completion_get cn) = (ret, cmpl) ->
  w <> 0 \/ ret <> 0 \/ op_status cmpl <> IBV_WC_SUCCESS ->
  wp (handle_completion run_callback) (returns (fun r x' t' =>
    let code := if w =? 0 then ret else w in
    if (code =? 0) || (code =? RPMA_E_NO_COMPLETION) then r = 0 /\ x' = x
    else r = code /\ x' = torn x /\
      exists t1 a, t' = t1 ++ [Ev (C_conn_disconnect cn) a])) x t.
Proof.
  intros cn Hw Hg Hfail. apply wp_handle_completion; fold cn.
  - intros w' Hw' Hne. rewrite Hw in Hw'. subst w'. unfold completion_error.
    rewrite (proj2 (Z.eqb_neq _ _) Hne). simpl. rewrite (proj2 (Z.eqb_neq _ _) Hne). simpl.
    destruct (w =? RPMA_E_NO_COMPLETION); [done|]. intros a. split_and!; eauto.
  - intros ret' cmpl' t1 t2 Hw0 Hg'. rewrite Hw in Hw0. rewrite Hw0 in *. fold t1 in Hg.
    rewrite Hg in Hg'. injection Hg' as <- <-. unfold completion_error, returns. simpl.
    destruct (Z.eqb_spec ret 0) as [->|Hne]; simpl.
    + rewrite (proj2 (Z.eqb_neq (op_status cmpl) _)) by tauto. done.
    + destruct (ret =? RPMA_E_NO_COMPLETION); [done|]. intros a. split_and!; eauto.
Qed.

(** Sending and receiving record an operation exactly when librpma accepted
    it: on success the new object is live, in the table, and carries the callback;
    on failure the object is gone and the handler is as before.  No other
    operation is touched. *)
Theorem send_recv_record (k : bool) cb x t :
  let post := if k then send cb else recv cb in
  ops_ok x t ->
  wp post (returns (fun ret x' t' =>
      ops_ok x' t' /\ grows x x' /\
      let p := next_op (heap (proc x)) in
      let c := ch_of (self x) in
      if ret =? 0
      then self x' = set_ch (with_table ({[p]} ∪ callback_table c) c) (self x) /\
           ops (heap (proc x')) =
             <[p := {| class := if k then RpmaSend else RpmaRecv; func := cb |}]>
               (ops (heap (proc x)))
      else self x' = self x /\ ops (heap (proc x')) = ops (heap (proc x)))) x t.
Proof.
  intros post Hok. unfold post, send, recv. destruct k;
    (eapply wp_mono; [apply (wp_post_op (fun _ _ _ => True));
       [done | by apply posts_send || by apply posts_recv]|]);
    (intros [ret| |] x' t'; simpl; [|done..]); by intros (? & ? & _ & _ & _ & _ & ?).
Qed.

(** C25: registering a connection with a live reactor is all or nothing: either
    both descriptors are in the table and watched by the kernel, or the call
    returns an error and both the table and the interest list are as before. *)
Theorem register_self_atomic {ED : EpollDocumented O} r x t :
  let c := ch_of (self x) in
  let e et := {| eh_type := et; eh_handler := this x |} in
  reactor (proc x) = Some r -> reactor_inv r t -> _conn_fd c <> _comp_fd c ->
  event_table r !! _conn_fd c = None -> event_table r !! _comp_fd c = None ->
  wp conn_register_self (returns (fun ret x' t' => exists r',
      x' = with_proc (with_reactor (Some r') (proc x)) x /\ reactor_inv r' t' /\
      (ret = 0 /\ (exists n n',
         event_table r' = <[_comp_fd c := (n', e COMPLETION_EVENT)]>
                         (<[_conn_fd c := (n, e CONNECTION_EVENT)]> (event_table r)) /\
         interest (_epoll r) t' =
           <[_comp_fd c := n']> (<[_conn_fd c := n]> (interest (_epoll r) t))) \/
       ret <> 0 /\ event_table r' = event_table r /\
         interest (_epoll r) t' = interest (_epoll r) t))) x t.
Proof. apply wp_conn_register_self. Qed.

(** An event that says the connection is not (or no longer) up marks the
    handler as not connected and takes both of its descriptors out of the reactor,
    so the loop never calls it again; an established connection is only marked; no
    event changes nothing; an error tears the connection down and is returned. *)
Theorem connection_event_handled {ED : EpollDocumented O} r ret ev x t :
  let c := ch_of (self x) in
  reactor (proc x) = Some r -> reactor_inv r t -> _conn_fd c <> -1 -> _comp_fd c <> -1 ->
  answer_of t (C_conn_next_event (conn (_conn c))) = (ret, ev) ->
  wp (handle_connection_event conn_remove_self) (returns (fun code x' t' =>
    exists r', reactor (proc x') = Some r' /\ reactor_inv r' t' /\
    if ret =? 0 then
      code = 0 /\
      self x' = set_ch (with_connected (bool_decide (ev = RPMA_CONN_ESTABLISHED)) c) (self x) /\
      if decide (ev = RPMA_CONN_ESTABLISHED) then r' = r
      else event_table r' = delete (_comp_fd c) (delete (_conn_fd c) (event_table r)) /\
           interest (_epoll r) t' !! _conn_fd c = None /\
           interest (_epoll r) t' !! _comp_fd c = None
    else r' = r /\
      if ret =? RPMA_E_NO_EVENT then code = 0 /\ x' = x else code = ret /\ x' = torn x)) x t.
Proof.
  intros c Hr Hinv H1 H2 Hev. unfold handle_connection_event, rpma_conn_next_event.
  do 4 wp_step. fold c in H0. rewrite Hev in H0. subst a. fold c. cbn beta iota.
  set (t1 := t ++ _). assert (Hinv1 : reactor_inv r t1) by (by apply reactor_inv_other).
  destruct (ret =? 0) eqn:Hret; cbn [negb].
  - assert (Hlost : ev <> RPMA_CONN_ESTABLISHED ->
      wp (on_ch (modify (with_connected false));; conn_remove_self)
        (returns (fun code x' t' => exists r', reactor (proc x') = Some r' /\
          reactor_inv r' t' /\ code = 0 /\
          self x' = set_ch (with_connected (bool_decide (ev = RPMA_CONN_ESTABLISHED)) c) (self x) /\
          if decide (ev = RPMA_CONN_ESTABLISHED) then r' = r
          else event_table r' = delete (_comp_fd c) (delete (_conn_fd c) (event_table r)) /\
            interest (_epoll r) t' !! _conn_fd c = None /\
            interest (_epoll r) t' !! _comp_fd c = None)) x t1).
    { intros Hne.
      apply wp_bind, wp_on_ch. wp_step.
      eapply wp_mono; [eapply wp_conn_remove_self; [done|done|..]; simpl; by rewrite ch_of_set_ch|].
      intros [code| |] x' t'; simpl; [|done..]. rewrite ch_of_set_ch. simpl. fold c.
      intros (r' & -> & Hi & -> & _ & Ht & Hn). exists r'. simpl.
      rewrite decide_False, bool_decide_eq_false_2, Hn by done.
      split_and!; [done..| |apply lookup_delete_eq].
      apply lookup_delete_None. right. apply lookup_delete_eq. }
    destruct ev; try (by apply Hlost). apply wp_bind, wp_on_ch. do 2 wp_step. simpl.
    by exists r.
  - destruct (ret =? RPMA_E_NO_EVENT); [wp_step; simpl; by eauto 10|].
    apply wp_bind, wp_disconnect. intros a. wp_step. exists r. simpl.
    split_and!; try done. by apply reactor_inv_other.
Qed.

(** [init_send_recv_buffer] is exception safe: it either gives the handler two
    registered buffers of [MSG_SIZE] bytes, or throws; in both cases the ledger
    has grown by exactly what the handler's members hold. *)
Theorem init_send_recv_buffer_safe {RD : RpmaDocumented O} c t L :
  recv_mr c = NULL -> send_mr c = NULL -> (_peer c <> NULL -> RPeer (_peer c) ∈ L) ->
  ledger t = Some (L ⊎ owned_ch c) ->
  wp init_send_recv_buffer (fun o c' t' =>
      (callback_table c' = callback_table c /\ _conn c' = _conn c /\ _peer c' = _peer c) /\
      (forall q, outstanding q t' = outstanding q t) /\
      ledger t' = Some (L ⊎ owned_ch c') /\
      match o with
      | Ret _ => recv_mr c' <> NULL /\ send_mr c' <> NULL /\
          blen (bl_data (recv_bl c')) = MSG_SIZE /\ blen (bl_data (send_bl c')) = MSG_SIZE
      | Throw e => e = runtime_error "recv memory region registers failed." \/
                   e = runtime_error "send memory region registers failed."
      | Faulted _ => False
      end) c t.
Proof. apply wp_init_send_recv_buffer. Qed.

(** Destroying a handler frees every operation still in its table and no
    other, and gives back its two memory regions, its connection, and the peer if
    it was the last to share it, each exactly once. *)
Theorem ConnectionHandler_dtor_releases x t L :
  let c := ch_of (self x) in
  let m := peers (proc x) in
  ops_ok x t -> conn_inv (_conn c) t -> counted m (_peer c) ->
  ledger t = Some (L ⊎ last_owner m (_peer c) ⊎ owned_ch c) ->
  wp ConnectionHandler_dtor (returns (fun _ x' t' =>
      ledger t' = Some L /\ peers (proc x') = drop_owner m (_peer c) /\
      reactor (proc x') = reactor (proc x) /\
      forall p, ops (heap (proc x')) !! p =
        if decide (p ∈ callback_table c) then None else ops (heap (proc x)) !! p)) x t.
Proof. apply wp_ConnectionHandler_dtor. Qed.
End Properties.

(** ** Witnesses *)

#[export] Instance ConnectionHandler_HasConnectionLaws : HasConnectionLaws ConnectionHandler.
Proof. by split. Qed.

(** A connected handler with one receive posted, in a process whose reactor does
    not know it yet, and the calls that led there. *)
Definition demo_ch : ConnectionHandler :=
  Build_ConnectionHandler {[1]} 100 (RpmaConn_of 9) empty_bufferlist 22
    empty_bufferlist 21 7 8 false.
Definition demo_op : RpmaOp := {| class := RpmaRecv; func := deal_require_cb |}.
Definition demo_heap : op_heap := {| ops := {[1 := demo_op]}; next_op := 2 |}.
Definition demo_ctx : Ctx ConnectionHandler :=
  {| this := 500; self := demo_ch;
     proc := {| heap := demo_heap; peers := {[100 := 1%nat]};
                reactor := Some (new_reactor 3) |} |}.
Definition demo_calls : trace :=
  [ Ev (C_peer_new 1) (0, 100); Ev (C_mr_reg 100 0 MSG_SIZE RPMA_MR_USAGE_RECV) (0, 21);
    Ev (C_mr_reg 100 0 MSG_SIZE RPMA_MR_USAGE_SEND) (0, 22);
    Ev (C_ep_next_conn_req NULL NULL) (0, 5); Ev (C_conn_req_connect 5) (0, 9);
    Ev (C_recv 9 21 0 MSG_SIZE 1) 0 ].

Lemma demo_ops_ok : ops_ok demo_ctx demo_calls.
Proof.
  split; simpl.
  - intros p ->%elem_of_singleton. by eexists.
  - intros p [o [<- _]%lookup_singleton_Some]. lia.
  - lia.
  - vm_compute outstanding. set_solver.
Qed.

(** A callback that posts the next receive, as the server's does. *)
Definition demo_callback (_ : callback) : M (Ctx ConnectionHandler) unit :=
  recv (O := host) deal_require_cb;; mret tt.

Lemma demo_callback_ok : callback_ok demo_callback.
Proof.
  intros cb x t Hok. unfold demo_callback. apply wp_bind.
  eapply wp_mono; [apply (wp_post_op (fun _ _ _ => True)); [done | by apply posts_recv]|].
  intros [ret| |] x' t'; simpl; [|done..]. intros (? & ? & _). by wp_step.
Qed.

Lemma handle_completion_safe_witness :
  wp (handle_completion (O := host) demo_callback) (fun o x' t' =>
      ops_ok x' t' /\ forall f, o <> Faulted f) demo_ctx demo_calls.
Proof.
  apply (handle_completion_safe (O := host) demo_callback demo_ctx demo_calls).
  - apply demo_callback_ok.
  - apply demo_ops_ok.
Defined.

Lemma completion_runs_callback_witness :
  wp (handle_completion (O := host) (fun _ => mret tt)) (fun r x' t' =>
    exists r2 x2, r2 = Ret tt /\ x' = freed 1 x2 /\
      r = match r2 with Ret _ => Ret 0 | Throw e => Throw e | Faulted f => Faulted f end)
    demo_ctx demo_calls.
Proof.
  apply (completion_runs_callback (O := host) (fun _ => mret tt)
    (Completion 1 RPMA_OP_RECV 0 IBV_WC_SUCCESS) demo_op (fun r _ _ => r = Ret tt)
    demo_ctx demo_calls); try reflexivity; try discriminate.
  unfold wp. simpl. split; [reflexivity|]. split; [by eexists | discriminate].
Defined.

Lemma unsuccessful_completion_witness :
  wp (handle_completion (O := host) (fun _ => mret tt)) (returns (fun r x' t' =>
    r = 0 /\ x' = demo_ctx)) demo_ctx [].
Proof.
  apply (unsuccessful_completion (O := host) (fun _ => mret tt) 0 RPMA_E_NO_COMPLETION
    (Completion NULL RPMA_OP_RECV 0 IBV_WC_SUCCESS) demo_ctx []); try reflexivity.
  right. left. discriminate.
Defined.

Lemma send_recv_record_witness :
  wp (send (O := host) no_callback) (returns (fun ret x' t' =>
      ops_ok x' t' /\ grows demo_ctx x' /\
      if ret =? 0
      then self x' = with_table ({[2]} ∪ {[1]}) demo_ch /\
           ops (heap (proc x')) =
             <[2 := {| class := RpmaSend; func := no_callback |}]> {[1 := demo_op]}
      else self x' = demo_ch /\ ops (heap (proc x')) = {[1 := demo_op]})) demo_ctx demo_calls.
Proof.
  exact (send_recv_record (O := host) true no_callback demo_ctx demo_calls demo_ops_ok).
Defined.

Lemma register_self_atomic_witness :
  let e et := {| eh_type := et; eh_handler := 500 |} in
  wp (conn_register_self (O := host)) (returns (fun ret x' t' => exists r',
      x' = with_proc (with_reactor (Some r') (proc demo_ctx)) demo_ctx /\ reactor_inv r' t' /\
      (ret = 0 /\ (exists n n',
         event_table r' = <[8 := (n', e COMPLETION_EVENT)]>
                         (<[7 := (n, e CONNECTION_EVENT)]> ∅) /\
         interest 3 t' = <[8 := n']> (<[7 := n]> (interest 3 demo_calls))) \/
       ret <> 0 /\ event_table r' = ∅ /\ interest 3 t' = interest 3 demo_calls)))
    demo_ctx demo_calls.
Proof.
  refine (register_self_atomic (O := host) (new_reactor 3) demo_ctx demo_calls _ _ _ _ _);
    try reflexivity; try discriminate.
  by apply new_reactor_inv.
Defined.

Lemma connection_event_handled_witness :
  wp (handle_connection_event (O := host) (conn_remove_self (O := host)))
    (returns (fun code x' t' => exists r', reactor (proc x') = Some r' /\
      reactor_inv r' t' /\ code = 0 /\ self x' = with_connected false demo_ch /\
      event_table r' = delete 8 (delete 7 ∅) /\
      interest 3 t' !! 7 = None /\ interest 3 t' !! 8 = None)) demo_ctx demo_calls.
Proof.
  refine (connection_event_handled (O := host) (new_reactor 3) 0 RPMA_CONN_CLOSED
    demo_ctx demo_calls _ _ _ _ _); try reflexivity; try discriminate.
  by apply new_reactor_inv.
Defined.

Lemma init_send_recv_buffer_safe_witness :
  let c := with_peer 100 (ConnectionHandler_ctor 0 0) in
  wp (init_send_recv_buffer (O := host)) (fun o c' t' =>
      (callback_table c' = ∅ /\ _conn c' = _conn c /\ _peer c' = 100) /\
      (forall q, outstanding q t' = outstanding q [Ev (C_peer_new 1) (0, 100)]) /\
      ledger t' = Some ({[+ RPeer 100 +]} ⊎ owned_ch c') /\
      match o with
      | Ret _ => recv_mr c' <> NULL /\ send_mr c' <> NULL /\
          blen (bl_data (recv_bl c')) = MSG_SIZE /\ blen (bl_data (send_bl c')) = MSG_SIZE
      | Throw e => e = runtime_error "recv memory region registers failed." \/
                   e = runtime_error "send memory region registers failed."
      | Faulted _ => False
      end) c [Ev (C_peer_new 1) (0, 100)].
Proof.
  intros c. refine (init_send_recv_buffer_safe (O := host) c
    [Ev (C_peer_new 1) (0, 100)] {[+ RPeer 100 +]} _ _ _ _); try reflexivity.
  intros _. multiset_solver.
Defined.

Lemma ConnectionHandler_dtor_releases_witness :
  wp (ConnectionHandler_dtor (O := host)) (returns (fun _ x' t' =>
      ledger t' = Some ∅ /\ peers (proc x') = drop_owner {[100 := 1%nat]} 100 /\
      reactor (proc x') = Some (new_reactor 3) /\
      forall p, ops (heap (proc x')) !! p =
        if decide (p ∈ callback_table demo_ch) then None
        else (({[1 := demo_op]} : gmap Z RpmaOp)) !! p)) demo_ctx demo_calls.
Proof.
  refine (ConnectionHandler_dtor_releases (O := host) demo_ctx demo_calls ∅ _ _ _ _).
  - apply demo_ops_ok.
  - intros _ [=].
  - intros _. by exists 0%nat.
  - by apply ledger_compute.
Defined.
