(* ===== verification/RPMAHandler.v ===== *)
(** * The server's end of a connection ([RPMAHandler] of [EventOp.h], [EventOp.cc])

    A handler receives requests into its receive buffer, prepares the replica's
    memory and its descriptors, and answers from its send buffer. *)

From S2P Require Import Prelude Librpma Effects LibrpmaApi Posix Resources.
From S2P Require Import CephEncoding WireFormat Types MemoryManager Reactor RpmaOp Quiet Host.
From S2P Require Import RpmaConn ConnectionHandler.

(** ** Data *)

Record RPMAHandler := {
  rh_base : ConnectionHandler;
  data_manager : MemoryManager;
  data_mr : Z
}.

Definition with_base (c : ConnectionHandler) (s : RPMAHandler) : RPMAHandler :=
  {| rh_base := c; data_manager := data_manager s; data_mr := data_mr s |}.
Definition with_data_manager (m : MemoryManager) (s : RPMAHandler) : RPMAHandler :=
  {| rh_base := rh_base s; data_manager := m; data_mr := data_mr s |}.
Definition with_data_mr (p : Z) (s : RPMAHandler) : RPMAHandler :=
  {| rh_base := rh_base s; data_manager := data_manager s; data_mr := p |}.

#[export] Instance RPMAHandler_HasConnection : HasConnection RPMAHandler :=
  {| ch_of := rh_base; set_ch := with_base |}.
#[export] Instance RPMAHandler_HasConnectionLaws : HasConnectionLaws RPMAHandler.
Proof. split; [done..|]. by intros []. Qed.

(** The object when the body of the constructor starts; [conn_fd], [comp_fd] and
    [size] are the values of the members without initializer. *)
Definition RPMAHandler_init (conn_fd comp_fd size : Z) : RPMAHandler :=
  {| rh_base := ConnectionHandler_ctor conn_fd comp_fd;
     data_manager := MemoryManager_default size; data_mr := NULL |}.

(** [std::string::resize]: cut, or extended with zero bytes. *)
Definition resize (n : Z) (s : bytes) : bytes :=
  let k := Z.to_nat n in take k s ++ replicate (k - length s) x00.

(** [std::to_string] of an unsigned number. *)
Definition to_string (n : Z) : bytes := str (pretty (Z.to_N n)).

(** The name of the file of a replica. *)
Definition replica_path (i : RwlCacheInfo) : bytes :=
  str "rbd-pwl." ++ pool_name i ++ str "." ++ image_name i ++ str ".pool." ++
  to_string (cache_id i).

(** The [switch] of [register_mr_to_descriptor]; a flush target is also a write
    target. *)
Definition mr_usage (op : rpma_op) (is_pmem : bool) : Z :=
  match op with
  | RPMA_OP_FLUSH =>
      Z.lor (Z.lor 0 (if is_pmem then RPMA_MR_USAGE_FLUSH_TYPE_PERSISTENT
                      else RPMA_MR_USAGE_FLUSH_TYPE_VISIBILITY))
            RPMA_MR_USAGE_WRITE_DST
  | RPMA_OP_WRITE => Z.lor 0 RPMA_MR_USAGE_WRITE_DST
  | RPMA_OP_READ => Z.lor 0 RPMA_MR_USAGE_READ_SRC
  | _ => 0
  end.

(** ** Operations *)

Section Operations.
Context {O : Oracle} {E : CephEncoding}.

Abbreviation Server := (M (Ctx RPMAHandler)).

Definition on_self {A} : M RPMAHandler A -> Server A := zoom self with_self.
Definition on_manager {A} (m : M MemoryManager A) : Server A :=
  on_self (zoom data_manager with_data_manager m).

(** [data_mr.reset(mr)]: the new region is stored, then the old one deregistered. *)
Definition reset_data_mr (mr : Z) : Server unit :=
  old ← gets (fun x => data_mr (self x));
  on_self (modify (with_data_mr mr));;
  mr_delete old.

(** The members in the reverse of their order, then the base class. *)
Definition RPMAHandler_dtor : Server unit :=
  mr ← gets (fun x => data_mr (self x));
  mr_delete mr;;
  on_manager MemoryManager_dtor;;
  ConnectionHandler_dtor.

(** The body of the constructor, up to the posted receive.  A receive that could not
    be posted is destroyed by [post_op]; in the source, when the exception leaves the
    scope. *)
Definition accept_request (peer ep : Z) : Server Z :=
  on_ch (modify (with_peer peer));;
  on_proc (peer_share peer);;
  on_ch init_send_recv_buffer;;
  '(ret, req) ← rpma_ep_next_conn_req ep NULL NULL;
  if negb (ret =? 0)
  then throw (runtime_error "receive an incoming connection request failed.") else
  ret ← post_op RpmaReqRecv deal_require_cb (fun recv =>
          c ← gets (fun x => ch_of (self x));
          RpmaReqRecv_call req (recv_mr c) 0 MSG_SIZE recv);
  if negb (ret =? 0)
  then rpma_conn_req_delete req;;
       throw (runtime_error "Put an initial receive to be prepared for the first message of the client's ping-pong failed.")
  else mret req.

(** The rest of it: the connection. *)
Definition accept_connection (req : Z) : Server unit :=
  conn0 ← indeterminate "conn";
  '(ret, conn, req) ← rpma_conn_req_connect req conn0;
  if negb (ret =? 0)
  then (if negb (req =? NULL) then rpma_conn_req_delete req;; mret tt else mret tt);;
       throw (runtime_error "accept the connection request and obtain the connection object failed.")
  else
  on_ch (on_conn (RpmaConn_reset conn));;
  on_ch init_conn_fd.

Definition RPMAHandler_body (peer ep : Z) : Server unit :=
  req ← accept_request peer ep;
  accept_connection req.

(** The constructor: an exception destroys the members and the base. *)
Definition RPMAHandler_ctor (peer ep : Z) : Server unit :=
  on_throw (RPMAHandler_body peer ep) RPMAHandler_dtor.

Definition RPMAHandler_register_self : Server Z := conn_register_self.
Definition RPMAHandler_remove_self : Server Z := conn_remove_self.

(** The part of [register_mr_to_descriptor] for a flush target: appends the
    descriptor of the peer configuration behind the one of the region.  [inl]
    is the early return. *)
Definition append_pcfg_descriptor (mr_desc_size : Z) (descriptors : bytes)
    : Server (Z + Z * bytes) :=
  '(_, pcfg) ← rpma_peer_cfg_new NULL;
  pmem ← on_manager is_pmem;
  ret ← (if (pmem : bool) then rpma_peer_cfg_set_direct_write_to_pmem pcfg true else mret 0);
  if negb (ret =? 0) then rpma_peer_cfg_delete pcfg;; mret (inl ret) else
  size0 ← indeterminate "pcfg_desc_size";
  '(_, pcfg_desc_size) ← rpma_peer_cfg_get_descriptor_size pcfg size0;
  let descriptors := resize (u64 (mr_desc_size + pcfg_desc_size)) descriptors in
  '(_, descriptors) ← rpma_peer_cfg_get_descriptor pcfg (Z.to_nat mr_desc_size) descriptors;
  rpma_peer_cfg_delete pcfg;;
  mret (inr (pcfg_desc_size, descriptors)).

Definition register_mr_to_descriptor (op : rpma_op) : Server Z :=
  pmem ← on_manager is_pmem;
  c ← gets (fun x => ch_of (self x));
  ptr ← on_manager get_pointer;
  len ← on_manager size;
  '(ret, mr) ← rpma_mr_reg (_peer c) ptr len (mr_usage op pmem) NULL;
  if negb (ret =? 0) then mret ret else
  reset_data_mr mr;;
  size0 ← indeterminate "mr_desc_size";
  '(_, mr_desc_size) ← rpma_mr_get_descriptor_size mr size0;
  let descriptors := resize mr_desc_size [] in
  '(_, descriptors) ← rpma_mr_get_descriptor mr 0 descriptors;
  pcfg0 ← indeterminate "init_reply.desc.pcfg_desc_size";
  r ← (if bool_decide (op = RPMA_OP_FLUSH)
       then append_pcfg_descriptor mr_desc_size descriptors
       else mret (inr (pcfg0, descriptors)));
  match r with
  | inl ret => mret ret
  | inr (pcfg_desc_size, descriptors) =>
      let init_reply :=
        {| reply_type := RWL_REPLICA_INIT_SUCCESSED;
           desc := {| mr_desc_size := u32 mr_desc_size;
                      pcfg_desc_size := u32 pcfg_desc_size;
                      descriptors := descriptors |} |} in
      on_ch (fill_send_buffer (RwlReplicaInitRequestReply_encode init_reply []));;
      mret 0
  end.

Definition get_descriptor_for_write : Server Z :=
  c ← gets (fun x => ch_of (self x));
  match RwlReplicaInitRequest_decode (bl_data (recv_bl c)) with
  | None => throw buffer_error
  | Some (init, _) =>
      let path := replica_path (info init) in
      p ← on_manager get_pointer;
      (if p =? NULL then on_manager (MemoryManager.init (cache_size (info init)) path)
       else mret tt);;
      register_mr_to_descriptor RPMA_OP_FLUSH
  end.

Definition close : Server Z :=
  reset_data_mr NULL;;
  failed ← on_manager close_and_remove;
  let reply := RwlReplicaFinishedRequestReply
    (if negb (failed =? 0) then RWL_REPLICA_FINISHED_FAILED else RWL_REPLICA_FINISHED_SUCCCESSED) in
  on_ch (fill_send_buffer (RwlReplicaRequest_encode reply []));;
  send no_callback;;
  mret 0.

Definition get_descriptor : Server Z :=
  c ← gets (fun x => ch_of (self x));
  match RwlReplicaRequest_decode (bl_data (recv_bl c)) with
  | None => throw buffer_error
  | Some (request, _) =>
      if type request =? RWL_REPLICA_INIT_REQUEST then get_descriptor_for_write
      else if type request =? RWL_REPLICA_FINISHED_REQUEST then close
      else mret (-1)
  end.

Definition deal_require : Server unit :=
  get_descriptor;;
  post_op RpmaRecv deal_require_cb (fun rec =>
    c ← gets (fun x => ch_of (self x));
    RpmaRecv_call (conn (_conn c)) (recv_mr c) 0 MSG_SIZE rec);;
  c ← gets (fun x => ch_of (self x));
  rpma_send (conn (_conn c)) (send_mr c) 0 MSG_SIZE RPMA_F_COMPLETION_ALWAYS NULL;;
  mret tt.

(** The call of a callback; the lambdas of the client do not occur here. *)
Definition RPMAHandler_run (cb : callback) : Server unit :=
  match cb with
  | deal_require_cb => deal_require
  | _ => fail_with NullDereference
  end.

Definition RPMAHandler_handle (et : EventType) : Server Z :=
  ch_handle RPMAHandler_remove_self RPMAHandler_run et.
End Operations.

(** ** Specification *)

(** What the object owns: the base class' regions and connection, the replica's
    memory and the region registered over it. *)
Definition owned_server (s : RPMAHandler) : gmultiset res :=
  owned_ch (rh_base s) ⊎ owned (data_manager s) ⊎ owned_mr (data_mr s).

(** What the header says of descriptors: for an object that is not NULL the calls
    succeed, and the size reported is that of the descriptor written; and
    the two descriptors of a replica fit a message of the protocol. *)
Class DescriptorsDocumented (O : Oracle) : Prop := {
  mr_descriptor mr : mr <> NULL -> exists n,
    (forall t, answer_of t (C_mr_get_descriptor_size mr) = (0, n)) /\
    forall t, exists d, answer_of t (C_mr_get_descriptor mr) = (0, d) /\ blen d = n;
  pcfg_descriptor pcfg : pcfg <> NULL -> exists n,
    (forall t, answer_of t (C_peer_cfg_get_descriptor_size pcfg) = (0, n)) /\
    forall t, exists d, answer_of t (C_peer_cfg_get_descriptor pcfg) = (0, d) /\ blen d = n;
  pcfg_direct_write t pcfg b : pcfg <> NULL ->
    answer_of t (C_peer_cfg_set_direct_write_to_pmem pcfg b) = 0;
  descriptors_fit t t' mr pcfg :
    (answer_of t (C_mr_get_descriptor_size mr)).2 +
    (answer_of t' (C_peer_cfg_get_descriptor_size pcfg)).2 + 28 < MSG_SIZE
}.

(** Peer configurations can be allocated. *)
Definition pcfg_available (O : Oracle) : Prop :=
  forall t, (answer_of t C_peer_cfg_new).1 = 0.

(** The reply to an init request, for the descriptors [d] and [pd]. *)
Definition init_reply_of (d pd : bytes) : RwlReplicaInitRequestReply :=
  {| reply_type := RWL_REPLICA_INIT_SUCCESSED;
     desc := {| mr_desc_size := u32 (blen d); pcfg_desc_size := u32 (blen pd);
                descriptors := d ++ pd |} |}.

(** ** Lemmas *)

Lemma resize_nil n : resize n [] = replicate (Z.to_nat n) x00.
Proof. unfold resize. by rewrite take_nil, Nat.sub_0_r. Qed.

Lemma memcpy_whole d n : length d = n -> memcpy_at 0 d (replicate n x00) = Some d.
Proof.
  intros <-. unfold memcpy_at. rewrite decide_True by (rewrite length_replicate; lia).
  rewrite drop_ge by (rewrite length_replicate; lia). by rewrite app_nil_r.
Qed.

(** The second descriptor lands exactly behind the first. *)
Lemma memcpy_behind d pd :
  memcpy_at (length d) pd (resize (blen d + blen pd) d) = Some (d ++ pd).
Proof.
  unfold resize, memcpy_at, blen. rewrite <-Nat2Z.inj_add, Nat2Z.id.
  rewrite take_ge by lia. replace (_ + _ - _)%nat with (length pd) by lia.
  rewrite decide_True by (rewrite length_app, length_replicate; lia).
  rewrite take_app_length, drop_ge by (rewrite length_app, length_replicate; lia).
  by rewrite app_nil_r.
Qed.

Section Lemmas.
Context {O : Oracle} {E : CephEncoding} {EL : CephEncodingLaws E}.

Lemma wp_on_manager {A} (m : M MemoryManager A) Q x t :
  wp m (fun o d t' => Q o (with_self (with_data_manager d (self x)) x) t')
    (data_manager (self x)) t ->
  wp (on_manager m) Q x t.
Proof. intros. by apply wp_zoom, wp_zoom. Qed.

(** Reading a member of the manager. *)
Lemma wp_manager_gets {A} (f : MemoryManager -> A) Q x t :
  Q (Ret (f (data_manager (self x)))) x t -> wp (on_manager (gets f)) Q x t.
Proof. intros. apply wp_on_manager, wp_gets. by destruct x as [? [] ?]. Qed.

Lemma wp_reset_data_mr mr Q x t L :
  ledger t = Some (L ⊎ owned_mr (data_mr (self x))) ->
  (forall t', ledger t' = Some L -> t `prefix_of` t' ->
     Q (Ret tt) (with_self (with_data_mr mr (self x)) x) t') ->
  wp (reset_data_mr mr) Q x t.
Proof.
  intros HL HQ. unfold reset_data_mr. do 2 wp_step. apply wp_bind, wp_zoom. wp_step.
  eapply wp_mono; [by apply wp_mr_delete|].
  intros [[]| |] x' t'; simpl; [|done..]. intros (-> & HL' & Hpre & _). by apply HQ.
Qed.

(** Using a peer configuration the ledger holds. *)
Lemma ledger_pcfg_use t L pcfg c (a : answer c) :
  ledger t = Some (L ⊎ {[+ RPcfg pcfg +]}) -> uses c = nonnull RPcfg pcfg ->
  releases c = None -> acquires (Ev c a) = None ->
  ledger (t ++ [Ev c a]) = Some (L ⊎ {[+ RPcfg pcfg +]}).
Proof.
  intros HL Hu Hr Ha. apply ledger_use; try done. rewrite Hu. apply Forall_nonnull.
  intros _. multiset_solver.
Qed.

Context {RD : RpmaDocumented O} {DD : DescriptorsDocumented O}.

Lemma wp_append_pcfg_descriptor d mr t0 Q x t L :
  pcfg_available O -> answer_of t0 (C_mr_get_descriptor_size mr) = (0, blen d) ->
  ledger t = Some L ->
  (forall pd pcfg t1 t', answer_of t1 (C_peer_cfg_get_descriptor pcfg) = (0, pd) ->
     blen d + blen pd + 28 < MSG_SIZE -> ledger t' = Some L -> t `prefix_of` t' ->
     Q (Ret (inr (blen pd, d ++ pd))) x t') ->
  wp (append_pcfg_descriptor (blen d) d) Q x t.
Proof.
  intros Hav Hd HL HQ. unfold append_pcfg_descriptor, rpma_peer_cfg_new.
  do 3 wp_step. rename H into Hnew. destruct a as [ret pcfg].
  assert (ret = 0) as -> by (specialize (Hav t); by rewrite Hnew in Hav). do 2 wp_step.
  change (out_on_success 0 pcfg NULL) with pcfg.
  assert (Hpcfg : pcfg <> NULL).
  { apply (documented_out t C_peer_cfg_new pcfg). by rewrite Hnew. }
  assert (HL1 : ledger (t ++ [Ev C_peer_cfg_new (0, pcfg)]) = Some (L ⊎ {[+ RPcfg pcfg +]})).
  { by apply ledger_acquire. }
  assert (Hpre : t `prefix_of` t ++ [Ev C_peer_cfg_new (0, pcfg)]) by (by eexists).
  revert HL1 Hpre. generalize (t ++ [Ev C_peer_cfg_new (0, pcfg)]). intros t1 HL1 Hpre.
  apply wp_manager_gets.
  assert (Hrest : forall t1, ledger t1 = Some (L ⊎ {[+ RPcfg pcfg +]}) -> t `prefix_of` t1 ->
    wp (size0 ← indeterminate "pcfg_desc_size";
        '(_, pcfg_desc_size) ← rpma_peer_cfg_get_descriptor_size pcfg size0;
        '(_, descriptors) ← rpma_peer_cfg_get_descriptor pcfg (Z.to_nat (blen d))
           (resize (u64 (blen d + pcfg_desc_size)) d);
        rpma_peer_cfg_delete pcfg;;
        mret (inr (pcfg_desc_size, descriptors))) Q x t1).
  { clear t1 HL1 Hpre. intros t1 HL1 Hpre. destruct (pcfg_descriptor pcfg Hpcfg) as (n & Hsize & Hdesc).
    unfold indeterminate, rpma_peer_cfg_get_descriptor_size, rpma_peer_cfg_get_descriptor,
      rpma_peer_cfg_delete.
    do 2 wp_step. do 2 apply wp_bind. wp_known (Hsize _). wp_step.
    change (out_on_success 0 n a) with n. cbn beta iota. do 2 apply wp_bind.
    match goal with |- wp (ext _) _ _ ?t2 => destruct (Hdesc t2) as (pd & Hpd & <-) end.
    wp_known Hpd.
    pose proof (descriptors_fit t0 t1 mr pcfg) as Hfit. rewrite Hd, Hsize in Hfit. simpl in Hfit.
    pose proof (blen_nonneg d). pose proof (blen_nonneg pd).
    replace (u64 (blen d + blen pd)) with (blen d + blen pd)
      by (unfold u64, MSG_SIZE in *; rewrite Z.mod_small; lia).
    change (0 =? 0) with true. cbn beta iota. apply wp_bind, wp_of_option.
    replace (Z.to_nat (blen d)) with (length d) by (unfold blen; lia).
    rewrite memcpy_behind. wp_steps. eapply HQ; [exact Hpd | done | |by repeat apply prefix_app_r].
    eapply ledger_release; [| |simpl; by rewrite (proj2 (Z.eqb_neq _ _) Hpcfg)|done]; [|constructor].
    do 2 (apply ledger_pcfg_use; [|done..]). by apply ledger_neutral. }
  apply wp_bind. destruct (_is_pmem (data_manager (self x))).
  - unfold rpma_peer_cfg_set_direct_write_to_pmem.
    wp_known (pcfg_direct_write _ _ _ Hpcfg). apply Hrest; [by apply ledger_pcfg_use | by apply prefix_app_r].
  - wp_step. by apply Hrest.
Qed.

Lemma wp_register_mr Q x t L :
  let s := self x in
  let c := rh_base s in
  let dm := data_manager s in
  pcfg_available O ->
  (_peer c <> NULL -> RPeer (_peer c) ∈ L) -> blen (bl_data (send_bl c)) = MSG_SIZE ->
  ledger t = Some (L ⊎ owned_mr (data_mr s)) ->
  (forall ret t', ret <> 0 -> ledger t' = Some (L ⊎ owned_mr (data_mr s)) -> Q (Ret ret) x t') ->
  (forall mr d pd pcfg t1 t2 t', mr <> NULL ->
     answer_of t1 (C_mr_get_descriptor mr) = (0, d) ->
     answer_of t2 (C_peer_cfg_get_descriptor pcfg) = (0, pd) ->
     blen d + blen pd + 28 < MSG_SIZE ->
     ledger t' = Some (L ⊎ {[+ RMr mr +]}) ->
     Ev (C_mr_reg (_peer c) (_data dm) (_size dm) (mr_usage RPMA_OP_FLUSH (_is_pmem dm)))
       (0, mr) ∈ t' ->
     Ev (C_mr_get_descriptor mr) (0, d) ∈ t' ->
     let bl := RwlReplicaInitRequestReply_encode (init_reply_of d pd) [] in
     Q (Ret 0) (with_self (with_base (with_send_bl (filled bl (send_bl c)) c)
                  (with_data_mr mr s)) x) t') ->
  wp (register_mr_to_descriptor RPMA_OP_FLUSH) Q x t.
Proof.
  intros s c dm Hav Hpeer Hbuf HL Hfail Hok. unfold register_mr_to_descriptor.
  apply wp_bind, wp_manager_gets. do 2 wp_step. do 2 (apply wp_bind, wp_manager_gets).
  apply wp_bind. eapply wp_rpma_mr_reg; [exact HL|intros; apply gmultiset_elem_of_disj_union; left; by apply Hpeer|].
  intros ret raw t1 mr _ HL1. cbn beta iota. apply wp_if; intros Hret; bools.
  { rewrite (proj2 (Z.eqb_neq _ _) Hret) in HL1. destruct HL1. wp_step. by apply Hfail. }
  subst ret. destruct HL1 as (Hraw & Hmr & HL1).
  assert (Hev : Ev (C_mr_reg (_peer c) (_data dm) (_size dm)
      (mr_usage RPMA_OP_FLUSH (_is_pmem dm))) (0, mr) ∈ t1).
  { rewrite Hraw. unfold t1. set_solver. }
  clearbody mr t1. clear Hraw raw.
  apply wp_bind. eapply (wp_reset_data_mr mr _ _ _ (L ⊎ {[+ RMr mr +]})).
  { rewrite HL1. f_equal. fold s. multiset_solver. }
  intros t2 HL2 Hp2. unfold indeterminate, rpma_mr_get_descriptor_size, rpma_mr_get_descriptor.
  destruct (mr_descriptor mr Hmr) as (n & Hsize & Hdesc).
  do 2 wp_step. do 2 apply wp_bind. wp_known (Hsize _). wp_step.
  change (out_on_success 0 n a) with n. cbn beta iota. do 2 apply wp_bind.
  match goal with |- wp (ext _) _ _ ?t3 => destruct (Hdesc t3) as (d & Hd & <-) end.
  wp_known Hd. change (0 =? 0) with true. cbn beta iota. apply wp_bind, wp_of_option.
  rewrite resize_nil, memcpy_whole by (unfold blen; lia). do 3 wp_step.
  rewrite bool_decide_eq_true_2 by done. apply wp_bind.
  eapply (wp_append_pcfg_descriptor d mr t2 _ _ _ (L ⊎ {[+ RMr mr +]})); [done | apply Hsize | |].
  { do 4 ledger_step. done. }
  intros pd pcfg t3 t4 Hpd Hfit HL4 Hp4. cbn beta iota. apply wp_bind.
  eapply wp_fill_send_buffer.
  - rewrite init_reply_length. simpl. autorewrite with blen. change (blen []) with 0. lia.
  - done.
  - wp_step. eapply Hok; try done.
    + eapply elem_of_prefix; [exact Hev|]. etrans; [exact Hp2|].
      etrans; [|exact Hp4]. by repeat apply prefix_app_r.
    + eapply elem_of_prefix; [|exact Hp4]. set_solver.
Qed.

(** The reply is read back as it was written. *)
Lemma init_reply_of_decodes d pd r :
  blen d + blen pd + 28 < MSG_SIZE ->
  RwlReplicaInitRequestReply_decode (RwlReplicaInitRequestReply_encode (init_reply_of d pd) [] ++ r) =
    Some ({| reply_type := RWL_REPLICA_INIT_SUCCESSED;
             desc := {| mr_desc_size := blen d; pcfg_desc_size := blen pd;
                        descriptors := d ++ pd |} |}, r).
Proof.
  intros Hfit. pose proof (blen_nonneg d). pose proof (blen_nonneg pd). unfold MSG_SIZE in Hfit.
  unfold init_reply_of, u32. rewrite !Z.mod_small by lia. apply init_reply_decode_encode.
  split; [done|]. split_and!; simpl; unfold is_u32; autorewrite with blen; lia.
Qed.

(** Two states of the object that differ only in the contents of the buffers, the
    replica's memory and the region over it. *)
Record same_base (s s' : RPMAHandler) : Prop := {
  sb_table : callback_table (rh_base s') = callback_table (rh_base s);
  sb_conn : _conn (rh_base s') = _conn (rh_base s);
  sb_peer : _peer (rh_base s') = _peer (rh_base s);
  sb_send_mr : send_mr (rh_base s') = send_mr (rh_base s);
  sb_recv_mr : recv_mr (rh_base s') = recv_mr (rh_base s);
  sb_recv_bl : recv_bl (rh_base s') = recv_bl (rh_base s);
  sb_send_bl : blen (bl_data (send_bl (rh_base s'))) = blen (bl_data (send_bl (rh_base s)))
}.

Lemma same_base_refl s : same_base s s.
Proof. by split. Qed.

Lemma same_base_trans s1 s2 s3 : same_base s1 s2 -> same_base s2 s3 -> same_base s1 s3.
Proof. intros [] []. split; congruence. Qed.

Lemma owned_server_ch s s' :
  same_base s s' -> owned_ch (rh_base s') = owned_ch (rh_base s).
Proof. intros [_ Hc _ Hs Hr _ _]. unfold owned_ch. by rewrite Hc, Hs, Hr. Qed.

(** The size of the replica that the request in the receive buffer asks for. *)
Definition requests_size (n : Z) (s : RPMAHandler) : Prop :=
  forall init r, RwlReplicaInitRequest_decode (bl_data (recv_bl (rh_base s))) = Some (init, r) ->
    cache_size (info init) = n.

Lemma wp_register_mr_inv x t L :
  let s := self x in
  pcfg_available O -> (_peer (rh_base s) <> NULL -> RPeer (_peer (rh_base s)) ∈ L) ->
  blen (bl_data (send_bl (rh_base s))) = MSG_SIZE ->
  ledger t = Some (L ⊎ owned_server s) ->
  wp (register_mr_to_descriptor RPMA_OP_FLUSH) (returns (fun _ x' t' => exists s',
      x' = with_self s' x /\ same_base s s' /\ ledger t' = Some (L ⊎ owned_server s'))) x t.
Proof.
  intros s Hav Hpeer Hbuf HL. unfold owned_server in *.
  set (L1 := L ⊎ (owned_ch (rh_base s) ⊎ owned (data_manager s))).
  apply (wp_register_mr _ x t L1); try done.
  - intros Hp. unfold L1. specialize (Hpeer Hp). multiset_solver.
  - rewrite HL. f_equal. unfold L1. fold s. multiset_solver.
  - intros ret t' _ HL'. exists s. split_and!; [by destruct x | apply same_base_refl|].
    rewrite HL'. f_equal. unfold L1. fold s. multiset_solver.
  - intros mr d pd pcfg t1 t2 t' Hmr _ _ Hfit HL' _ _ bl. eexists. split; [done|].
    assert (Hsb : same_base s (with_base (with_send_bl (filled bl (send_bl (rh_base s))) (rh_base s))
      (with_data_mr mr s))).
    { split; simpl; try done. apply blen_filled. rewrite Hbuf. unfold bl.
      rewrite init_reply_length. simpl. autorewrite with blen. change (blen []) with 0. lia. }
    split; [exact Hsb|]. rewrite HL'. f_equal. unfold L1, owned_ch. simpl.
    rewrite (owned_mr_some mr) by done. fold s. multiset_solver.
Qed.

Lemma wp_get_descriptor_for_write n x t L :
  let s := self x in
  pcfg_available O -> maps_whole_files O n -> requests_size n s ->
  (_peer (rh_base s) <> NULL -> RPeer (_peer (rh_base s)) ∈ L) ->
  blen (bl_data (send_bl (rh_base s))) = MSG_SIZE ->
  ledger t = Some (L ⊎ owned_server s) ->
  wp get_descriptor_for_write (fun o x' t' => (exists s',
      x' = with_self s' x /\ same_base s s' /\ ledger t' = Some (L ⊎ owned_server s')) /\
      forall f, o <> Faulted f) x t.
Proof.
  intros s Hav Hmaps Hreq Hpeer Hbuf HL. unfold get_descriptor_for_write. do 2 wp_step.
  destruct (RwlReplicaInitRequest_decode _) as [[init r]|] eqn:Hdec.
  2: { wp_step. split; [|done]. exists s. split_and!; [by destruct x | apply same_base_refl | done]. }
  apply wp_bind, wp_manager_gets. apply wp_bind. fold s. apply wp_if; intros Hp; bools.
  - apply wp_on_manager. set (L1 := L ⊎ (owned_ch (rh_base s) ⊎ owned_mr (data_mr s))).
    eapply wp_mono; [apply (wp_MemoryManager_init _ _ _ _ L1); [rewrite (Hreq _ _ Hdec); done | done|]|].
    { unfold owned_server in HL. rewrite owned_null in HL by done. rewrite HL. f_equal.
      unfold L1. multiset_solver. }
    intros o dm t1 (_ & _ & HL1 & Ho). set (s1 := with_data_manager dm s).
    assert (HL1' : ledger t1 = Some (L ⊎ owned_server s1)).
    { rewrite HL1. f_equal. unfold L1, owned_server, s1. simpl. multiset_solver. }
    assert (Hsb : same_base s s1) by (by split).
    destruct o as [[]|e|f]; [| |done].
    + eapply wp_mono; [apply (wp_register_mr_inv _ _ L); done|].
      intros [ret| |] x' t'; simpl; [|done..]. intros (s' & -> & Hsb' & HL').
      split; [|done]. exists s'. split_and!; try done.
      by eapply same_base_trans.
    + split; [|done]. by exists s1.
  - apply wp_ret. eapply wp_mono; [by apply (wp_register_mr_inv _ _ L)|].
    intros [ret| |] x' t'; simpl; [|done..]. by split.
Qed.

(** The invariant of a connected handler; [L] is what the rest of the process
    holds. *)
Record server_inv (L : gmultiset res) (x : Ctx RPMAHandler) (t : trace) : Prop := {
  sv_ops : ops_ok x t;
  sv_callbacks p o :
    p ∈ callback_table (rh_base (self x)) -> ops (heap (proc x)) !! p = Some o ->
    func o = deal_require_cb \/ func o = no_callback;
  sv_buffer : blen (bl_data (send_bl (rh_base (self x)))) = MSG_SIZE;
  sv_conn : conn_inv (_conn (rh_base (self x))) t;
  sv_peer : _peer (rh_base (self x)) <> NULL -> RPeer (_peer (rh_base (self x))) ∈ L;
  sv_ledger : ledger t = Some (L ⊎ owned_server (self x))
}.

(** Steps that post nothing and keep table and connection. *)
Lemma server_inv_update L x t s' t' :
  server_inv L x t -> same_base (self x) s' -> extends quiet_call t t' ->
  ledger t' = Some (L ⊎ owned_server s') -> server_inv L (with_self s' x) t'.
Proof.
  intros [Hops Hcb Hbuf Hconn Hpeer HL] [S1 S2 S3 S4 S5 S6 S7] Hq HL'. split; simpl; try done.
  - destruct Hops as [I1 I2 I3 I4]. split; simpl; rewrite ?S1, ?S2; try done.
    by rewrite (quiet_outstanding _ _ _ Hq).
  - rewrite S1. done.
  - by rewrite S7.
  - rewrite S2. eapply conn_inv_prefix; [done|]. by eapply extends_prefix.
  - by rewrite S3.
Qed.

(** The connection and the regions of the handler are in the ledger. *)
Lemma server_ledger_post L x t c (a : answer c) mr :
  let b := rh_base (self x) in
  (mr = send_mr b \/ mr = recv_mr b) ->
  uses c = nonnull RConn (conn (_conn b)) ++ nonnull RMr mr ->
  releases c = None -> acquires (Ev c a) = None ->
  ledger t = Some (L ⊎ owned_server (self x)) ->
  ledger (t ++ [Ev c a]) = Some (L ⊎ owned_server (self x)).
Proof.
  intros b Hmr Hu Hr Ha HL. apply ledger_use; try done. rewrite Hu. fold b.
  apply Forall_app. split; apply Forall_nonnull; intros Hn;
    unfold owned_server, owned_ch, owned_conn; fold b.
  - rewrite (proj2 (Z.eqb_neq _ _) Hn). multiset_solver.
  - destruct Hmr as [-> | ->]; rewrite (owned_mr_some _ Hn); multiset_solver.
Qed.

(** Posting a receive or a send keeps the invariant. *)
Lemma server_post L k cb post x t :
  let R := fun (_ _ : Z) t' => ledger t' = Some (L ⊎ owned_server (self x)) /\ t `prefix_of` t' in
  cb = deal_require_cb \/ cb = no_callback ->
  server_inv L x t -> posts R post x t ->
  wp (post_op k cb post) (returns (fun _ x' t' =>
     server_inv L x' t' /\ grows x x' /\ t `prefix_of` t')) x t.
Proof.
  intros R Hcb [Hops Hfun Hbuf Hconn Hpeer HL] Hpost.
  eapply wp_mono; [by apply (wp_post_op R)|].
  intros [ret| |] x' t'; simpl; [|done..].
  intros (Hops' & Hg & [HL' Hpre] & _ & _ & _ & Hcase). split_and!; [|done..].
  destruct (ret =? 0).
  - destruct Hcase as [Hself Hnew]. split; rewrite ?Hself; simpl; try done.
    + intros p o [->%elem_of_singleton|Hp]%elem_of_union Ho.
      * rewrite Hnew, lookup_insert_eq in Ho. injection Ho as <-. done.
      * destruct (oi_live _ _ _ Hops p Hp) as [o' Ho'].
        assert (p < next_op (heap (proc x))) by (apply (oi_bound _ _ _ Hops); eauto).
        rewrite (og_old _ _ _ _ Hg) in Ho by done. eauto.
    + by eapply conn_inv_prefix.
  - destruct Hcase as [Hself Hheap]. split; rewrite ?Hself, ?Hheap; try done.
    by eapply conn_inv_prefix.
Qed.

Lemma same_base_grows x s' : same_base (self x) s' -> grows x (with_self s' x).
Proof.
  intros [S1 _ _ _ _ _ _]. split; simpl; [lia | done |]. rewrite S1. by left.
Qed.

(** A quiet step on the object alone. *)
Definition quiet_step (L : gmultiset res) (x : Ctx RPMAHandler) (x' : Ctx RPMAHandler)
    (t' : trace) : Prop :=
  exists s', x' = with_self s' x /\ same_base (self x) s' /\
    ledger t' = Some (L ⊎ owned_server s').

Lemma wp_quiet_step {A} (m : M (Ctx RPMAHandler) A) L Q x t :
  calls quiet_call m -> server_inv L x t ->
  wp m (fun o x' t' => quiet_step L x x' t' /\
          (server_inv L x' t' -> grows x x' -> Q o x' t')) x t ->
  wp m Q x t.
Proof.
  intros Hc Hinv Hm. eapply wp_mono; [by eapply calls_wp|].
  intros o x' t' [[(s' & -> & Hsb & HL) HQ] Hq].
  apply HQ; [by eapply server_inv_update | by apply same_base_grows].
Qed.

Lemma quiet_step_self L x s' t' :
  same_base (self x) s' -> ledger t' = Some (L ⊎ owned_server s') ->
  quiet_step L x (with_self s' x) t'.
Proof. intros. by exists s'. Qed.

Lemma quiet_reset_data_mr mr : calls quiet_call (reset_data_mr mr).
Proof. footprint. Qed.
Lemma quiet_get_descriptor_for_write : calls quiet_call get_descriptor_for_write.
Proof. footprint. Qed.

Lemma wp_close L x t :
  server_inv L x t ->
  wp close (returns (fun ret x' t' => ret = 0 /\ server_inv L x' t' /\ grows x x')) x t.
Proof.
  intros Hinv. unfold close. apply wp_bind.
  eapply wp_quiet_step; [apply quiet_reset_data_mr | exact Hinv |].
  eapply (wp_reset_data_mr _ _ _ _ (L ⊎ (owned_ch (rh_base (self x)) ⊎ owned (data_manager (self x))))).
  { rewrite (sv_ledger _ _ _ Hinv). f_equal. unfold owned_server. multiset_solver. }
  intros t1 HL1 _. split.
  { apply quiet_step_self; [by split|]. rewrite HL1. f_equal. unfold owned_server; simpl.
    change (owned_mr NULL) with (∅ : gmultiset res). multiset_solver. }
  clear Hinv HL1. set (x1 := with_self _ x). intros Hinv G1. apply wp_bind.
  eapply wp_quiet_step; [apply calls_zoom, calls_zoom, quiet_close_and_remove | exact Hinv |].
  apply wp_on_manager.
  eapply wp_mono; [apply (wp_close_and_remove _ _
    (L ⊎ (owned_ch (rh_base (self x1)) ⊎ owned_mr (data_mr (self x1)))))|].
  { rewrite (sv_ledger _ _ _ Hinv). f_equal. unfold owned_server. multiset_solver. }
  intros [failed| |] dm t2; simpl; [|done..]. intros (-> & HL2 & _). split.
  { apply quiet_step_self; [by split|]. rewrite HL2. f_equal. unfold owned_server. simpl.
    rewrite owned_null by done. multiset_solver. }
  clear Hinv HL2. set (x2 := with_self _ x1). intros Hinv G2. apply wp_bind.
  set (bl := RwlReplicaRequest_encode _ []).
  assert (Hbl : blen bl = 10) by (unfold bl; by rewrite request_length).
  eapply wp_fill_send_buffer; [by rewrite Hbl | apply Hinv |].
  set (s3 := set_ch _ _).
  assert (Hsb : same_base (self x2) s3).
  { split; try done. simpl. apply blen_filled. pose proof (sv_buffer _ _ _ Hinv) as Hb.
    simpl in Hb. rewrite Hbl, Hb. done. }
  assert (Hinv3 : server_inv L (with_self s3 x2) t2).
  { eapply server_inv_update; [done..|apply extends_refl|]. apply (sv_ledger _ _ _ Hinv). }
  apply wp_bind. eapply wp_mono; [apply (server_post L); [by right | exact Hinv3 |]|].
  { apply posts_send. intros p ret _ _. split; [|by eexists].
    eapply server_ledger_post; [by left | done.. | apply Hinv3]. }
  intros [ret| |] x4 t4; simpl; [|done..]. intros (Hinv4 & G4 & _). wp_step. split_and!; try done.
  eapply grow_trans; [exact G1|]. eapply grow_trans; [exact G2|].
  eapply grow_trans; [by apply same_base_grows | exact G4].
Qed.

Lemma wp_get_descriptor n L x t :
  pcfg_available O -> maps_whole_files O n -> requests_size n (self x) -> server_inv L x t ->
  wp get_descriptor (fun o x' t' =>
    server_inv L x' t' /\ grows x x' /\ forall f, o <> Faulted f) x t.
Proof.
  intros Hav Hmaps Hreq Hinv. unfold get_descriptor. do 2 wp_step.
  destruct (RwlReplicaRequest_decode _) as [[request r]|].
  2: { wp_step. split_and!; [done | apply grow_refl | done]. }
  apply wp_if; intros _.
  { eapply wp_quiet_step; [apply quiet_get_descriptor_for_write | exact Hinv |].
    eapply wp_mono; [apply (wp_get_descriptor_for_write n _ _ L); try done; apply Hinv|].
    intros o x' t' [(s' & -> & Hsb & HL) Hnf]. split; [by apply quiet_step_self | done]. }
  apply wp_if; intros _; [|by wp_step; split_and!; [done | apply grow_refl | done]].
  eapply wp_mono; [by apply wp_close|]. intros [ret| |] x' t'; simpl; [|done..].
  intros (_ & ? & ?). done.
Qed.

Lemma wp_deal_require n L x t :
  pcfg_available O -> maps_whole_files O n -> requests_size n (self x) -> server_inv L x t ->
  wp deal_require (fun o x' t' =>
    server_inv L x' t' /\ grows x x' /\ forall f, o <> Faulted f) x t.
Proof.
  intros Hav Hmaps Hreq Hinv. unfold deal_require. apply wp_bind.
  eapply wp_mono; [by apply (wp_get_descriptor n L)|]. intros o x1 t1 (Hinv1 & G1 & Hnf).
  destruct o as [ret|e|f]; [| by split_and! | by destruct (Hnf f)]. apply wp_bind.
  eapply wp_mono; [apply (server_post L); [by left | exact Hinv1 |]|].
  { apply posts_recv. intros p ret' _ _. split; [|by eexists].
    eapply server_ledger_post; [by right | done.. | apply Hinv1]. }
  intros [ret'| |] x2 t2; simpl; [|done..]. intros (Hinv2 & G2 & _).
  unfold rpma_send. wp_steps. split_and!; [|by eapply grow_trans | done].
  destruct Hinv2 as [[I1 I2 I3 I4] Hcb Hbuf Hconn Hpeer HL]. split; try done.
  - split; try done. rewrite outstanding_send, decide_False by (intros (_ & _ & ?); done). done.
  - by apply conn_inv_app.
  - eapply server_ledger_post; [by left | done..].
Qed.

(** Calls on the connection that post nothing keep the invariant. *)
Lemma server_inv_conn_call L x t c (a : answer c) :
  uses c = nonnull RConn (conn (_conn (rh_base (self x)))) ->
  releases c = None -> acquires (Ev c a) = None -> ops_ok x (t ++ [Ev c a]) ->
  server_inv L x t -> server_inv L x (t ++ [Ev c a]).
Proof.
  intros Hu Hr Ha Hok [Hops Hcb Hbuf Hconn Hpeer HL]. split; try done.
  - by apply conn_inv_app.
  - eapply ledger_use_conn; try done. intros Hn. unfold owned_server, owned_ch.
    pose proof (owned_conn_in (_conn (rh_base (self x))) ∅ Hn). multiset_solver.
Qed.

(** The states of a completion. *)
Lemma server_inv_erased L x t p :
  outstanding (QConn (conn (_conn (rh_base (self x))))) t ⊆
    callback_table (rh_base (self x)) ∖ {[p]} ->
  server_inv L x t -> server_inv L (erased p x) t.
Proof.
  intros Hout [[I1 I2 I3 I4] Hcb Hbuf Hconn Hpeer HL]. split; try done.
  - split; simpl; [|done..]. intros q Hq. apply I1. set_solver.
  - simpl. intros q o Hq. apply Hcb. set_solver.
Qed.

Lemma server_inv_freed L x t p :
  p ∉ callback_table (rh_base (self x)) -> server_inv L x t -> server_inv L (freed p x) t.
Proof.
  intros Hp [Hops Hcb Hbuf Hconn Hpeer HL]. split; try done.
  - by apply ops_inv_delete.
  - simpl. intros q o Hq [_ Ho]%lookup_delete_Some. eauto.
Qed.

Lemma server_inv_torn L x t a :
  server_inv L x t ->
  server_inv L (torn x) (t ++ [Ev (C_conn_disconnect (conn (_conn (rh_base (self x))))) a]).
Proof.
  intros Hinv. set (t' := t ++ _).
  assert (Hinv' : server_inv L x t').
  { apply server_inv_conn_call; try done. apply ops_inv_other; [done|apply Hinv]. }
  destruct Hinv' as [Hops Hcb Hbuf Hconn Hpeer HL]. split; try done.
  - by apply ops_ok_torn.
  - intros _ _. exists a. unfold t'. set_solver.
Qed.

(** Two states of the object with the same reply and the same replica. *)
Record same_replica (s s' : RPMAHandler) : Prop := {
  sr_buffer : bl_data (send_bl (rh_base s')) = bl_data (send_bl (rh_base s));
  sr_manager : data_manager s' = data_manager s;
  sr_mr : data_mr s' = data_mr s
}.

(** What is known of the reply and the replica, and only grows with the trace. *)
Definition about_replica (T : RPMAHandler -> trace -> Prop) : Prop :=
  forall s s' t t', same_replica s s' -> t `prefix_of` t' -> T s t -> T s' t'.

(** A completion keeps the invariant, and what is known of the replica if dealing with a
    request keeps that. *)
Lemma wp_server_completion_with {CD : CompletionDocumented O} T n L x t :
  about_replica T ->
  (forall L x t, requests_size n (self x) -> server_inv L x t -> T (self x) t ->
     wp deal_require (fun o x' t' => (server_inv L x' t' /\ grows x x' /\ forall f, o <> Faulted f) /\
       T (self x') t') x t) ->
  requests_size n (self x) -> server_inv L x t -> T (self x) t ->
  wp (handle_completion RPMAHandler_run) (fun o x' t' =>
    (server_inv L x' t' /\ forall f, o <> Faulted f) /\ T (self x') t') x t.
Proof.
  intros HT Hdeal Hreq Hinv Ht.
  assert (Hkeep : forall y t', same_replica (self x) (self y) -> t `prefix_of` t' -> T (self y) t').
  { intros y t' Hs Hp. by eapply HT. }
  assert (Herr : forall ret t', server_inv L x t' -> t `prefix_of` t' -> completion_error ret x t'
    (fun o x' t' => (server_inv L x' t' /\ forall f, o <> Faulted f) /\ T (self x') t')).
  { intros ret t' Hinv' Hp. unfold completion_error. case_match; [by split; [|apply Hkeep]|]. intros a.
    split; [split; [by apply server_inv_torn | done]|]. apply Hkeep; [done | by apply prefix_app_r]. }
  apply wp_handle_completion.
  { intros w _ _. apply Herr; [|by eexists]. apply server_inv_conn_call; try done.
    apply ops_inv_other; [done|apply Hinv]. }
  intros ret cmpl t1 t2 Hw Hget. assert (Hp2 : t `prefix_of` t2) by (by repeat apply prefix_app_r).
  assert (Hinv2 : server_inv L x t2).
  { apply server_inv_conn_call; try done; [apply ops_ok_completion, Hinv|].
    apply server_inv_conn_call; try done. apply ops_inv_other; [done|apply Hinv]. }
  destruct (ret =? 0) eqn:Hret; simpl; [|by apply Herr]. bools. subst ret.
  destruct (_ || _) eqn:Hst; [by split; [|apply Hkeep]|]. bools.
  destruct (completed_live x t 0 cmpl (sv_ops _ _ _ Hinv) Hget) as (Hin & [o Ho] & Hout); [done|].
  eapply wp_complete_op; [exact Ho|]. set (p := op_context cmpl) in *.
  pose proof (server_inv_erased L x t2 p Hout Hinv2) as Hinv3.
  assert (Hb : p < next_op (heap (proc x))) by (eapply oi_bound; [apply Hinv|eauto]).
  assert (Hfree : forall x' t', server_inv L x' t' -> grows (erased p x) x' ->
    is_Some (ops (heap (proc x')) !! p) /\ server_inv L (freed p x') t').
  { intros x' t' Hinv' [G1 G2 G3]. split; [rewrite G2 by done; eauto|].
    apply server_inv_freed; [|done]. intros [|]%G3; [simpl in *; set_solver | simpl in *; lia]. }
  unfold do_callback. case_bool_decide as Hcb.
  { wp_step. destruct (Hfree (erased p x) t2) as [? ?]; [done | apply grow_refl | by split_and!; [..|apply Hkeep]]. }
  destruct (sv_callbacks _ _ _ Hinv p o Hin Ho) as [Hf|Hf]; [rewrite Hf|done].
  eapply wp_mono; [apply (Hdeal L (erased p x)); [done..|by apply Hkeep]|].
  intros r x' t' [(Hinv' & G & Hnf) HT'].
  destruct (Hfree x' t' Hinv' G) as [? ?]. destruct r as [[]|e|f]; [by split_and!..|by destruct (Hnf f)].
Qed.

Lemma wp_server_completion {CD : CompletionDocumented O} n L x t :
  pcfg_available O -> maps_whole_files O n -> requests_size n (self x) -> server_inv L x t ->
  wp (handle_completion RPMAHandler_run) (fun o x' t' =>
    server_inv L x' t' /\ forall f, o <> Faulted f) x t.
Proof.
  intros Hav Hmaps Hreq Hinv.
  eapply wp_mono; [apply (wp_server_completion_with (fun _ _ => True) n L); try done|by intros o x' t' [? _]].
  intros L' x' t' Hreq' Hinv' _. eapply wp_mono; [by apply (wp_deal_require n L')|]. by intros.
Qed.

End Lemmas.

(** ** Construction and destruction *)

Section Construction.
Context {O : Oracle}.

(** The destructor gives back everything the object owns. *)
Lemma wp_RPMAHandler_dtor x t L :
  let c := rh_base (self x) in
  let m := peers (proc x) in
  ops_ok x t -> conn_inv (_conn c) t -> counted m (_peer c) ->
  ledger t = Some (L ⊎ last_owner m (_peer c) ⊎ owned_server (self x)) ->
  wp RPMAHandler_dtor (returns (fun _ x' t' =>
      ledger t' = Some L /\ peers (proc x') = drop_owner m (_peer c) /\
      reactor (proc x') = reactor (proc x) /\
      forall p, ops (heap (proc x')) !! p =
        if decide (p ∈ callback_table c) then None else ops (heap (proc x)) !! p)) x t.
Proof.
  intros c m Hops Hconn Hcount HL. unfold RPMAHandler_dtor. do 2 wp_step.
  set (L1 := L ⊎ last_owner m (_peer c) ⊎ owned_ch c).
  apply wp_bind. eapply wp_mono; [apply (calls_wp quiet_call); [footprint|]|].
  { apply (wp_mr_delete _ _ _ (L1 ⊎ owned (data_manager (self x)))).
    rewrite HL. f_equal. unfold L1, owned_server. fold c. multiset_solver. }
  intros [[]| |] x1 t1; simpl; [|by intros [[] _]..]. intros [(-> & HL1 & _) Hq1].
  apply wp_bind, wp_on_manager. eapply wp_mono; [apply (calls_wp quiet_call); [footprint|]|].
  { apply (wp_dtor _ _ L1 HL1). }
  intros [[]| |] dm t2; simpl; [|by intros [[] _]..]. intros [[-> HL2] Hq2].
  pose proof (extends_trans _ _ _ _ Hq1 Hq2) as Hq.
  eapply wp_mono; [apply (wp_ConnectionHandler_dtor _ _ L)|]; [..|by intros].
  - destruct Hops as [I1 I2 I3 I4]. split; try done. by rewrite (quiet_outstanding _ _ _ Hq).
  - eapply conn_inv_prefix; [exact Hconn | by eapply extends_prefix].
  - done.
  - done.
Qed.

(** What holds while the constructor runs, whether or not it throws: the members
    account for the ledger, and the only new operations are in the table. *)
Record building (L : gmultiset res) (m : gmap Z nat) (h : op_heap)
    (x : Ctx RPMAHandler) (t : trace) : Prop := {
  bd_ops : ops_ok x t;
  bd_conn : conn_inv (_conn (rh_base (self x))) t;
  bd_ledger : ledger t = Some (L ⊎ owned_server (self x));
  bd_peers : peers (proc x) = m;
  bd_new p : p ∈ callback_table (rh_base (self x)) -> ops h !! p = None;
  bd_old p : p ∉ callback_table (rh_base (self x)) -> ops (heap (proc x)) !! p = ops h !! p
}.

(** An exception in the body: the destructors restore the process. *)
Lemma wp_unwind L m h n x t :
  let peer := _peer (rh_base (self x)) in
  peer <> NULL -> m !! peer = Some (S n) ->
  building L (<[peer := S (S n)]> m) h x t ->
  wp RPMAHandler_dtor (returns (fun _ x' t' =>
    ledger t' = Some L /\ peers (proc x') = m /\ ops (heap (proc x')) = ops h)) x t.
Proof.
  intros peer Hp Hm [Hops Hconn HL Hpeers Hnew Hold].
  assert (Hlast : last_owner (peers (proc x)) peer = ∅).
  { unfold last_owner. rewrite Hpeers, lookup_insert_eq.
    rewrite bool_decide_eq_false_2; [done|]. naive_solver. }
  eapply wp_mono; [apply (wp_RPMAHandler_dtor _ _ L Hops Hconn)|].
  - intros _. rewrite Hpeers. fold peer. rewrite lookup_insert_eq. eauto.
  - fold peer. rewrite Hlast, HL. f_equal. multiset_solver.
  - intros [[]| |] x' t'; simpl; [|done..]. intros (HL' & Hpeers' & _ & Hops'). split_and!; [done| |].
    + rewrite Hpeers', Hpeers. fold peer. unfold drop_owner.
      rewrite (proj2 (Z.eqb_neq _ _) Hp), lookup_insert_eq, insert_insert_eq. by apply insert_id.
    + apply map_eq. intros p. rewrite Hops'. case_decide; [symmetry|]; auto.
Qed.

Lemma building_base L m h x t c' t' :
  let s := self x in
  building L m h x t -> callback_table c' = callback_table (rh_base s) ->
  _conn c' = _conn (rh_base s) -> extends quiet_call t t' ->
  ledger t' = Some (L ⊎ owned_server (with_base c' s)) ->
  building L m h (with_self (with_base c' s) x) t'.
Proof.
  intros s [[I1 I2 I3 I4] Hconn HL Hm Hnew Hold] Ht Hc Hq HL'. split; simpl; rewrite ?Ht, ?Hc; try done.
  - split; simpl; rewrite ?Ht, ?Hc; try done. by rewrite (quiet_outstanding _ _ _ Hq).
  - eapply conn_inv_prefix; [done|]. by eapply extends_prefix.
Qed.

(** The ledger grows by an object that is not the handler's. *)
Lemma building_ledger L L' m h x t c (a : answer c) :
  building L m h x t -> keeps_queues c = true \/
    (outstanding (QConn (conn (_conn (rh_base (self x))))) (t ++ [Ev c a]) ⊆
     callback_table (rh_base (self x))) ->
  ledger (t ++ [Ev c a]) = Some (L' ⊎ owned_server (self x)) ->
  building L' m h x (t ++ [Ev c a]).
Proof.
  intros [[I1 I2 I3 I4] Hconn HL Hm Hnew Hold] Hq HL'. split; try done.
  - split; try done. destruct Hq as [Hq|Hq]; [|done].
    apply negb_true_iff in Hq. by rewrite outstanding_other.
  - by apply conn_inv_app.
Qed.

Lemma wp_next_conn_req L m h ep Q x t :
  building L m h x t -> (ep <> NULL -> REp ep ∈ L) ->
  (forall ret req t', ret <> 0 -> building L m h x t' -> Q (Ret (ret, req)) x t') ->
  (forall req t', building (L ⊎ {[+ RReq req +]}) m h x t' -> outstanding (QReq req) t' = ∅ ->
     Q (Ret (0, req)) x t') ->
  wp (rpma_ep_next_conn_req ep NULL NULL) Q x t.
Proof.
  intros Hb Hep Hfail Hok. unfold rpma_ep_next_conn_req. do 2 wp_step. destruct a as [ret req].
  wp_step.
  assert (Hu : Forall (.∈ L ⊎ owned_server (self x)) (uses (C_ep_next_conn_req ep NULL))).
  { simpl. rewrite app_nil_r. apply Forall_nonnull. intros Hn. specialize (Hep Hn). multiset_solver. }
  assert (Hq : outstanding (QConn (conn (_conn (rh_base (self x)))))
    (t ++ [Ev (C_ep_next_conn_req ep NULL) (ret, req)]) ⊆ callback_table (rh_base (self x))).
  { rewrite outstanding_next_conn_req, decide_False by naive_solver. apply Hb. }
  destruct (Z.eqb_spec ret 0) as [->|Hret].
  - apply Hok; [|by rewrite outstanding_next_conn_req, decide_True].
    apply (building_ledger L); [done | by right|].
    rewrite (ledger_acquire _ (L ⊎ owned_server (self x)) _ _ (RReq req)); try done; [|apply Hb].
    f_equal. multiset_solver.
  - apply Hfail; [done|]. apply (building_ledger L); [done | by right|].
    apply ledger_use; try done; [apply Hb|]. simpl. by rewrite (proj2 (Z.eqb_neq _ _) Hret).
Qed.

Context {RD : RpmaDocumented O}.

(** Posting the first receive on the request. *)
Lemma wp_post_first L m h req x t :
  let L1 := L ⊎ {[+ RReq req +]} in
  let c := rh_base (self x) in
  building L1 m h x t -> callback_table c = ∅ -> outstanding (QReq req) t = ∅ ->
  heap (proc x) = h ->
  wp (post_op RpmaReqRecv deal_require_cb (fun recv =>
          c ← gets (fun x => ch_of (self x));
          RpmaReqRecv_call req (recv_mr c) 0 MSG_SIZE recv))
    (returns (fun ret x' t' => building L1 m h x' t' /\
       self x' = (if ret =? 0 then with_base (with_table {[next_op h]} c) (self x) else self x) /\
       (ret = 0 -> ops (heap (proc x')) =
          <[next_op h := {| class := RpmaReqRecv; func := deal_require_cb |}]> (ops h) /\
        outstanding (QReq req) t' ⊆ {[next_op h]}))) x t.
Proof.
  intros L1 c [Hops Hconn HL Hm Hnew Hold] Htab Hout Hh.
  set (R := fun (p ret : Z) t' => ledger t' = Some (L1 ⊎ owned_server (self x)) /\
    t `prefix_of` t' /\ outstanding (QReq req) t' ⊆ {[p]}).
  eapply wp_mono; [apply (wp_post_op R); [exact Hops|]|].
  { intros p pr Hp. unfold RpmaReqRecv_call, rpma_conn_req_recv. wp_steps. simpl.
    split_and!; [done| |by rewrite outstanding_req_recv, decide_False by (by intros [? _]);
      case_match; set_solver].
    split_and!; [|by eexists|].
    - apply ledger_use; try done. simpl. fold c. apply Forall_app.
      split; apply Forall_nonnull; intros Hn; [unfold L1; multiset_solver|].
      unfold owned_server, owned_ch. fold c. rewrite (owned_mr_some _ Hn). multiset_solver.
    - rewrite outstanding_req_recv, Hout. case_decide; set_solver. }
  intros [ret| |] x' t'; simpl; [|done..]. rewrite Hh.
  intros (Hops' & Hg & (HL' & Hpre & Hout') & _ & _ & Hpeers & Hcase). fold c in Hcase.
  destruct (ret =? 0) eqn:Hret.
  - destruct Hcase as [Hself Hop]. rewrite Htab, union_empty_r_L in Hself.
    split_and!; [|done|by intros]. split; rewrite ?Hself; simpl; try done.
    + by eapply conn_inv_prefix.
    + by rewrite Hpeers.
    + intros p ->%elem_of_singleton. rewrite <-Hh. destruct (ops _ !! _) eqn:Eq; [|done].
      pose proof (oi_bound _ _ _ Hops (next_op (heap (proc x)))) as Hb. rewrite Eq in Hb.
      specialize (Hb ltac:(eauto)). lia.
    + intros p Hp%not_elem_of_singleton. by rewrite Hop, lookup_insert_ne.
  - destruct Hcase as [Hself Hheap]. rewrite Hself, Hheap. split_and!; [|done|].
    + split; rewrite ?Hself, ?Hheap, ?Hpeers; try done; by eapply conn_inv_prefix.
    + intros ->. done.
Qed.

(** The end of the constructor's body: connecting, and reading the descriptors. *)
Lemma wp_connect L m h req p x t :
  let L1 := L ⊎ {[+ RReq req +]} in
  let s := self x in
  building L1 m h x t -> conn (_conn (rh_base s)) = NULL ->
  callback_table (rh_base s) = {[p]} -> outstanding (QReq req) t ⊆ {[p]} ->
  wp (accept_connection req)
    (fun o x' t' => building L m h x' t' /\
       proc x' = proc x /\ callback_table (rh_base (self x')) = {[p]} /\
       _peer (rh_base (self x')) = _peer (rh_base s) /\
       send_bl (rh_base (self x')) = send_bl (rh_base s) /\
       match o with
       | Ret _ => conn (_conn (rh_base (self x'))) <> NULL
       | Throw _ => True
       | Faulted _ => False
       end) x t.
Proof.
  intros L1 s Hb Hnull Htab Hout. unfold accept_connection, indeterminate, rpma_conn_req_connect. do 4 wp_step.
  set (t1 := t ++ _). 
  assert (Hb1 : building L1 m h x t1).
  { apply (building_ledger L1); [done | by left|]. apply ledger_neutral; try done. apply Hb. }
  assert (Hout1 : outstanding (QReq req) t1 ⊆ {[p]}) by (unfold t1; by rewrite outstanding_other).
  clearbody t1. wp_step. destruct a0 as [ret cn]. wp_step. set (t2 := t1 ++ _).
  assert (HL2 : ledger t2 = Some (if ret =? 0 then L ⊎ owned_server s ⊎ {[+ RConn cn +]}
      else L ⊎ owned_server s)).
  { apply ledger_connect. rewrite (bd_ledger _ _ _ _ _ Hb1). f_equal. unfold L1. fold s.
    multiset_solver. }
  destruct (ret =? 0) eqn:Hret; cbn [negb]; bools.
  - subst ret. change (out_on_success 0 cn a) with cn. apply wp_bind, wp_on_ch, wp_zoom. unfold RpmaConn_reset. wp_step.
    assert (Hcn : cn <> NULL).
    { apply (documented_out t1 (C_conn_req_connect req) cn). by rewrite H0. }
    set (c2 := with_conn _ _). set (s2 := with_base c2 s).
    assert (Hown : owned_server s2 = owned_server s ⊎ {[+ RConn cn +]}).
    { unfold owned_server, owned_ch, owned_conn, s2, c2. simpl. fold s. rewrite Hnull.
      rewrite (proj2 (Z.eqb_neq _ _) Hcn). simpl. multiset_solver. }
    assert (Hb2 : building L m h (with_self s2 x) t2).
    { destruct Hb1 as [[I1 I2 I3 I4] Hconn HL1 Hm Hnew Hold]. split; try done.
      - split; try done. simpl. unfold t2. rewrite outstanding_connect. simpl. fold s. by rewrite Htab.
      - simpl. rewrite Hown, HL2. f_equal. multiset_solver. }
    apply wp_on_ch. eapply wp_mono; [apply (calls_wp quiet_call); [footprint|]|].
    { apply (wp_init_conn_fd _ _ (L ⊎ (owned_mr (recv_mr c2) ⊎ owned_mr (send_mr c2) ⊎
        owned (data_manager s2) ⊎ owned_mr (data_mr s2)))).
      rewrite (bd_ledger _ _ _ _ _ Hb2). f_equal. unfold owned_server, owned_ch. simpl. multiset_solver. }
    intros o c3 t3 [(Hc3 & HL3 & Hnf) Hq3].
    assert (Hfields : callback_table c3 = callback_table c2 /\ _conn c3 = _conn c2 /\
      _peer c3 = _peer c2 /\ send_bl c3 = send_bl c2 /\ send_mr c3 = send_mr c2 /\
      recv_mr c3 = recv_mr c2) by (rewrite Hc3; done).
    destruct Hfields as (F1 & F2 & F3 & F4 & F5 & F6).
    split_and!; simpl; rewrite ?F1, ?F2, ?F3, ?F4; try done.
    + apply (building_base L m h (with_self s2 x) t2); try done.
      rewrite HL3. f_equal. unfold owned_server, owned_ch. simpl. rewrite F2, F5, F6. multiset_solver.
    + destruct o as [|e|f]; [done..|by destruct (Hnf f)].
  - change (NULL =? NULL) with true. cbn [negb]. cbn iota. wp_steps. fold s.
    split_and!; try done. apply (building_ledger L1 L); [done | | done].
    right. simpl. fold s. rewrite outstanding_connect_failed by done. apply Hb1.
Qed.

(** The process when the acceptor makes a handler: it holds the peer (shared by
    [S n] owners) and the endpoint, and nothing was posted on a null connection. *)
Record accepting (L : gmultiset res) (peer ep : Z) (n : nat) (x : Ctx RPMAHandler) (t : trace)
    : Prop := {
  ac_heap : heap_ok (heap (proc x));
  ac_queue : outstanding (QConn NULL) t = ∅;
  ac_peer : peer <> NULL /\ RPeer peer ∈ L /\ peers (proc x) !! peer = Some (S n);
  ac_ep : ep <> NULL -> REp ep ∈ L;
  ac_ledger : ledger t = Some L;
  ac_self : exists a b c, self x = RPMAHandler_init a b c
}.

(** The object and the process after the first two statements of the body. *)
Lemma building_start L peer ep n x t :
  let x1 := with_proc (with_peers (alter S peer (peers (proc x))) (proc x))
              (with_self (with_base (with_peer peer (rh_base (self x))) (self x)) x) in
  accepting L peer ep n x t ->
  building L (<[peer := S (S n)]> (peers (proc x))) (heap (proc x)) x1 t.
Proof.
  intros x1 [[Hh1 Hh2] Hqueue (Hp & HpL & Hcount) Hep HL (i & j & k & Hself)].
  destruct x as [th sf pr]. simpl in *. subst sf. split; simpl; try done.
  - split; simpl; [set_solver | done | done |]. by rewrite Hqueue.
  - intros Hn. by destruct Hn.
  - rewrite HL. f_equal. unfold owned_server, owned_ch. simpl. multiset_solver.
  - apply map_eq. intros q. destruct (decide (q = peer)) as [->|].
    + by rewrite lookup_alter_eq, lookup_insert_eq, Hcount.
    + by rewrite lookup_alter_ne, lookup_insert_ne.
Qed.

(** Up to the posted receive. *)
Lemma wp_accept_request L peer ep n x t :
  let m := <[peer := S (S n)]> (peers (proc x)) in
  let h := heap (proc x) in
  accepting L peer ep n x t ->
  wp (accept_request peer ep) (fun o x' t' =>
    _peer (rh_base (self x')) = peer /\ conn (_conn (rh_base (self x'))) = NULL /\
    match o with
    | Ret req => building (L ⊎ {[+ RReq req +]}) m h x' t' /\
        callback_table (rh_base (self x')) = {[next_op h]} /\
        blen (bl_data (send_bl (rh_base (self x')))) = MSG_SIZE /\
        outstanding (QReq req) t' ⊆ {[next_op h]} /\
        ops (heap (proc x')) =
          <[next_op h := {| class := RpmaReqRecv; func := deal_require_cb |}]> (ops h)
    | Throw _ => building L m h x' t'
    | Faulted _ => False
    end) x t.
Proof.
  intros m h Hacc. pose proof (building_start _ _ _ _ _ _ Hacc) as Hb1.
  destruct Hacc as [Hheap Hqueue (Hp & HpL & Hcount) Hep HL (i & j & k & Hself)].
  fold m h in Hb1. unfold accept_request, peer_share.
  apply wp_bind, wp_on_ch. wp_step.
  apply wp_bind, wp_zoom. wp_step. revert Hb1. set (x1 := with_proc _ _).
  intros Hb1.
  assert (Hown : owned_server (self x1) = ∅ /\ recv_mr (rh_base (self x1)) = NULL /\
    send_mr (rh_base (self x1)) = NULL /\ _conn (rh_base (self x1)) = RpmaConn_default /\
    callback_table (rh_base (self x1)) = ∅ /\ owned_ch (rh_base (self x1)) = ∅).
  { unfold x1. simpl. rewrite Hself. done. }
  destruct Hown as (Hown & Hr & Hs & Hc & Htab & Hch).
  assert (Hheap1 : heap (proc x1) = h) by done.
  assert (Hpeer1 : _peer (rh_base (self x1)) = peer) by done.
  clearbody x1. clear Hself Hcount.
  (* the buffers *)
  apply wp_bind, wp_on_ch. eapply wp_mono; [apply (calls_wp quiet_call); [footprint|]|].
  { apply (wp_init_send_recv_buffer _ _ L Hr Hs); simpl; [by rewrite Hpeer1|].
    rewrite Hch, HL. f_equal. multiset_solver. }
  intros o c2 t2 [((T2 & C2 & P2) & _ & HL2 & Ho) Hq2]. simpl in T2, C2, P2.
  set (x2 := with_self _ x1).
  assert (Hb2 : building L m h x2 t2).
  { apply (building_base L m h x1 t); try done. rewrite HL2. f_equal.
    unfold owned_server in Hown |- *. simpl.
    assert (owned (data_manager (self x1)) = ∅ /\ owned_mr (data_mr (self x1)) = ∅) as [-> ->]
      by (split; multiset_solver). multiset_solver. }
  destruct o as [[]|e|f]; [| |done]; [|split_and!; [simpl; by rewrite P2 | simpl; by rewrite C2, Hc | done]].
  destruct Ho as (_ & _ & _ & Hbuf2).
  (* the request *)
  apply wp_bind. eapply wp_next_conn_req; [exact Hb2 | exact Hep | |].
  { intros ret req t3 Hret Hb3. cbn beta iota. rewrite (proj2 (Z.eqb_neq _ _) Hret).
    cbn [negb]. cbn iota. wp_step. split_and!; [simpl; by rewrite P2 | simpl; by rewrite C2, Hc | done]. }
  intros req t3 Hb3 Hout3. cbn beta iota. change (negb (0 =? 0)) with false. cbn iota.
  (* the first receive *)
  apply wp_bind. eapply wp_mono; [apply (wp_post_first L m h req x2 t3); try done|].
  { simpl. by rewrite T2. }
  intros [ret| |] x4 t4; simpl; [|done..]. intros (Hb4 & Hself4 & Hok4).
  apply wp_if; intros Hret; bools.
  { rewrite (proj2 (Z.eqb_neq _ _) Hret) in Hself4. unfold rpma_conn_req_delete. wp_steps.
    rewrite Hself4 at 1 2. simpl. rewrite C2, Hc. split_and!; [by rewrite P2 | done |].
    apply (building_ledger (L ⊎ {[+ RReq req +]})); [done | by left|].
    eapply ledger_release; try done. rewrite (bd_ledger _ _ _ _ _ Hb4). f_equal. multiset_solver. }
  subst ret. simpl in Hself4. destruct (Hok4 eq_refl) as [Hheap4 Hout4]. clear Hok4. wp_step.
  rewrite Hself4. simpl. rewrite C2, Hc. by split_and!; [rewrite P2|..].
Qed.

Lemma wp_RPMAHandler_body L peer ep n x t :
  let m := <[peer := S (S n)]> (peers (proc x)) in
  let h := heap (proc x) in
  accepting L peer ep n x t ->
  wp (RPMAHandler_body peer ep) (fun o x' t' =>
    building L m h x' t' /\ _peer (rh_base (self x')) = peer /\
    match o with
    | Ret _ => server_inv L x' t' /\ conn (_conn (rh_base (self x'))) <> NULL
    | Throw _ => True
    | Faulted _ => False
    end) x t.
Proof.
  intros m h Hacc. unfold RPMAHandler_body. apply wp_bind.
  eapply wp_mono; [by apply (wp_accept_request L)|].
  intros [req|e|f] x4 t4 (Hp4 & Hn4 & H4); [|by split_and!|done].
  destruct H4 as (Hb4 & Htab4 & Hbuf4 & Hout4 & Hheap4).
  eapply wp_mono; [by apply (wp_connect L m h req (next_op h) x4 t4)|].
  intros o x5 t5 (Hb5 & Hproc & Htab5 & Hp5 & Hbl5 & Ho).
  split_and!; [done | by rewrite Hp5|]. destruct o as [[]|e|f]; [|done..].
  split; [|done]. destruct Hb5 as [Hops5 Hconn5 HL5 _ _ _]. split; try done.
  - rewrite Htab5, Hproc, Hheap4. intros p q ->%elem_of_singleton.
    rewrite lookup_insert_eq. intros [= <-]. by left.
  - by rewrite Hbl5.
  - rewrite Hp5, Hp4. intros _. apply Hacc.
Qed.
End Construction.

(** ** The file of a replica *)

Definition dot : byte := x2e.

(** Cutting a string at its first dot. *)
Lemma cut_at_dot a b c d :
  dot ∉ a -> dot ∉ c -> a ++ [dot] ++ b = c ++ [dot] ++ d -> a = c /\ b = d.
Proof.
  revert c. induction a as [|x a IH]; intros [|y c] Ha Hc; simpl; intros [=]; subst.
  - done.
  - set_solver.
  - set_solver.
  - destruct (IH c) as [-> ->]; [set_solver | set_solver | done | done].
Qed.

Lemma str_inj s s' : str s = str s' -> s = s'.
Proof.
  intros H. apply (f_equal string_of_list_byte) in H. unfold str in H.
  by rewrite !string_of_list_byte_of_string in H.
Qed.

Lemma to_string_inj m n : 0 <= m -> 0 <= n -> to_string m = to_string n -> m = n.
Proof. unfold to_string. intros Hm Hn H%str_inj%(inj pretty). lia. Qed.

(** ** Counting replies *)

Definition is_send (c : call) : bool := match c with C_send _ _ _ _ _ _ => true | _ => false end.
Definition not_send (c : call) : bool := negb (is_send c).

(** The messages sent so far. *)
Definition sends (t : trace) : nat := length (List.filter (fun e => is_send (ev_call e)) t).

Lemma sends_app t t' : sends (t ++ t') = (sends t + sends t')%nat.
Proof. unfold sends. by rewrite List.filter_app, length_app. Qed.

Lemma sends_extends t t' : extends not_send t t' -> sends t' = sends t.
Proof.
  intros (evs & -> & H). rewrite sends_app. enough (sends evs = 0%nat) by lia.
  induction H as [|[c a] evs Hc H IH]; [done|]. simpl in Hc. unfold not_send in Hc.
  unfold sends in *. simpl. destruct (is_send c); done.
Qed.

Section Counting.
Context {O : Oracle} {E : CephEncoding}.

Lemma wp_not_send {S A} (m : M S A) Q s t :
  calls not_send m ->
  (forall o s' t', sends t' = sends t -> Q o s' t') -> wp m Q s t.
Proof.
  intros Hc HQ. eapply wp_mono; [apply Hc|]. intros o s' t' H. by apply HQ, sends_extends.
Qed.

Lemma wp_send_counts {H} {HC : HasConnection H} cb Q (x : Ctx H) t :
  (forall o x' t', sends t' = S (sends t) -> Q o x' t') -> wp (send cb) Q x t.
Proof.
  intros HQ. unfold send, post_op, RpmaSend_call, rpma_send. apply wp_bind, wp_new_op.
  cbn beta iota. do 4 wp_step. apply wp_not_send; [footprint|]. intros o x' t' Hs. apply HQ.
  rewrite Hs, sends_app. unfold sends at 2. simpl. lia.
Qed.

(** The messages that [get_descriptor] sends: one for a finished request. *)
Lemma wp_get_descriptor_counts request r x t :
  RwlReplicaRequest_decode (bl_data (recv_bl (rh_base (self x)))) = Some (request, r) ->
  wp get_descriptor (fun o _ t' => (exists v, o = Ret v) ->
    sends t' = (sends t + if (type request =? RWL_REPLICA_FINISHED_REQUEST)%Z then 1 else 0)%nat) x t.
Proof.
  intros Hdec. unfold get_descriptor. do 2 wp_step. simpl. rewrite Hdec.
  destruct (Z.eqb_spec (type request) RWL_REPLICA_INIT_REQUEST) as [->|_].
  { apply wp_not_send; [footprint|]. intros o x' t' Hs _. simpl. lia. }
  destruct (type request =? RWL_REPLICA_FINISHED_REQUEST); [|wp_step; intros; lia].
  unfold close. apply wp_bind, wp_not_send; [footprint|]. intros o1 x1 t1 H1.
  destruct o1; [|by intros []..]. apply wp_bind, wp_not_send; [footprint|]. intros o2 x2 t2 H2.
  destruct o2; [|by intros []..]. apply wp_bind, wp_not_send; [footprint|]. intros o3 x3 t3 H3.
  destruct o3; [|by intros []..]. apply wp_bind, wp_send_counts. intros o4 x4 t4 H4.
  destruct o4; [|by intros []..]. wp_step. intros _. lia.
Qed.
End Counting.

(** ** Properties *)

Section Properties.
Context {O : Oracle} {E : CephEncoding} {EL : CephEncodingLaws E}.

(** C11: making a handler for an incoming connection is exception safe: either the
    constructor returns, and the new handler is connected, satisfies the server's
    invariant and accounts for everything acquired on the way, or it throws, and
    the ledger, the owners of the peer and the live operations are as before,
    whichever of the calls to librpma failed. *)
Theorem RPMAHandler_ctor_safe {RD : RpmaDocumented O} L peer ep n x t :
  accepting L peer ep n x t ->
  wp (RPMAHandler_ctor peer ep) (fun o x' t' =>
    match o with
    | Ret _ => server_inv L x' t' /\ conn (_conn (rh_base (self x'))) <> NULL /\
        peers (proc x') = <[peer := S (S n)]> (peers (proc x))
    | Throw _ => ledger t' = Some L /\ peers (proc x') = peers (proc x) /\
        ops (heap (proc x')) = ops (heap (proc x))
    | Faulted _ => False
    end) x t.
Proof.
  intros Hacc. unfold RPMAHandler_ctor. apply wp_on_throw.
  eapply wp_mono; [by apply wp_RPMAHandler_body|]. intros [[]|e|f] x' t' (Hb & Hp & Ho); [| |done].
  - destruct Ho. split_and!; try done. apply Hb.
  - destruct Hacc as [_ _ (Hpn & _ & Hcount) _ _ _]. rewrite <-Hp in Hpn, Hcount, Hb.
    eapply wp_mono; [by apply (wp_unwind L (peers (proc x)) (heap (proc x)) n)|].
    by intros [[]| |].
Qed.



(** Registering the replica for flushing either fails without changing the
    handler, or leaves in the send buffer a reply from which the client decodes the
    region's descriptor followed by the configuration's descriptor, with their
    exact sizes, for the region registered over the whole replica as a write
    target with the flush type of its memory. *)
Theorem init_reply_describes_region {RD : RpmaDocumented O} {DD : DescriptorsDocumented O} x t L :
  let s := self x in
  let dm := data_manager s in
  pcfg_available O ->
  (_peer (rh_base s) <> NULL -> RPeer (_peer (rh_base s)) ∈ L) ->
  blen (bl_data (send_bl (rh_base s))) = MSG_SIZE ->
  ledger t = Some (L ⊎ owned_mr (data_mr s)) ->
  wp (register_mr_to_descriptor RPMA_OP_FLUSH) (returns (fun ret x' t' =>
    if ret =? 0 then exists mr d pd pcfg t1 t2 r,
      data_mr (self x') = mr /\ mr <> NULL /\ ledger t' = Some (L ⊎ {[+ RMr mr +]}) /\
      Ev (C_mr_reg (_peer (rh_base s)) (_data dm) (_size dm)
            (Z.lor (if _is_pmem dm then RPMA_MR_USAGE_FLUSH_TYPE_PERSISTENT
                    else RPMA_MR_USAGE_FLUSH_TYPE_VISIBILITY) RPMA_MR_USAGE_WRITE_DST))
         (0, mr) ∈ t' /\
      answer_of t1 (C_mr_get_descriptor mr) = (0, d) /\
      answer_of t2 (C_peer_cfg_get_descriptor pcfg) = (0, pd) /\
      RwlReplicaInitRequestReply_decode (bl_data (send_bl (rh_base (self x')))) =
        Some ({| reply_type := RWL_REPLICA_INIT_SUCCESSED;
                 desc := {| mr_desc_size := blen d; pcfg_desc_size := blen pd;
                            descriptors := d ++ pd |} |}, r)
    else x' = x /\ ledger t' = Some (L ⊎ owned_mr (data_mr s)))) x t.
Proof.
  intros s dm Hav Hpeer Hbuf HL. apply (wp_register_mr _ x t L); try done.
  - intros ret t' Hret HL'. simpl. by rewrite (proj2 (Z.eqb_neq _ _) Hret).
  - intros mr d pd pcfg t1 t2 t' Hmr Hd Hpd Hfit HL' Hev _ bl. simpl.
    do 7 eexists. split_and!; [done..|]. by apply init_reply_of_decodes.
Qed.

(** C35: every request that is dealt with is answered, and a finished request is
    answered twice: [close] sends the reply, and [deal_require] sends the send
    buffer again. *)
Theorem finished_request_answered_twice request r x t :
  RwlReplicaRequest_decode (bl_data (recv_bl (rh_base (self x)))) = Some (request, r) ->
  wp deal_require (fun o _ t' => o = Ret tt ->
    sends t' = (sends t +
      if (type request =? RWL_REPLICA_FINISHED_REQUEST)%Z then 2 else 1)%nat) x t.
Proof.
  intros Hdec. unfold deal_require. apply wp_bind.
  eapply wp_mono; [by eapply wp_get_descriptor_counts|]. intros [v| |] x1 t1 H1; [|done..].
  specialize (H1 ltac:(eauto)). apply wp_bind, wp_not_send; [footprint|].
  intros [ret| |] x2 t2 H2; [|done..]. unfold rpma_send. wp_steps. intros _.
  rewrite sends_app. unfold sends at 2. simpl. case_match; lia.
Qed.


(** C36: a message that cannot be decoded is not answered: the exception of the
    decoder leaves the completion handler, the operation is freed, and no new
    receive is posted. *)
Theorem malformed_request_escapes cmpl o x t :
  let cn := conn (_conn (rh_base (self x))) in
  let p := op_context cmpl in
  let t1 := t ++ [Ev (C_conn_completion_wait cn) 0] in
  let t2 := t1 ++ [Ev (C_conn_completion_get cn) (0, cmpl)] in
  answer_of t (C_conn_completion_wait cn) = 0 ->
  answer_of t1 (C_conn_completion_get cn) = (0, cmpl) ->
  op_status cmpl = IBV_WC_SUCCESS -> p <> NULL ->
  ops (heap (proc x)) !! p = Some o -> func o = deal_require_cb ->
  RwlReplicaRequest_decode (bl_data (recv_bl (rh_base (self x)))) = None ->
  wp (RPMAHandler_handle COMPLETION_EVENT) (fun r x' t' =>
    r = Throw buffer_error /\ x' = freed p (erased p x) /\ t' = t2) x t.
Proof.
  intros cn p t1 t2 Hw Hg Hst Hp Ho Hf Hdec. apply wp_handle_completion.
  { intros w Hw'. simpl in Hw'. fold cn in Hw'. congruence. }
  intros ret cmpl' t1' t2' _ Hg'. subst t1' t2'. simpl in Hg'. fold cn in Hg'. fold t1 in Hg'.
  rewrite Hg in Hg'. injection Hg' as <- <-. unfold p in *.
  rewrite Hst, (proj2 (Z.eqb_neq _ _) Hp). simpl. eapply wp_complete_op; [done|].
  rewrite Hf. unfold do_callback. rewrite bool_decide_eq_false_2 by done. simpl.
  unfold deal_require, get_descriptor. apply wp_bind, wp_bind. wp_step. simpl. rewrite Hdec.
  wp_step. split; [by eexists|]. done.
Qed.
End Properties.

(** With dots in the names, two images can share a file. *)
Lemma replica_path_collision :
  let i p n := {| cache_id := 1; cache_size := 0; pool_name := str p; image_name := str n |} in
  replica_path (i "a.b" "c") = replica_path (i "a" "b.c").
Proof. reflexivity. Qed.

(** ** Witnesses *)

#[export] Instance host_descriptors size : DescriptorsDocumented (sized_host size).
Proof.
  split.
  - intros mr _. exists 4. split; [done|]. intros t. by eexists.
  - intros pcfg _. exists 1. split; [done|]. intros t. by eexists.
  - done.
  - done.
Qed.

Lemma host_pcfg_available size : pcfg_available (sized_host size).
Proof. done. Qed.
Lemma host_maps_whole_files size : maps_whole_files (sized_host size) size.
Proof. done. Qed.

(** A server handler that has received a message. *)
Definition demo_request : RwlReplicaInitRequest :=
  {| init_type := RWL_REPLICA_INIT_REQUEST;
     info := {| cache_id := 1; cache_size := 10; pool_name := str "RBD";
                image_name := str "test" |} |}.
Definition demo_server (message : bytes) : Ctx RPMAHandler :=
  let buffer data := {| bl_addr := 4096; bl_data := data |} in
  {| this := 500;
     self := {| rh_base := with_recv_bl (buffer message)
                             (with_send_bl (buffer (replicate 4096 x00)) demo_ch);
                data_manager := MemoryManager_default 0; data_mr := NULL |};
     proc := {| heap := demo_heap; peers := {[100 := 1%nat]}; reactor := None |} |}.

Definition demo_message : bytes := RwlReplicaInitRequest_encode demo_request [].

Lemma demo_server_ops message : ops_ok (demo_server message) demo_calls.
Proof. destruct demo_ops_ok as [I1 I2 I3 I4]. by split. Qed.

Lemma demo_server_ledger message :
  ledger demo_calls = Some ({[+ RPeer 100 +]} ⊎ owned_server (self (demo_server message))).
Proof. by apply ledger_compute. Qed.

Lemma demo_server_inv message :
  server_inv {[+ RPeer 100 +]} (demo_server message) demo_calls.
Proof.
  split.
  - apply demo_server_ops.
  - simpl. intros p o ->%elem_of_singleton. rewrite lookup_singleton_eq. intros [= <-]. by left.
  - reflexivity.
  - intros _ [=].
  - intros _. multiset_solver.
  - apply demo_server_ledger.
Qed.

Lemma RPMAHandler_ctor_safe_witness :
  let x := {| this := 500; self := RPMAHandler_init 0 0 0;
              proc := {| heap := {| ops := ∅; next_op := 1 |};
                         peers := {[100 := 1%nat]}; reactor := None |} |} in
  wp (RPMAHandler_ctor (O := host) 100 200) (fun o x' t' =>
    match o with
    | Ret _ => server_inv {[+ RPeer 100; REp 200 +]} x' t' /\
        conn (_conn (rh_base (self x'))) <> NULL /\
        peers (proc x') = <[100 := 2%nat]> {[100 := 1%nat]}
    | Throw _ => ledger t' = Some {[+ RPeer 100; REp 200 +]} /\
        peers (proc x') = {[100 := 1%nat]} /\ ops (heap (proc x')) = ∅
    | Faulted _ => False
    end) x [Ev (C_peer_new 1) (0, 100); Ev (C_ep_listen 100 [] []) (0, 200)].
Proof.
  intros x. refine (RPMAHandler_ctor_safe (O := host) {[+ RPeer 100; REp 200 +]} 100 200 0 x
    [Ev (C_peer_new 1) (0, 100); Ev (C_ep_listen 100 [] []) (0, 200)] _).
  split.
  - split; [done|]. simpl. intros p [o Ho]. by rewrite lookup_empty in Ho.
  - reflexivity.
  - split; [done|]. split; [multiset_solver | reflexivity].
  - intros _. multiset_solver.
  - by apply ledger_compute.
  - by exists 0, 0, 0.
Defined.

Lemma demo_requests_size : requests_size 10 (self (demo_server demo_message)).
Proof. intros init r H. vm_compute in H. injection H as <- <-. reflexivity. Qed.



(** On the host the registration succeeds, and the reply names its descriptors. *)
Lemma init_reply_describes_region_witness :
  wp (register_mr_to_descriptor (O := host) RPMA_OP_FLUSH) (returns (fun ret x' t' =>
    ret = 0 -> exists r,
      RwlReplicaInitRequestReply_decode (bl_data (send_bl (rh_base (self x')))) =
        Some ({| reply_type := RWL_REPLICA_INIT_SUCCESSED;
                 desc := {| mr_desc_size := 4; pcfg_desc_size := 1;
                            descriptors := [xaa; xbb; xcc; xdd] ++ [x01] |} |}, r)))
    (demo_server []) demo_calls.
Proof.
  eapply wp_mono.
  { refine (init_reply_describes_region (O := host) (demo_server []) demo_calls
      ({[+ RPeer 100 +]} ⊎ owned_ch (rh_base (self (demo_server [])))) (host_pcfg_available 10) _ _ _).
    - intros _. apply gmultiset_elem_of_disj_union. left. by apply gmultiset_elem_of_singleton.
    - reflexivity.
    - by apply ledger_compute. }
  intros [ret| |] x' t'; simpl; [|done..]. intros H ->. simpl in H.
  destruct H as (mr & d & pd & pcfg & t1 & t2 & r & _ & _ & _ & _ & Hd & Hpd & Hdec).
  injection Hd as <-. injection Hpd as <-. by exists r.
Defined.

Lemma finished_request_answered_twice_witness :
  wp (deal_require (O := host)) (fun o _ t' => o = Ret tt ->
    sends t' = (sends demo_calls + 2)%nat)
    (demo_server (RwlReplicaRequest_encode {| type := RWL_REPLICA_FINISHED_REQUEST |} []))
    demo_calls.
Proof.
  refine (finished_request_answered_twice (O := host) {| type := RWL_REPLICA_FINISHED_REQUEST |} []
    (demo_server (RwlReplicaRequest_encode {| type := RWL_REPLICA_FINISHED_REQUEST |} []))
    demo_calls _).
  reflexivity.
Defined.


Lemma malformed_request_escapes_witness :
  wp (RPMAHandler_handle (O := host) COMPLETION_EVENT) (fun r x' t' =>
    r = Throw buffer_error /\ x' = freed 1 (erased 1 (demo_server [x01])) /\
    t' = (demo_calls ++ [Ev (C_conn_completion_wait 9) 0]) ++
         [Ev (C_conn_completion_get 9) (0, Completion 1 RPMA_OP_RECV 0 IBV_WC_SUCCESS)])
    (demo_server [x01]) demo_calls.
Proof.
  refine (malformed_request_escapes (O := host) (Completion 1 RPMA_OP_RECV 0 IBV_WC_SUCCESS) demo_op
    (demo_server [x01]) demo_calls _ _ _ _ _ _ _); try reflexivity. discriminate.
Defined.
