(* ===== verification/Isolation.v ===== *)
(** * What the methods of a server handler leave alone

    Handlers of one process share the heap of operations, the peer and the reactor.
    While one of them handles a completion, nothing that belongs to another
    changes: not its operations, its queue, its descriptors or its registration. *)

From S2P Require Import Prelude Librpma Effects LibrpmaApi Posix Resources.
From S2P Require Import CephEncoding WireFormat Types MemoryManager Reactor RpmaOp Quiet.
From S2P Require Import Descriptors Host RpmaConn ConnectionHandler RPMAHandler.

(** ** Specification *)

(** Calls that change neither an interest list nor the descriptors. *)
Definition elsewhere (c : call) : bool := keeps_interest c && keeps_fds c.

Record isolated (x : Ctx RPMAHandler) (t : trace) (x' : Ctx RPMAHandler) (t' : trace) : Prop := {
  is_this : this x' = this x;
  is_reactor : reactor (proc x') = reactor (proc x);
  is_peers : peers (proc x') = peers (proc x);
  is_conn : conn (_conn (rh_base (self x'))) = conn (_conn (rh_base (self x)));
  is_peer : _peer (rh_base (self x')) = _peer (rh_base (self x));
  is_handles et : ch_get_handle (rh_base (self x')) et = ch_get_handle (rh_base (self x)) et;
  is_next : next_op (heap (proc x)) <= next_op (heap (proc x'));
  is_ops p : p ∉ callback_table (rh_base (self x)) -> p < next_op (heap (proc x)) ->
    ops (heap (proc x')) !! p = ops (heap (proc x)) !! p;
  is_table p : p ∈ callback_table (rh_base (self x')) ->
    p ∈ callback_table (rh_base (self x)) \/ next_op (heap (proc x)) <= p;
  is_queues q : q <> QConn (conn (_conn (rh_base (self x)))) ->
    outstanding q t' = outstanding q t;
  is_calls : extends elsewhere t t'
}.

(** ** Lemmas *)

Lemma isolated_refl x t : isolated x t x t.
Proof. split; try done; [by left | apply extends_refl]. Qed.

Lemma isolated_trans x t x1 t1 x2 t2 :
  isolated x t x1 t1 -> isolated x1 t1 x2 t2 -> isolated x t x2 t2.
Proof.
  intros [A1 A2 A3 A4 A5 A6 A7 A8 A9 A10 A11] [B1 B2 B3 B4 B5 B6 B7 B8 B9 B10 B11].
  split; try congruence.
  - lia.
  - intros p Hp Hlt. rewrite B8; [by apply A8| |lia]. intros [|]%A9; [done|lia].
  - intros p [Hp|]%B9; [by apply A9|right; lia].
  - intros q Hq. rewrite B10 by congruence. by apply A10.
  - by eapply extends_trans.
Qed.

Section Isolating.
Context {O : Oracle}.
Variables (x0 : Ctx RPMAHandler) (t0 : trace).
Abbreviation cn := (conn (_conn (rh_base (self x0)))).

(** Run after [x0], the code leaves alone what was left alone so far. *)
Definition isolating {A} (m : M (Ctx RPMAHandler) A) : Prop :=
  forall x t, isolated x0 t0 x t -> wp m (fun _ x' t' => isolated x0 t0 x' t') x t.

Lemma iso_ret {A} (a : A) : isolating (mret a).
Proof. intros x t Hi. by wp_step. Qed.
Lemma iso_throw {A} e : isolating (throw (A := A) e).
Proof. intros x t Hi. by wp_step. Qed.
Lemma iso_fail {A} f : isolating (fail_with (A := A) f).
Proof. intros x t Hi. by wp_step. Qed.
Lemma iso_gets {A} (f : Ctx RPMAHandler -> A) : isolating (gets f).
Proof. intros x t Hi. by wp_step. Qed.
Lemma iso_bind {A B} (m : M _ A) (k : A -> M _ B) :
  isolating m -> (forall a, isolating (k a)) -> isolating (m ≫= k).
Proof.
  intros Hm Hk x t Hi. apply wp_bind. eapply wp_mono; [by apply Hm|].
  intros [a| |] x' t' Hi'; [by apply Hk | done..].
Qed.
Lemma iso_gets_ch {B} (k : ConnectionHandler -> M _ B) :
  (forall c, conn (_conn c) = cn -> isolating (k c)) ->
  isolating (gets (fun x => ch_of (self x)) ≫= k).
Proof. intros Hk x t Hi. apply wp_bind. wp_step. apply Hk; [apply Hi | done]. Qed.

Lemma iso_ext c :
  (forall t a q, q <> QConn cn -> outstanding q (t ++ [Ev c a]) = outstanding q t) ->
  elsewhere c = true -> isolating (ext c).
Proof.
  intros Hq He x t [A1 A2 A3 A4 A5 A6 A7 A8 A9 A10 A11]. wp_step. split; try done.
  - intros q Hne. rewrite Hq by done. by apply A10.
  - eapply extends_trans; [done|]. by apply extends_snoc.
Qed.
Lemma iso_ext_quiet c : touches_queue c = false -> elsewhere c = true -> isolating (ext c).
Proof. intros Hq. apply iso_ext. intros t a q _. by apply outstanding_other. Qed.

Lemma iso_send src off len flags ctx : isolating (ext (C_send cn src off len flags ctx)).
Proof.
  apply iso_ext; [|done]. intros t a q Hq. rewrite outstanding_send, decide_False; [done|].
  intros (<- & _). done.
Qed.
Lemma iso_recv dst off len ctx : isolating (ext (C_recv cn dst off len ctx)).
Proof.
  apply iso_ext; [|done]. intros t a q Hq. rewrite outstanding_recv, decide_False; [done|].
  intros (<- & _). done.
Qed.

(** Changes of the object that keep connection, peer, descriptors and table. *)
Lemma isolated_self x t s' :
  isolated x0 t0 x t ->
  rh_base s' = rh_base (self x) \/
  (callback_table (rh_base s') = callback_table (rh_base (self x)) /\
   conn (_conn (rh_base s')) = conn (_conn (rh_base (self x))) /\
   _peer (rh_base s') = _peer (rh_base (self x)) /\
   forall et, ch_get_handle (rh_base s') et = ch_get_handle (rh_base (self x)) et) ->
  isolated x0 t0 (with_self s' x) t.
Proof.
  intros Hi Hs. eapply isolated_trans; [exact Hi|].
  destruct Hs as [Hs|(H1 & H2 & H3 & H4)]; split; simpl; rewrite ?Hs, ?H1; try done;
    try (by left); apply extends_refl.
Qed.

Lemma iso_data_mr mr : isolating (on_self (modify (with_data_mr mr))).
Proof. intros x t Hi. apply wp_zoom. wp_step. apply isolated_self; [done | by left]. Qed.

Lemma iso_on_manager {A} (m : M MemoryManager A) :
  calls (fun c => quiet_call c && keeps_fds c) m -> isolating (on_manager m).
Proof.
  intros Hm x t Hi. do 2 apply wp_zoom. eapply wp_mono; [apply Hm|].
  intros o dm t' He. eapply isolated_trans; [apply isolated_self; [exact Hi | by left]|].
  split; try done; [by left | |].
  - intros q _. apply quiet_outstanding. eapply extends_weaken; [|exact He].
    by intros c [? _]%andb_true_iff.
  - eapply extends_weaken; [|exact He]. intros c [Hc Hf]%andb_true_iff.
    unfold elsewhere. by rewrite (quiet_keeps_interest _ Hc).
Qed.

Lemma iso_fill bl : isolating (on_ch (fill_send_buffer bl)).
Proof.
  intros x t Hi. apply wp_on_ch. unfold fill_send_buffer.
  assert (Hid : isolated x0 t0 (with_self (set_ch (ch_of (self x)) (self x)) x) t).
  { apply isolated_self; [done | by left]. }
  do 2 wp_step; [|done]. do 3 wp_step. wp_step. destruct (memcpy_at _ _ _); [|done].
  wp_steps. apply isolated_self; [done | by right].
Qed.

Lemma iso_post_op k cb post :
  (forall p, isolating (post p)) -> isolating (post_op k cb post).
Proof.
  intros Hpost x t Hi. unfold post_op. apply wp_bind, wp_new_op. cbn beta iota.
  set (p := next_op (heap (proc x))). pose proof (is_next _ _ _ _ Hi) as Hn. fold p in Hn.
  set (x1 := with_proc _ x).
  assert (Hi1 : isolated x0 t0 x1 t).
  { destruct Hi as [A1 A2 A3 A4 A5 A6 A7 A8 A9 A10 A11]. split; try done; simpl.
    - lia.
    - intros q Hq Hlt. rewrite lookup_insert_ne by (fold p; lia). auto. }
  apply wp_bind. eapply wp_mono; [by apply (Hpost p)|]. intros o x2 t2 Hi2.
  destruct o as [ret| |]; [|done..]. apply wp_bind. destruct (ret =? 0).
  - apply wp_on_ch. do 2 wp_step. destruct Hi2 as [A1 A2 A3 A4 A5 A6 A7 A8 A9 A10 A11].
    split; try done; simpl. intros q [->%elem_of_singleton|Hq]%elem_of_union; [by right | auto].
  - unfold delete_op. do 2 apply wp_zoom. unfold wp. destruct (ops _ !! p) as [o|]; simpl;
      destruct Hi2 as [A1 A2 A3 A4 A5 A6 A7 A8 A9 A10 A11]; split; try done; simpl; try (by left).
    intros q Hq Hlt. rewrite lookup_delete_ne by lia. auto.
Qed.
End Isolating.

(** [isolate]: the code leaves alone what belongs to others. *)
Ltac isolate_step :=
  lazymatch goal with
  | |- isolating _ _ (mret _) => apply iso_ret
  | |- isolating _ _ (throw _) => apply iso_throw
  | |- isolating _ _ (fail_with _) => apply iso_fail
  | |- isolating _ _ (gets (fun x => ch_of (self x)) ≫= _) =>
      apply iso_gets_ch; intros ? ?
  | |- isolating _ _ (_ ≫= _) => apply iso_bind; [|intros ?]
  | |- isolating _ _ (gets _) => apply iso_gets
  | |- isolating _ _ (on_self (modify (with_data_mr _))) => apply iso_data_mr
  | |- isolating _ _ (on_manager _) => apply iso_on_manager; footprint
  | |- isolating _ _ (on_ch (fill_send_buffer _)) => apply iso_fill
  | |- isolating _ _ (post_op _ _ _) => apply iso_post_op; intros ?
  | H : conn (_conn ?c) = _ |- isolating _ _ (ext (C_send (conn (_conn ?c)) _ _ _ _ _)) =>
      rewrite H; apply iso_send
  | H : conn (_conn ?c) = _ |- isolating _ _ (ext (C_recv (conn (_conn ?c)) _ _ _ _)) =>
      rewrite H; apply iso_recv
  | |- isolating _ _ (ext _) => apply iso_ext_quiet; reflexivity
  | |- isolating _ _ (indeterminate _) => apply iso_ext_quiet; reflexivity
  | |- isolating _ _ (of_option _ ?o) => destruct o; [apply iso_ret | apply iso_fail]
  | |- isolating _ _ (if ?b then _ else _) => destruct b
  | |- isolating _ _ (let '(_, _) := ?x in _) => destruct x
  | |- isolating _ _ (match ?x with _ => _ end) => destruct x
  | |- isolating _ _ ?m => let f := head_of m in unfold f
  end; cbn beta iota.
Ltac isolate := intros; repeat isolate_step.

Section Completion.
Context {O : Oracle} {E : CephEncoding}.

Lemma iso_deal_require x0 t0 : isolating x0 t0 deal_require.
Proof. isolate. Qed.

Lemma isolated_call x t x' t' c (a : answer c) :
  let cn := conn (_conn (rh_base (self x))) in
  (forall q, q <> QConn cn -> outstanding q (t' ++ [Ev c a]) = outstanding q t') ->
  elsewhere c = true -> isolated x t x' t' -> isolated x t x' (t' ++ [Ev c a]).
Proof.
  intros cn Hq He [A1 A2 A3 A4 A5 A6 A7 A8 A9 A10 A11]. split; try done.
  - intros q Hne. rewrite Hq by done. by apply A10.
  - eapply extends_trans; [done|]. by apply extends_snoc.
Qed.

Lemma isolated_torn x t a :
  isolated x t (torn x) (t ++ [Ev (C_conn_disconnect (conn (_conn (rh_base (self x))))) a]).
Proof.
  apply isolated_call; [intros; by apply outstanding_other | done |].
  apply isolated_self; [apply isolated_refl | by right].
Qed.

Lemma wp_completion_isolated {CD : CompletionDocumented O} L x t :
  server_inv L x t ->
  wp (handle_completion RPMAHandler_run) (fun _ x' t' => isolated x t x' t') x t.
Proof.
  intros Hinv. set (cn := conn (_conn (ch_of (self x)))).
  assert (Herr : forall ret t', isolated x t x t' ->
    completion_error ret x t' (fun _ x' t' => isolated x t x' t')).
  { intros ret t' Hi. unfold completion_error. case_match; [done|]. intros a.
    eapply isolated_trans; [exact Hi | apply isolated_torn]. }
  apply wp_handle_completion.
  { intros w _ _. apply Herr. apply isolated_call; [intros; by apply outstanding_other | done |].
    apply isolated_refl. }
  intros ret cmpl t1 t2 Hw Hget.
  assert (Hi2 : isolated x t x t2).
  { apply isolated_call; [|done|].
    - intros q Hq. rewrite outstanding_completion, decide_False; [done|]. intros [<- _]. done.
    - apply isolated_call; [intros; by apply outstanding_other | done | apply isolated_refl]. }
  destruct (ret =? 0) eqn:Hret; simpl; [|by apply Herr]. bools. subst ret.
  destruct (_ || _) eqn:Hst; [done|]. bools.
  destruct (completed_live x t 0 cmpl (sv_ops _ _ _ Hinv) Hget) as (Hin & [o Ho] & _); [done|].
  eapply wp_complete_op; [exact Ho|]. set (p := op_context cmpl) in *.
  assert (Hlt : p < next_op (heap (proc x))) by (eapply oi_bound; [apply Hinv|eauto]).
  assert (Hi3 : isolated x t (erased p x) t2).
  { destruct Hi2 as [A1 A2 A3 A4 A5 A6 A7 A8 A9 A10 A11]. split; try done; simpl.
    intros q Hq. left. set_solver. }
  assert (Hfree : forall x' t', isolated (erased p x) t2 x' t' ->
    is_Some (ops (heap (proc x')) !! p) /\ isolated x t (freed p x') t').
  { intros x' t' Hi. split.
    - rewrite (is_ops _ _ _ _ Hi); [by eexists | simpl; set_solver | done].
    - pose proof (isolated_trans _ _ _ _ _ _ Hi3 Hi) as [A1 A2 A3 A4 A5 A6 A7 A8 A9 A10 A11].
      split; try done; simpl. intros q Hq Hl. rewrite lookup_delete_ne by (by intros ->). auto. }
  unfold do_callback. case_bool_decide as Hcb.
  { wp_step. apply Hfree, isolated_refl. }
  destruct (sv_callbacks _ _ _ Hinv p o Hin Ho) as [Hf|Hf]; [rewrite Hf|done].
  eapply wp_mono; [apply (iso_deal_require (erased p x) t2), isolated_refl|].
  intros r x' t' Hi. destruct (Hfree x' t' Hi) as [? ?].
  destruct r as [[]|e|f]; [done..|]. exact (isolated_trans _ _ _ _ _ _ Hi3 Hi).
Qed.
End Completion.
