(* ===== verification/Acceptance.v ===== *)
(** * A new handler beside the old ones

    What making a handler and destroying one leave alone, and how the new
    connection and its descriptors relate to those that exist: the facts about a
    single handler that the server as a whole relies on. *)

From S2P Require Import Prelude Librpma Effects LibrpmaApi Posix Resources.
From S2P Require Import CephEncoding WireFormat Types MemoryManager Reactor RpmaOp Quiet.
From S2P Require Import Descriptors Host RpmaConn ConnectionHandler RPMAHandler Isolation.

(** ** Parts of the process a method keeps *)

Section Keeping.
Context {O : Oracle} {H : Type} {HC : HasConnection H} {T : Type} (f : Proc -> T).

Definition keeping {A} (m : M (Ctx H) A) : Prop :=
  forall x t, wp m (fun _ x' _ => f (proc x') = f (proc x)) x t.

Lemma keep_ret {A} (a : A) : keeping (mret a).
Proof. intros x t. by wp_step. Qed.
Lemma keep_throw {A} e : keeping (throw (A := A) e).
Proof. intros x t. by wp_step. Qed.
Lemma keep_gets {A} (g : Ctx H -> A) : keeping (gets g).
Proof. intros x t. by wp_step. Qed.
Lemma keep_ext c : keeping (ext c).
Proof. intros x t. by wp_step. Qed.
Lemma keep_on_ch {A} (m : M ConnectionHandler A) : keeping (on_ch m).
Proof. intros x t. apply wp_on_ch. unfold wp. by destruct (m _ t) as [[? ?] ?]. Qed.
Lemma keep_bind {A B} (m : M _ A) (k : A -> M _ B) :
  keeping m -> (forall a, keeping (k a)) -> keeping (m ≫= k).
Proof.
  intros Hm Hk x t. apply wp_bind. eapply wp_mono; [apply Hm|].
  intros [a| |] x' t' Hx; [|done..]. eapply wp_mono; [apply Hk|]. intros o x'' t'' Hx'. congruence.
Qed.
Lemma keep_on_throw {A} (m : M _ A) cleanup :
  keeping m -> keeping cleanup -> keeping (on_throw m cleanup).
Proof.
  intros Hm Hc x t. apply wp_on_throw. eapply wp_mono; [apply Hm|].
  intros [a|e|g] x' t' Hx; [done| |done]. eapply wp_mono; [apply Hc|].
  intros [|e'|g] x'' t'' Hx'; congruence.
Qed.
(** Code on the process itself. *)
Lemma keep_on_proc {A} (m : M Proc A) :
  (forall pr t, wp m (fun _ pr' _ => f pr' = f pr) pr t) -> keeping (on_proc m).
Proof. intros Hm x t. apply wp_zoom. apply Hm. Qed.
Lemma keep_delete_ops ps :
  (forall p, keeping (on_heap (delete_op p))) -> keeping (delete_ops ps).
Proof.
  intros Hd. induction ps as [|p ps IH]; simpl; [apply keep_ret|]. by apply keep_bind.
Qed.
End Keeping.

Lemma keep_on_self {T A} (f : Proc -> T) (m : M RPMAHandler A) : keeping f (on_self m).
Proof. intros x t. apply wp_zoom. unfold wp. by destruct (m _ t) as [[? ?] ?]. Qed.

Ltac keep_step :=
  lazymatch goal with
  | |- keeping _ (mret _) => apply keep_ret
  | |- keeping _ (throw _) => apply keep_throw
  | |- keeping _ (gets _) => apply keep_gets
  | |- keeping _ (on_ch _) => apply keep_on_ch
  | |- keeping _ (on_self _) => apply keep_on_self
  | |- keeping _ (on_manager _) => apply keep_on_self
  | |- keeping _ (on_throw _ _) => apply keep_on_throw
  | |- keeping _ (_ ≫= _) => apply keep_bind; [|intros ?]
  | |- keeping _ (if ?b then _ else _) => destruct b
  | |- keeping _ (let '(_, _) := ?x in _) => destruct x
  | |- keeping _ (match ?x with _ => _ end) => destruct x
  | |- keeping _ (on_heap _) => apply keep_on_proc; intros ? ?; apply wp_zoom
  | |- keeping _ (on_proc _) => apply keep_on_proc; intros ? ?
  | |- keeping _ (delete_ops _) => apply keep_delete_ops; intros ?
  | |- keeping _ ?m =>
      lazymatch m with
      | ext ?c => exact (keep_ext _ c)
      | indeterminate ?v => exact (keep_ext _ (C_indeterminate v))
      | _ => let g := head_of m in unfold g
      end
  end; cbn beta iota.
Ltac keep := intros; repeat keep_step.

Section Facts.
Context {O : Oracle}.

Lemma peer_release_keeps {T} (f : Proc -> T) p :
  (forall m pr, f (with_peers m pr) = f pr) ->
  forall pr t, wp (peer_release p) (fun _ pr' _ => f pr' = f pr) pr t.
Proof.
  intros Hf pr t. unfold peer_release, rpma_peer_delete. wp_step; [by wp_step|].
  do 2 wp_step. destruct (peers pr !! p) as [[|[|k]]|]; wp_steps; try done; by rewrite Hf.
Qed.

Lemma dtor_keeps {T} (f : Proc -> T) :
  (forall m pr, f (with_peers m pr) = f pr) ->
  (forall p h t, wp (delete_op p) (fun _ h' _ => forall pr, f (with_heap h' pr) = f (with_heap h pr)) h t) ->
  keeping f RPMAHandler_dtor.
Proof.
  intros Hp Hd. keep.
  - eapply wp_mono; [apply Hd|]. intros o h' t' ->.
    by match goal with pr : Proc |- _ => destruct pr end.
  - by apply peer_release_keeps.
Qed.

Lemma dtor_keeps_reactor : keeping reactor RPMAHandler_dtor.
Proof.
  apply dtor_keeps; [done|]. intros p h t. unfold wp, delete_op. by destruct (ops h !! p).
Qed.
Lemma dtor_keeps_next : keeping (fun pr => next_op (heap pr)) RPMAHandler_dtor.
Proof.
  apply dtor_keeps; [done|]. intros p h t. unfold wp, delete_op. by destruct (ops h !! p).
Qed.

(** Construction leaves the reactor and its interest lists alone. *)
Lemma ctor_keeps_reactor peer ep : keeping reactor (RPMAHandler_ctor peer ep).
Proof.
  unfold RPMAHandler_ctor. apply keep_on_throw; [|apply dtor_keeps_reactor].
  keep; unfold wp, new_op, delete_op, peer_share; try done.
  by match goal with |- context [ops ?h !! ?p] => destruct (ops h !! p) end.
Qed.

Lemma ctor_keeps_interest peer ep : calls keeps_interest (RPMAHandler_ctor peer ep).
Proof. footprint. Qed.

(** ** Destruction *)

(** If the run ends without exception. *)
Definition if_returns {S A} (Q : trace -> Prop) : outcome A -> S -> trace -> Prop :=
  fun o _ t' => match o with Ret _ => Q t' | _ => True end.

Lemma dtor_quiet : calls quiet_call RPMAHandler_dtor.
Proof. footprint. Qed.

Lemma calls_fds {S A} (m : M S A) s t :
  calls keeps_fds m -> wp m (fun _ _ t' => fds t' = fds t) s t.
Proof.
  intros Hm. eapply wp_mono; [apply Hm|]. intros o s' t' He. by apply extends_fds.
Qed.

Lemma RpmaConn_dtor_fds s t :
  wp RpmaConn_dtor (fun o s' t' => (exists u, o = Ret u) /\
    fds t' = if conn s =? NULL then fds t else without_conn (conn s) (fds t)) s t.
Proof.
  unfold RpmaConn_dtor, rpma_conn_disconnect, rpma_conn_delete. do 2 wp_step.
  apply wp_if; intros Hc; rewrite Hc; [wp_step; split; [by eexists | done]|].
  wp_steps; (split; [by eexists|]); by rewrite !fds_snoc.
Qed.

Lemma mr_delete_fds {S} mr (s : S) t :
  wp (mr_delete mr) (fun _ s' t' => s' = s /\ fds t' = fds t) s t.
Proof.
  unfold mr_delete, rpma_mr_dereg. wp_steps; split; try done. by rewrite fds_snoc.
Qed.

Lemma delete_ops_self ps (x : Ctx RPMAHandler) t :
  wp (delete_ops ps) (fun _ x' t' => self x' = self x /\ t' = t) x t.
Proof.
  revert x. induction ps as [|p ps IH]; intros x; simpl; [by wp_step|].
  apply wp_bind, wp_zoom, wp_zoom. unfold delete_op, wp at 1.
  destruct (ops _ !! p) as [o|]; [|done]. eapply wp_mono; [apply IH|]. by intros o' x' t' [-> ->].
Qed.

(** The descriptors of the handler's connection go with it. *)
Lemma dtor_fds x t :
  let c := conn (_conn (rh_base (self x))) in
  wp RPMAHandler_dtor (if_returns (fun t' =>
    fds t' = if c =? NULL then fds t else without_conn c (fds t))) x t.
Proof.
  intros c. unfold RPMAHandler_dtor. do 2 wp_step.
  apply wp_bind. eapply wp_mono; [apply mr_delete_fds|].
  intros [[]| |] x1 t1; simpl; [|done..]. intros [-> F1].
  apply wp_bind, wp_on_manager. eapply wp_mono; [apply calls_fds; footprint|].
  intros [[]| |] dm t2; simpl; [|done..]. intros F2.
  unfold ConnectionHandler_dtor. do 2 wp_step.
  apply wp_bind. eapply wp_mono; [apply delete_ops_self|].
  intros [[]| |] x3 t3; simpl; [|done..]. intros [Hs ->].
  apply wp_bind. eapply wp_mono; [apply mr_delete_fds|].
  intros [[]| |] x4 t4; simpl; [|done..]. intros [-> F4].
  apply wp_bind. eapply wp_mono; [apply mr_delete_fds|].
  intros [[]| |] x5 t5; simpl; [|done..]. intros [-> F5].
  apply wp_bind, wp_on_ch, wp_zoom. eapply wp_mono; [apply RpmaConn_dtor_fds|].
  intros o cc t6 [[u ->] F6]. simpl in F6. rewrite Hs in F6. simpl in F6. fold c in F6.
  eapply wp_mono; [apply calls_fds; footprint|]. intros [[]| |] x7 t7; simpl; [|done..].
  intros ->. rewrite F6, F5, F4, F2, F1. done.
Qed.

(** ** Construction *)

Context {FD : FdsDocumented O}.

(** The descriptors of a new connection. *)
Lemma init_conn_fd_fds c t :
  let cn := conn (_conn c) in
  wp init_conn_fd (fun o c' t' => without_conn cn (fds t') = without_conn cn (fds t) /\
    match o with
    | Ret _ => fds t' !! _conn_fd c' = Some (FdEvent cn) /\
        fds t' !! _comp_fd c' = Some (FdCompletion cn) /\ 0 <= _conn_fd c' /\ 0 <= _comp_fd c'
    | _ => True
    end) c t.
Proof.
  intros cn. unfold init_conn_fd, rpma_conn_get_event_fd, rpma_conn_get_completion_fd.
  do 5 wp_step. destruct a as [ret fd]. do 3 wp_step. fold cn in H |- *. set (t1 := t ++ _).
  destruct (ret =? 0) eqn:Hret; cbn [negb].
  2: { wp_step. unfold t1. rewrite fds_snoc. simpl. by rewrite Hret. }
  bools. subst ret. destruct (event_fd_own _ _ _ H) as [Hpos Hown].
  assert (F1 : fds t1 = <[fd := FdEvent cn]> (fds t)) by (unfold t1; by rewrite fds_snoc).
  do 5 wp_step. destruct a as [ret fd']. do 3 wp_step. simpl in H0 |- *. fold cn in H0 |- *.
  set (t2 := t1 ++ _). destruct (ret =? 0) eqn:Hret; cbn [negb].
  2: { wp_step. unfold t2. rewrite fds_snoc. simpl. rewrite Hret, F1. split; [|done].
       apply without_conn_insert; [by left | done]. }
  bools. subst ret. destruct (completion_fd_own _ _ _ H0) as [Hpos' Hown'].
  assert (F2 : fds t2 = <[fd' := FdCompletion cn]> (fds t1)) by (unfold t2; by rewrite fds_snoc).
  wp_step. change (out_on_success 0 fd _) with fd. change (out_on_success 0 fd' _) with fd'. simpl.
  assert (Hne : fd <> fd').
  { intros <-. specialize (Hown' (FdEvent cn)). rewrite F1, lookup_insert_eq in Hown'.
    by specialize (Hown' eq_refl). }
  rewrite F2. split.
  - rewrite without_conn_insert by (by right || done). rewrite F1.
    apply without_conn_insert; [by left | done].
  - rewrite lookup_insert_eq, lookup_insert_ne, F1, lookup_insert_eq by done. done.
Qed.

Context {CF : ConnectionsFresh O} {RD : RpmaDocumented O}.

(** The queues of the connections in [L] are as before, and the handler's connection, if
    it has one, is new and has descriptors of its own. *)
Definition connected_apart (L : gmultiset res) (o : outcome unit) (x' : Ctx RPMAHandler)
    (t t' : trace) : Prop :=
  let b := rh_base (self x') in
  let c := conn (_conn b) in
  (forall c', c' = NULL \/ RConn c' ∈ L ->
     outstanding (QConn c') t' = outstanding (QConn c') t) /\
  if c =? NULL then fds t' = fds t
  else (RConn c ∉ L) /\ without_conn c (fds t') = without_conn c (fds t) /\
    match o with
    | Ret _ => fds t' !! _conn_fd b = Some (FdEvent c) /\
        fds t' !! _comp_fd b = Some (FdCompletion c) /\ 0 <= _conn_fd b /\ 0 <= _comp_fd b
    | _ => True
    end.

Lemma init_conn_fd_conn c t : wp init_conn_fd (fun _ c' _ => _conn c' = _conn c) c t.
Proof.
  unfold init_conn_fd, rpma_conn_get_event_fd, rpma_conn_get_completion_fd. wp_steps; done.
Qed.

Lemma outstanding_connect_other t req a c :
  (a.1 = 0 -> c <> a.2) ->
  outstanding (QConn c) (t ++ [Ev (C_conn_req_connect req) a]) = outstanding (QConn c) t.
Proof.
  intros Hc. destruct (decide (a.1 = 0)) as [Ha|Ha]; [|by apply outstanding_connect_failed].
  unfold outstanding. rewrite foldl_app. simpl. rewrite Ha. simpl.
  rewrite queued_insert, decide_False by (specialize (Hc Ha); congruence).
  unfold queued. by rewrite lookup_delete_ne.
Qed.

Lemma wp_connection_apart L m h req x t :
  building (L ⊎ {[+ RReq req +]}) m h x t -> conn (_conn (rh_base (self x))) = NULL ->
  wp (accept_connection req) (fun o x' t' => connected_apart L o x' t t') x t.
Proof.
  intros Hb Hnull. unfold accept_connection, indeterminate, rpma_conn_req_connect. do 4 wp_step.
  set (t1 := t ++ _).
  assert (HL1 : ledger t1 = Some (L ⊎ {[+ RReq req +]} ⊎ owned_server (self x))).
  { apply ledger_neutral; try done. apply Hb. }
  assert (F1 : fds t1 = fds t) by (unfold t1; by rewrite fds_snoc).
  assert (Q1 : forall q, outstanding q t1 = outstanding q t).
  { intros q. unfold t1. by rewrite outstanding_other. }
  clearbody t1. wp_step. destruct a0 as [ret cn]. wp_step. set (t2 := t1 ++ _).
  assert (F2 : fds t2 = fds t) by (unfold t2; by rewrite fds_snoc).
  assert (Hcn : ret = 0 -> cn <> NULL /\ (RConn cn ∉ L)).
  { intros ->. split.
    - apply (documented_out t1 (C_conn_req_connect req) cn). by rewrite H0.
    - pose proof (connection_fresh _ _ _ _ HL1 H0) as Hf. multiset_solver. }
  assert (Q2 : forall c, c = NULL \/ RConn c ∈ L ->
    outstanding (QConn c) t2 = outstanding (QConn c) t).
  { intros c Hc. unfold t2. rewrite outstanding_connect_other; [apply Q1|].
    simpl. intros Hr. destruct (Hcn Hr). naive_solver. }
  clearbody t2. destruct (ret =? 0) eqn:Hret; cbn [negb]; bools.
  - subst ret. change (out_on_success 0 cn a) with cn. destruct (Hcn eq_refl) as [Hnn Hfresh].
    apply wp_bind, wp_on_ch, wp_zoom. unfold RpmaConn_reset. wp_step. apply wp_on_ch. simpl.
    set (c2 := with_conn _ _).
    eapply wp_mono; [apply wp_and; [apply init_conn_fd_fds | apply (calls_wp quiet_call);
      [footprint | apply (init_conn_fd_conn c2)]]|].
    intros o c3 t3 [[W3 Ho] [Hc3 Hq3]]. unfold connected_apart. simpl. rewrite Hc3. simpl.
    rewrite (proj2 (Z.eqb_neq _ _) Hnn). simpl in W3, Ho. rewrite F2 in W3.
    split; [|by destruct o]. intros c' Hc'. rewrite (quiet_outstanding _ _ _ Hq3). auto.
  - change (NULL =? NULL) with true. cbn [negb]. cbn iota. wp_steps.
    unfold connected_apart. rewrite Hnull. simpl. by split.
Qed.

(** Calls that touch no connection's queue and no descriptor. *)
Definition on_requests (c : call) : bool :=
  keeps_fds c &&
  match c with
  | C_ep_next_conn_req _ _ | C_conn_req_new _ _ _ _ | C_conn_req_recv _ _ _ _ _ => true
  | c => negb (touches_queue c)
  end.

Lemma on_requests_queues t t' c :
  extends on_requests t t' -> outstanding (QConn c) t' = outstanding (QConn c) t.
Proof.
  intros (evs & -> & H). induction evs as [|[d a] evs IH] using rev_ind; [by rewrite app_nil_r|].
  apply Forall_app in H as [H [Hd _]%Forall_cons]. rewrite app_assoc, <-IH by done.
  apply andb_true_iff in Hd as [_ Hd]. simpl in Hd.
  destruct (touches_queue d) eqn:Ht; [|by apply outstanding_other]. destruct d; try done.
  - by rewrite outstanding_next_conn_req, decide_False by naive_solver.
  - by rewrite outstanding_conn_req_new, decide_False by naive_solver.
  - by rewrite outstanding_req_recv, decide_False by naive_solver.
Qed.

Lemma accept_request_calls peer ep : calls on_requests (accept_request peer ep).
Proof. footprint. Qed.

(** The outcome of making a handler, beside what the process holds in [L]. *)
Definition made_outcome (L : gmultiset res) (n : nat) (o : outcome unit) (x : Ctx RPMAHandler)
    (t : trace) (x' : Ctx RPMAHandler) (t' : trace) : Prop :=
  let b := rh_base (self x') in
  let c := conn (_conn b) in
  match o with
  | Ret _ => server_inv L x' t' /\ c <> NULL /\ (RConn c ∉ L) /\
      without_conn c (fds t') = without_conn c (fds t) /\
      fds t' !! _conn_fd b = Some (FdEvent c) /\
      fds t' !! _comp_fd b = Some (FdCompletion c) /\ 0 <= _conn_fd b /\ 0 <= _comp_fd b /\
      peers (proc x') = <[_peer b := S (S n)]> (peers (proc x)) /\
      (forall p, p ∈ callback_table b -> ops (heap (proc x)) !! p = None) /\
      (forall p, p ∉ callback_table b -> ops (heap (proc x')) !! p = ops (heap (proc x)) !! p)
  | Throw _ => ledger t' = Some L /\ peers (proc x') = peers (proc x) /\
      ops (heap (proc x')) = ops (heap (proc x)) /\
      (fds t' = fds t \/ exists c, (RConn c ∉ L) /\ fds t' = without_conn c (fds t))
  | Faulted _ => False
  end.

Record made (L : gmultiset res) (n : nat) (o : outcome unit) (x : Ctx RPMAHandler) (t : trace)
    (x' : Ctx RPMAHandler) (t' : trace) : Prop := {
  md_reactor : reactor (proc x') = reactor (proc x);
  md_calls : extends keeps_interest t t';
  md_heap : heap_ok (heap (proc x'));
  md_queues c : c = NULL \/ RConn c ∈ L -> outstanding (QConn c) t' = outstanding (QConn c) t;
  md_outcome : made_outcome L n o x t x' t'
}.

Lemma building_heap L m h x t : building L m h x t -> heap_ok (heap (proc x)).
Proof. intros [[I1 I2 I3 I4] _ _ _ _ _]. by split. Qed.

Lemma wp_body_apart L peer ep n x t :
  let m := <[peer := S (S n)]> (peers (proc x)) in
  accepting L peer ep n x t ->
  wp (RPMAHandler_body peer ep) (fun o x' t' =>
    (building L m (heap (proc x)) x' t' /\ _peer (rh_base (self x')) = peer /\
     match o with
     | Ret _ => server_inv L x' t' /\ conn (_conn (rh_base (self x'))) <> NULL
     | Throw _ => True
     | Faulted _ => False
     end) /\ connected_apart L o x' t t') x t.
Proof.
  intros m Hacc. apply wp_and; [by apply wp_RPMAHandler_body|]. unfold RPMAHandler_body.
  apply wp_bind. eapply wp_mono.
  { apply wp_and; [by apply (wp_accept_request L) | apply accept_request_calls]. }
  intros o1 x1 t1 [(Hp & Hnull & H1) Hc].
  assert (F1 : fds t1 = fds t).
  { apply extends_fds. eapply extends_weaken; [|exact Hc]. by intros c [? _]%andb_true_iff. }
  destruct o1 as [req|e|f]; [| |done].
  - destruct H1 as (Hb & _).
    eapply wp_mono; [eapply (wp_connection_apart L); [exact Hb | done]|].
    intros o x2 t2 [Hq Hf]. split.
    + intros c Hc'. rewrite Hq by done. by apply on_requests_queues.
    + by rewrite F1 in Hf.
  - unfold connected_apart. rewrite Hnull. simpl. split; [|done].
    intros c _. by apply on_requests_queues.
Qed.

Lemma wp_make L peer ep n x t :
  accepting L peer ep n x t ->
  wp (RPMAHandler_ctor peer ep) (fun o x' t' => made L n o x t x' t' /\
    match o with Ret _ => _peer (rh_base (self x')) = peer | _ => True end) x t.
Proof.
  intros Hacc.
  apply (wp_mono _ (fun o x' t' => (reactor (proc x') = reactor (proc x) /\ extends keeps_interest t t') /\
    (heap_ok (heap (proc x')) /\
     (forall c, c = NULL \/ RConn c ∈ L -> outstanding (QConn c) t' = outstanding (QConn c) t) /\
     made_outcome L n o x t x' t' /\
     match o with Ret _ => _peer (rh_base (self x')) = peer | _ => True end))).
  2: { intros o x' t' ((? & ?) & ? & ? & ? & ?). by split. }
  apply wp_and; [apply wp_and; [apply ctor_keeps_reactor | apply ctor_keeps_interest]|].
  unfold RPMAHandler_ctor. apply wp_on_throw. eapply wp_mono; [by apply (wp_body_apart L)|].
  intros [[]|e|f] x1 t1 [(Hb & Hp & Ho) [Hq Hf]]; [| |done].
  - destruct Ho as [Hinv Hnn]. rewrite (proj2 (Z.eqb_neq _ _) Hnn) in Hf.
    destruct Hf as (Hfr & Hw & F1 & F2 & P1 & P2).
    split_and!; [by eapply building_heap | done | | done].
    destruct Hb as [_ _ _ Hpe Hnew Hold]. unfold made_outcome. rewrite Hp. by split_and!.
  - destruct Hacc as [_ _ (Hpn & _ & Hcount) _ _ _]. rewrite <-Hp in Hpn, Hcount, Hb.
    pose proof (building_heap _ _ _ _ _ Hb) as [Hh1 Hh2].
    pose proof (bd_ops _ _ _ _ _ Hb) as Hops1.
    eapply wp_mono.
    { apply wp_and; [by apply (wp_unwind L (peers (proc x)) (heap (proc x)) n)|].
      apply wp_and; [apply dtor_fds | apply wp_and; [apply dtor_quiet | apply dtor_keeps_next]]. }
    intros [[]| |] x2 t2; simpl; [|by intros [[] _]..].
    intros ((HL2 & Hpe2 & Hop2) & F2 & Q2 & N2). split; [|split; [|split; [|done]]].
    + split; rewrite N2; [done|]. rewrite Hop2. intros p Hl. apply Hh2.
      destruct (decide (p ∈ callback_table (rh_base (self x1)))) as [Hin|Hin].
      * rewrite (bd_new _ _ _ _ _ Hb p Hin) in Hl. by destruct Hl.
      * by rewrite (bd_old _ _ _ _ _ Hb p Hin).
    + intros c Hc. rewrite (quiet_outstanding _ _ _ Q2). by apply Hq.
    + unfold made_outcome. split_and!; [done..|].
      destruct (_ =? NULL); [left; by rewrite F2 | right].
      destruct Hf as (Hfr & Hw & _). eexists. split; [exact Hfr|]. by rewrite F2.
Qed.
End Facts.
