(* ===== verification/Registration.v ===== *)
(** * Registration and what the process holds

    The reactor's operations use no object but its own epoll instance, so
    registering and removing a handler leave the ledger, the queues of posted
    operations and the descriptors as they are. *)

From S2P Require Import Prelude Librpma Effects LibrpmaApi Posix Resources.
From S2P Require Import Reactor RpmaOp Quiet Descriptors RpmaConn ConnectionHandler.

Section Registration.
Context {O : Oracle}.

(** Calls of the reactor on its own epoll instance, which the process holds. *)
Definition uses_epoll (ep : Z) (c : call) : bool :=
  match c with
  | C_fcntl_getfl _ | C_fcntl_setfl _ _ => true
  | C_epoll_ctl_add e _ _ | C_epoll_ctl_del e _ => e =? ep
  | _ => false
  end.

Lemma uses_epoll_ledger ep t t' L :
  REpoll ep ∈ L -> ledger t = Some L -> extends (uses_epoll ep) t t' -> ledger t' = Some L.
Proof.
  intros He HL (evs & -> & H). induction evs as [|[c a] evs IH] using rev_ind; [by rewrite app_nil_r|].
  apply Forall_app in H as [H [Hc _]%Forall_cons]. rewrite app_assoc.
  apply ledger_use; [by apply IH | | by destruct c | by destruct c].
  destruct c; try done; try constructor; simpl in Hc; bools; subst; done || constructor.
Qed.

(** Code on the reactor that keeps to its own epoll instance. *)
Definition on_epoll {A} (ep : Z) (m : M Reactor A) : Prop :=
  forall r t, _epoll r = ep ->
    wp m (fun _ r' t' => _epoll r' = ep /\ extends (uses_epoll ep) t t') r t.

Lemma on_epoll_bind {A B} ep (m : M Reactor A) (k : A -> M Reactor B) :
  on_epoll ep m -> (forall a, on_epoll ep (k a)) -> on_epoll ep (m ≫= k).
Proof.
  intros Hm Hk r t Hr. apply wp_bind. eapply wp_mono; [by apply Hm|].
  intros [a| |] r' t' [Hr' He]; [|done..]. eapply wp_mono; [by apply Hk|].
  intros o r'' t'' [? ?]. split; [done|]. by eapply extends_trans.
Qed.
Lemma on_epoll_ret {A} ep (a : A) : on_epoll ep (mret a).
Proof. intros r t Hr. wp_step. split; [done | apply extends_refl]. Qed.

Lemma register_handler_epoll ep eh et : on_epoll ep (register_handler eh et).
Proof.
  intros r t Hr. unfold register_handler, fd_set_nonblock, fcntl_getfl, fcntl_setfl.
  apply wp_if; intros _; [wp_step; split; [done | apply extends_refl]|].
  apply wp_bind. apply (wp_mono _ (fun _ r' t' => r' = r /\ extends (uses_epoll ep) t t')).
  { wp_steps; (split; [done|]); repeat (eapply extends_trans; [|by apply extends_snoc]);
      apply extends_refl. }
  intros [ret| |] r1 t1 [-> He]; [|done..]. apply wp_if; intros _; [by wp_step|].
  apply wp_bind. unfold emplace, wp at 1. unfold epoll_ctl_add, erase.
  destruct (event_table r !! _) as [[node old]|]; wp_steps; (split; [done|]); simpl; rewrite Hr;
    (eapply extends_trans; [exact He|]; apply extends_snoc; simpl; by rewrite Z.eqb_refl).
Qed.

Lemma remove_handler_epoll ep eh et : on_epoll ep (remove_handler eh et).
Proof.
  intros r t Hr. unfold remove_handler, epoll_ctl_del, erase. wp_steps.
  - split; [done | apply extends_refl].
  - split; [done|]. rewrite Hr. apply extends_snoc. simpl. by rewrite Z.eqb_refl.
Qed.

Lemma uses_epoll_queues ep t t' q :
  extends (uses_epoll ep) t t' -> outstanding q t' = outstanding q t.
Proof.
  intros H. apply extends_outstanding. eapply extends_weaken; [|exact H]. by intros [].
Qed.

Lemma uses_epoll_fds ep t t' : extends (uses_epoll ep) t t' -> fds t' = fds t.
Proof.
  intros H. apply extends_fds. eapply extends_weaken; [|exact H]. by intros [].
Qed.

Context {H : Type} {HC : HasConnection H}.

(** What a call of the reactor made by a handler changes. *)
Definition on_reactor_only (r : Reactor) (x : Ctx H) (t : trace) (x' : Ctx H) (t' : trace) : Prop :=
  exists r', x' = with_proc (with_reactor (Some r') (proc x)) x /\ _epoll r' = _epoll r /\
    extends (uses_epoll (_epoll r)) t t'.

Lemma wp_on_reactor_epoll dead (m : M Reactor Z) r (x : Ctx H) t :
  reactor (proc x) = Some r -> on_epoll (_epoll r) m ->
  wp (on_reactor dead m) (fun _ x' t' => on_reactor_only r x t x' t') x t.
Proof.
  intros Hr Hm. eapply wp_on_reactor; [done|]. eapply wp_mono; [by apply Hm|].
  intros o r' t' [He Hx]. by exists r'.
Qed.

Lemma register_self_epoll r (x : Ctx H) t :
  reactor (proc x) = Some r ->
  wp conn_register_self (fun _ x' t' => on_reactor_only r x t x' t') x t.
Proof.
  intros Hr. unfold conn_register_self. wp_step. apply wp_gets.
  apply wp_on_reactor_epoll; [done|]. apply on_epoll_bind; [apply register_handler_epoll|].
  intros ret. destruct (negb _); [apply on_epoll_ret|].
  apply on_epoll_bind; [apply register_handler_epoll|]. intros ret'.
  destruct (negb _); [|apply on_epoll_ret].
  apply on_epoll_bind; [apply remove_handler_epoll|]. intros _. apply on_epoll_ret.
Qed.

Lemma remove_self_epoll r (x : Ctx H) t :
  reactor (proc x) = Some r ->
  wp conn_remove_self (fun _ x' t' => on_reactor_only r x t x' t') x t.
Proof.
  intros Hr. unfold conn_remove_self. wp_step. apply wp_gets.
  apply wp_on_reactor_epoll; [done|]. apply on_epoll_bind; [apply remove_handler_epoll|].
  intros ret. apply on_epoll_bind; [apply remove_handler_epoll|]. intros ret'. apply on_epoll_ret.
Qed.
End Registration.
