(* ===== verification/Interleaving.v ===== *)
(** * Two threads and the table of operations

    On the client the methods that post operations run in the main thread, while the
    reactor's thread handles their completions, and nothing orders the two: an
    operation can complete after librpma has accepted it and before it is recorded. *)

From S2P Require Import Prelude Librpma Effects LibrpmaApi Posix Resources.
From S2P Require Import Types Reactor RpmaOp Host RpmaConn ConnectionHandler.

Section Operations.
Context {O : Oracle} {H : Type} {HC : HasConnection H}.

(** [post_op], with the point at which the other thread may run in between. *)
Definition post_op_interleaved (other_thread : M (Ctx H) unit) (k : op_class) (cb : callback)
    (post : Z -> M (Ctx H) Z) : M (Ctx H) Z :=
  p ← on_heap (new_op k cb);
  ret ← post p;
  other_thread;;
  (if ret =? 0
   then on_ch (modify (fun c => with_table ({[p]} ∪ callback_table c) c))
   else on_heap (delete_op p));;
  mret ret.

(** [send], likewise. *)
Definition send_interleaved (other_thread : M (Ctx H) unit) (cb : callback) : M (Ctx H) Z :=
  post_op_interleaved other_thread RpmaSend cb (fun usend =>
    c ← gets (fun x => ch_of (self x));
    RpmaSend_call (conn (_conn c)) (send_mr c) 0 MSG_SIZE RPMA_F_COMPLETION_ALWAYS usend).
End Operations.

(** ** Lemmas *)

Section Lemmas.
Context {O : Oracle} {H : Type} {HC : HasConnection H} {HCL : HasConnectionLaws H}.

(** An operation that is in the table but no longer exists is found when the table is
    emptied. *)
Lemma delete_ops_dangling p ps (x : Ctx H) t :
  p ∈ ps -> NoDup ps -> ops (heap (proc x)) !! p = None ->
  (forall q, q ∈ ps -> q <> p -> is_Some (ops (heap (proc x)) !! q)) ->
  wp (delete_ops ps) (fun o _ _ => o = Faulted (UseAfterFree p)) x t.
Proof.
  revert x. induction ps as [|q ps IH]; intros x Hin Hnd Hp Hlive; [by apply not_elem_of_nil in Hin|].
  apply NoDup_cons in Hnd as [Hq Hnd]. simpl. apply wp_bind.
  destruct (decide (q = p)) as [->|Hne].
  - apply wp_on_heap. unfold wp, delete_op. by rewrite Hp.
  - apply wp_delete_op; [apply Hlive; [left | done]|]. apply IH; try done.
    + apply elem_of_cons in Hin as [->|]; done.
    + simpl. by rewrite lookup_delete_ne.
    + simpl. intros r Hr Hne'. rewrite lookup_delete_ne by (by intros ->).
      apply Hlive; [by right | done].
Qed.

Lemma dtor_dangling p (x : Ctx H) t :
  let c := ch_of (self x) in
  p ∈ callback_table c -> ops (heap (proc x)) !! p = None ->
  (forall q, q ∈ callback_table c -> q <> p -> is_Some (ops (heap (proc x)) !! q)) ->
  wp ConnectionHandler_dtor (fun o _ _ => o = Faulted (UseAfterFree p)) x t.
Proof.
  intros c Hin Hp Hlive. unfold ConnectionHandler_dtor. do 2 wp_step. fold c. apply wp_bind.
  eapply wp_mono; [apply (delete_ops_dangling p); try done|].
  - by apply elem_of_elements.
  - apply NoDup_elements.
  - intros q Hq%elem_of_elements. by apply Hlive.
  - by intros o x' t' ->.
Qed.
End Lemmas.

(** ** Properties *)

Section Properties.
Context {O : Oracle} {H : Type} {HC : HasConnection H} {HCL : HasConnectionLaws H}.

(** When the other thread does nothing in between, posting is [post_op]. *)
Theorem interleaved_with_nothing k cb (post : Z -> M (Ctx H) Z) x t :
  post_op_interleaved (mret tt) k cb post x t = post_op k cb post x t.
Proof.
  unfold post_op_interleaved, post_op, mbind, M_bind.
  destruct (on_heap (new_op k cb) x t) as [[[p| |] x1] t1]; [|done..].
  by destruct (post p x1 t1) as [[[ret| |] x2] t2].
Qed.

(** C32: a message that is completed between its post and its insertion into the table
    is recorded after it has been destroyed: the call returns 0, the table names an
    object that no longer exists, and destroying the handler deletes it a second
    time. *)
Theorem completion_before_insert (run_callback : callback -> M (Ctx H) unit) op len x t :
  let c := ch_of (self x) in let cn := conn (_conn c) in
  let p := next_op (heap (proc x)) in
  let t1 := t ++ [Ev (C_send cn (send_mr c) 0 MSG_SIZE RPMA_F_COMPLETION_ALWAYS p) 0] in
  let t2 := t1 ++ [Ev (C_conn_completion_wait cn) 0] in
  ops_ok x t ->
  answer_of t (C_send cn (send_mr c) 0 MSG_SIZE RPMA_F_COMPLETION_ALWAYS p) = 0 ->
  answer_of t1 (C_conn_completion_wait cn) = 0 ->
  answer_of t2 (C_conn_completion_get cn) = (0, Completion p op len IBV_WC_SUCCESS) ->
  wp (send_interleaved (handle_completion run_callback;; mret tt) no_callback)
    (returns (fun ret x' t' =>
      ret = 0 /\ p ∈ callback_table (ch_of (self x')) /\ ops (heap (proc x')) !! p = None /\
      wp ConnectionHandler_dtor (fun o _ _ => o = Faulted (UseAfterFree p)) x' t')) x t.
Proof.
  intros c cn p t1 t2 Hok Hs Hw Hg. unfold send_interleaved, post_op_interleaved.
  apply wp_bind, wp_new_op. cbn beta iota. unfold RpmaSend_call, rpma_send.
  apply wp_bind. do 2 wp_step. simpl. fold c cn p. wp_known Hs. fold t1.
  set (x1 := with_proc _ x). change (0 =? 0) with true. cbn iota. do 2 apply wp_bind.
  assert (Hp : p <> NULL) by (pose proof (oi_next _ _ _ Hok); unfold p, NULL; lia).
  apply wp_handle_completion; change (conn (_conn (ch_of (self x1)))) with cn; fold t1.
  { intros w Hw'. congruence. }
  intros ret cmpl. cbv zeta. fold t2. intros _ Hg'. rewrite Hg in Hg'. injection Hg' as <- <-. simpl.
  rewrite (proj2 (Z.eqb_neq _ _) Hp). eapply wp_complete_op; [by simpl; rewrite lookup_insert_eq|].
  unfold do_callback. rewrite bool_decide_eq_true_2 by done. wp_step. simpl.
  split; [by rewrite lookup_insert_eq|]. wp_step. apply wp_bind, wp_on_ch. do 2 wp_step. simpl.
  rewrite !ch_of_set_ch. simpl. split; [done|].
  assert (Hlive : forall q, q ∈ {[p]} ∪ callback_table (ch_of (self x)) ∖ {[p]} -> q <> p ->
    is_Some (delete p (<[p := {| class := RpmaSend; func := no_callback |}]>
      (ops (heap (proc x)))) !! q)).
  { intros q Hq Hne. rewrite lookup_delete_ne, lookup_insert_ne by done.
    apply (oi_live _ _ _ Hok). set_solver. }
  split_and!; [set_solver | apply lookup_delete_eq|].
  apply dtor_dangling; simpl; rewrite ?ch_of_set_ch; simpl; [set_solver | apply lookup_delete_eq | done].
Qed.
End Properties.

(** ** Witnesses *)

(** A connected handler with nothing posted. *)
Definition idle_ctx : Ctx ConnectionHandler :=
  {| this := 500; self := with_table ∅ demo_ch;
     proc := {| heap := {| ops := ∅; next_op := 1 |}; peers := ∅; reactor := None |} |}.

Lemma idle_ops_ok : ops_ok idle_ctx [].
Proof.
  split; simpl; [set_solver | | done | done]. intros p [o Ho]. by rewrite lookup_empty in Ho.
Qed.

Lemma completion_before_insert_witness :
  wp (send_interleaved (O := host) (handle_completion (O := host) (fun _ => mret tt);; mret tt)
        no_callback)
    (returns (fun ret x' t' =>
      ret = 0 /\ 1 ∈ callback_table (ch_of (self x')) /\ ops (heap (proc x')) !! 1 = None /\
      wp (ConnectionHandler_dtor (O := host)) (fun o _ _ => o = Faulted (UseAfterFree 1)) x' t'))
    idle_ctx [].
Proof.
  refine (completion_before_insert (O := host) (fun _ => mret tt) RPMA_OP_RECV 0 idle_ctx [] _ _ _ _);
    [apply idle_ops_ok | reflexivity..].
Defined.
