(* ===== verification/AcceptorHandler.v ===== *)
(** * The acceptor ([AcceptorHandler] of [EventOp.h], [EventOp.cc])

    The acceptor listens on an endpoint and makes a handler for every incoming
    connection.  Handlers are shared between the acceptor's local variable and
    the entries of the reactor's table; the last reference destroys them. *)

From S2P Require Import Prelude Librpma Effects LibrpmaApi Posix Resources.
From S2P Require Import CephEncoding WireFormat Types MemoryManager Reactor RpmaOp Quiet.
From S2P Require Import Descriptors Host.
From S2P Require Import RpmaConn ConnectionHandler RPMAHandler.

(** ** Data *)

Record AcceptorHandler := {
  _fd : Z;
  _address : bytes;
  _port : bytes;
  _peer : Z;
  _ep : Z
}.

Definition with_fd (x : Z) (a : AcceptorHandler) : AcceptorHandler :=
  {| _fd := x; _address := _address a; _port := _port a; _peer := _peer a; _ep := _ep a |}.
Definition with_acc_peer (x : Z) (a : AcceptorHandler) : AcceptorHandler :=
  {| _fd := _fd a; _address := _address a; _port := _port a; _peer := x; _ep := _ep a |}.
Definition with_ep (x : Z) (a : AcceptorHandler) : AcceptorHandler :=
  {| _fd := _fd a; _address := _address a; _port := _port a; _peer := _peer a; _ep := x |}.

(** The object when the body of the constructor starts. *)
Definition AcceptorHandler_init (fd : Z) (addr port : bytes) : AcceptorHandler :=
  {| _fd := fd; _address := addr; _port := port; _peer := NULL; _ep := NULL |}.

(** The server process: the acceptor, at an address of its own, the handlers that
    are alive, by address, and what they share. *)
Record Server := {
  acceptor_ptr : Z;
  acceptor : AcceptorHandler;
  handlers : gmap Z RPMAHandler;
  next_handler : Z;
  sproc : Proc
}.

Definition with_handlers (m : gmap Z RPMAHandler) (w : Server) : Server :=
  {| acceptor_ptr := acceptor_ptr w; acceptor := acceptor w; handlers := m;
     next_handler := next_handler w; sproc := sproc w |}.
Definition with_sproc (p : Proc) (w : Server) : Server :=
  {| acceptor_ptr := acceptor_ptr w; acceptor := acceptor w; handlers := handlers w;
     next_handler := next_handler w; sproc := p |}.

(** ** Operations *)

Section Operations.
Context {O : Oracle} {E : CephEncoding}.

Abbreviation Acc := (M (Ctx AcceptorHandler)).

Definition on_acc {A} : M AcceptorHandler A -> Acc A := zoom self with_self.
Definition acc_proc {A} : M Proc A -> Acc A := zoom proc with_proc.

(** [unique_rpma_ep_ptr]: its deleter shuts the endpoint down ([RpmaEpDeleter]). *)
Definition ep_delete {S} (ep : Z) : M S unit :=
  if ep =? NULL then mret tt else rpma_ep_shutdown ep;; mret tt.

Definition AcceptorHandler_dtor : Acc unit :=
  a ← gets self;
  ep_delete (_ep a);;
  acc_proc (peer_release (_peer a)).

Definition AcceptorHandler_body (addr port : bytes) : Acc unit :=
  '(ret, peer) ← common_peer_via_address addr RPMA_UTIL_IBV_CONTEXT_LOCAL NULL;
  if negb (ret =? 0)
  then throw (runtime_error "lookup an ibv_context via the address and create a new peer using it failed")
  else
  on_acc (modify (with_acc_peer peer));;
  acc_proc (peer_own peer);;
  '(ret, ep) ← rpma_ep_listen peer addr port NULL;
  if negb (ret =? 0) then throw (runtime_error "listening endpoint at addr:port failed") else
  on_acc (modify (with_ep ep));;
  fd0 ← gets (fun x => _fd (self x));
  '(ret, fd) ← rpma_ep_get_fd ep fd0;
  on_acc (modify (with_fd fd));;
  if negb (ret =? 0)
  then throw (runtime_error "get the endpoint's event file descriptor failed") else
  mret tt.

Definition AcceptorHandler_ctor (addr port : bytes) : Acc unit :=
  on_throw (AcceptorHandler_body addr port) AcceptorHandler_dtor.

Definition AcceptorHandler_get_handle (a : AcceptorHandler) (et : EventType) : Z := _fd a.

(** [register_self] and [remove_self]; -1 when the reactor is gone. *)
Definition acc_on_reactor (m : EventHandlerPtr -> M Reactor Z) : M Server Z := fun w t =>
  match reactor (sproc w) with
  | Some r =>
      let me := HandlerPtr (acceptor_ptr w) (AcceptorHandler_get_handle (acceptor w)) in
      match m me r t with
      | (o, r', t') => (o, with_sproc (with_reactor (Some r') (sproc w)) w, t')
      end
  | None => (Ret (-1), w, t)
  end.

Definition AcceptorHandler_register_self : M Server Z :=
  acc_on_reactor (fun me => register_handler me ACCEPT_EVENT).
Definition AcceptorHandler_remove_self : M Server Z :=
  acc_on_reactor (fun me => remove_handler me ACCEPT_EVENT).

(** A method of the handler at address [h]. *)
Definition on_object {A} (h : Z) (m : M (Ctx RPMAHandler) A) : M Server A := fun w t =>
  match handlers w !! h with
  | None => (Faulted (UseAfterFree h), w, t)
  | Some s =>
      match m {| this := h; self := s; proc := sproc w |} t with
      | (o, x, t') =>
          (o, with_sproc (proc x) (with_handlers (<[h := self x]> (handlers w)) w), t')
      end
  end.

(** Running the constructor on the new object [s]; it gets an address of its own. *)
Definition construct (s : RPMAHandler) : M Server Z := fun w t =>
  let h := next_handler w in
  let x := {| this := h; self := s; proc := sproc w |} in
  match RPMAHandler_ctor (_peer (acceptor w)) (_ep (acceptor w)) x t with
  | (Ret _, x, t') =>
      (Ret h, {| acceptor_ptr := acceptor_ptr w; acceptor := acceptor w;
                 handlers := <[h := self x]> (handlers w); next_handler := h + 1;
                 sproc := proc x |}, t')
  | (Throw e, x, t') => (Throw e, with_sproc (proc x) w, t')
  | (Faulted f, x, t') => (Faulted f, with_sproc (proc x) w, t')
  end.

(** [std::make_shared<RPMAHandler>(_peer, _ep.get(), _reactor_manager)] *)
Definition make_handler : M Server Z :=
  conn_fd ← indeterminate "_conn_fd";
  comp_fd ← indeterminate "_comp_fd";
  size ← indeterminate "_size";
  construct (RPMAHandler_init conn_fd comp_fd size).

(** The handler is referenced by an entry of the reactor's table. *)
Definition referenced (h : Z) (w : Server) : bool :=
  match reactor (sproc w) with
  | Some r => List.existsb (fun e => eh_handler e.2.2 =? h) (map_to_list (event_table r))
  | None => false
  end.

(** The end of a local shared pointer to [h]: without any other reference the
    object is destroyed. *)
Definition drop_pointer (h : Z) : M Server unit :=
  w ← get;
  if referenced h w then mret tt else
  on_object h RPMAHandler_dtor;;
  modify (fun w => with_handlers (delete h (handlers w)) w).

Definition AcceptorHandler_handle (et : EventType) : M Server Z :=
  assert (bool_decide (et = ACCEPT_EVENT));;
  try_catch
    (h ← make_handler;
     on_object h RPMAHandler_register_self;;
     drop_pointer h;;
     mret 0)
    (fun e => match e with runtime_error _ => mret (-1) | e => throw e end).

(** The virtual call [handler->handle(type)] of the event loop.  A handler that
    removes itself from the table while it runs is destroyed when it returns. *)
Definition server_handle (h : Z) (et : EventType) : M Server Z :=
  w ← get;
  if h =? acceptor_ptr w then AcceptorHandler_handle et else
  ret ← on_object h (RPMAHandler_handle et);
  drop_pointer h;;
  mret ret.
End Operations.

(** ** Specification and lemmas *)

Definition owned_ep (ep : Z) : gmultiset res := if ep =? NULL then ∅ else {[+ REp ep +]}.
Definition owned_acceptor (a : AcceptorHandler) : gmultiset res :=
  owned_ep (_ep a) ⊎ (if _peer a =? NULL then ∅ else {[+ RPeer (_peer a) +]}).

Section Properties.
Context {O : Oracle}.

Lemma wp_ep_delete {S} ep (s : S) t L :
  ledger t = Some (L ⊎ owned_ep ep) ->
  wp (ep_delete ep) (returns (fun _ s' t' => s' = s /\ ledger t' = Some L)) s t.
Proof.
  intros HL. unfold ep_delete, rpma_ep_shutdown, owned_ep in *. destruct (ep =? NULL) eqn:Hep.
  - wp_step. simpl. split; [done|]. rewrite HL. f_equal. multiset_solver.
  - wp_steps. simpl. split; [done|]. by eapply ledger_release.
Qed.

(** The endpoint goes away, and the acceptor's share of the peer. *)
Lemma wp_acceptor_end x t L :
  let p := _peer (self x) in
  counted (peers (proc x)) p ->
  ledger t = Some (L ⊎ last_owner (peers (proc x)) p ⊎ owned_ep (_ep (self x))) ->
  wp AcceptorHandler_dtor (returns (fun _ x' t' => ledger t' = Some L /\
    x' = with_proc (with_peers (drop_owner (peers (proc x)) p) (proc x)) x)) x t.
Proof.
  intros p Hc HL. unfold AcceptorHandler_dtor. do 2 wp_step. fold p.
  apply wp_bind. eapply wp_mono; [by apply wp_ep_delete|].
  intros [[]| |] x1 t1; simpl; [|done..]. intros [-> HL1]. apply wp_zoom.
  eapply wp_mono; [by apply (wp_peer_release _ _ _ L)|].
  intros [[]| |] pr t2; simpl; [|done..]. by intros [-> HL2].
Qed.

Lemma acceptor_end_fds x t :
  wp AcceptorHandler_dtor (fun _ _ t' => extends quiet_call t t' /\
    forall fd u, fds t !! fd = Some u -> u <> FdListen (_ep (self x)) -> fds t' !! fd = Some u) x t.
Proof.
  apply wp_and; [assert (Hq : calls quiet_call AcceptorHandler_dtor) by footprint; apply Hq|].
  unfold AcceptorHandler_dtor, ep_delete, rpma_ep_shutdown, acc_proc, peer_release, rpma_peer_delete.
  wp_steps; intros fd u Hu Hne; rewrite ?fds_snoc; simpl; try done;
    (apply map_lookup_filter_Some; by split).
Qed.

(** The peers of a process in which only the acceptor has one. *)
Definition acceptor_peers (p : Z) : gmap Z nat := if p =? NULL then ∅ else {[p := 1%nat]}.

Lemma wp_AcceptorHandler_dtor x t L :
  peers (proc x) = acceptor_peers (_peer (self x)) ->
  ledger t = Some (L ⊎ owned_acceptor (self x)) ->
  wp AcceptorHandler_dtor (returns (fun _ x' t' =>
    ledger t' = Some L /\ peers (proc x') = ∅)) x t.
Proof.
  intros Hpeers HL. unfold owned_acceptor in HL. set (p := _peer (self x)) in *.
  assert (HLp : last_owner (peers (proc x)) p = if p =? NULL then ∅ else {[+ RPeer p +]}).
  { unfold last_owner. rewrite Hpeers. unfold acceptor_peers. destruct (Z.eqb_spec p NULL) as [Hp|Hp].
    - rewrite bool_decide_eq_false_2; [done | tauto].
    - by rewrite lookup_singleton_eq, bool_decide_eq_true_2. }
  eapply wp_mono; [apply (wp_acceptor_end x t L)|].
  - intros Hp. fold p in Hp |- *. rewrite Hpeers. unfold acceptor_peers.
    rewrite (proj2 (Z.eqb_neq _ _) Hp), lookup_singleton_eq. eauto.
  - fold p. rewrite HL, HLp. f_equal. multiset_solver.
  - intros [[]| |] x' t'; simpl; [|done..]. intros [HL' ->]. split; [done|]. simpl. fold p.
    rewrite Hpeers. unfold drop_owner, acceptor_peers. destruct (p =? NULL); [done|].
    by rewrite lookup_singleton_eq, delete_singleton_eq.
Qed.

Lemma wp_AcceptorHandler_ctor {RD : RpmaDocumented O} addr port fd x t L :
  self x = AcceptorHandler_init fd addr port -> peers (proc x) = ∅ -> ledger t = Some L ->
  wp (AcceptorHandler_ctor addr port) (fun o x' t' =>
    match o with
    | Ret _ => ledger t' = Some (L ⊎ owned_acceptor (self x')) /\
        _peer (self x') <> NULL /\ _ep (self x') <> NULL /\
        peers (proc x') = acceptor_peers (_peer (self x'))
    | Throw _ => ledger t' = Some L /\ peers (proc x') = ∅
    | Faulted _ => False
    end) x t.
Proof.
  intros Hself Hpeers HL. unfold AcceptorHandler_ctor. apply wp_on_throw.
  apply (wp_mono _ (fun o x' t' =>
    (ledger t' = Some (L ⊎ owned_acceptor (self x')) /\
     peers (proc x') = acceptor_peers (_peer (self x'))) /\
    match o with Ret _ => _peer (self x') <> NULL /\ _ep (self x') <> NULL
               | Throw _ => True | Faulted _ => False end)).
  2: { intros [[]|e|f] x' t' [[HL' Hp'] Ho]; [by destruct Ho| |done].
       eapply wp_mono; [by apply (wp_AcceptorHandler_dtor _ _ L)|]. by intros [[]| |]. }
  unfold AcceptorHandler_body, rpma_ep_listen, rpma_ep_get_fd, peer_own, on_acc, acc_proc.
  destruct x as [th sf pr]. simpl in Hself, Hpeers. subst sf.
  apply wp_bind. eapply wp_common_peer; [exact HL|]. intros ret p t1 H1. cbn beta iota.
  apply wp_if; intros Hret; bools.
  { rewrite (proj2 (Z.eqb_neq _ _) Hret) in H1. destruct H1 as [_ HL1]. wp_step. simpl.
    split_and!; [|done|done]. rewrite HL1. f_equal. unfold owned_acceptor, owned_ep. simpl.
    multiset_solver. }
  subst ret. destruct H1 as [Hp HL1]. do 2 (apply wp_bind, wp_zoom; wp_step).
  assert (Hacc : <[p := 1%nat]> (peers pr) = acceptor_peers p).
  { unfold acceptor_peers. by rewrite Hpeers, (proj2 (Z.eqb_neq _ _) Hp). }
  assert (Hu : Forall (.∈ L ⊎ {[+ RPeer p +]}) (uses (C_ep_listen p addr port))).
  { apply Forall_nonnull. multiset_solver. }
  do 3 wp_step. destruct a as [ret ep]. wp_step. unfold owned_acceptor, owned_ep, out_on_success.
  destruct (ret =? 0) eqn:Hret; cbn [negb].
  2: { wp_step. simpl. rewrite (proj2 (Z.eqb_neq _ _) Hp). split_and!; [|done|done].
       rewrite (ledger_use t1 (L ⊎ {[+ RPeer p +]})); try done; [f_equal; multiset_solver|].
       simpl. by rewrite Hret. }
  assert (Hep : ep <> NULL).
  { apply (documented_out t1 (C_ep_listen p addr port) ep). rewrite H. simpl. by rewrite Hret. }
  assert (HL2 : ledger (t1 ++ [Ev (C_ep_listen p addr port) (ret, ep)]) =
    Some (L ⊎ {[+ RPeer p +]} ⊎ {[+ REp ep +]})).
  { apply ledger_acquire; try done. simpl. by rewrite Hret. }
  apply wp_bind, wp_zoom; wp_step. do 5 wp_step. destruct a as [ret' fd']. wp_step.
  apply wp_bind, wp_zoom; wp_step. simpl.
  set (t3 := _ ++ [Ev (C_ep_get_fd ep) (ret', fd')]).
  assert (HL3 : ledger t3 = Some (L ⊎ ({[+ REp ep +]} ⊎ {[+ RPeer p +]}))).
  { unfold t3. rewrite (ledger_use _ _ _ _ HL2); try done; [f_equal; multiset_solver|].
    apply Forall_nonnull. multiset_solver. }
  destruct (negb (ret' =? 0)); wp_step; simpl;
    rewrite ?(proj2 (Z.eqb_neq _ _) Hp), ?(proj2 (Z.eqb_neq _ _) Hep); by split_and!.
Qed.

(** The rest of the process, and the descriptor of the endpoint. *)
Lemma AcceptorHandler_ctor_listens addr port x t :
  wp (AcceptorHandler_ctor addr port) (fun o x' t' =>
    reactor (proc x') = reactor (proc x) /\ heap (proc x') = heap (proc x) /\
    match o with
    | Ret _ => fds t' !! _fd (self x') = Some (FdListen (_ep (self x')))
    | Throw e => exists what, e = runtime_error what
    | Faulted _ => True
    end) x t.
Proof.
  unfold AcceptorHandler_ctor. apply wp_on_throw.
  apply (wp_mono _ (fun o x' t' => reactor (proc x') = reactor (proc x) /\
    heap (proc x') = heap (proc x) /\
    match o with
    | Ret _ => fds t' !! _fd (self x') = Some (FdListen (_ep (self x')))
    | Throw e => exists what, e = runtime_error what
    | Faulted _ => True
    end)).
  { unfold AcceptorHandler_body, common_peer_via_address, rpma_utils_get_ibv_context, rpma_peer_new,
      rpma_ep_listen, rpma_ep_get_fd, peer_own, on_acc, acc_proc.
    wp_steps; bools; subst; try (split_and!; by eauto). simpl. split_and!; try done.
    rewrite fds_snoc. simpl. by rewrite lookup_insert_eq. }
  intros [u|e|f] x1 t1 (Hr & Hh & Ho); [done| |done].
  unfold AcceptorHandler_dtor, ep_delete, rpma_ep_shutdown, acc_proc, peer_release, rpma_peer_delete.
  rewrite <-Hr, <-Hh. wp_steps; by split_and!.
Qed.

Lemma quiet_AcceptorHandler_ctor addr port : calls quiet_call (AcceptorHandler_ctor addr port).
Proof. footprint. Qed.

(** Making the acceptor is exception safe: it either listens on its endpoint,
    owning exactly the peer and the endpoint it created, or it throws and everything
    acquired on the way has been given back. *)
Theorem AcceptorHandler_ctor_safe {RD : RpmaDocumented O} addr port fd x t L :
  self x = AcceptorHandler_init fd addr port -> peers (proc x) = ∅ -> ledger t = Some L ->
  wp (AcceptorHandler_ctor addr port) (fun o x' t' =>
    match o with
    | Ret _ => ledger t' = Some (L ⊎ owned_acceptor (self x')) /\
        _peer (self x') <> NULL /\ _ep (self x') <> NULL /\
        peers (proc x') = acceptor_peers (_peer (self x'))
    | Throw _ => ledger t' = Some L /\ peers (proc x') = ∅
    | Faulted _ => False
    end) x t.
Proof. apply wp_AcceptorHandler_ctor. Qed.
End Properties.

(** ** Witnesses *)

Lemma AcceptorHandler_ctor_safe_witness :
  let x := {| this := 400; self := AcceptorHandler_init 0 (str "10.0.0.1") (str "7777");
              proc := {| heap := {| ops := ∅; next_op := 1 |}; peers := ∅;
                         reactor := None |} |} in
  wp (AcceptorHandler_ctor (O := host) (str "10.0.0.1") (str "7777")) (fun o x' t' =>
    match o with
    | Ret _ => ledger t' = Some (∅ ⊎ owned_acceptor (self x')) /\
        _peer (self x') <> NULL /\ _ep (self x') <> NULL /\
        peers (proc x') = acceptor_peers (_peer (self x'))
    | Throw _ => ledger t' = Some ∅ /\ peers (proc x') = ∅
    | Faulted _ => False
    end) x [].
Proof.
  intros x. refine (AcceptorHandler_ctor_safe (O := host) (str "10.0.0.1") (str "7777") 0 x [] ∅ _ _ _);
    reflexivity.
Defined.
