(* ===== verification/ServerInv.v ===== *)
(** * The invariant of the server process

    The acceptor, the handlers of all connections and the reactor in one process:
    an invariant that ties them to one another and to what the process holds, and
    the steps that keep it. *)

From S2P Require Import Prelude Librpma Effects LibrpmaApi Posix Resources.
From S2P Require Import CephEncoding WireFormat Types MemoryManager Reactor RpmaOp Quiet.
From S2P Require Import Descriptors Host RpmaConn ConnectionHandler RPMAHandler Isolation.
From S2P Require Import Acceptance Registration AcceptorHandler.

(** ** What a set of handlers owns *)

Definition owned_all (m : gmap Z RPMAHandler) : gmultiset res :=
  map_fold (fun _ s acc => owned_server s ⊎ acc) ∅ m.

Lemma owned_all_insert h s m :
  m !! h = None -> owned_all (<[h := s]> m) = owned_server s ⊎ owned_all m.
Proof.
  intros Hm. unfold owned_all. rewrite map_fold_insert_L; [done| |done].
  intros. multiset_solver.
Qed.

(** One handler and the rest. *)
Lemma owned_all_delete h s m :
  m !! h = Some s -> owned_all m = owned_server s ⊎ owned_all (delete h m).
Proof.
  intros Hm. rewrite <-(insert_delete_id m h s) at 1 by done.
  apply owned_all_insert, lookup_delete_eq.
Qed.

Lemma owned_all_replace h s s' m :
  m !! h = Some s -> owned_all (<[h := s']> m) = owned_server s' ⊎ owned_all (delete h m).
Proof.
  intros Hm. rewrite <-insert_delete_eq. apply owned_all_insert, lookup_delete_eq.
Qed.

(** ** The invariant *)

(** A connected handler, apart from what it owns: [peer] is the peer of the
    process, [hp] the heap of operations. *)
Record handler_ok (peer : Z) (hp : op_heap) (t : trace) (s : RPMAHandler) : Prop := {
  ho_ops : ops_inv (rh_base s) hp t;
  ho_callbacks p o : p ∈ callback_table (rh_base s) -> ops hp !! p = Some o ->
    func o = deal_require_cb \/ func o = no_callback;
  ho_buffer : blen (bl_data (send_bl (rh_base s))) = MSG_SIZE;
  ho_conn_inv : conn_inv (_conn (rh_base s)) t;
  ho_peer : ConnectionHandler._peer (rh_base s) = peer;
  ho_conn : conn (_conn (rh_base s)) <> NULL;
  ho_event : fds t !! _conn_fd (rh_base s) = Some (FdEvent (conn (_conn (rh_base s))));
  ho_completion : fds t !! _comp_fd (rh_base s) = Some (FdCompletion (conn (_conn (rh_base s))));
  ho_fds : 0 <= _conn_fd (rh_base s) /\ 0 <= _comp_fd (rh_base s)
}.

Definition conn_of (s : RPMAHandler) : Z := conn (_conn (rh_base s)).
Definition table_of (s : RPMAHandler) : gset Z := callback_table (rh_base s).

(** What the process holds besides its handlers. *)
Definition held (w : Server) (r : Reactor) : gmultiset res :=
  {[+ REpoll (_epoll r); RPeer (_peer (acceptor w)); REp (_ep (acceptor w)) +]}.

(** An entry of the reactor's table belongs to the acceptor or to a live handler. *)
Definition entry_ok (w : Server) (fd : Z) (e : EventHandle) : Prop :=
  (eh_handler e = acceptor_ptr w /\ eh_type e = ACCEPT_EVENT /\ fd = _fd (acceptor w)) \/
  (exists s, handlers w !! eh_handler e = Some s /\ eh_type e <> ACCEPT_EVENT /\
     fd = ch_get_handle (rh_base s) (eh_type e)).

Record world_inv (w : Server) (r : Reactor) (t : trace) : Prop := {
  wi_reactor : reactor (sproc w) = Some r;
  wi_table : reactor_inv r t;
  wi_acceptor : _peer (acceptor w) <> NULL /\ _ep (acceptor w) <> NULL;
  wi_listen : fds t !! _fd (acceptor w) = Some (FdListen (_ep (acceptor w)));
  wi_heap : heap_ok (heap (sproc w));
  wi_null : outstanding (QConn NULL) t = ∅;
  wi_next : acceptor_ptr w < next_handler w;
  wi_addresses h s : handlers w !! h = Some s -> acceptor_ptr w < h < next_handler w;
  wi_peers : peers (sproc w) = {[ _peer (acceptor w) := S (base.size (handlers w)) ]};
  wi_handlers h s : handlers w !! h = Some s ->
    handler_ok (_peer (acceptor w)) (heap (sproc w)) t s;
  wi_apart h h' s s' : handlers w !! h = Some s -> handlers w !! h' = Some s' -> h <> h' ->
    conn_of s <> conn_of s' /\ table_of s ## table_of s';
  wi_entries fd n e : event_table r !! fd = Some (n, e) -> entry_ok w fd e;
  wi_ledger : ledger t = Some (held w r ⊎ owned_all (handlers w))
}.

(** The acceptor is registered and, the handlers in [D] apart, every handler is
    registered for its connection's events, so that none is alive without a way to be
    reached. *)
Record registered_but (D : gset Z) (w : Server) (r : Reactor) : Prop := {
  reg_acceptor : exists n, event_table r !! _fd (acceptor w) =
    Some (n, {| eh_type := ACCEPT_EVENT; eh_handler := acceptor_ptr w |});
  reg_handlers h s : handlers w !! h = Some s -> h ∉ D ->
    exists n, event_table r !! _conn_fd (rh_base s) =
      Some (n, {| eh_type := CONNECTION_EVENT; eh_handler := h |})
}.

(** ** A handler in its process *)

Definition ctx_of (h : Z) (s : RPMAHandler) (w : Server) : Ctx RPMAHandler :=
  {| this := h; self := s; proc := sproc w |}.

(** The process after a method of the handler at [h] ended in [x]. *)
Definition put (h : Z) (x : Ctx RPMAHandler) (w : Server) : Server :=
  with_sproc (proc x) (with_handlers (<[h := self x]> (handlers w)) w).

(** What the process holds besides the handler at [h]. *)
Definition rest (h : Z) (w : Server) (r : Reactor) : gmultiset res :=
  held w r ⊎ owned_all (delete h (handlers w)).

Lemma wp_on_object {A} h s (m : M (Ctx RPMAHandler) A) Q w t :
  handlers w !! h = Some s ->
  wp m (fun o x t' => Q o (put h x w) t') (ctx_of h s w) t ->
  wp (on_object h m) Q w t.
Proof.
  intros Hs. unfold wp, on_object, ctx_of. rewrite Hs. by destruct (m _ t) as [[? ?] ?].
Qed.

Lemma handler_server_inv w r t h s :
  world_inv w r t -> handlers w !! h = Some s ->
  server_inv (rest h w r) (ctx_of h s w) t.
Proof.
  intros Hw Hs. destruct (wi_handlers _ _ _ Hw h s Hs) as [H1 H2 H3 H4 H5 H6 _ _ _].
  split; try done.
  - intros _. simpl. rewrite H5. unfold rest, held. multiset_solver.
  - rewrite (wi_ledger _ _ _ Hw), (owned_all_delete h s) by done. unfold rest. simpl.
    f_equal. multiset_solver.
Qed.

(** What is needed of a process step to keep another handler as it is. *)
Lemma handler_ok_frame peer hp hp' t t' s :
  handler_ok peer hp t s -> heap_ok hp' ->
  (forall p, p ∈ table_of s -> ops hp' !! p = ops hp !! p) ->
  outstanding (QConn (conn_of s)) t' = outstanding (QConn (conn_of s)) t ->
  t `prefix_of` t' ->
  (forall fd u, fds t !! fd = Some u -> u = FdEvent (conn_of s) \/ u = FdCompletion (conn_of s) ->
     fds t' !! fd = Some u) ->
  handler_ok peer hp' t' s.
Proof.
  intros [[I1 I2 I3 I4] H2 H3 H4 H5 H6 H7 H8 H9] [Hh1 Hh2] Hops Hq Hpre Hf. split; try done.
  - split; [|done..|by fold (conn_of s); rewrite Hq].
    intros p Hp. rewrite Hops by done. by apply I1.
  - intros p o Hp. rewrite Hops by done. by apply H2.
  - by eapply conn_inv_prefix.
  - apply Hf; [done | by left].
  - apply Hf; [done | by right].
Qed.

Lemma table_bound w r t h s p :
  world_inv w r t -> handlers w !! h = Some s -> p ∈ table_of s ->
  is_Some (ops (heap (sproc w)) !! p) /\ p < next_op (heap (sproc w)).
Proof.
  intros Hw Hs Hp. pose proof (ho_ops _ _ _ _ (wi_handlers _ _ _ Hw h s Hs)) as Hops.
  pose proof (oi_live _ _ _ Hops p Hp) as Hl. split; [done|]. by apply (oi_bound _ _ _ Hops).
Qed.

(** An entry keeps its meaning when a handler changes but keeps its descriptors. *)
Lemma entry_ok_put w h s x' fd e :
  handlers w !! h = Some s ->
  (forall et, ch_get_handle (rh_base (self x')) et = ch_get_handle (rh_base s) et) ->
  entry_ok w fd e -> entry_ok (put h x' w) fd e.
Proof.
  intros Hs Hh [He|(s' & Hs' & Ht & Hfd)]; [by left | right]. simpl.
  destruct (decide (eh_handler e = h)) as [Heq|Hne].
  - rewrite Heq in Hs' |- *. rewrite lookup_insert_eq. eexists. split; [done|]. split; [done|].
    rewrite Hh. congruence.
  - rewrite lookup_insert_ne by done. eauto.
Qed.

Lemma world_inv_isolated w r t h s x' t' :
  world_inv w r t -> handlers w !! h = Some s ->
  isolated (ctx_of h s w) t x' t' -> server_inv (rest h w r) x' t' ->
  world_inv (put h x' w) r t'.
Proof.
  intros Hw Hs [_ A2 A3 A4 A5 A6 A7 A8 A9 A10 A11] [Sops Scb Sbuf Sconn _ SL].
  simpl in A2, A3, A4, A5, A6, A7, A8, A9, A10.
  pose proof (wi_handlers _ _ _ Hw h s Hs) as [H1 H2 H3 H4 H5 H6 H7 H8 H9].
  assert (Fd : fds t' = fds t).
  { apply extends_fds. eapply extends_weaken; [|exact A11]. by intros c [_ ?]%andb_true_iff. }
  assert (Fi : forall ep, interest ep t' = interest ep t).
  { intros ep. apply extends_interest. eapply extends_weaken; [|exact A11].
    by intros c [? _]%andb_true_iff. }
  assert (Hheap : heap_ok (heap (proc x'))) by (destruct Sops as [I1 I2 I3 I4]; by split).
  assert (Hap : forall h' s', handlers w !! h' = Some s' -> h' <> h ->
    conn_of (self x') <> conn_of s' /\ table_of (self x') ## table_of s').
  { intros h' s' Hs' Hne. destruct (wi_apart _ _ _ Hw h h' s s') as [Hc Ht]; [done..|].
    unfold conn_of. rewrite A4. split; [done|]. intros p [Hp|Hp]%A9 Hp'; [by eapply Ht|].
    apply (table_bound _ _ _ _ _ _ Hw Hs') in Hp' as [_ ?]. lia. }
  destruct Hw as [W1 W2 W3 W4 W5 W6 W7 W8 W9 W10 W11 W12 W13]. split; simpl; try done.
  - by rewrite A2.
  - eapply reactor_inv_interest; [apply Fi | done].
  - by rewrite Fd.
  - by rewrite A10 by congruence.
  - intros h' s' [[<- <-]|[_ Hs']]%lookup_insert_Some; eauto.
  - by rewrite A3, map_size_insert_Some by eauto.
  - intros h' s' [[<- <-]|[Hne Hs']]%lookup_insert_Some.
    + pose proof (A6 CONNECTION_EVENT) as F1. pose proof (A6 COMPLETION_EVENT) as F2.
      simpl in F1, F2. split; try done; rewrite ?A4, ?A5, ?F1, ?F2, ?Fd; done.
    + eapply handler_ok_frame; [by eapply W10 | done | | | by eapply extends_prefix |].
      * intros p Hp. destruct (W11 h h' s s') as [_ Ht]; [done..|]. apply A8.
        -- intros Hp'. by eapply Ht.
        -- pose proof (oi_live _ _ _ (ho_ops _ _ _ _ (W10 _ _ Hs')) p Hp) as Hl.
           by apply (oi_bound _ _ _ (ho_ops _ _ _ _ (W10 _ _ Hs'))).
      * apply A10. destruct (W11 h h' s s') as [Hc _]; [done..|]. unfold conn_of in *. congruence.
      * by rewrite Fd.
  - intros h1 h2 s1 s2 [[<- <-]|[Hn1 Hs1]]%lookup_insert_Some
      [[<- <-]|[Hn2 Hs2]]%lookup_insert_Some Hne; [done| | |eauto].
    + by apply (Hap h2).
    + destruct (Hap h1 s1) as [? ?]; [done..|]. by split.
  - intros fd n e He. eapply entry_ok_put; [done..|]. eauto.
  - rewrite SL, (owned_all_replace h s) by done. unfold rest, held. f_equal. multiset_solver.
Qed.

(** The reactor alone changes. *)
Lemma world_inv_reactor w r t r' t' :
  world_inv w r t -> reactor_inv r' t' -> _epoll r' = _epoll r ->
  extends (uses_epoll (_epoll r)) t t' ->
  (forall fd n e, event_table r' !! fd = Some (n, e) -> entry_ok w fd e) ->
  world_inv (with_sproc (with_reactor (Some r') (sproc w)) w) r' t'.
Proof.
  intros Hw Hr He Hx Hent. pose proof (uses_epoll_fds _ _ _ Hx) as Fd.
  destruct Hw as [W1 W2 W3 W4 W5 W6 W7 W8 W9 W10 W11 W12 W13]. split; simpl; try done.
  - by rewrite Fd.
  - by rewrite (uses_epoll_queues _ _ _ _ Hx).
  - intros h s Hs. eapply handler_ok_frame; [by eapply W10 | done | done | | by eapply extends_prefix |].
    + apply (uses_epoll_queues _ _ _ _ Hx).
    + by rewrite Fd.
  - unfold held. simpl. rewrite He. eapply uses_epoll_ledger; [|exact W13|exact Hx].
    unfold held. multiset_solver.
Qed.

Lemma put_put h x x' w : put h x' (put h x w) = put h x' w.
Proof. unfold put, with_sproc, with_handlers. simpl. by rewrite insert_insert_eq. Qed.

Lemma put_id h s w : handlers w !! h = Some s -> put h (ctx_of h s w) w = w.
Proof.
  intros Hs. unfold put, with_sproc, with_handlers, ctx_of. simpl. rewrite insert_id by done.
  by destruct w.
Qed.

(** ** Which handlers are in the table *)

Definition unreferenced (h : Z) (r : Reactor) : Prop :=
  forall fd n e, event_table r !! fd = Some (n, e) -> eh_handler e <> h.

(** Between two steps: [h] is either registered like the others or in no entry. *)
Definition settled (h : Z) (w : Server) (r : Reactor) : Prop :=
  registered_but ∅ w r \/ (registered_but {[h]} w r /\ unreferenced h r).

Lemma referenced_spec h w r :
  reactor (sproc w) = Some r -> referenced h w = false -> unreferenced h r.
Proof.
  intros Hr Href fd n e He Heq. unfold referenced in Href. rewrite Hr in Href.
  apply not_true_iff_false in Href. apply Href, existsb_exists.
  exists (fd, (n, e)). split; [|by apply Z.eqb_eq].
  by apply list_elem_of_In, elem_of_map_to_list.
Qed.

Lemma unreferenced_spec h w r :
  reactor (sproc w) = Some r -> unreferenced h r -> referenced h w = false.
Proof.
  intros Hr Hu. unfold referenced. rewrite Hr. apply not_true_iff_false. rewrite existsb_exists.
  intros ([fd [n e]] & Hin & He). apply list_elem_of_In, elem_of_map_to_list in Hin.
  apply Z.eqb_eq in He. by apply (Hu fd n e).
Qed.

(** The descriptors of handlers differ from one another and from the acceptor's. *)
Lemma handlers_fds_apart w r t h h' s s' et et' :
  world_inv w r t -> handlers w !! h = Some s -> handlers w !! h' = Some s' ->
  et <> ACCEPT_EVENT -> et' <> ACCEPT_EVENT -> (h, et) <> (h', et') ->
  ch_get_handle (rh_base s) et <> ch_get_handle (rh_base s') et'.
Proof.
  intros Hw Hs Hs' Het Het' Hne.
  destruct (wi_handlers _ _ _ Hw h s Hs) as [_ _ _ _ _ _ F1 F2 _].
  destruct (wi_handlers _ _ _ Hw h' s' Hs') as [_ _ _ _ _ _ F1' F2' _].
  destruct (decide (h = h')) as [<-|Hh].
  - assert (s' = s) as -> by congruence. destruct et, et'; simpl; congruence.
  - destruct (wi_apart _ _ _ Hw h h' s s') as [Hc _]; [done..|]. unfold conn_of in Hc.
    destruct et, et'; simpl; congruence.
Qed.

Lemma listen_fd_apart w r t h s et :
  world_inv w r t -> handlers w !! h = Some s -> et <> ACCEPT_EVENT ->
  ch_get_handle (rh_base s) et <> _fd (acceptor w).
Proof.
  intros Hw Hs Het. pose proof (wi_listen _ _ _ Hw) as Hl.
  destruct (wi_handlers _ _ _ Hw h s Hs) as [_ _ _ _ _ _ F1 F2 _].
  destruct et; simpl; congruence.
Qed.

Lemma registered_put D w r h s x' :
  handlers w !! h = Some s -> _conn_fd (rh_base (self x')) = _conn_fd (rh_base s) ->
  registered_but D w r -> registered_but D (put h x' w) r.
Proof.
  intros Hs Hf [Hacc Hreg]. split; [done|]. intros h' s'. simpl. rewrite lookup_insert_Some.
  intros [[<- <-]|[Hne Hs']] HD; [|by apply Hreg].
  rewrite Hf. by apply Hreg.
Qed.

(** ** Events of a connection *)

Section Events.
Context {O : Oracle} {ED : EpollDocumented O} {RD : RpmaDocumented O} {DD : DescriptorsDocumented O}.

Lemma wp_remove_registered w r t h s :
  world_inv w r t -> handlers w !! h = Some s -> registered_but ∅ w r ->
  wp conn_remove_self (fun o x' t' => o = Ret 0 /\ self x' = s /\ exists r', world_inv (put h x' w) r' t' /\
    registered_but {[h]} (put h x' w) r' /\ unreferenced h r') (ctx_of h s w) t.
Proof.
  intros Hw Hs Hreg. pose proof (ho_fds _ _ _ _ (wi_handlers _ _ _ Hw h s Hs)) as [P1 P2].
  eapply wp_mono.
  { apply wp_and; [apply (wp_conn_remove_self r) | apply (remove_self_epoll r)]; try apply Hw;
      simpl; lia. }
  intros [ret| |] x' t' [H1 H2]; simpl in H1; [|done..].
  destruct H1 as (r' & -> & Hi & -> & He & Ht & _). do 2 (split; [done|]). exists r'.
  destruct H2 as (r'' & Hr & _ & Hx). clear Hr.
  assert (Hold : forall fd n e, event_table r' !! fd = Some (n, e) ->
    fd <> _conn_fd (rh_base s) /\ fd <> _comp_fd (rh_base s) /\ event_table r !! fd = Some (n, e)).
  { intros fd n e. rewrite Ht. intros [? [? ?]%lookup_delete_Some]%lookup_delete_Some. done. }
  assert (Hput : put h (with_proc (with_reactor (Some r') (sproc w)) (ctx_of h s w)) w =
    with_sproc (with_reactor (Some r') (sproc w)) w).
  { rewrite <-(put_id h s w) at 5 by done. done. }
  rewrite Hput. split_and!.
  - eapply world_inv_reactor; [done..|]. intros fd n e (_ & _ & H)%Hold. by eapply wi_entries.
  - destruct Hreg as [[na Ha] Hreg]. split.
    { exists na. simpl. rewrite Ht, !lookup_delete_ne; [done|..];
        [by apply (listen_fd_apart _ _ _ h s CONNECTION_EVENT Hw Hs)|
         by apply (listen_fd_apart _ _ _ h s COMPLETION_EVENT Hw Hs)]. }
    intros h' s' Hs' Hn. destruct (Hreg h' s' Hs') as [n Hn']; [set_solver|]. exists n.
    assert (Hne : h <> h') by set_solver. simpl in Hs'.
    pose proof (handlers_fds_apart _ _ _ h h' s s' CONNECTION_EVENT CONNECTION_EVENT Hw Hs Hs') as A1.
    pose proof (handlers_fds_apart _ _ _ h h' s s' COMPLETION_EVENT CONNECTION_EVENT Hw Hs Hs') as A2.
    rewrite Ht, !lookup_delete_ne; [done | apply A1 | apply A2]; congruence.
  - intros fd n e (N1 & N2 & H)%Hold Heq.
    destruct (wi_entries _ _ _ Hw _ _ _ H) as [(Ha & _)|(s' & Hs' & Het & ->)].
    + pose proof (wi_addresses _ _ _ Hw h s Hs). lia.
    + rewrite Heq in Hs'. assert (s' = s) as -> by congruence. by destruct (eh_type e).
Qed.

(** A step that leaves the others alone, as a step of the process. *)
Lemma settled_isolated w r t h s x' t' :
  world_inv w r t -> handlers w !! h = Some s -> registered_but ∅ w r ->
  isolated (ctx_of h s w) t x' t' -> server_inv (rest h w r) x' t' ->
  world_inv (put h x' w) r t' /\ registered_but ∅ (put h x' w) r.
Proof.
  intros Hw Hs Hreg Hi Hv. split; [by eapply world_inv_isolated|].
  eapply registered_put; [done| |done]. exact (is_handles _ _ _ _ Hi CONNECTION_EVENT).
Qed.

(** The handler at [h] has handled an event; only under [P] may it have left the
    table. *)
Definition event_done (P : Prop) (h : Z) (s : RPMAHandler) (w : Server) (x' : Ctx RPMAHandler)
    (t' : trace) : Prop :=
  conn_of (self x') = conn_of s /\
  exists r', world_inv (put h x' w) r' t' /\
    (registered_but ∅ (put h x' w) r' \/
     P /\ registered_but {[h]} (put h x' w) r' /\ unreferenced h r').

Lemma event_done_isolated P w r t h s x' t' :
  world_inv w r t -> handlers w !! h = Some s -> registered_but ∅ w r ->
  isolated (ctx_of h s w) t x' t' -> server_inv (rest h w r) x' t' ->
  event_done P h s w x' t'.
Proof.
  intros Hw Hs Hreg Hi Hv. split; [apply Hi|]. exists r.
  destruct (settled_isolated w r t h s x' t') as [? ?]; [done..|]. split; [done | by left].
Qed.

(** A change of the [connected] flag. *)
Lemma flag_isolated (b : bool) x t :
  isolated x t (with_self (with_base (with_connected b (rh_base (self x))) (self x)) x) t.
Proof. apply isolated_self; [apply isolated_refl | by right]. Qed.

Lemma flag_server_inv (b : bool) L x t :
  server_inv L x t ->
  server_inv L (with_self (with_base (with_connected b (rh_base (self x))) (self x)) x) t.
Proof.
  intros Hv. apply (server_inv_update L x t); [done | by split | apply extends_refl | apply Hv].
Qed.

Lemma wp_connection_event w r t h s :
  world_inv w r t -> handlers w !! h = Some s -> registered_but ∅ w r ->
  wp (handle_connection_event conn_remove_self) (fun o x' t' =>
    (exists ret, o = Ret ret) /\ event_done True h s w x' t') (ctx_of h s w) t.
Proof.
  intros Hw Hs Hreg. pose proof (handler_server_inv _ _ _ _ _ Hw Hs) as Hv.
  set (x := ctx_of h s w) in *. set (cn := conn_of s).
  unfold handle_connection_event, rpma_conn_next_event. do 4 wp_step.
  change (conn (_conn (ch_of (self x)))) with cn in *. set (t1 := t ++ _).
  assert (Hv1 : server_inv (rest h w r) x t1).
  { apply server_inv_conn_call; try done. apply ops_inv_other; [done | apply Hv]. }
  assert (Hi1 : isolated x t x t1).
  { apply isolated_call; [intros; by apply outstanding_other | done | apply isolated_refl]. }
  clearbody t1. destruct a as [ret ev]. apply wp_if; intros _.
  - apply wp_if; intros _.
    + wp_step. split; [by eexists|]. by eapply event_done_isolated.
    + apply wp_bind, wp_disconnect. intros a. wp_step. split; [by eexists|].
      eapply event_done_isolated; [done..| |by apply server_inv_torn].
      eapply isolated_trans; [exact Hi1 | apply isolated_torn].
  - assert (Hflag : forall b, let x1 := with_self (with_base (with_connected b (rh_base (self x)))
        (self x)) x in isolated x t x1 t1 /\ server_inv (rest h w r) x1 t1).
    { intros b. split; [eapply isolated_trans; [exact Hi1 | apply flag_isolated]|].
      by apply flag_server_inv. }
    destruct (decide (ev = RPMA_CONN_ESTABLISHED)) as [->|Hev].
    + apply wp_bind, wp_on_ch. do 2 wp_step. split; [by eexists|].
      destruct (Hflag true). by eapply event_done_isolated.
    + destruct (Hflag false) as [Hi2 Hv2].
      destruct (settled_isolated w r t h s _ _ Hw Hs Hreg Hi2 Hv2) as [Hw2 Hreg2].
      assert (Hclose : wp (on_ch (modify (with_connected false));; conn_remove_self)
        (fun o x' t' => (exists ret, o = Ret ret) /\ event_done True h s w x' t') x t1).
      { apply wp_bind, wp_on_ch. wp_step. set (x2 := with_self _ x) in *.
        eapply wp_mono; [apply (wp_remove_registered (put h x2 w) r t1 h (self x2)); try done;
          simpl; apply lookup_insert_eq|].
        intros o x' t' (-> & Hself & r' & Hw' & Hr' & Hu). split; [by eexists|].
        rewrite put_put in Hw', Hr'. split; [|exists r'; split; [done | by right]].
        by rewrite Hself. }
      by destruct ev.
Qed.

Context {E : CephEncoding} {EL : CephEncodingLaws E} {CD : CompletionDocumented O}.

(** A handler of the process handles any event the loop may dispatch to it. *)
Lemma wp_handler_event n et w r t h s :
  pcfg_available O -> maps_whole_files O n -> requests_size n s ->
  world_inv w r t -> handlers w !! h = Some s -> registered_but ∅ w r ->
  wp (RPMAHandler_handle et) (fun o x' t' =>
    (forall f, o <> Faulted f) /\
    event_done (et = CONNECTION_EVENT /\ exists ret, o = Ret ret) h s w x' t') (ctx_of h s w) t.
Proof.
  intros Hav Hmaps Hreq Hw Hs Hreg. pose proof (handler_server_inv _ _ _ _ _ Hw Hs) as Hv.
  unfold RPMAHandler_handle, ch_handle. destruct et.
  - wp_step. split; [done|]. eapply event_done_isolated; [done..|apply isolated_refl | done].
  - eapply wp_mono; [by eapply wp_connection_event|]. intros o x' t' [[ret ->] (Hc & r' & Hw' & Hcase)].
    split; [done|]. split; [done|]. exists r'. naive_solver.
  - eapply wp_mono; [apply wp_and; [by apply (wp_server_completion n (rest h w r)) |
      by apply (wp_completion_isolated (rest h w r))]|].
    intros o x' t' [[Hv' Hnf] Hi]. split; [done|]. by eapply event_done_isolated.
Qed.
End Events.

(** ** The end of a handler *)

(** The process without the handler at [h], after the destructor left [pr]. *)
Definition without (h : Z) (pr : Proc) (w : Server) : Server :=
  with_sproc pr (with_handlers (delete h (handlers w)) w).

(** What the destructor of the handler [s] does to the process. *)
Record destroyed (s : RPMAHandler) (pr : Proc) (t : trace) (pr' : Proc) (t' : trace) : Prop := {
  de_reactor : reactor pr' = reactor pr;
  de_peers : peers pr' = drop_owner (peers pr) (ConnectionHandler._peer (rh_base s));
  de_next : next_op (heap pr') = next_op (heap pr);
  de_ops p : ops (heap pr') !! p = if decide (p ∈ table_of s) then None else ops (heap pr) !! p;
  de_calls : extends quiet_call t t';
  de_fds : fds t' = without_conn (conn_of s) (fds t)
}.

Lemma destroyed_heap s pr t pr' t' : destroyed s pr t pr' t' -> heap_ok (heap pr) -> heap_ok (heap pr').
Proof.
  intros Hd [H1 H2]. split; rewrite (de_next _ _ _ _ _ Hd); [done|].
  intros p. rewrite (de_ops _ _ _ _ _ Hd). case_decide; [by intros [? ?] | apply H2].
Qed.

(** The other handlers do not notice. *)
Lemma handlers_destroyed peer (m : gmap Z RPMAHandler) pr t h s pr' t' :
  (forall h s, m !! h = Some s -> handler_ok peer (heap pr) t s) ->
  (forall h h' s s', m !! h = Some s -> m !! h' = Some s' -> h <> h' ->
     conn_of s <> conn_of s' /\ table_of s ## table_of s') ->
  m !! h = Some s -> heap_ok (heap pr) -> destroyed s pr t pr' t' ->
  forall h' s', delete h m !! h' = Some s' -> handler_ok peer (heap pr') t' s'.
Proof.
  intros Hall Hap Hs Hheap Hd h' s' [Hne Hs']%lookup_delete_Some.
  pose proof (destroyed_heap _ _ _ _ _ Hd Hheap) as Hheap'. destruct Hd as [D1 D2 D3 D4 D5 D6].
  destruct (Hap h h' s s') as [Hc Ht]; [done..|].
  eapply handler_ok_frame; [by eapply Hall | done | | by apply quiet_outstanding |
    by eapply extends_prefix |].
  - intros p Hp. rewrite D4, decide_False; [done|]. intros Hp'. by eapply Ht.
  - intros fd u Hfd Hu'. rewrite D6, lookup_without_conn. split; [done|].
    destruct Hu' as [-> | ->]; split; congruence.
Qed.

Lemma world_inv_destroyed w r t h s pr' t' :
  world_inv w r t -> handlers w !! h = Some s -> unreferenced h r ->
  destroyed s (sproc w) t pr' t' -> ledger t' = Some (rest h w r) ->
  world_inv (without h pr' w) r t'.
Proof.
  intros Hw Hs Hu Hd HL. pose proof (destroyed_heap _ _ _ _ _ Hd (wi_heap _ _ _ Hw)) as Hheap.
  pose proof Hd as [D1 D2 D3 D4 D5 D6].
  pose proof (wi_handlers _ _ _ Hw h s Hs) as [_ _ _ _ H5 H6 _ _ _].
  destruct Hw as [W1 W2 W3 W4 W5 W6 W7 W8 W9 W10 W11 W12 W13].
  assert (Hq : forall q, outstanding q t' = outstanding q t) by (intros; by apply quiet_outstanding).
  split; simpl; try done.
  - by rewrite D1.
  - eapply reactor_inv_interest; [by apply quiet_interest | done].
  - rewrite D6, lookup_without_conn. by split_and!.
  - by rewrite Hq.
  - intros h' s' [_ Hs']%lookup_delete_Some. eauto.
  - rewrite D2, H5, W9. unfold drop_owner. rewrite (proj2 (Z.eqb_neq _ _) (proj1 W3)).
    rewrite lookup_singleton_eq. rewrite map_size_delete_Some by (by eexists).
    assert (Hsz : base.size (handlers w) <> 0%nat).
    { intros H0%map_size_empty_inv. by rewrite H0, lookup_empty in Hs. }
    destruct (base.size (handlers w)); [done|]. by rewrite insert_singleton_eq.
  - exact (handlers_destroyed _ _ _ _ _ _ _ _ W10 W11 Hs W5 Hd).
  - intros h1 h2 s1 s2 [_ ?]%lookup_delete_Some [_ ?]%lookup_delete_Some. eauto.
  - intros fd n e He. pose proof (Hu _ _ _ He) as Hne.
    destruct (W12 _ _ _ He) as [?|(s' & Hs' & Hx)]; [by left | right]. exists s'. simpl.
    rewrite lookup_delete_ne by done. done.
Qed.

Section Dropping.
Context {O : Oracle}.

Lemma wp_destroy_handler L peer n pr t h s :
  handler_ok peer (heap pr) t s -> peers pr !! peer = Some (S n) ->
  ledger t = Some (L ⊎ last_owner (peers pr) peer ⊎ owned_server s) ->
  wp RPMAHandler_dtor (returns (fun _ x' t' =>
    destroyed s pr t (proc x') t' /\ ledger t' = Some L)) {| this := h; self := s; proc := pr |} t.
Proof.
  intros [H1 _ _ H4 H5 H6 _ _ _] Hp HL. set (x := {| this := h; self := s; proc := pr |}).
  eapply wp_mono.
  { apply wp_and; [apply (wp_RPMAHandler_dtor x t L H1 H4)|].
    - intros _. simpl. rewrite H5, Hp. eauto.
    - simpl. by rewrite H5.
    - apply wp_and; [apply dtor_fds | apply wp_and; [apply dtor_quiet | apply dtor_keeps_next]]. }
  intros [[]| |] x' t'; simpl; [|by intros [[] _]..].
  intros ((HL' & Hpe & Hr & Hops) & Hf & Hq & Hn). split; [|done]. split; try done.
  by rewrite (proj2 (Z.eqb_neq _ _) H6) in Hf.
Qed.

Lemma wp_destroy w r t h s :
  world_inv w r t -> handlers w !! h = Some s ->
  wp RPMAHandler_dtor (returns (fun _ x' t' =>
    destroyed s (sproc w) t (proc x') t' /\ ledger t' = Some (rest h w r))) (ctx_of h s w) t.
Proof.
  intros Hw Hs. pose proof (wi_peers _ _ _ Hw) as Hp.
  apply (wp_destroy_handler _ (_peer (acceptor w)) (base.size (handlers w)));
    [by eapply wi_handlers | by rewrite Hp, lookup_singleton_eq |].
  assert (Hlast : last_owner (peers (sproc w)) (_peer (acceptor w)) = ∅).
  { unfold last_owner. rewrite Hp, lookup_singleton_eq, bool_decide_eq_false_2; [done|].
    intros [_ [= Hz]]. apply map_size_empty_inv in Hz. by rewrite Hz, lookup_empty in Hs. }
  rewrite Hlast, (wi_ledger _ _ _ Hw), (owned_all_delete h s) by done.
  unfold rest. f_equal. multiset_solver.
Qed.

(** The handler at [h] is kept if an entry of the table refers to it, and destroyed
    otherwise. *)
Lemma wp_drop_pointer w r t h s :
  world_inv w r t -> handlers w !! h = Some s -> settled h w r ->
  wp (drop_pointer h) (returns (fun _ w' t' =>
    world_inv w' r t' /\ registered_but ∅ w' r /\ acceptor w' = acceptor w /\
    (handlers w' = handlers w /\ registered_but ∅ w r \/
     handlers w' = delete h (handlers w) /\ unreferenced h r))) w t.
Proof.
  intros Hw Hs Hset. unfold drop_pointer. do 2 wp_step.
  pose proof (wi_reactor _ _ _ Hw) as Hr. destruct (referenced h w) eqn:Href.
  - wp_step. destruct Hset as [Hreg|[_ Hu]]; [simpl; split_and!; try done; by left|].
    by rewrite (unreferenced_spec _ _ _ Hr Hu) in Href.
  - pose proof (referenced_spec _ _ _ Hr Href) as Hu.
    apply wp_bind. eapply wp_on_object; [done|]. eapply wp_mono; [by apply (wp_destroy w r)|].
    intros [[]| |] x' t'; simpl; [|done..]. intros [Hd HL]. wp_step. simpl.
    assert (Heq : with_handlers (delete h (<[h := self x']> (handlers w))) (put h x' w) =
      without h (proc x') w).
    { unfold without, put, with_sproc, with_handlers. simpl. by rewrite delete_insert_eq. }
    change (handlers (put h x' w)) with (<[h := self x']> (handlers w)). rewrite Heq.
    split_and!; [by eapply world_inv_destroyed | | done | right; split; [apply delete_insert_eq | done]].
    destruct Hset as [[Hacc Hreg]|[[Hacc Hreg] _]]; (split; [done|]); intros h' s'; simpl;
      rewrite lookup_delete_Some; intros [Hne Hs'] _; apply (Hreg h' s'); set_solver.
Qed.
End Dropping.

(** ** A new handler *)

(** All that the process holds. *)
Definition all_held (w : Server) (r : Reactor) : gmultiset res := held w r ⊎ owned_all (handlers w).

Lemma conn_held w r t h s :
  world_inv w r t -> handlers w !! h = Some s -> RConn (conn_of s) ∈ all_held w r.
Proof.
  intros Hw Hs. unfold all_held. rewrite (owned_all_delete h s) by done.
  pose proof (owned_conn_in (_conn (rh_base s)) ∅
    (ho_conn _ _ _ _ (wi_handlers _ _ _ Hw h s Hs))) as Hin.
  unfold owned_server, owned_ch, conn_of. multiset_solver.
Qed.

(** Other parts of the process work while all handlers stay as they are. *)
Lemma world_inv_frame w r t pr' t' :
  world_inv w r t -> reactor pr' = reactor (sproc w) -> peers pr' = peers (sproc w) ->
  heap_ok (heap pr') -> ops (heap pr') = ops (heap (sproc w)) -> extends keeps_interest t t' ->
  (forall c, c = NULL \/ RConn c ∈ all_held w r ->
     outstanding (QConn c) t' = outstanding (QConn c) t) ->
  (fds t' = fds t \/ exists c, (RConn c ∉ all_held w r) /\ fds t' = without_conn c (fds t)) ->
  ledger t' = ledger t -> world_inv (with_sproc pr' w) r t'.
Proof.
  intros Hw P1 P2 P3 P4 Hx Hq Hf HL. pose proof (conn_held w r t) as Hheld.
  assert (Hfd : forall fd u, fds t !! fd = Some u ->
    (forall c, (RConn c ∉ all_held w r) -> u <> FdEvent c /\ u <> FdCompletion c) ->
    fds t' !! fd = Some u).
  { intros fd u Hu Hne. destruct Hf as [->|(c & Hc & ->)]; [done|].
    apply lookup_without_conn. split; [done | by apply Hne]. }
  pose proof Hw as [W1 W2 W3 W4 W5 W6 W7 W8 W9 W10 W11 W12 W13]. split; simpl; try done.
  - by rewrite P1.
  - eapply reactor_inv_interest; [by apply extends_interest | done].
  - apply Hfd; [done|]. intros c _. done.
  - rewrite Hq by (by left). done.
  - by rewrite P2.
  - intros h s Hs. specialize (Hheld h s Hw Hs).
    eapply handler_ok_frame; [by eapply W10 | done | by rewrite P4 | | by eapply extends_prefix |].
    + apply Hq. by right.
    + intros fd u Hu Hs'. apply Hfd; [done|]. intros c Hc.
      destruct Hs' as [-> | ->]; split; try done; intros [= <-]; done.
  - by rewrite HL.
Qed.

Lemma with_sproc_id w : with_sproc (sproc w) w = w.
Proof. by destruct w. Qed.

(** A call that only looks. *)
Lemma world_inv_call w r t c (a : answer c) :
  quiet_call c = true -> keeps_fds c = true -> ledger (t ++ [Ev c a]) = ledger t ->
  world_inv w r t -> world_inv w r (t ++ [Ev c a]).
Proof.
  intros Hc Hf HL Hw. rewrite <-(with_sproc_id w). apply (world_inv_frame w r t); try done.
  - apply Hw.
  - apply extends_snoc. by apply quiet_keeps_interest.
  - intros c' _. apply quiet_outstanding. by apply extends_snoc.
  - left. apply extends_fds. by apply extends_snoc.
Qed.

(** The process with the new handler. *)
Definition add (x : Ctx RPMAHandler) (w : Server) : Server :=
  {| acceptor_ptr := acceptor_ptr w; acceptor := acceptor w;
     handlers := <[next_handler w := self x]> (handlers w);
     next_handler := next_handler w + 1; sproc := proc x |}.

Lemma next_handler_free w r t : world_inv w r t -> handlers w !! next_handler w = None.
Proof.
  intros Hw. destruct (handlers w !! next_handler w) as [s|] eqn:Hs; [|done].
  pose proof (wi_addresses _ _ _ Hw _ _ Hs). lia.
Qed.

Lemma next_unreferenced w r t : world_inv w r t -> unreferenced (next_handler w) r.
Proof.
  intros Hw fd n e He Heq. pose proof (wi_next _ _ _ Hw).
  destruct (wi_entries _ _ _ Hw _ _ _ He) as [(Ha & _)|(s & Hs & _)]; [lia|].
  by rewrite Heq, (next_handler_free _ _ _ Hw) in Hs.
Qed.

Lemma world_inv_made w r t x x' t' :
  world_inv w r t -> proc x = sproc w ->
  made (all_held w r) (base.size (handlers w)) (Ret tt) x t x' t' ->
  ConnectionHandler._peer (rh_base (self x')) = _peer (acceptor w) ->
  world_inv (add x' w) r t'.
Proof.
  intros Hw Hx [M1 M2 M3 M4 M5] Hp.
  destruct M5 as (Hv & Hnn & Hfr & Hwo & F1 & F2 & P1 & P2 & Hpe & Hnew & Hold).
  rewrite Hx in M1, Hpe, Hnew, Hold. destruct Hv as [V1 V2 V3 V4 _ VL].
  set (b := rh_base (self x')) in *. set (c := conn (_conn b)) in *.
  assert (Hfd : forall fd u, fds t !! fd = Some u -> u <> FdEvent c -> u <> FdCompletion c ->
    fds t' !! fd = Some u).
  { intros fd u Hu N1 N2. apply (lookup_without_conn c). rewrite Hwo.
    apply lookup_without_conn. by split_and!. }
  assert (Hap : forall h s, handlers w !! h = Some s ->
    c <> conn_of s /\ callback_table b ## table_of s).
  { intros h s Hs. split; [intros Heq; apply Hfr; rewrite Heq; by eapply conn_held|].
    intros p Hpb Hps. apply Hnew in Hpb.
    apply (table_bound _ _ _ _ _ _ Hw Hs) in Hps as [[o Ho] _]. congruence. }
  pose proof (next_handler_free _ _ _ Hw) as Hfree.
  pose proof (conn_held w r t) as Hheld.
  pose proof Hw as [W1 W2 W3 W4 W5 W6 W7 W8 W9 W10 W11 W12 W13]. split; simpl; try done.
  - by rewrite M1.
  - eapply reactor_inv_interest; [by apply extends_interest | done].
  - by apply Hfd.
  - by rewrite M4 by (by left).
  - lia.
  - intros h s [[<- <-]|[_ Hs]]%lookup_insert_Some; [lia|]. specialize (W8 _ _ Hs). lia.
  - rewrite Hpe, Hp, W9, map_size_insert_None, insert_singleton_eq by done. done.
  - intros h s [[<- <-]|[Hne Hs]]%lookup_insert_Some; [by split|].
    destruct (Hap h s Hs) as [Hc Ht].
    eapply handler_ok_frame; [by eapply W10 | done | | | by eapply extends_prefix |].
    + intros p Hp'. apply Hold. intros Hp''. by eapply Ht.
    + by rewrite M4 by (right; by eapply Hheld).
    + intros fd u Hu Hs'. apply Hfd; [done|..]; destruct Hs' as [-> | ->]; congruence.
  - intros h1 h2 s1 s2 [[<- <-]|[N1 H1]]%lookup_insert_Some
      [[<- <-]|[N2 H2]]%lookup_insert_Some Hne; [done| | |eauto].
    + by apply (Hap h2).
    + destruct (Hap h1 s1 H1) as [Hc Ht]. by split; [apply not_eq_sym|].
  - intros fd n e He. destruct (W12 _ _ _ He) as [?|(s & Hs & Hx')]; [by left | right].
    exists s. simpl. rewrite lookup_insert_ne; [done|]. intros Heq. by rewrite <-Heq, Hfree in Hs.
  - rewrite VL, (owned_all_insert _ _ _ Hfree). unfold all_held, held. f_equal. multiset_solver.
Qed.

Section Accepting.
Context {O : Oracle} {ED : EpollDocumented O} {RD : RpmaDocumented O} {FD : FdsDocumented O}
        {CF : ConnectionsFresh O}.

(** The handler that is being accepted. *)
Definition fresh_handler (w : Server) (r : Reactor) (h : Z) (w' : Server) : Prop :=
  h = next_handler w /\ acceptor w' = acceptor w /\ acceptor_ptr w' = acceptor_ptr w /\
  exists s, handlers w' = <[h := s]> (handlers w) /\ (RConn (conn_of s) ∉ all_held w r).

Lemma wp_construct w r t s :
  (exists a b c, s = RPMAHandler_init a b c) -> world_inv w r t -> registered_but ∅ w r ->
  wp (construct s) (fun o w' t' => world_inv w' r t' /\
    match o with
    | Ret h => fresh_handler w r h w' /\ registered_but {[h]} w' r /\ unreferenced h r
    | Throw _ => handlers w' = handlers w /\ acceptor w' = acceptor w /\
        acceptor_ptr w' = acceptor_ptr w /\ registered_but ∅ w' r
    | Faulted _ => False
    end) w t.
Proof.
  intros Hinit Hw Hreg. set (x := {| this := next_handler w; self := s; proc := sproc w |}).
  assert (Hacc : accepting (all_held w r) (_peer (acceptor w)) (_ep (acceptor w))
    (base.size (handlers w)) x t).
  { destruct Hw as [W1 W2 W3 W4 W5 W6 W7 W8 W9 W10 W11 W12 W13]. split; try done.
    - split; [apply W3|]. split; [unfold all_held, held; multiset_solver|].
      simpl. by rewrite W9, lookup_singleton_eq.
    - intros _. unfold all_held, held. multiset_solver. }
  pose proof (wp_make _ _ _ _ _ _ Hacc) as Hmake. unfold wp, construct in *. fold x.
  destruct (RPMAHandler_ctor _ _ x t) as [[o x'] t']. destruct Hmake as [Hm Hp].
  destruct o as [[]|e|f].
  - split; [by eapply (world_inv_made w r t x)|].
    destruct Hm as [_ _ _ _ (_ & _ & Hfr & _)].
    split; [by split_and!; eauto | split].
    + destruct Hreg as [Hacc' Hreg]. split; [done|]. intros h' s'. simpl.
      rewrite lookup_insert_Some. intros [[<- _]|[_ Hs']] Hne; [set_solver|].
      apply Hreg; set_solver.
    + by eapply next_unreferenced.
  - destruct Hm as [M1 M2 M3 M4 (HL & Hpe & Hops & Hf)]. split_and!; try done;
      [|by destruct Hreg; split].
    apply (world_inv_frame w r t); try done. by rewrite (wi_ledger _ _ _ Hw).
  - by destruct Hm as [_ _ _ _ []].
Qed.

Lemma wp_make_handler w r t :
  world_inv w r t -> registered_but ∅ w r ->
  wp make_handler (fun o w' t' => world_inv w' r t' /\
    match o with
    | Ret h => fresh_handler w r h w' /\ registered_but {[h]} w' r /\ unreferenced h r
    | Throw _ => handlers w' = handlers w /\ acceptor w' = acceptor w /\
        acceptor_ptr w' = acceptor_ptr w /\ registered_but ∅ w' r
    | Faulted _ => False
    end) w t.
Proof.
  intros Hw Hreg. unfold make_handler, indeterminate. do 6 wp_step.
  apply wp_construct; [by do 3 eexists | | done].
  by repeat (apply world_inv_call; [done | done | by apply ledger_same |]).
Qed.

(** Neither descriptor of a handler without entries is in the table. *)
Lemma handle_unused w r t h s et :
  world_inv w r t -> handlers w !! h = Some s -> unreferenced h r -> et <> ACCEPT_EVENT ->
  event_table r !! ch_get_handle (rh_base s) et = None.
Proof.
  intros Hw Hs Hu Het. destruct (event_table r !! _) as [[n e]|] eqn:He; [|done].
  destruct (wi_entries _ _ _ Hw _ _ _ He) as [(_ & _ & Hfd)|(s' & Hs' & Het' & Hfd)].
  - by destruct (listen_fd_apart _ _ _ _ _ _ Hw Hs Het).
  - exfalso. apply (handlers_fds_apart w r t h (eh_handler e) s s' et (eh_type e)); try done.
    intros [= Heq _]. by apply (Hu _ _ _ He).
Qed.

Lemma wp_register_new w r t h s :
  world_inv w r t -> handlers w !! h = Some s -> registered_but {[h]} w r -> unreferenced h r ->
  wp (on_object h RPMAHandler_register_self) (returns (fun ret w' t' => exists r',
    world_inv w' r' t' /\ settled h w' r' /\ (ret = 0 -> registered_but ∅ w' r') /\
    handlers w' = handlers w /\ acceptor w' = acceptor w)) w t.
Proof.
  intros Hw Hs Hreg Hu. set (b := rh_base s).
  pose proof (handle_unused _ _ _ _ _ CONNECTION_EVENT Hw Hs Hu ltac:(done)) as N1.
  pose proof (handle_unused _ _ _ _ _ COMPLETION_EVENT Hw Hs Hu ltac:(done)) as N2.
  pose proof (handlers_fds_apart _ _ _ h h s s CONNECTION_EVENT COMPLETION_EVENT Hw Hs Hs) as Hne.
  simpl in N1, N2, Hne. fold b in N1, N2, Hne. specialize (Hne ltac:(done) ltac:(done) ltac:(done)).
  eapply wp_on_object; [done|]. eapply wp_mono.
  { apply wp_and; [apply (wp_conn_register_self r) | apply (register_self_epoll r)];
      try apply Hw; done. }
  intros [ret| |] x' t' [H1 H2]; simpl in H1; [|done..]. fold b in H1.
  destruct H1 as (r' & -> & Hi & Hcase). destruct H2 as (r2 & [= <-] & He & Hx).
  assert (Hput : put h (with_proc (with_reactor (Some r') (sproc w)) (ctx_of h s w)) w =
    with_sproc (with_reactor (Some r') (sproc w)) w).
  { rewrite <-(put_id h s w) at 5 by done. done. }
  unfold returns. rewrite Hput. exists r'.
  destruct Hcase as [(_ & n & n' & Ht & _)|(Hret & Ht & _)].
  - set (w' := with_sproc _ w).
    assert (world_inv w' r' t' /\ registered_but ∅ w' r') as [Hw' Hreg'];
      [split | by split_and!; [|left|..]].
    + eapply world_inv_reactor; [done..|]. intros fd m e. rewrite Ht.
      intros [[<- [= _ <-]]|[_ [[<- [= _ <-]]|[_ Hold]]%lookup_insert_Some]]%lookup_insert_Some;
        [right; by exists s..|by eapply wi_entries].
    + destruct Hreg as [[na Ha] Hreg]. split.
      { exists na. simpl. rewrite Ht, !lookup_insert_ne; [done|..]; intros Heq;
          by rewrite <-Heq, ?N1, ?N2 in Ha. }
      intros h' s' Hs' _. simpl in Hs'. destruct (decide (h' = h)) as [->|Hh].
      * assert (s' = s) as -> by congruence. exists n.
        by rewrite Ht, lookup_insert_ne, lookup_insert_eq.
      * destruct (Hreg h' s' Hs') as [m Hm]; [set_solver|]. exists m. rewrite Ht.
        rewrite !lookup_insert_ne; [done|..]; intros Heq; by rewrite Heq, Hm in *.
  - split; [|split; [right|by split_and!]].
    + eapply world_inv_reactor; [done..|]. intros fd m e. rewrite Ht. by eapply wi_entries.
    + destruct Hreg as [Hacc Hreg]. split; [split; simpl; rewrite Ht; done|].
      intros fd m e. rewrite Ht. apply Hu.
Qed.
End Accepting.
