(* ===== verification/ServerLoop.v ===== *)
(** * The server's event loop

    The reactor dispatches events to the acceptor and to the handlers, while messages
    arrive in the receive buffers of the connections.  Every event keeps the
    invariant of the process, never faults, and is one step of an abstract machine
    that only knows which sessions are open. *)

From S2P Require Import Prelude Librpma Effects LibrpmaApi Posix Resources.
From S2P Require Import CephEncoding WireFormat Types MemoryManager Reactor RpmaOp Quiet.
From S2P Require Import Descriptors Host RpmaConn ConnectionHandler RPMAHandler Isolation.
From S2P Require Import Acceptance Registration AcceptorHandler ServerInv.

Section Operations.
Context {O : Oracle} {E : CephEncoding} {N : Wire}.

(** What arrived for the handler at [h] is in its receive buffer. *)
Definition deliver (h : Z) : M Server unit := fun w t =>
  match handlers w !! h with
  | Some s =>
      let c := rh_base s in
      let bl := {| bl_addr := bl_addr (recv_bl c); bl_data := received t (conn (_conn c)) |} in
      (Ret tt, with_handlers (<[h := with_base (with_recv_bl bl c) s]> (handlers w)) w, t)
  | None => (Ret tt, w, t)
  end.

Definition dispatch (h : Z) (et : EventType) : M Server Z := deliver h;; server_handle h et.

Definition server_reactor (dead : Reactor) (w : Server) : Reactor :=
  default dead (reactor (sproc w)).

(** [while (true) reactor->handle_events();], at most [rounds] calls of [fuel] turns. *)
Fixpoint server_rounds (dead : Reactor) (fuel rounds : nat) : M Server unit :=
  match rounds with
  | 0%nat => mret tt
  | S rounds =>
      handle_events (server_reactor dead) dispatch fuel;;
      server_rounds dead fuel rounds
  end.
End Operations.

(** ** The abstract server *)

(** The open sessions: the connection of each handler, by its address. *)
Definition sessions (w : Server) : gmap Z Z := conn_of <$> handlers w.

(** An incoming connection may open a session on a new connection; an event of a
    connection may close its session; a completion does neither. *)
Inductive session_step : Z -> EventType -> gmap Z Z -> gmap Z Z -> Prop :=
  | session_idle h et m : session_step h et m m
  | session_open a m h c : m !! h = None -> (forall h' c', m !! h' = Some c' -> c' <> c) ->
      session_step a ACCEPT_EVENT m (<[h := c]> m)
  | session_close h m : is_Some (m !! h) ->
      session_step h CONNECTION_EVENT m (delete h m).

(** ** The invariant of the loop *)

Definition serving (w : Server) (t : trace) : Prop :=
  exists r, world_inv w r t /\ registered_but ∅ w r.

(** The loop may dispatch the event [et] to the handler at [h]. *)
Definition enabled (h : Z) (et : EventType) (w : Server) : Prop :=
  exists r fd n, reactor (sproc w) = Some r /\
    event_table r !! fd = Some (n, {| eh_type := et; eh_handler := h |}).

(** Messages fill the buffer, and a request for a replica asks for [n] bytes. *)
Definition wire_requests {E : CephEncoding} {W : Wire} (n : Z) : Prop :=
  forall t c, forall init r, RwlReplicaInitRequest_decode (received t c) = Some (init, r) ->
    cache_size (info init) = n.

(** ** Lemmas *)

Lemma sessions_put h s x' w :
  handlers w !! h = Some s -> conn_of (self x') = conn_of s -> sessions (put h x' w) = sessions w.
Proof.
  intros Hs Hc. unfold sessions. simpl. rewrite fmap_insert, insert_id; [done|].
  by rewrite lookup_fmap, Hs, Hc.
Qed.

Section Lemmas.
Context {O : Oracle} {ED : EpollDocumented O} {RD : RpmaDocumented O} {FD : FdsDocumented O}
        {CF : ConnectionsFresh O} {DD : DescriptorsDocumented O} {CD : CompletionDocumented O}
        {E : CephEncoding} {EL : CephEncodingLaws E}.

Lemma wp_acceptor_handle a w t :
  serving w t ->
  wp (AcceptorHandler_handle ACCEPT_EVENT) (fun o w' t' =>
    serving w' t' /\ (forall f, o <> Faulted f) /\
    session_step a ACCEPT_EVENT (sessions w) (sessions w')) w t.
Proof.
  intros (r & Hw & Hreg). unfold AcceptorHandler_handle. apply wp_bind.
  rewrite bool_decide_eq_true_2 by done. apply wp_assert; [intros _|done].
  apply wp_try_catch, wp_bind.
  eapply wp_mono; [by apply (wp_make_handler w r)|].
  intros [h|e|f] w1 t1 [Hw1 H1]; [| |done].
  2: { destruct H1 as (Hh & _ & _ & Hreg1). assert (Hs : sessions w1 = sessions w).
       { unfold sessions. by rewrite Hh. }
       destruct e; wp_step; rewrite Hs; (split_and!; [by exists r | done | constructor]). }
  destruct H1 as ((Hh & _ & _ & s & Hs & Hfr) & Hreg1 & Hu1). apply wp_bind.
  assert (Hls : handlers w1 !! h = Some s) by (rewrite Hs; apply lookup_insert_eq).
  eapply wp_mono; [by apply (wp_register_new w1 r t1 h s)|].
  intros [ret| |] w2 t2; simpl; [|done..]. intros (r2 & Hw2 & Hset & _ & Hh2 & _).
  apply wp_bind. eapply wp_mono; [by apply (wp_drop_pointer w2 r2 t2 h s); [done|rewrite Hh2|done]|].
  intros [[]| |] w3 t3; simpl; [|done..]. intros (Hw3 & Hreg3 & _ & Hcase). wp_step.
  split_and!; [by exists r2 | done|].
  assert (Hnone : handlers w !! h = None).
  { rewrite Hh. by eapply next_handler_free. }
  destruct Hcase as [[Hh3 _]|[Hh3 _]]; unfold sessions; rewrite Hh3, Hh2, Hs.
  - rewrite fmap_insert. apply session_open; [by rewrite lookup_fmap, Hnone|].
    intros h' c'. rewrite lookup_fmap, fmap_Some. intros (s' & Hs' & ->) Heq.
    apply Hfr. rewrite <-Heq. by eapply conn_held.
  - rewrite delete_insert_id by done. constructor.
Qed.

(** A handler that is not the acceptor. *)
Lemma wp_server_handle_live n h et s w t :
  pcfg_available O -> maps_whole_files O n -> requests_size n s ->
  serving w t -> handlers w !! h = Some s ->
  wp (server_handle h et) (fun o w' t' =>
    serving w' t' /\ (forall f, o <> Faulted f) /\
    session_step h et (sessions w) (sessions w')) w t.
Proof.
  intros Hav Hmaps Hreq (r & Hw & Hreg) Hs. unfold server_handle. do 2 wp_step.
  pose proof (wi_addresses _ _ _ Hw h s Hs) as Ha.
  rewrite (proj2 (Z.eqb_neq h (acceptor_ptr w))) by lia.
  apply wp_bind. eapply wp_on_object; [done|].
  eapply wp_mono; [by apply (wp_handler_event n et w r t h s)|].
  intros o x1 t1 [Hnf (Hc & r1 & Hw1 & Hcase)].
  pose proof (sessions_put _ _ _ _ Hs Hc) as Hses.
  destruct o as [ret|e|f]; [| |by destruct (Hnf f)].
  2: { destruct Hcase as [Hreg1|([_ [ret [=]]] & _)]. rewrite Hses.
       split_and!; [by exists r1 | done | constructor]. }
  assert (Hls : handlers (put h x1 w) !! h = Some (self x1)) by apply lookup_insert_eq.
  assert (Hset : settled h (put h x1 w) r1) by (destruct Hcase as [?|[_ ?]]; [by left | by right]).
  apply wp_bind. eapply wp_mono; [by apply (wp_drop_pointer (put h x1 w) r1 t1 h (self x1))|].
  intros [[]| |] w2 t2; simpl; [|done..]. intros (Hw2 & Hreg2 & _ & Hdrop). wp_step.
  split_and!; [by exists r1 | done|]. rewrite <-Hses.
  destruct Hdrop as [[Hh2 _]|[Hh2 Hu]]; unfold sessions; rewrite Hh2; [constructor|].
  destruct Hcase as [Hreg1|[[-> _] _]].
  - destruct (reg_handlers _ _ _ Hreg1 h (self x1) Hls) as [m Hm]; [set_solver|]. by destruct (Hu _ _ _ Hm).
  - simpl. rewrite fmap_delete. apply session_close. rewrite fmap_insert, lookup_insert_eq. eauto.
Qed.

Context {N : Wire}.

Lemma deliver_isolated bl x t :
  isolated x t (with_self (with_base (with_recv_bl bl (rh_base (self x))) (self x)) x) t.
Proof. apply isolated_self; [apply isolated_refl | by right]. Qed.

Lemma deliver_server_inv bl L x t :
  server_inv L x t ->
  server_inv L (with_self (with_base (with_recv_bl bl (rh_base (self x))) (self x)) x) t.
Proof. intros [[I1 I2 I3 I4] V2 V3 V4 V5 V6]. by split; [split|..]. Qed.

(** The arrival of a message. *)
Lemma wp_deliver n h s w t :
  wire_requests n -> serving w t -> handlers w !! h = Some s ->
  wp (deliver h) (returns (fun _ w' t' => t' = t /\ serving w' t /\ sessions w' = sessions w /\
    exists s', handlers w' !! h = Some s' /\ requests_size n s')) w t.
Proof.
  intros Hn (r & Hw & Hreg) Hs. unfold wp, deliver. rewrite Hs. simpl.
  set (bl := {| bl_addr := _ |}). set (x' := with_self (with_base (with_recv_bl bl (rh_base s)) s)
    (ctx_of h s w)).
  change (with_handlers _ w) with (put h x' w).
  destruct (settled_isolated w r t h s x' t) as [Hw' Hreg'];
    [done..| apply deliver_isolated | apply deliver_server_inv; by apply handler_server_inv |].
  split_and!; [done | by exists r | by eapply sessions_put |].
  exists (self x'). split; [apply lookup_insert_eq|]. intros init k. apply Hn.
Qed.

Lemma wp_dispatch n h et w t :
  pcfg_available O -> maps_whole_files O n -> wire_requests n ->
  serving w t -> enabled h et w ->
  wp (dispatch h et) (fun o w' t' => serving w' t' /\ (forall f, o <> Faulted f) /\
    session_step h et (sessions w) (sessions w')) w t.
Proof.
  intros Hav Hmaps Hn Hsv (r & fd & m & Hr & He). pose proof Hsv as (r' & Hw & Hreg).
  assert (r' = r) as -> by (pose proof (wi_reactor _ _ _ Hw); congruence).
  unfold dispatch. apply wp_bind.
  destruct (wi_entries _ _ _ Hw _ _ _ He) as [(Ha & Het & _)|(s & Hs & Het & _)]; simpl in *.
  - subst h et. unfold wp at 1, deliver.
    destruct (handlers w !! acceptor_ptr w) as [s|] eqn:Hs.
    { pose proof (wi_addresses _ _ _ Hw _ _ Hs). lia. }
    unfold server_handle. do 2 wp_step. rewrite Z.eqb_refl. by apply wp_acceptor_handle.
  - eapply wp_mono; [by apply (wp_deliver n h s)|].
    intros [[]| |] w1 t1; simpl; [|done..]. intros (-> & Hsv1 & Hses & s1 & Hs1 & Hreq).
    rewrite <-Hses. by apply (wp_server_handle_live n h et s1).
Qed.

Lemma serving_wait r w t a :
  reactor (sproc w) = Some r -> serving w t ->
  serving w (t ++ [Ev (C_epoll_wait (_epoll r) TIMEOUT_1500S) a]).
Proof.
  intros Hr (r' & Hw & Hreg). exists r'. split; [|done].
  assert (r' = r) as -> by (pose proof (wi_reactor _ _ _ Hw); congruence).
  apply world_inv_call; try done. rewrite (wi_ledger _ _ _ Hw).
  apply ledger_use; try done; [apply Hw|]. constructor; [unfold held; multiset_solver | constructor].
Qed.

(** What every event the loop may dispatch keeps, besides the invariant of the process. *)
Record loop_invariant (J : Server -> trace -> Prop) : Prop := {
  loop_dispatch h et w t : serving w t -> enabled h et w -> J w t ->
    wp (dispatch h et) (fun o w' t' => serving w' t' /\ (forall f, o <> Faulted f) /\ J w' t') w t;
  loop_prefix w t t' : t `prefix_of` t' -> J w t -> J w t'
}.

Lemma wp_server_events J dead fuel w t :
  loop_invariant J -> serving w t -> J w t ->
  wp (handle_events (server_reactor dead) dispatch fuel) (fun o w' t' =>
    serving w' t' /\ (forall f, o <> Faulted f) /\ J w' t') w t.
Proof.
  intros HJ. revert w t. induction fuel as [|fuel IH]; intros w t Hsv Hj; simpl; [by wp_step|].
  pose proof Hsv as (r & Hw & _). pose proof (wi_reactor _ _ _ Hw) as Hr.
  assert (Hsr : server_reactor dead w = r) by (unfold server_reactor; by rewrite Hr).
  assert (Hj' : forall e, J w (t ++ [e])) by (intros e; eapply (loop_prefix _ HJ); [by eexists | done]).
  apply wp_bind, wp_handle_event; rewrite Hsr; [apply Hw| |].
  - intros ret a _ _. wp_step. split_and!; [by apply serving_wait | done | done].
  - intros fd m [et h] a He _. eapply wp_mono; [apply (loop_dispatch _ HJ); try done|].
    + by apply serving_wait.
    + by exists r, fd, m.
    + intros o w' t' (Hsv' & Hnf & Hst). destruct o as [ret|e|f]; [|done|by destruct (Hnf f)].
      destruct (empty_table _); [by wp_step | by apply IH].
Qed.

Lemma wp_server_rounds J dead fuel rounds w t :
  loop_invariant J -> serving w t -> J w t ->
  wp (server_rounds dead fuel rounds) (fun o w' t' =>
    serving w' t' /\ (forall f, o <> Faulted f) /\ J w' t') w t.
Proof.
  intros HJ. revert w t. induction rounds as [|rounds IH]; intros w t Hsv Hj; simpl; [by wp_step|].
  apply wp_bind. eapply wp_mono; [by apply wp_server_events|].
  intros [out|e|f] w1 t1 (Hsv1 & Hnf & Hst); [by apply IH | done | by destruct (Hnf f)].
Qed.

(** A step of the abstract server, for some event. *)
Definition session_any (m m' : gmap Z Z) : Prop := exists h et, session_step h et m m'.

Lemma sessions_loop n m :
  pcfg_available O -> maps_whole_files O n -> wire_requests n ->
  loop_invariant (fun w _ => rtc session_any m (sessions w)).
Proof.
  intros Hav Hmaps Hn. split; [|done]. intros h et w t Hsv He Hm.
  eapply wp_mono; [by apply (wp_dispatch n)|]. intros o w' t' (Hsv' & Hnf & Hst). split_and!; [done..|].
  eapply rtc_r; [exact Hm|]. by exists h, et.
Qed.
End Lemmas.

(** ** Properties *)

Section Properties.
Context {O : Oracle} {ED : EpollDocumented O} {RD : RpmaDocumented O} {FD : FdsDocumented O}
        {CF : ConnectionsFresh O} {DD : DescriptorsDocumented O} {CD : CompletionDocumented O}
        {E : CephEncoding} {EL : CephEncodingLaws E} {N : Wire}.

End Properties.

(** ** Witnesses *)

(** A process that has just started to listen: the acceptor at address 1 with
    descriptor 7. *)
Definition demo_accept : EventHandle := {| eh_type := ACCEPT_EVENT; eh_handler := 1 |}.
Definition listening_reactor : Reactor :=
  {| _epoll := 3; event_table := {[7 := (1, demo_accept)]}; next_node := 2 |}.
Definition listening_server : Server :=
  {| acceptor_ptr := 1;
     acceptor := {| _fd := 7; _address := []; _port := []; _peer := 100; _ep := 200 |};
     handlers := ∅; next_handler := 2;
     sproc := {| heap := {| ops := ∅; next_op := 1 |}; peers := {[100 := 1%nat]};
                 reactor := Some listening_reactor |} |}.
Definition listening_calls : trace :=
  [Ev C_epoll_create1 3; Ev (C_peer_new 1) (0, 100); Ev (C_ep_listen 100 [] []) (0, 200);
   Ev (C_ep_get_fd 200) (0, 7); Ev (C_epoll_ctl_add 3 7 1) (0, 0)].

Lemma listening_serving : serving listening_server listening_calls.
Proof.
  exists listening_reactor. split.
  - split; try done.
    + apply (reactor_inv_insert (new_reactor 3) [] listening_calls 7 demo_accept);
        [by apply new_reactor_inv | done | by right].
    + split; [done|]. simpl. intros p [o Ho]. by rewrite lookup_empty in Ho.
    + simpl. intros fd n e [<- [= <- <-]]%lookup_singleton_Some. by left.
  - split; [by exists 1 | done].
Qed.

(** Every client asks for the replica of the demonstration. *)
Definition demo_wire : Wire := fun _ _ => demo_message.

Lemma demo_wire_requests : wire_requests (W := demo_wire) 10.
Proof. intros t c init r H. vm_compute in H. injection H as <- <-. reflexivity. Qed.

