(* ===== verification/ServerProgress.v ===== *)
(** * A connection that comes in is accepted

    When librpma and the kernel grant what the acceptor asks for, an incoming
    connection does open a session: the safety theorems are not met by a server that
    accepts nobody. *)

From S2P Require Import Prelude Librpma Effects LibrpmaApi Posix Resources.
From S2P Require Import CephEncoding WireFormat Types MemoryManager Reactor RpmaOp Quiet.
From S2P Require Import Descriptors Host RpmaConn ConnectionHandler RPMAHandler Isolation.
From S2P Require Import Acceptance Registration AcceptorHandler ServerInv ServerLoop.

(** ** Specification *)

(** The calls on the way to a new session succeed; a descriptor can be watched unless it
    already is. *)
Record accept_succeeds (O : Oracle) : Prop := {
  as_mr_reg t p a n u : (answer_of t (C_mr_reg p a n u)).1 = 0;
  as_request t ep cfg : (answer_of t (C_ep_next_conn_req ep cfg)).1 = 0;
  as_recv t req mr off len ctx : answer_of t (C_conn_req_recv req mr off len ctx) = 0;
  as_connect t req : (answer_of t (C_conn_req_connect req)).1 = 0;
  as_event_fd t c : (answer_of t (C_conn_get_event_fd c)).1 = 0;
  as_completion_fd t c : (answer_of t (C_conn_get_completion_fd c)).1 = 0;
  as_getfl t fd : 0 <= (answer_of t (C_fcntl_getfl fd)).1;
  as_setfl t fd flags : 0 <= (answer_of t (C_fcntl_setfl fd flags)).1;
  as_add t ep fd p : interest ep t !! fd = None -> (answer_of t (C_epoll_ctl_add ep fd p)).1 = 0
}.

(** ** Lemmas *)

Section Success.
Context {O : Oracle} (HS : accept_succeeds O).

(** The answer of a call that succeeds, as its result code and its output. *)
Ltac granted G :=
  do 2 wp_step;
  match goal with
  | H : answer_of _ _ = ?a |- _ =>
      pose proof G as Hzero; rewrite H in Hzero; destruct a as [? ?]; simpl in Hzero; subst
  end; wp_step.

Lemma granted_mr_reg {S} p a n u mr0 (s : S) t Q :
  (forall mr t', Q (Ret (0, mr)) s t') -> wp (rpma_mr_reg p a n u mr0) Q s t.
Proof. intros HQ. unfold rpma_mr_reg. granted (as_mr_reg _ HS t p a n u). apply HQ. Qed.

Lemma granted_request {S} ep cfg r0 (s : S) t Q :
  (forall req t', Q (Ret (0, req)) s t') -> wp (rpma_ep_next_conn_req ep cfg r0) Q s t.
Proof. intros HQ. unfold rpma_ep_next_conn_req. granted (as_request _ HS t ep cfg). apply HQ. Qed.

Lemma granted_connect {S} req c0 (s : S) t Q :
  (forall c t', Q (Ret (0, c, NULL)) s t') -> wp (rpma_conn_req_connect req c0) Q s t.
Proof. intros HQ. unfold rpma_conn_req_connect. granted (as_connect _ HS t req). apply HQ. Qed.

Lemma granted_event_fd {S} c fd0 (s : S) t Q :
  (forall fd t', Q (Ret (0, fd)) s t') -> wp (rpma_conn_get_event_fd c fd0) Q s t.
Proof. intros HQ. unfold rpma_conn_get_event_fd. granted (as_event_fd _ HS t c). apply HQ. Qed.

Lemma granted_completion_fd {S} c fd0 (s : S) t Q :
  (forall fd t', Q (Ret (0, fd)) s t') -> wp (rpma_conn_get_completion_fd c fd0) Q s t.
Proof.
  intros HQ. unfold rpma_conn_get_completion_fd. granted (as_completion_fd _ HS t c). apply HQ.
Qed.

Lemma granted_buffers c t Q :
  (forall c' t', Q (Ret tt) c' t') -> wp init_send_recv_buffer Q c t.
Proof.
  intros HQ. unfold init_send_recv_buffer, new_bufferlist, mr_delete, rpma_mr_dereg.
  do 2 (wp_steps; apply granted_mr_reg; intros; cbn beta iota; wp_steps; try done);
  apply HQ.
Qed.

Lemma granted_ctor peer ep x t :
  wp (RPMAHandler_ctor peer ep) (fun o _ _ => o = Ret tt) x t.
Proof.
  unfold RPMAHandler_ctor. apply wp_on_throw, wp_bind. unfold accept_request, peer_share.
  apply wp_bind, wp_on_ch. wp_step. apply wp_bind, wp_zoom. wp_step.
  apply wp_bind, wp_on_ch, granted_buffers. intros c1 t1.
  apply wp_bind, granted_request. intros req t2. cbn beta iota. change (negb (0 =? 0)) with false. cbn iota.
  apply wp_bind. unfold post_op. apply wp_bind, wp_new_op. cbn beta iota.
  unfold RpmaReqRecv_call, rpma_conn_req_recv. apply wp_bind. do 2 wp_step.
  wp_known (as_recv _ HS _ _ _ _ _ _). change (0 =? 0) with true. cbn iota.
  apply wp_bind, wp_on_ch. do 2 wp_step. change (negb (0 =? 0)) with false. cbn iota. wp_step.
  unfold accept_connection, indeterminate. do 3 wp_step. apply wp_bind, granted_connect. intros c t3.
  cbn beta iota. change (negb (0 =? 0)) with false. cbn iota.
  apply wp_bind, wp_on_ch, wp_zoom. unfold RpmaConn_reset. wp_step. apply wp_on_ch.
  unfold init_conn_fd. do 2 wp_step. apply wp_bind, granted_event_fd. intros fd t4. cbn beta iota.
  do 2 wp_step. change (negb (0 =? 0)) with false. cbn iota. do 2 wp_step.
  apply wp_bind, granted_completion_fd. intros fd' t5. cbn beta iota.
  do 2 wp_step. change (negb (0 =? 0)) with false. cbn iota. by wp_step.
Qed.

Lemma granted_make w t : wp make_handler (fun o _ _ => exists h, o = Ret h) w t.
Proof.
  unfold make_handler, indeterminate. do 6 wp_step. unfold wp, construct.
  set (x := {| this := next_handler w |}).
  pose proof (granted_ctor (_peer (acceptor w)) (_ep (acceptor w)) x
    (((t ++ [Ev (C_indeterminate "_conn_fd") a]) ++ [Ev (C_indeterminate "_comp_fd") a0]) ++
     [Ev (C_indeterminate "_size") a1])) as Hc.
  unfold wp in Hc. fold x. destruct (RPMAHandler_ctor _ _ x _) as [[o x'] t']. subst o. by eexists.
Qed.

(** ** Registration *)

Context {ED : EpollDocumented O}.

Lemma granted_register_handler eh et r t :
  let fd := get_handle eh et in
  reactor_inv r t -> event_table r !! fd = None -> fd <> -1 ->
  wp (register_handler eh et) (fun o _ _ => o = Ret 0) r t.
Proof.
  intros fd Hinv Hnone Hfd. unfold register_handler. fold fd. rewrite (proj2 (Z.eqb_neq _ _) Hfd).
  unfold fd_set_nonblock, fcntl_getfl, fcntl_setfl. do 3 wp_step.
  pose proof (as_getfl _ HS t fd) as G1. rewrite H in G1. destruct a as [r1 e1]. simpl in G1.
  rewrite (proj2 (Z.ltb_ge _ _) G1). do 2 wp_step. destruct a as [r2 e2].
  pose proof (as_setfl _ HS (t ++ [Ev (C_fcntl_getfl fd) (r1, e1)]) fd (Z.lor r1 O_NONBLOCK)) as G2.
  rewrite H0 in G2. simpl in G2. rewrite (proj2 (Z.ltb_ge _ _) G2). wp_step.
  change (negb (0 =? 0)) with false. cbn iota. apply wp_bind. unfold emplace, wp at 1. rewrite Hnone.
  unfold epoll_ctl_add. do 4 wp_step. simpl in H1. set (t2 := _ ++ [Ev (C_fcntl_setfl _ _) _]) in *.
  assert (Hi : interest (_epoll r) t2 !! fd = None).
  { unfold t2. rewrite !interest_other by done.
    destruct (interest (_epoll r) t !! fd) eqn:E0; [|done].
    destruct (inv_watched _ _ Hinv _ _ E0) as [? ?]. congruence. }
  pose proof (as_add _ HS t2 (_epoll r) fd (next_node r) Hi) as G3. rewrite H1 in G3.
  destruct a as [r3 e3]. simpl in G3. subst r3. by wp_step.
Qed.

Lemma granted_register_self r (x : Ctx RPMAHandler) t :
  let c := ch_of (self x) in
  reactor (proc x) = Some r -> reactor_inv r t -> _conn_fd c <> _comp_fd c ->
  event_table r !! _conn_fd c = None -> event_table r !! _comp_fd c = None ->
  0 <= _conn_fd c -> 0 <= _comp_fd c ->
  wp conn_register_self (fun o _ _ => o = Ret 0) x t.
Proof.
  intros c Hr Hinv Hne H1 H2 P1 P2. unfold conn_register_self. wp_step. apply wp_gets.
  eapply wp_on_reactor; [done|]. apply wp_bind.
  eapply wp_mono; [apply wp_and; [by apply wp_register_handler|]|].
  { apply granted_register_handler; [done|done|]. change (_conn_fd c <> -1). lia. }
  intros o r1 t1 [Hreg ->]. change (ch_get_handle (rh_base (self x))) with (ch_get_handle c) in Hreg.
  simpl in Hreg. change (rh_base (self x)) with c in Hreg.
  destruct Hreg as (Hi1 & He1 & [(_ & _ & Ht1 & _)|[[] _]]); [|done].
  change (negb (0 =? 0)) with false. cbn iota. apply wp_bind.
  eapply wp_mono; [apply granted_register_handler; [done| |]|].
  - change (event_table r1 !! _comp_fd c = None). by rewrite Ht1, lookup_insert_ne.
  - change (_comp_fd c <> -1). lia.
  - intros o r2 t2 ->. by wp_step.
Qed.
End Success.

(** ** Properties *)

Section Progress.
Context {O : Oracle} {ED : EpollDocumented O} {RD : RpmaDocumented O} {FD : FdsDocumented O}
        {CF : ConnectionsFresh O} {E : CephEncoding} {N : Wire}.

Lemma granted_registration (HS : accept_succeeds O) w r t h s :
  world_inv w r t -> handlers w !! h = Some s -> unreferenced h r ->
  wp (on_object h RPMAHandler_register_self) (fun o _ _ => o = Ret 0) w t.
Proof.
  intros Hw Hs Hu. eapply wp_on_object; [done|].
  pose proof (ho_fds _ _ _ _ (wi_handlers _ _ _ Hw h s Hs)) as [P1 P2].
  apply (granted_register_self HS r); try done; try apply Hw.
  - by apply (handlers_fds_apart _ _ _ h h s s CONNECTION_EVENT COMPLETION_EVENT Hw Hs Hs).
  - by apply (handle_unused _ _ _ _ _ CONNECTION_EVENT Hw Hs Hu).
  - by apply (handle_unused _ _ _ _ _ COMPLETION_EVENT Hw Hs Hu).
Qed.

(** C7: in a serving process whose requests to librpma and to the kernel are granted, an
    incoming connection opens a session: the event returns 0, the new handler is alive on
    a connection no other session has, registered with the reactor, and all other
    sessions go on. *)
Theorem accept_opens_session w t :
  accept_succeeds O -> serving w t -> enabled (acceptor_ptr w) ACCEPT_EVENT w ->
  wp (dispatch (acceptor_ptr w) ACCEPT_EVENT) (returns (fun ret w' t' =>
    ret = 0 /\ serving w' t' /\ exists h c, sessions w !! h = None /\
      (forall h' c', sessions w !! h' = Some c' -> c' <> c) /\
      sessions w' = <[h := c]> (sessions w))) w t.
Proof.
  intros HS (r & Hw & Hreg) _. unfold dispatch. apply wp_bind. unfold wp at 1, deliver.
  destruct (handlers w !! acceptor_ptr w) as [s|] eqn:Hs.
  { pose proof (wi_addresses _ _ _ Hw _ _ Hs). lia. }
  unfold server_handle. do 2 wp_step. rewrite Z.eqb_refl. clear Hs.
  unfold AcceptorHandler_handle. apply wp_bind.
  rewrite bool_decide_eq_true_2 by done. apply wp_assert; [intros _|done].
  apply wp_try_catch, wp_bind.
  eapply wp_mono; [apply wp_and; [by apply (wp_make_handler w r) | by apply granted_make]|].
  intros o w1 t1 [[Hw1 H1] [h ->]]. destruct H1 as ((Hh & _ & _ & s & Hs & Hfr) & Hreg1 & Hu1).
  assert (Hls : handlers w1 !! h = Some s) by (rewrite Hs; apply lookup_insert_eq).
  apply wp_bind. eapply wp_mono; [apply wp_and; [by apply (wp_register_new w1 r t1 h s) |
    by eapply granted_registration]|].
  intros o w2 t2 [H2 ->]. simpl in H2. destruct H2 as (r2 & Hw2 & Hset & Hreg2 & Hh2 & _).
  specialize (Hreg2 eq_refl). apply wp_bind.
  eapply wp_mono; [by apply (wp_drop_pointer w2 r2 t2 h s); [done|rewrite Hh2|done]|].
  intros [[]| |] w3 t3; simpl; [|done..]. intros (Hw3 & Hreg3 & _ & Hcase). wp_step. simpl.
  split; [done|]. split; [by exists r2|]. destruct Hcase as [[Hh3 _]|[_ Hu]].
  2: { destruct (reg_handlers _ _ _ Hreg2 h s) as [m Hm]; [by rewrite Hh2 | set_solver|].
       by destruct (Hu _ _ _ Hm). }
  exists h, (conn_of s). unfold sessions. rewrite Hh3, Hh2, Hs, fmap_insert, !lookup_fmap.
  split_and!; [by rewrite Hh, (next_handler_free _ _ _ Hw) | | done].
  intros h' c'. rewrite lookup_fmap, fmap_Some. intros (s' & Hs' & ->) Heq.
  apply Hfr. rewrite <-Heq. by eapply conn_held.
Qed.
End Progress.

(** ** Witnesses *)

Lemma host_grants : accept_succeeds host.
Proof.
  split; try done. intros t ep fd p Hn. unfold answer_of, sized_host.
  rewrite bool_decide_eq_false_2; [done|]. rewrite Hn. by intros [? ?].
Qed.

Lemma accept_opens_session_witness :
  wp (dispatch (O := host) (N := demo_wire) 1 ACCEPT_EVENT) (returns (fun ret w' t' =>
    ret = 0 /\ serving w' t' /\ exists h c, (∅ : gmap Z Z) !! h = None /\
      (forall h' c', (∅ : gmap Z Z) !! h' = Some c' -> c' <> c) /\
      sessions w' = <[h := c]> ∅)) listening_server listening_calls.
Proof.
  refine (accept_opens_session (O := host) (N := demo_wire) listening_server listening_calls _ _ _).
  - apply host_grants.
  - apply listening_serving.
  - exists listening_reactor, 7, 1. split; reflexivity.
Defined.
