(* ===== verification/ServerMain.v ===== *)
(** * The server program ([server.cc])

    From the start of [main] to its end: the reactor and the acceptor are made, the
    loop runs, and whatever ends it, the objects that are left are destroyed. *)

From S2P Require Import Prelude Librpma Effects LibrpmaApi Posix Resources.
From S2P Require Import CephEncoding WireFormat Types MemoryManager Reactor RpmaOp Quiet.
From S2P Require Import Descriptors Host RpmaConn ConnectionHandler RPMAHandler Isolation.
From S2P Require Import Acceptance Registration AcceptorHandler ServerInv ServerLoop.

(** ** Operations *)

Definition with_acceptor (a : AcceptorHandler) (w : Server) : Server :=
  {| acceptor_ptr := acceptor_ptr w; acceptor := a; handlers := handlers w;
     next_handler := next_handler w; sproc := sproc w |}.

(** The process when [main] starts. *)
Definition new_server : Server :=
  {| acceptor_ptr := 1; acceptor := AcceptorHandler_init 0 [] []; handlers := ∅;
     next_handler := 2;
     sproc := {| heap := {| ops := ∅; next_op := 1 |}; peers := ∅; reactor := None |} |}.

(** The end of the scope of a local object with destructor [d]: it is destroyed when
    [m] ends, unless [m] is still running ([None]) or ends in an exception that nobody
    catches, for which no destructors run. *)
Definition scoped {S A} (caught : exn -> bool) (m : M S (option A)) (d : M S unit)
    : M S (option A) := fun s t =>
  match m s t with
  | (Ret (Some a), s', t') => (d;; mret (Some a)) s' t'
  | (Throw e, s', t') => if caught e then (d;; throw e) s' t' else (Throw e, s', t')
  | r => r
  end.

Section Operations.
Context {O : Oracle} {E : CephEncoding} {N : Wire}.

Definition set_reactor (r : option Reactor) (w : Server) : Server :=
  with_sproc (with_reactor r (sproc w)) w.

Definition on_acceptor {A} : M (Ctx AcceptorHandler) A -> M Server A :=
  zoom (fun w => {| this := acceptor_ptr w; self := acceptor w; proc := sproc w |})
       (fun x w => with_sproc (proc x) (with_acceptor (self x) w)).

(** A shared pointer to the object at [h] ends; the last one destroys the object. *)
Definition release (h : Z) : M Server unit :=
  w ← get;
  if h =? acceptor_ptr w
  then if referenced h w then mret tt else on_acceptor AcceptorHandler_dtor
  else drop_pointer h.

(** The table of handlers is destroyed, entry by entry. *)
Fixpoint clear_table (fds : list Z) : M Server unit :=
  match fds with
  | [] => mret tt
  | fd :: fds =>
      w ← get;
      match reactor (sproc w) with
      | Some r =>
          match event_table r !! fd with
          | Some (_, e) =>
              modify (set_reactor (Some (set_table (delete fd (event_table r)) r)));;
              release (eh_handler e)
          | None => mret tt
          end;;
          clear_table fds
      | None => mret tt
      end
  end.

(** [~Reactor()]: its body, then the table; [order] is the order of a
    [std::unordered_map], which the language leaves open. *)
Definition destroy_reactor (order : gmap Z (Z * EventHandle) -> list Z) : M Server unit :=
  w ← get;
  match reactor (sproc w) with
  | Some r =>
      close_fd (_epoll r);;
      clear_table (order (event_table r));;
      modify (set_reactor None)
  | None => mret tt
  end.

(** [buffer_is_runtime] says whether Ceph's [buffer::error], which is not part of the
    repository, derives from [std::runtime_error]. *)
Definition caught_by_main (buffer_is_runtime : bool) (e : exn) : bool :=
  match e with runtime_error _ => true | buffer_error => buffer_is_runtime end.

(** [main]; [None] when it is still running after [rounds] calls of [handle_events]. *)
Definition server_main (buffer_is_runtime : bool) order (dead : Reactor) (fuel rounds : nat)
    (addr port : bytes) : M Server (option Z) :=
  let caught := caught_by_main buffer_is_runtime in
  try_catch
    (r ← Reactor_ctor;
     modify (set_reactor (Some r));;
     scoped caught
       (fd ← indeterminate "_fd";
        modify (with_acceptor (AcceptorHandler_init fd addr port));;
        on_acceptor (AcceptorHandler_ctor addr port);;
        scoped caught
          (ret ← AcceptorHandler_register_self;
           if negb (ret =? 0) then mret (Some ret) else
           server_rounds dead fuel rounds;;
           mret None)
          (w ← get; release (acceptor_ptr w)))
       (destroy_reactor order))
    (fun e => if caught e then mret (Some 0) else throw e).

(** The whole program.  A null address reaches the constructor of the acceptor, which makes
    a string of it, after the reactor has been made. *)
Definition server_program (buffer_is_runtime : bool) order (dead : Reactor) (fuel rounds : nat)
    (argv : list bytes) : M Server (option Z) :=
  configure_logging;;
  addr ← argument argv 1;
  port ← argument argv 2;
  match addr, port with
  | Some addr, Some port => server_main buffer_is_runtime order dead fuel rounds addr port
  | _, _ =>
      try_catch (Reactor_ctor;; fail_with NullDereference)
        (fun e => if caught_by_main buffer_is_runtime e then mret (Some 0) else throw e)
  end.
End Operations.

(** ** The invariant of the teardown *)

(** The owners of the peer: the acceptor, if it is still alive, and the handlers. *)
Definition owners (acc : bool) (w : Server) : nat :=
  ((if acc then 1 else 0) + base.size (handlers w))%nat.

Definition held_by (acc : bool) (w : Server) : gmultiset res :=
  (if acc then {[+ REp (_ep (acceptor w)) +]} else ∅) ⊎
  (if (owners acc w =? 0)%nat then ∅ else {[+ RPeer (_peer (acceptor w)) +]}).

(** [acc] says whether the acceptor is alive.  Everything that is alive is in the
    table, but for the objects in [D]. *)
Record closing (D : gset Z) (acc : bool) (L : gmultiset res) (w : Server) (r : Reactor) (t : trace)
    : Prop := {
  cl_reactor : reactor (sproc w) = Some r;
  cl_acceptor : _peer (acceptor w) <> NULL /\ _ep (acceptor w) <> NULL;
  cl_heap : heap_ok (heap (sproc w));
  cl_addresses h s : handlers w !! h = Some s -> h <> acceptor_ptr w;
  cl_handlers h s : handlers w !! h = Some s ->
    handler_ok (_peer (acceptor w)) (heap (sproc w)) t s;
  cl_apart h h' s s' : handlers w !! h = Some s -> handlers w !! h' = Some s' -> h <> h' ->
    conn_of s <> conn_of s' /\ table_of s ## table_of s';
  cl_peers : peers (sproc w) =
    if (owners acc w =? 0)%nat then ∅ else {[_peer (acceptor w) := owners acc w]};
  cl_entries fd n e : event_table r !! fd = Some (n, e) ->
    acc = true /\ eh_handler e = acceptor_ptr w \/ is_Some (handlers w !! eh_handler e);
  cl_acceptor_ref : acc = true -> acceptor_ptr w ∉ D -> ~ unreferenced (acceptor_ptr w) r;
  cl_handlers_ref h s : handlers w !! h = Some s -> h ∉ D -> ~ unreferenced h r;
  cl_ledger : ledger t = Some (L ⊎ held_by acc w ⊎ owned_all (handlers w))
}.

(** ** Lemmas *)

(** A serving process that has to go. *)
Lemma serving_closing w r t :
  world_inv w r t -> registered_but ∅ w r -> closing ∅ true {[+ REpoll (_epoll r) +]} w r t.
Proof.
  intros [W1 W2 W3 W4 W5 W6 W7 W8 W9 W10 W11 W12 W13] [[n Ha] Hreg]. split; try done.
  - intros h s Hs ->. specialize (W8 _ _ Hs). lia.
  - intros fd m e He. destruct (W12 _ _ _ He) as [(? & _)|(s & Hs & _)]; [by left | right; by eexists].
  - intros _ _ Hu. by apply (Hu _ _ _ Ha).
  - intros h s Hs HD Hu. destruct (Hreg h s Hs HD) as [m Hm]. by apply (Hu _ _ _ Hm).
  - rewrite W13. unfold held, held_by. simpl. f_equal. multiset_solver.
Qed.

(** An entry of the table goes; its object may now be without a reference. *)
Lemma closing_erase acc L w r t fd n e :
  closing ∅ acc L w r t -> event_table r !! fd = Some (n, e) ->
  let r' := set_table (delete fd (event_table r)) r in
  closing {[eh_handler e]} acc L (set_reactor (Some r') w) r' t.
Proof.
  intros [C1 C2 C3 C4 C5 C6 C7 C8 C9 C10 C11] He r'.
  assert (Href : forall h, h ∉ ({[eh_handler e]} : gset Z) -> ~ unreferenced h r -> ~ unreferenced h r').
  { intros h Hh Hr Hu. apply Hr. intros fd' n' e' He' Heq. destruct (decide (fd' = fd)) as [->|Hne].
    - rewrite He in He'. injection He' as <- <-. set_solver.
    - by apply (Hu fd' n' e'); [simpl; rewrite lookup_delete_ne|]. }
  split; simpl; try done.
  - intros fd' n' e' [_ ?]%lookup_delete_Some. eauto.
  - intros Hacc HD. apply Href; [done|]. apply C9; [done | set_solver].
  - intros h s Hs HD. apply Href; [done|]. eapply C10; [done | set_solver].
Qed.

(** What is in [D] and has a reference need not be there. *)
Lemma closing_kept h acc L w r t :
  closing {[h]} acc L w r t -> referenced h w = true -> closing ∅ acc L w r t.
Proof.
  intros [C1 C2 C3 C4 C5 C6 C7 C8 C9 C10 C11] Href.
  assert (Hh : ~ unreferenced h r).
  { intros Hu. by rewrite (unreferenced_spec _ _ _ C1 Hu) in Href. }
  split; try done.
  - intros Hacc _. destruct (decide (acceptor_ptr w = h)) as [->|]; [done | apply C9; set_solver].
  - intros h' s Hs _. destruct (decide (h' = h)) as [->|]; [done | eapply C10; set_solver].
Qed.

(** The peer loses one of its [S k] owners. *)
Definition peers_of (peer : Z) (k : nat) : gmap Z nat := if (k =? 0)%nat then ∅ else {[peer := k]}.

Lemma peers_of_drop peer k :
  peer <> NULL -> drop_owner (peers_of peer (S k)) peer = peers_of peer k.
Proof.
  intros Hp. unfold drop_owner, peers_of. simpl.
  rewrite (proj2 (Z.eqb_neq _ _) Hp), lookup_singleton_eq.
  destruct k; simpl; [apply delete_singleton_eq | apply insert_singleton_eq].
Qed.

Lemma peers_of_last peer k :
  peer <> NULL ->
  last_owner (peers_of peer (S k)) peer = if (k =? 0)%nat then {[+ RPeer peer +]} else ∅.
Proof.
  intros Hp. unfold last_owner, peers_of. simpl. rewrite lookup_singleton_eq. destruct k; simpl.
  - by rewrite bool_decide_eq_true_2.
  - rewrite bool_decide_eq_false_2; [done|]. intros [_ [=]].
Qed.

Section Teardown.
Context {O : Oracle}.

Lemma wp_release_handler h s acc L w r t :
  closing {[h]} acc L w r t -> handlers w !! h = Some s ->
  wp (drop_pointer h) (returns (fun _ w' t' => closing ∅ acc L w' r t')) w t.
Proof.
  intros Hcl Hs. unfold drop_pointer. do 2 wp_step. destruct (referenced h w) eqn:Href.
  { wp_step. simpl. by eapply closing_kept. }
  pose proof Hcl as [C1 C2 C3 C4 C5 C6 C7 C8 C9 C10 C11].
  pose proof (referenced_spec _ _ _ C1 Href) as Hu. set (p := _peer (acceptor w)) in *.
  assert (Hsz : base.size (handlers w) = S (base.size (delete h (handlers w)))).
  { rewrite map_size_delete_Some by (by eexists). destruct (base.size (handlers w)) eqn:E0; [|done].
    apply map_size_empty_inv in E0. by rewrite E0, lookup_empty in Hs. }
  set (k := ((if acc then 1 else 0) + base.size (delete h (handlers w)))%nat).
  assert (Hk : owners acc w = S k) by (unfold owners, k; rewrite Hsz; lia).
  rewrite Hk in C7. change (peers (sproc w) = peers_of p (S k)) in C7.
  unfold held_by in C11. rewrite Hk in C11. simpl in C11.
  apply wp_bind. eapply wp_on_object; [done|].
  set (L' := L ⊎ ((if acc then {[+ REp (_ep (acceptor w)) +]} else ∅) ⊎
    (if (k =? 0)%nat then ∅ else {[+ RPeer p +]})) ⊎ owned_all (delete h (handlers w))).
  eapply wp_mono; [apply (wp_destroy_handler L' p k); [by eapply C5 | by rewrite C7; apply lookup_singleton_eq|]|].
  { rewrite C7, peers_of_last, C11, (owned_all_delete h s) by (done || apply C2). fold p. unfold L'.
    f_equal. destruct (k =? 0)%nat; multiset_solver. }
  intros [[]| |] x' t'; simpl; [|done..]. intros [Hd HL]. wp_step. simpl.
  rewrite delete_insert_eq. pose proof Hd as [D1 D2 D3 D4 D5 D6].
  split; simpl; try done.
  - by rewrite D1.
  - eapply destroyed_heap; [exact Hd | done].
  - intros h' s' [_ ?]%lookup_delete_Some. eauto.
  - exact (handlers_destroyed _ _ _ _ _ _ _ _ C5 C6 Hs C3 Hd).
  - intros h1 h2 s1 s2 [_ ?]%lookup_delete_Some [_ ?]%lookup_delete_Some. eauto.
  - rewrite D2, (ho_peer _ _ _ _ (C5 h s Hs)). fold p. rewrite C7. by apply peers_of_drop, C2.
  - intros fd n e He. destruct (C8 _ _ _ He) as [?|[s' Hs']]; [by left | right].
    rewrite lookup_delete_ne; [by eexists|]. intros Heq. by apply (Hu _ _ _ He).
  - intros Hacc _ Hu'. destruct (decide (acceptor_ptr w = h)) as [Heq|Hne].
    + by apply (C4 h s Hs).
    + apply C9; [done | set_solver | done].
  - intros h' s' [Hne Hs']%lookup_delete_Some _. eapply C10; [done | set_solver].
Qed.

Lemma wp_release_acceptor L w r t :
  closing {[acceptor_ptr w]} true L w r t ->
  wp (release (acceptor_ptr w)) (returns (fun _ w' t' => exists acc, closing ∅ acc L w' r t')) w t.
Proof.
  intros Hcl. unfold release. do 2 wp_step. rewrite Z.eqb_refl.
  destruct (referenced (acceptor_ptr w) w) eqn:Href.
  { wp_step. exists true. by eapply closing_kept. }
  pose proof Hcl as [C1 C2 C3 C4 C5 C6 C7 C8 C9 C10 C11].
  pose proof (referenced_spec _ _ _ C1 Href) as Hu. set (p := _peer (acceptor w)) in *.
  set (k := base.size (handlers w)). change (owners true w) with (S k) in C7.
  change (peers (sproc w) = peers_of p (S k)) in C7.
  unfold held_by in C11. change (owners true w) with (S k) in C11. simpl in C11. fold p in C11.
  set (L' := L ⊎ (if (k =? 0)%nat then ∅ else {[+ RPeer p +]}) ⊎ owned_all (handlers w)).
  apply wp_zoom. simpl. set (x := {| this := acceptor_ptr w |}).
  eapply wp_mono; [apply wp_and; [apply (wp_acceptor_end x t L') | apply (acceptor_end_fds x t)]|].
  - intros _. simpl. fold p. rewrite C7. exists k. apply lookup_singleton_eq.
  - simpl. fold p. rewrite C7, peers_of_last, C11 by apply C2. unfold L', owned_ep.
    rewrite (proj2 (Z.eqb_neq _ _) (proj2 C2)). f_equal. destruct (k =? 0)%nat; multiset_solver.
  - intros [[]| |] x' t'; simpl; [|by intros [[] _]..]. intros ((HL & ->) & Hq & Hf).
    exists false. split; simpl; try done.
    + intros h s Hs. eapply handler_ok_frame; [by eapply C5 | done | done |
        by apply quiet_outstanding | by eapply extends_prefix |].
      intros fd u Hfd Hs'. apply Hf; [done|]. by destruct Hs' as [-> | ->].
    + fold p. rewrite C7. by apply peers_of_drop, C2.
    + intros fd n e He. destruct (C8 _ _ _ He) as [[_ Heq]|?]; [|by right].
      by destruct (Hu _ _ _ He).
    + intros h s Hs _. eapply C10; [done|]. intros Hin%elem_of_singleton. by eapply C4.
    + rewrite HL. unfold L', held_by. simpl. change (owners false _) with k. f_equal. multiset_solver.
Qed.

(** The whole table. *)
Lemma wp_clear_table fds acc L w r t :
  closing ∅ acc L w r t -> (forall fd, is_Some (event_table r !! fd) -> fd ∈ fds) ->
  wp (clear_table fds) (returns (fun _ w' t' => exists acc' r', closing ∅ acc' L w' r' t' /\
    event_table r' = ∅)) w t.
Proof.
  revert acc w r t. induction fds as [|fd fds IH]; intros acc w r t Hcl Hcov; simpl.
  { wp_step. exists acc, r. split; [done|]. apply map_empty. intros fd.
    destruct (event_table r !! fd) eqn:E0; [|done]. specialize (Hcov fd). rewrite E0 in Hcov.
    by destruct (not_elem_of_nil fd); apply Hcov. }
  do 2 wp_step. rewrite (cl_reactor _ _ _ _ _ _ Hcl).
  destruct (event_table r !! fd) as [[n e]|] eqn:He.
  2: { do 2 wp_step. eapply IH; [done|]. intros fd' Hfd'. specialize (Hcov fd' Hfd').
       apply elem_of_cons in Hcov as [->|]; [|done]. rewrite He in Hfd'. by destruct Hfd'. }
  pose proof (closing_erase _ _ _ _ _ _ _ _ Hcl He) as Hcl1. simpl in Hcl1.
  set (r1 := set_table _ r) in *. apply wp_bind. do 2 wp_step.
  assert (Hcov1 : forall fd', is_Some (event_table r1 !! fd') -> fd' ∈ fds).
  { intros fd' [x Hx]. simpl in Hx. apply lookup_delete_Some in Hx as [Hne Hx].
    specialize (Hcov fd' ltac:(by eexists)). apply elem_of_cons in Hcov as [->|]; done. }
  assert (Hrel : wp (release (eh_handler e)) (returns (fun _ w' t' => exists acc',
    closing ∅ acc' L w' r1 t')) (set_reactor (Some r1) w) t).
  { destruct (cl_entries _ _ _ _ _ _ Hcl _ _ _ He) as [[-> Heq]|[s Hs]].
    - rewrite Heq in Hcl1 |- *. by apply (wp_release_acceptor L (set_reactor (Some r1) w)).
    - unfold release. do 2 wp_step.
      rewrite (proj2 (Z.eqb_neq _ _) (cl_addresses _ _ _ _ _ _ Hcl1 _ _ Hs)).
      eapply wp_mono; [by eapply (wp_release_handler _ s acc L)|].
      intros [[]| |] w' t'; simpl; [|done..]. intros ?. by exists acc. }
  eapply wp_mono; [exact Hrel|]. intros [[]| |] w' t'; simpl; [|done..]. intros [acc' Hcl']. by eapply IH.
Qed.

(** The unordered map hands out all its entries. *)
Definition visits_all (order : gmap Z (Z * EventHandle) -> list Z) : Prop :=
  forall m fd, is_Some (m !! fd) -> fd ∈ order m.

(** Nothing is left. *)
Lemma closing_empty acc L w r t :
  closing ∅ acc L w r t -> event_table r = ∅ -> handlers w = ∅ /\ ledger t = Some L.
Proof.
  intros [C1 C2 C3 C4 C5 C6 C7 C8 C9 C10 C11] Ht.
  assert (Hu : forall h, unreferenced h r).
  { intros h fd n e. by rewrite Ht, lookup_empty. }
  assert (Hh : handlers w = ∅).
  { apply map_empty. intros h. destruct (handlers w !! h) as [s|] eqn:Hs; [|done].
    by destruct (C10 h s Hs). }
  split; [done|]. destruct acc; [by destruct C9|]. rewrite C11, Hh. unfold held_by, owners.
  rewrite Hh. f_equal. unfold owned_all. simpl. rewrite map_fold_empty. multiset_solver.
Qed.

Lemma wp_destroy_reactor order acc w r t :
  visits_all order -> closing ∅ acc {[+ REpoll (_epoll r) +]} w r t ->
  wp (destroy_reactor order) (returns (fun _ w' t' => handlers w' = ∅ /\ ledger t' = Some ∅)) w t.
Proof.
  intros Hord Hcl. unfold destroy_reactor, close_fd. do 2 wp_step.
  rewrite (cl_reactor _ _ _ _ _ _ Hcl). do 2 wp_step. apply wp_bind.
  eapply wp_mono; [apply (wp_clear_table _ acc ∅ w r); [|apply Hord]|].
  - pose proof Hcl as [C1 C2 C3 C4 C5 C6 C7 C8 C9 C10 C11]. split; try done.
    + intros h s Hs. eapply handler_ok_frame; [by eapply C5 | done | done | | by eexists |].
      * by apply outstanding_other.
      * by rewrite fds_snoc.
    + eapply ledger_release; [|done|done|done]. rewrite C11. f_equal. multiset_solver.
  - intros [[]| |] w' t'; simpl; [|done..]. intros (acc' & r' & Hcl' & Ht). wp_step. simpl.
    by apply (closing_empty _ _ _ _ _ Hcl').
Qed.
End Teardown.

(** ** Start *)

Lemma wp_scoped {S A} (caught : exn -> bool) (m : M S (option A)) (d : M S unit)
    (Q : outcome (option A) -> S -> trace -> Prop) s t :
  wp m (fun o s' t' =>
    match o with
    | Ret (Some a) => wp d (returns (fun _ => Q (Ret (Some a)))) s' t'
    | Throw e => if caught e then wp d (returns (fun _ => Q (Throw e))) s' t' else Q (Throw e) s' t'
    | o => Q o s' t'
    end) s t ->
  wp (scoped caught m d) Q s t.
Proof.
  unfold wp, scoped. destruct (m s t) as [[[[a|]|e|f] s'] t']; [|done| |done].
  - unfold mbind, M_bind. by destruct (d s' t') as [[[u| |] s''] t''].
  - destruct (caught e); [|done]. unfold mbind, M_bind. by destruct (d s' t') as [[[u| |] s''] t''].
Qed.

Section Start.
Context {O : Oracle} {ED : EpollDocumented O} {RD : RpmaDocumented O}.

(** The process in which only the reactor exists. *)
Definition reactor_only (ep : Z) (w : Server) (t : trace) : Prop :=
  reactor (sproc w) = Some (new_reactor ep) /\ handlers w = ∅ /\
  ledger t = Some {[+ REpoll ep +]}.

Lemma wp_make_acceptor ep addr port fd t :
  let w := with_acceptor (AcceptorHandler_init fd addr port)
             (set_reactor (Some (new_reactor ep)) new_server) in
  ledger t = Some {[+ REpoll ep +]} -> interest ep t = ∅ -> outstanding (QConn NULL) t = ∅ ->
  wp (on_acceptor (AcceptorHandler_ctor addr port)) (fun o w' t' =>
    match o with
    | Ret _ => world_inv w' (new_reactor ep) t' /\ handlers w' = ∅
    | Throw e => reactor_only ep w' t' /\ exists what, e = runtime_error what
    | Faulted _ => False
    end) w t.
Proof.
  intros w HL Hint Hq. apply wp_zoom. simpl. set (x := {| this := 1 |}).
  eapply wp_mono.
  { apply wp_and; [by apply (wp_AcceptorHandler_ctor addr port fd x t {[+ REpoll ep +]})|].
    apply wp_and; [apply AcceptorHandler_ctor_listens | apply quiet_AcceptorHandler_ctor]. }
  intros [[]|e|f] x' t' (Ho & (Hr & Hh & Hf) & Hc); [| |done].
  2: { destruct Ho as [HL' _]. split; [|done]. by split_and!. }
  destruct Ho as (HL' & Hp & Hep & Hpe). split; [|done]. split; simpl; try done.
  - apply new_reactor_inv. by rewrite (quiet_interest _ _ _ Hc).
  - rewrite Hh. split; [done|]. intros p [o Ho]. simpl in Ho.
    by rewrite lookup_empty in Ho.
  - by rewrite (quiet_outstanding _ _ _ Hc).
  - rewrite Hpe. unfold acceptor_peers. by rewrite (proj2 (Z.eqb_neq _ _) Hp).
  - rewrite HL'. unfold owned_acceptor, owned_ep, held, owned_all. simpl.
    rewrite (proj2 (Z.eqb_neq _ _) Hp), (proj2 (Z.eqb_neq _ _) Hep), map_fold_empty.
    f_equal. multiset_solver.
Qed.

Lemma wp_acc_on_reactor m r Q w t :
  let me := HandlerPtr (acceptor_ptr w) (AcceptorHandler_get_handle (acceptor w)) in
  reactor (sproc w) = Some r ->
  wp (m me) (fun o r' t' => Q o (set_reactor (Some r') w) t') r t ->
  wp (acc_on_reactor m) Q w t.
Proof.
  intros me Hr Hm. unfold wp, acc_on_reactor in *. rewrite Hr. fold me.
  by destruct (m me r t) as [[? ?] ?].
Qed.

Lemma wp_acceptor_register ep w t :
  world_inv w (new_reactor ep) t -> handlers w = ∅ ->
  wp AcceptorHandler_register_self (returns (fun ret w' t' => exists r',
    world_inv w' r' t' /\ _epoll r' = ep /\ handlers w' = ∅ /\
    if ret =? 0 then registered_but ∅ w' r' else event_table r' = ∅)) w t.
Proof.
  intros Hw Hh. set (r := new_reactor ep) in *. eapply wp_acc_on_reactor; [apply Hw|]. cbn beta.
  set (me := HandlerPtr _ _). eapply wp_mono.
  { apply wp_and; [apply (wp_register_handler me ACCEPT_EVENT r t (wi_table _ _ _ Hw)); apply lookup_empty|].
    by apply (register_handler_epoll (_epoll r)). }
  intros [ret| |] r' t'; simpl; [|by intros [[] _]..]. intros ((Hi & He & Hcase) & _ & Hx). exists r'.
  destruct Hcase as [(-> & _ & Ht & _)|(Hret & Ht & _)].
  - split_and!; [|done|done|].
    + eapply world_inv_reactor; [done..|]. intros fd n e. rewrite Ht.
      intros [[<- [= _ <-]]|[_ Hn]]%lookup_insert_Some; [by left | by rewrite lookup_empty in Hn].
    + split; simpl; [exists 1; rewrite Ht; apply lookup_insert_eq|].
      intros h s. by rewrite Hh, lookup_empty.
  - rewrite (proj2 (Z.eqb_neq _ _) Hret). split_and!; try done.
    eapply world_inv_reactor; [done..|]. intros fd n e. rewrite Ht. by rewrite lookup_empty.
Qed.

(** Nothing was ever in the table. *)
Lemma wp_clear_nothing fds r w t :
  reactor (sproc w) = Some r -> event_table r = ∅ ->
  wp (clear_table fds) (returns (fun _ w' t' => w' = w /\ t' = t)) w t.
Proof.
  intros Hr Ht. induction fds as [|fd fds IH]; simpl; [by wp_step|].
  do 2 wp_step. rewrite Hr, Ht, lookup_empty. by do 2 wp_step.
Qed.

Lemma wp_destroy_reactor_only order ep w t :
  reactor_only ep w t ->
  wp (destroy_reactor order) (returns (fun _ w' t' => handlers w' = ∅ /\ ledger t' = Some ∅)) w t.
Proof.
  intros (Hr & Hh & HL). unfold destroy_reactor, close_fd. do 2 wp_step. rewrite Hr. do 2 wp_step.
  apply wp_bind. eapply wp_mono; [by eapply wp_clear_nothing|].
  intros [[]| |] w' t'; simpl; [|done..]. intros [-> ->]. wp_step. simpl. split; [done|].
  eapply ledger_release; [|done..]. rewrite HL. f_equal. multiset_solver.
Qed.
End Start.

(** ** The program *)

Section Main.
Context {O : Oracle} {ED : EpollDocumented O} {RD : RpmaDocumented O} {FD : FdsDocumented O}
        {CF : ConnectionsFresh O} {DD : DescriptorsDocumented O} {CD : CompletionDocumented O}
        {E : CephEncoding} {EL : CephEncodingLaws E} {N : Wire}.
Variables (J : Server -> trace -> Prop) (caught : exn -> bool).
Hypotheses (HJ : loop_invariant J) (Hstart : forall w t, handlers w = ∅ -> J w t).
Hypothesis Hruntime : forall what, caught (runtime_error what) = true.

(** Only the reactor's own scope is left. *)
Definition to_close (w : Server) (t : trace) : Prop :=
  exists acc r, closing ∅ acc {[+ REpoll (_epoll r) +]} w r t.

Lemma closing_local D acc L w r t : closing ∅ acc L w r t -> closing D acc L w r t.
Proof.
  intros [C1 C2 C3 C4 C5 C6 C7 C8 C9 C10 C11]. split; try done.
  - intros Hacc _. apply C9; [done | set_solver].
  - intros h s Hs _. eapply C10; [done | set_solver].
Qed.

Lemma wp_end_scope w r t :
  closing {[acceptor_ptr w]} true {[+ REpoll (_epoll r) +]} w r t ->
  wp (w ← get; release (acceptor_ptr w)) (returns (fun _ => to_close)) w t.
Proof.
  intros Hcl. do 2 wp_step. eapply wp_mono; [by apply wp_release_acceptor|].
  intros [[]| |] w' t'; simpl; [|done..]. intros [acc ?]. by exists acc, r.
Qed.

(** A registered acceptor that never became part of the table. *)
Lemma unregistered_closing w r t :
  world_inv w r t -> handlers w = ∅ -> event_table r = ∅ ->
  closing {[acceptor_ptr w]} true {[+ REpoll (_epoll r) +]} w r t.
Proof.
  intros [W1 W2 W3 W4 W5 W6 W7 W8 W9 W10 W11 W12 W13] Hh Ht. split; try done.
  - intros h s. by rewrite Hh, lookup_empty.
  - intros fd m e. by rewrite Ht, lookup_empty.
  - intros _ Hne. set_solver.
  - intros h s. by rewrite Hh, lookup_empty.
  - rewrite W13. unfold held, held_by. simpl. f_equal. multiset_solver.
Qed.

Lemma wp_serve dead fuel rounds ep w t :
  world_inv w (new_reactor ep) t -> handlers w = ∅ ->
  wp (scoped caught
        (ret ← AcceptorHandler_register_self;
         if negb (ret =? 0) then mret (Some ret) else
         server_rounds dead fuel rounds;; mret None)
        (w ← get; release (acceptor_ptr w)))
    (fun o w' t' =>
      match o with
      | Ret None => serving w' t' /\ J w' t'
      | Ret (Some _) => to_close w' t'
      | Throw e => if caught e then to_close w' t' else serving w' t'
      | Faulted _ => False
      end) w t.
Proof.
  intros Hw Hh. apply wp_scoped, wp_bind. eapply wp_mono; [by apply (wp_acceptor_register ep)|].
  intros [ret| |] w1 t1; simpl; [|done..]. intros (r1 & Hw1 & _ & Hh1 & Hret).
  destruct (ret =? 0) eqn:E0; simpl.
  2: { wp_step. eapply wp_mono; [by eapply wp_end_scope, unregistered_closing|].
       by intros [[]| |]. }
  apply wp_bind. eapply wp_mono; [apply (wp_server_rounds J); [done | by exists r1 | by apply Hstart]|].
  intros [[]|e|f] w2 t2 (Hsv & Hnf & Hst); [by wp_step| |by destruct (Hnf f)].
  destruct (caught e); [|done]. destruct Hsv as (r2 & Hw2 & Hreg2).
  eapply wp_mono; [by eapply wp_end_scope, closing_local, serving_closing|]. by intros [[]| |].
Qed.

Context (order : gmap Z (Z * EventHandle) -> list Z) (Hord : visits_all order).

Lemma wp_whole_reactor dead fuel rounds addr port ep t :
  ledger t = Some {[+ REpoll ep +]} -> interest ep t = ∅ -> outstanding (QConn NULL) t = ∅ ->
  wp (scoped caught
       (fd ← indeterminate "_fd";
        modify (with_acceptor (AcceptorHandler_init fd addr port));;
        on_acceptor (AcceptorHandler_ctor addr port);;
        scoped caught
          (ret ← AcceptorHandler_register_self;
           if negb (ret =? 0) then mret (Some ret) else
           server_rounds dead fuel rounds;; mret None)
          (w ← get; release (acceptor_ptr w)))
       (destroy_reactor order))
    (fun o w' t' =>
      match o with
      | Ret None => serving w' t' /\ J w' t'
      | Ret (Some _) => handlers w' = ∅ /\ ledger t' = Some ∅
      | Throw e => if caught e then handlers w' = ∅ /\ ledger t' = Some ∅
                   else serving w' t'
      | Faulted _ => False
      end) (set_reactor (Some (new_reactor ep)) new_server) t.
Proof.
  intros HL Hi Hq. apply wp_scoped. unfold indeterminate. do 4 wp_step. apply wp_bind.
  eapply wp_mono.
  { apply wp_make_acceptor; [by apply ledger_neutral | by rewrite interest_other |
      by rewrite outstanding_other]. }
  assert (Hend : forall (Q : Server -> trace -> Prop) w t, to_close w t ->
    (forall w' t', handlers w' = ∅ -> ledger t' = Some ∅ -> Q w' t') ->
    wp (destroy_reactor order) (returns (fun _ => Q)) w t).
  { intros Q w' t' (acc & r & Hcl) HQ. eapply wp_mono; [by eapply wp_destroy_reactor|].
    intros [[]| |] w2 t2; simpl; [|done..]. intros [? ?]. auto. }
  intros [[]|e|f] w1 t1 H1; [| |done].
  - destruct H1 as [Hw1 Hh1]. eapply wp_mono; [by apply (wp_serve dead fuel rounds ep)|].
    intros [[ret|]|e|f] w2 t2 H2; [by apply Hend | done | | done].
    destruct (caught e); [by apply Hend | done].
  - destruct H1 as [H1 [what ->]]. rewrite Hruntime. eapply wp_mono; [by eapply wp_destroy_reactor_only|].
    by intros [[]| |].
Qed.

(** The program from its start: [J] holds of every state of its loop. *)
Lemma wp_server_program buffer_is_runtime dead fuel rounds prog addr port rest :
  caught = caught_by_main buffer_is_runtime ->
  wp (server_program buffer_is_runtime order dead fuel rounds (prog :: addr :: port :: rest)) (fun o w' t' =>
    match o with
    | Ret None => serving w' t' /\ J w' t'
    | Ret (Some _) => handlers w' = ∅ /\ ledger t' = Some ∅
    | Throw e => e = buffer_error /\ buffer_is_runtime = false /\ serving w' t'
    | Faulted _ => False
    end) new_server [].
Proof.
  intros Hcaught. unfold server_program. apply wp_bind, wp_configure_logging. intros l1 l2.
  do 2 (apply wp_bind; apply wp_ret). cbn beta iota. rewrite app_nil_l.
  unfold server_main, Reactor_ctor, epoll_create1. rewrite <-Hcaught.
  apply wp_try_catch. do 3 wp_step. destruct (a =? -1) eqn:Ha.
  { wp_step. rewrite Hruntime. wp_step. split; [done|].
    apply ledger_neutral; try done. simpl. by rewrite Ha. }
  do 3 wp_step. eapply wp_mono.
  { apply wp_whole_reactor; try done.
    rewrite (ledger_acquire (logged l1 l2) ∅ C_epoll_create1 a (REpoll a)); try done;
      [f_equal; multiset_solver|].
    simpl. by rewrite Ha. }
  intros [[ret|]|e|f] w' t' H'; [done | done | | done].
  destruct (caught e) eqn:He; [by wp_step|]. wp_step. rewrite Hcaught in He.
  destruct e as [|]; [done|]. by destruct buffer_is_runtime.
Qed.
End Main.

(** ** Properties *)

Section Properties.
Context {O : Oracle} {ED : EpollDocumented O} {RD : RpmaDocumented O} {FD : FdsDocumented O}
        {CF : ConnectionsFresh O} {DD : DescriptorsDocumented O} {CD : CompletionDocumented O}
        {E : CephEncoding} {EL : CephEncodingLaws E} {N : Wire}.


(** C40: the number of arguments is not checked: without an address and a port the program
    does not report an error but leaves the defined behaviour, reading behind the end
    of its arguments or making a string of a null pointer. *)
Theorem missing_arguments_fault buffer_is_runtime order dead fuel rounds argv :
  (length argv < 3)%nat ->
  (forall t, answer_of t C_epoll_create1 <> -1) ->
  wp (server_program buffer_is_runtime order dead fuel rounds argv) (fun o w' t' =>
    o = Faulted (if (length argv =? 2)%nat then NullDereference else OutOfBounds)) new_server [].
Proof.
  intros Hlen Hep. unfold server_program. apply wp_bind, wp_configure_logging. intros l1 l2.
  destruct argv as [|prog [|addr [|port rest]]]; simpl in Hlen; [| | |lia]; unfold argument; simpl.
  - apply wp_bind. by wp_step.
  - apply wp_bind. wp_step. apply wp_bind. by wp_step.
  - do 2 (apply wp_bind; wp_step). apply wp_try_catch, wp_bind. unfold Reactor_ctor, epoll_create1.
    do 2 wp_step. rewrite (proj2 (Z.eqb_neq _ _)) by (rewrite <-H; apply Hep). wp_step. by wp_step.
Qed.
End Properties.

(** ** Witnesses *)

Lemma missing_arguments_fault_witness :
  wp (server_program (O := host) (N := demo_wire) true (fun m => (map_to_list m).*1) (new_reactor 0) 3 1
        [str "./server"; str "10.0.0.1"])
    (fun o _ _ => o = Faulted NullDereference) new_server [].
Proof.
  refine (missing_arguments_fault (O := host) (N := demo_wire) true (fun m => (map_to_list m).*1)
    (new_reactor 0) 3 1 [str "./server"; str "10.0.0.1"] _ _).
  - simpl. lia.
  - intros t. unfold answer_of, sized_host, fresh. lia.
Defined.

Definition keys (m : gmap Z (Z * EventHandle)) : list Z := (map_to_list m).*1.

Lemma keys_visit_all : visits_all keys.
Proof.
  intros m fd [x Hx]. apply list_elem_of_fmap. exists (fd, x). split; [done|].
  by apply elem_of_map_to_list.
Qed.

(** The server on the concrete host, with three turns of the loop. *)
Definition demo_main : M Server (option Z) :=
  server_program (O := host) (N := demo_wire) true keys (new_reactor 0) 3 1
    [str "./server"; str "10.0.0.1"; str "7777"].


(** In that run a client connects, its request is served twice, and the session is
    open. *)
Example demo_main_runs :
  wp demo_main (fun o w' t' => o = Ret None /\ map_to_list (sessions w') = [(2, 1023)] /\
    sends t' = 2%nat) new_server [].
Proof. vm_compute. auto. Qed.
