(* ===== verification/ServerReplies.v ===== *)
(** * What the server's replies say

    A session's send buffer holds the last reply.  In every state of the server's loop, a
    buffer that reads as a reply of success describes the region that the session has
    registered now, over the whole of the replica it holds now. *)

From S2P Require Import Prelude Librpma Effects LibrpmaApi Posix Resources.
From S2P Require Import CephEncoding WireFormat Types MemoryManager Reactor RpmaOp Quiet.
From S2P Require Import Descriptors Host RpmaConn ConnectionHandler RPMAHandler Isolation.
From S2P Require Import Acceptance Registration AcceptorHandler ServerInv ServerLoop ServerMain.

(** ** Specification *)

(** The reply carries the descriptor that the library issued for the region the session
    holds, which it registered over its replica of [n] bytes. *)
Record describes (n : Z) (reply : RwlReplicaInitRequestReply) (s : RPMAHandler) (t : trace)
    : Prop := {
  ds_mr : data_mr s <> NULL;
  ds_mapped : _data (data_manager s) <> NULL;
  ds_size : _size (data_manager s) = n;
  ds_registered : exists peer, Ev (C_mr_reg peer (_data (data_manager s)) n
    (mr_usage RPMA_OP_FLUSH (_is_pmem (data_manager s)))) (0, data_mr s) ∈ t;
  ds_descriptor : exists d pd, Ev (C_mr_get_descriptor (data_mr s)) (0, d) ∈ t /\
    mr_desc_size (desc reply) = blen d /\ descriptors (desc reply) = d ++ pd
}.

Section Truth.
Context {E : CephEncoding}.

(** A mapped replica has [n] bytes, and a reply of success tells the truth about it. *)
Definition truthful (n : Z) (s : RPMAHandler) (t : trace) : Prop :=
  (_data (data_manager s) <> NULL -> _size (data_manager s) = n) /\
  forall reply r, RwlReplicaInitRequestReply_decode (bl_data (send_bl (rh_base s))) = Some (reply, r) ->
    reply_type reply = RWL_REPLICA_INIT_SUCCESSED -> describes n reply s t.

Definition all_truthful (n : Z) (w : Server) (t : trace) : Prop :=
  forall h s, handlers w !! h = Some s -> truthful n s t.

(** The contents of a fresh buffer, which nothing has set, do not read as a reply of
    success. *)
Definition blank_buffers (O : Oracle) : Prop :=
  forall t reply r, let size := Z.to_nat MSG_SIZE in
    RwlReplicaInitRequestReply_decode
      (take size ((answer_of t (C_bufferptr MSG_SIZE)).2 ++ replicate size x00)) = Some (reply, r) ->
    reply_type reply <> RWL_REPLICA_INIT_SUCCESSED.
End Truth.

(** ** Code that leaves the reply and the replica alone *)

Section Undisturbed.
Context {O : Oracle}.

Definition undisturbed {A} (m : M (Ctx RPMAHandler) A) : Prop :=
  forall x t, wp m (fun _ x' t' => same_replica (self x) (self x') /\ t `prefix_of` t') x t.

Lemma same_replica_refl s : same_replica s s.
Proof. by split. Qed.
Lemma same_replica_trans s1 s2 s3 : same_replica s1 s2 -> same_replica s2 s3 -> same_replica s1 s3.
Proof. intros [] []. split; congruence. Qed.

Lemma ud_pure {A} (m : M (Ctx RPMAHandler) A) :
  (forall x t, self (m x t).1.2 = self x /\ (m x t).2 = t) -> undisturbed m.
Proof.
  intros H x t. unfold wp. destruct (H x t) as [H1 H2]. destruct (m x t) as [[? ?] ?]. simpl in *.
  subst. rewrite H1. split; [apply same_replica_refl | done].
Qed.
Lemma ud_ext c : undisturbed (ext c).
Proof. intros x t. wp_step. split; [apply same_replica_refl | by eexists]. Qed.
Lemma ud_bind {A B} (m : M _ A) (k : A -> M _ B) :
  undisturbed m -> (forall a, undisturbed (k a)) -> undisturbed (m ≫= k).
Proof.
  intros Hm Hk x t. apply wp_bind. eapply wp_mono; [apply Hm|].
  intros [a| |] x' t' [H1 H2]; [|done..]. eapply wp_mono; [apply Hk|].
  intros o x'' t'' [H3 H4]. split; [by eapply same_replica_trans | by etrans].
Qed.
Lemma ud_on_throw {A} (m : M _ A) c : undisturbed m -> undisturbed c -> undisturbed (on_throw m c).
Proof.
  intros Hm Hc x t. apply wp_on_throw. eapply wp_mono; [apply Hm|].
  intros [|e|] x' t' [H1 H2]; [done| |done]. eapply wp_mono; [apply Hc|].
  intros [] x'' t'' [H3 H4]; (split; [by eapply same_replica_trans | by etrans]).
Qed.
Lemma ud_on_ch {A} (m : M ConnectionHandler A) :
  (forall c t, wp m (fun _ c' t' => send_bl c' = send_bl c /\ t `prefix_of` t') c t) ->
  undisturbed (on_ch m).
Proof.
  intros Hm x t. apply wp_on_ch. eapply wp_mono; [apply Hm|]. intros o c' t' [H1 H2].
  split; [|done]. split; [|done..]. simpl. by rewrite H1.
Qed.
Lemma ud_on_proc {A} (m : M Proc A) : calls (fun _ => true) m -> undisturbed (on_proc m).
Proof.
  intros Hm x t. apply wp_zoom. eapply wp_mono; [apply Hm|]. intros o p t' He.
  split; [apply same_replica_refl | exact (extends_prefix _ _ _ He)].
Qed.
Lemma ud_on_reactor d (m : M Reactor Z) : calls (fun _ => true) m -> undisturbed (on_reactor d m).
Proof.
  intros Hm x t. unfold wp, on_reactor. destruct (reactor (proc x)) as [r|]; [|by split; [apply same_replica_refl|]].
  specialize (Hm r t). unfold wp in Hm. destruct (m r t) as [[o r'] t'].
  split; [apply same_replica_refl | exact (extends_prefix _ _ _ Hm)].
Qed.
End Undisturbed.

(** [undisturb]: the code leaves the reply and the replica alone. *)
Ltac undisturb_step :=
  lazymatch goal with
  | |- undisturbed (_ ≫= _) => apply ud_bind; [|intros ?]
  | |- undisturbed (on_throw _ _) => apply ud_on_throw
  | |- undisturbed (ext _) => apply ud_ext
  | |- undisturbed (on_ch ?m) => apply ud_on_ch; intros ? ?; try (let f := head_of m in unfold f);
       unfold on_conn, RpmaConn_disconnect, RpmaConn_reset, rpma_conn_disconnect; wp_steps;
       (split; [done | by repeat apply prefix_app_r])
  | |- undisturbed (on_heap _) => apply ud_on_proc; footprint
  | |- undisturbed (on_proc _) => apply ud_on_proc; footprint
  | |- undisturbed (on_reactor _ _) => apply ud_on_reactor; footprint
  | |- undisturbed (mret _) => by apply ud_pure
  | |- undisturbed (throw _) => by apply ud_pure
  | |- undisturbed (fail_with _) => by apply ud_pure
  | |- undisturbed (gets _) => by apply ud_pure
  | |- undisturbed (if ?b then _ else _) => destruct b
  | |- undisturbed (let '(_, _) := ?x in _) => destruct x
  | |- undisturbed (match ?x with _ => _ end) => destruct x
  | |- undisturbed ?m => let f := head_of m in unfold f
  end; cbn beta iota.
Ltac undisturb := intros; repeat undisturb_step.

Section Undisturbed_methods.
Context {O : Oracle}.
Lemma ud_connection_event : undisturbed (handle_connection_event RPMAHandler_remove_self).
Proof. undisturb. Qed.
Lemma ud_register_self : undisturbed RPMAHandler_register_self.
Proof. undisturb. Qed.
Lemma ud_send cb : undisturbed (send cb).
Proof. undisturb. Qed.
Lemma ud_post_recv (cb : callback) : undisturbed (post_op RpmaRecv cb (fun rec =>
    c ← gets (fun x => ch_of (self x));
    RpmaRecv_call (conn (_conn c)) (recv_mr c) 0 MSG_SIZE rec)).
Proof. undisturb. Qed.
End Undisturbed_methods.

(** ** A session *)

Section Session.
Context {O : Oracle} {RD : RpmaDocumented O} {DD : DescriptorsDocumented O}
        {E : CephEncoding} {EL : CephEncodingLaws E}.
Variable n : Z.
Hypotheses (Hav : pcfg_available O) (Hmaps : maps_whole_files O n).

Lemma describes_prefix reply s t t' : t `prefix_of` t' -> describes n reply s t -> describes n reply s t'.
Proof.
  intros Hp [H1 H2 H3 [peer H4] (d & pd & H5 & H6)]. split; try done.
  - exists peer. by eapply elem_of_prefix.
  - exists d, pd. split; [by eapply elem_of_prefix | done].
Qed.

Lemma truthful_about_replica : about_replica (truthful n).
Proof.
  intros s s' t t' [H1 H2 H3] Hp [Hm Hh]. split; [by rewrite H2|]. intros reply r. rewrite H1.
  intros Hdec Hty. destruct (describes_prefix _ _ _ _ Hp (Hh _ _ Hdec Hty)) as [D1 D2 D3 D4 D5].
  split; by rewrite ?H2, ?H3.
Qed.

Lemma wp_undisturbed {A} (m : M (Ctx RPMAHandler) A) x t :
  undisturbed m -> truthful n (self x) t -> wp m (fun _ x' t' => truthful n (self x') t') x t.
Proof.
  intros Hm Ht. eapply wp_mono; [apply Hm|]. intros o x' t' [H1 H2].
  by eapply truthful_about_replica.
Qed.

(** A buffer that does not read as a success says nothing that could be wrong. *)
Definition says_nothing (s : RPMAHandler) : Prop :=
  forall reply r, RwlReplicaInitRequestReply_decode (bl_data (send_bl (rh_base s))) = Some (reply, r) ->
    reply_type reply <> RWL_REPLICA_INIT_SUCCESSED.

Lemma says_nothing_truthful s t :
  says_nothing s -> (_data (data_manager s) <> NULL -> _size (data_manager s) = n) -> truthful n s t.
Proof. intros Hs Hm. split; [done|]. intros reply r Hdec Hty. by destruct (Hs reply r Hdec). Qed.

(** Without a replica the buffer does not read as a success. *)
Lemma unmapped_says_nothing s t :
  truthful n s t -> _data (data_manager s) = NULL -> says_nothing s.
Proof. intros [_ Hh] Hnull reply r Hdec Hty. by destruct (Hh reply r Hdec Hty). Qed.

Lemma wp_register_truthful L x t :
  let s := self x in
  _data (data_manager s) <> NULL ->
  (ConnectionHandler._peer (rh_base s) <> NULL -> RPeer (ConnectionHandler._peer (rh_base s)) ∈ L) ->
  blen (bl_data (send_bl (rh_base s))) = MSG_SIZE ->
  ledger t = Some (L ⊎ owned_mr (data_mr s)) -> truthful n s t ->
  wp (register_mr_to_descriptor RPMA_OP_FLUSH) (fun _ x' t' => truthful n (self x') t') x t.
Proof.
  intros s Hmap Hpeer Hbuf HL Ht.
  assert (Hc : calls (fun _ => true) (register_mr_to_descriptor RPMA_OP_FLUSH)) by footprint.
  apply (wp_mono _ (fun o x' t' => (t `prefix_of` t' -> truthful n (self x') t') /\ extends (fun _ => true) t t')).
  2: { intros o x' t' [H He]. apply H. by eapply extends_prefix. }
  apply calls_wp; [done|]. apply (wp_register_mr _ x t L); try done.
  - intros ret t' _ _ Hp. eapply truthful_about_replica; [apply same_replica_refl | done..].
  - intros mr d pd pcfg t1 t2 t' Hmr _ _ Hfit HL' Hreg Hdesc bl _. fold s in Hreg.
    split; [apply Ht|]. intros reply r Hdec Hty. simpl in Hdec.
    unfold filled in Hdec. simpl in Hdec. unfold bl in Hdec. rewrite init_reply_of_decodes in Hdec by done.
    injection Hdec as <- _. rewrite (proj1 Ht) in Hreg by done.
    split; try done; [by apply Ht | by eexists | by exists d, pd].
Qed.

Lemma wp_write_request_truthful L x t :
  server_inv L x t -> requests_size n (self x) -> truthful n (self x) t ->
  wp get_descriptor_for_write (fun _ x' t' => truthful n (self x') t') x t.
Proof.
  intros Hinv Hreq Ht. set (s := self x) in *. unfold get_descriptor_for_write. do 2 wp_step. fold s.
  destruct (RwlReplicaInitRequest_decode _) as [[init r]|] eqn:Hdec; [|by wp_step].
  apply wp_bind, wp_manager_gets. apply wp_bind. fold s. pose proof (sv_ledger _ _ _ Hinv) as HL.
  assert (Hpeer : forall L', ConnectionHandler._peer (rh_base s) <> NULL -> RPeer (ConnectionHandler._peer (rh_base s)) ∈ L ⊎ L').
  { intros L' Hp. apply gmultiset_elem_of_disj_union. left. by apply (sv_peer _ _ _ Hinv). }
  apply wp_if; intros Hp; bools.
  - pose proof (unmapped_says_nothing _ _ Ht Hp) as Hno. apply wp_on_manager.
    set (L1 := L ⊎ (owned_ch (rh_base s) ⊎ owned_mr (data_mr s))).
    eapply wp_mono; [apply (wp_MemoryManager_init _ _ _ _ L1); [rewrite (Hreq _ _ Hdec); done | done|]|].
    { rewrite HL. unfold owned_server. fold s. rewrite (owned_null (data_manager s)) by done. f_equal.
      unfold L1. multiset_solver. }
    intros o dm t1 (Hsize & _ & HL1 & Ho). rewrite (Hreq _ _ Hdec) in Hsize.
    assert (Ht1 : truthful n (with_data_manager dm s) t1) by (by apply says_nothing_truthful).
    destruct o as [[]|e|f]; [|done..].
    apply (wp_register_truthful (L ⊎ (owned_ch (rh_base s) ⊎ owned dm))); try done.
    + apply Hpeer.
    + apply (sv_buffer _ _ _ Hinv).
    + simpl. rewrite HL1. f_equal. unfold L1. fold s. clear Hpeer. multiset_solver.
  - wp_step. apply (wp_register_truthful (L ⊎ (owned_ch (rh_base s) ⊎ owned (data_manager s)))); try done.
    + apply Hpeer.
    + apply (sv_buffer _ _ _ Hinv).
    + rewrite HL. unfold owned_server. fold s. f_equal. clear Hpeer. multiset_solver.
Qed.

(** A finished session: the replica is gone, and the buffer says so. *)
Lemma wp_close_and_remove_unmaps s t :
  wp close_and_remove (fun o s' _ => match o with Ret _ => _data s' = NULL | _ => True end) s t.
Proof.
  unfold close_and_remove, release_memory, pmem_unmap, free, remove.
  do 2 wp_step. apply wp_if; intros Hp; bools; [by wp_step|]. wp_steps; done.
Qed.

Lemma wp_close_truthful x t :
  wp close (fun o x' t' => match o with Ret _ => truthful n (self x') t' | _ => True end) x t.
Proof.
  unfold close. apply wp_bind. unfold reset_data_mr. do 2 wp_step. apply wp_bind, wp_zoom. wp_step.
  assert (Hdel : forall mr, undisturbed (mr_delete mr)) by undisturb.
  eapply wp_mono; [apply Hdel|]. intros [[]| |] x1 t1 _; [|done..]. clear x t.
  apply wp_bind, wp_on_manager. eapply wp_mono; [apply wp_close_and_remove_unmaps|].
  intros [failed| |] dm t2 Hdm; [|done..]. set (ty := if negb (failed =? 0) then _ else _).
  set (x2 := with_self _ x1). apply wp_bind, wp_on_ch. unfold fill_send_buffer.
  apply wp_bind, wp_assert; [intros _|done]. do 2 wp_step. apply wp_bind, wp_of_option.
  unfold memcpy_at. case_decide as Hfit; [|done]. wp_step. set (s3 := set_ch _ _). apply wp_bind.
  assert (H3 : truthful n s3 t2).
  { apply says_nothing_truthful; [|done]. intros reply r. simpl.
    intros Hdec Hty. apply init_reply_of_request in Hdec; [|unfold ty; by destruct (negb _)].
    rewrite Hdec in Hty. unfold ty in Hty. by destruct (negb _). }
  eapply wp_mono; [apply (wp_undisturbed (send no_callback) (with_self s3 x2) t2); [apply ud_send | done]|].
  intros [ret| |] x4 t4 H4; [by wp_step | done..].
Qed.

Lemma wp_deal_require_truthful L x t :
  requests_size n (self x) -> server_inv L x t -> truthful n (self x) t ->
  wp deal_require (fun o x' t' =>
    (server_inv L x' t' /\ grows x x' /\ forall f, o <> Faulted f) /\ truthful n (self x') t') x t.
Proof.
  intros Hreq Hinv Ht.
  apply (wp_mono _ (fun o x' t' => (server_inv L x' t' /\ grows x x' /\ forall f, o <> Faulted f) /\
    ((forall f, o <> Faulted f) -> truthful n (self x') t'))).
  2: { intros o x' t' [(Hi & Hg & Hnf) Hh]. auto. }
  apply wp_and; [by apply (wp_deal_require n)|]. unfold deal_require. apply wp_bind.
  apply (wp_mono _ (fun o x' t' => (forall f, o <> Faulted f) -> truthful n (self x') t')).
  - unfold get_descriptor. do 2 wp_step. destruct (RwlReplicaRequest_decode _) as [[request r]|]; [|by wp_step].
    apply wp_if; intros _.
    { eapply wp_mono; [by eapply wp_write_request_truthful|]. by intros. }
    apply wp_if; intros _; [|by wp_step].
    eapply wp_mono; [apply (wp_and _ _ _ _ _ (wp_close L x t Hinv) (wp_close_truthful x t))|].
    by intros [ret| |] x' t' [? ?].
  - intros [ret|e|f] x1 t1 H1; [|intros _; by apply H1|intros Hf; by destruct (Hf f)].
    specialize (H1 ltac:(done)).
    apply (wp_mono _ (fun _ x' t' => truthful n (self x') t')); [|done].
    apply wp_undisturbed; [|done]. apply ud_bind; [apply ud_post_recv|]. undisturb.
Qed.

Lemma wp_completion_truthful {CD : CompletionDocumented O} L x t :
  requests_size n (self x) -> server_inv L x t -> truthful n (self x) t ->
  wp (handle_completion RPMAHandler_run) (fun _ x' t' => truthful n (self x') t') x t.
Proof.
  intros Hreq Hinv Ht. eapply wp_mono; [apply (wp_server_completion_with (truthful n) n L); try done|].
  - apply truthful_about_replica.
  - apply wp_deal_require_truthful.
  - by intros o x' t' [_ H].
Qed.

Lemma wp_handle_truthful {CD : CompletionDocumented O} et L x t :
  requests_size n (self x) -> server_inv L x t -> truthful n (self x) t ->
  wp (RPMAHandler_handle et) (fun _ x' t' => truthful n (self x') t') x t.
Proof.
  intros Hreq Hinv Ht. unfold RPMAHandler_handle, ch_handle. destruct et; [by wp_step| |].
  - by apply wp_undisturbed; [apply ud_connection_event|].
  - by eapply wp_completion_truthful.
Qed.
End Session.

(** ** The process *)

Section Process.
Context {O : Oracle} {ED : EpollDocumented O} {RD : RpmaDocumented O} {FD : FdsDocumented O}
        {CF : ConnectionsFresh O} {DD : DescriptorsDocumented O} {CD : CompletionDocumented O}
        {E : CephEncoding} {EL : CephEncodingLaws E} {N : Wire}.
Variable n : Z.
Hypotheses (Hav : pcfg_available O) (Hmaps : maps_whole_files O n) (Hn : wire_requests n)
           (Hblank : blank_buffers O).

Lemma ud_init_conn_fd : undisturbed (on_ch init_conn_fd).
Proof.
  apply ud_on_ch. intros c t. unfold init_conn_fd, rpma_conn_get_event_fd, rpma_conn_get_completion_fd.
  wp_steps; (split; [done | by repeat apply prefix_app_r]).
Qed.

Lemma ud_accept_connection req : undisturbed (accept_connection req).
Proof.
  unfold accept_connection. apply ud_bind; [apply ud_ext|]. intros conn0.
  apply ud_bind; [undisturb|]. intros [[ret c] req']. destruct (negb _); [undisturb|].
  apply ud_bind; [undisturb | intros _; apply ud_init_conn_fd].
Qed.

(** The send buffer of a new handler. *)
Lemma wp_new_buffers x t :
  wp (on_ch init_send_recv_buffer) (fun o x' t' => match o with
    | Ret _ => data_manager (self x') = data_manager (self x) /\ says_nothing (self x')
    | _ => True
    end) x t.
Proof.
  apply wp_on_ch. unfold init_send_recv_buffer, new_bufferlist, rpma_mr_reg, mr_delete, rpma_mr_dereg.
  wp_steps; try done; (split; [done|]); intros reply r; simpl;
    match goal with
    | H : answer_of ?t (C_bufferptr MSG_SIZE) = (?a, ?raw) |- context [take _ (?raw ++ _)] =>
        pose proof (Hblank t reply r) as Hb; rewrite H in Hb; exact Hb
    end.
Qed.

(** The outcome of a constructor: if it returns, the object says nothing wrong. *)
Lemma wp_ctor_truthful peer ep conn_fd comp_fd size h p t :
  wp (RPMAHandler_ctor peer ep) (fun o x' t' => match o with
    | Ret _ => truthful n (self x') t' | _ => True end)
    {| this := h; self := RPMAHandler_init conn_fd comp_fd size; proc := p |} t.
Proof.
  set (x := {| this := h |}). unfold RPMAHandler_ctor. apply wp_on_throw.
  apply (wp_mono _ (fun o x' t' => match o with Ret _ => truthful n (self x') t' | _ => True end)).
  2: { intros [[]|e|f] x' t' H; [done| |done]. unfold wp.
       by destruct (RPMAHandler_dtor x' t') as [[[] ?] ?]. }
  assert (Hrest : forall (m : M (Ctx RPMAHandler) unit) y u, undisturbed m -> truthful n (self y) u ->
    wp m (fun o x' t' => match o with Ret _ => truthful n (self x') t' | _ => True end) y u).
  { intros m y u Hm Hy. eapply wp_mono; [by apply wp_undisturbed|]. by intros []. }
  unfold RPMAHandler_body, accept_request. apply wp_bind, wp_bind, wp_on_ch. wp_step.
  apply wp_bind, wp_zoom. unfold peer_share. wp_step. set (x1 := with_proc _ _).
  apply wp_bind. eapply wp_mono; [apply wp_new_buffers|].
  intros [[]| |] x2 t2 H2; [|done..]. destruct H2 as [Hdm Hno].
  assert (Ht2 : truthful n (self x2) t2) by (apply says_nothing_truthful; [done|]; by rewrite Hdm).
  match goal with |- wp ?m _ _ _ => assert (Hm : undisturbed m) by undisturb end.
  eapply wp_mono; [by apply (wp_undisturbed n _ _ _ Hm)|].
  intros [req| |] x3 t3 H3; [|done..]. apply Hrest; [apply ud_accept_connection | done].
Qed.

Lemma all_truthful_prefix w w' t t' :
  handlers w' = handlers w -> t `prefix_of` t' -> all_truthful n w t -> all_truthful n w' t'.
Proof.
  intros Hh Hp Ht h s. rewrite Hh. intros Hs. eapply truthful_about_replica;
    [apply same_replica_refl | done | by eapply Ht].
Qed.

(** Every handler but the new one is as it was. *)
Lemma all_truthful_insert w w' t t' h s :
  handlers w' = <[h := s]> (handlers w) -> t `prefix_of` t' -> truthful n s t' ->
  all_truthful n w t -> all_truthful n w' t'.
Proof.
  intros Hh Hp Hs Ht h' s'. rewrite Hh. intros [[<- <-]|[_ Hs']]%lookup_insert_Some; [done|].
  eapply truthful_about_replica; [apply same_replica_refl | done | by eapply Ht].
Qed.

(** [Q] holds unless the run faults. *)
Definition unless_fault {A} (Q : Server -> trace -> Prop) (o : outcome A) (w : Server) (t : trace) : Prop :=
  match o with Faulted _ => True | _ => Q w t end.

Lemma wp_make_handler_truthful w t :
  all_truthful n w t -> wp make_handler (unless_fault (all_truthful n)) w t.
Proof.
  intros Ht. unfold make_handler, indeterminate. do 6 wp_step.
  assert (Hc : calls (fun _ => true) (RPMAHandler_ctor (_peer (acceptor w)) (_ep (acceptor w)))) by footprint.
  set (t3 := _ ++ [Ev (C_indeterminate "_size") a1]).
  assert (Hp3 : t `prefix_of` t3) by (by repeat apply prefix_app_r). clearbody t3.
  unfold wp, construct. pose proof (wp_and _ _ _ _ _
    (wp_ctor_truthful (_peer (acceptor w)) (_ep (acceptor w)) a a0 a1 (next_handler w) (sproc w) t3)
    (Hc {| this := next_handler w; self := RPMAHandler_init a a0 a1; proc := sproc w |} t3)) as Hctor.
  unfold wp in Hctor. destruct (RPMAHandler_ctor _ _ _ t3) as [[[u|e|f] x'] t'];
    destruct Hctor as [Hb Hx%extends_prefix]; [| |done].
  - eapply (all_truthful_insert w _ t); [done | by etrans | done..].
  - eapply (all_truthful_prefix w _ t); [done | by etrans | done].
Qed.

(** A method of a handler. *)
Lemma wp_object_truthful {A} h s (m : M (Ctx RPMAHandler) A) w t :
  calls (fun _ => true) m -> handlers w !! h = Some s ->
  wp m (fun _ x' t' => truthful n (self x') t') (ctx_of h s w) t -> all_truthful n w t ->
  wp (on_object h m) (fun _ w' t' => all_truthful n w' t') w t.
Proof.
  intros Hc Hs Hm Ht. eapply wp_on_object; [done|].
  eapply wp_mono; [apply (wp_and _ _ _ _ _ Hm (Hc _ _))|]. intros o x' t' [H1 H2%extends_prefix].
  by eapply all_truthful_insert.
Qed.

(** Destructors do not throw. *)
Definition nothrow {S A} (m : M S A) : Prop := forall s t, wp m (fun o _ _ => forall e, o <> Throw e) s t.

Lemma nt_bind {S A B} (m : M S A) (k : A -> M S B) :
  nothrow m -> (forall a, nothrow (k a)) -> nothrow (m ≫= k).
Proof.
  intros Hm Hk s t. apply wp_bind. eapply wp_mono; [apply Hm|]. intros [a|e|f] s' t' H; [apply Hk| |done].
  by destruct (H e).
Qed.
Lemma nt_zoom {S T A} (view : S -> T) update (m : M T A) : nothrow m -> nothrow (zoom view update m).
Proof. intros Hm s t. apply wp_zoom. apply Hm. Qed.
Lemma nt_delete_ops ps : nothrow (delete_ops (H := RPMAHandler) ps).
Proof.
  induction ps as [|p ps IH]; simpl; [done|]. apply nt_bind; [|done].
  apply nt_zoom, nt_zoom. intros h t. unfold wp, delete_op. by destruct (ops h !! p).
Qed.

Ltac nothrow_step :=
  lazymatch goal with
  | |- nothrow (_ ≫= _) => apply nt_bind; [|intros ?]
  | |- nothrow (zoom _ _ _) => apply nt_zoom
  | |- nothrow (delete_ops _) => apply nt_delete_ops
  | |- nothrow (mret _) => done
  | |- nothrow (get) => done
  | |- nothrow (gets _) => done
  | |- nothrow (modify _) => done
  | |- nothrow (ext _) => done
  | |- nothrow (fail_with _) => done
  | |- nothrow (of_option _ ?o) => destruct o; done
  | |- nothrow (if ?b then _ else _) => destruct b
  | |- nothrow (match ?x with _ => _ end) => destruct x
  | |- nothrow ?m => let f := head_of m in unfold f
  end; cbn beta iota.

Lemma nt_dtor : nothrow RPMAHandler_dtor.
Proof. repeat nothrow_step. Qed.

(** The end of a pointer destroys at most the object itself. *)
Lemma wp_drop_truthful h w t :
  all_truthful n w t -> wp (drop_pointer h) (unless_fault (all_truthful n)) w t.
Proof.
  intros Ht. unfold drop_pointer. do 2 wp_step. apply wp_if; intros _; [by wp_step|].
  apply wp_bind. destruct (handlers w !! h) as [s|] eqn:Hs.
  2: { unfold wp, on_object. by rewrite Hs. }
  eapply wp_on_object; [done|].
  eapply wp_mono; [apply (wp_and _ _ _ _ _ (nt_dtor _ _) (dtor_quiet _ _))|].
  intros [[]|e|f] x' t' [Hnt Hx%extends_prefix]; [|by destruct (Hnt e)|done]. wp_step.
  intros h' s'. simpl. rewrite delete_insert_eq. intros [_ Hs']%lookup_delete_Some.
  eapply truthful_about_replica; [apply same_replica_refl | done | by eapply Ht].
Qed.

Lemma wp_acceptor_truthful et w t :
  all_truthful n w t -> wp (AcceptorHandler_handle et) (unless_fault (all_truthful n)) w t.
Proof.
  intros Ht. unfold AcceptorHandler_handle. apply wp_bind, wp_assert; [intros _|done].
  apply wp_try_catch.
  apply (wp_mono _ (unless_fault (all_truthful n))); [|intros [|[]|] w' t'; by try wp_step].
  apply wp_bind. eapply wp_mono; [by apply wp_make_handler_truthful|].
  intros [h|e|f] w1 t1 H1; [|done..]. apply wp_bind. destruct (handlers w1 !! h) as [s|] eqn:Hs.
  2: { unfold wp, on_object. by rewrite Hs. }
  eapply wp_mono; [apply (wp_object_truthful h s RPMAHandler_register_self w1 t1); try done|].
  - footprint.
  - apply wp_undisturbed; [apply ud_register_self | by eapply H1].
  - intros [ret|e|f] w2 t2 H2; [|done..]. apply wp_bind.
    eapply wp_mono; [by apply wp_drop_truthful|]. intros [[]| |] w3 t3 H3; [by wp_step | done..].
Qed.

Lemma wp_deliver_truthful h w t :
  all_truthful n w t -> wp (deliver h) (fun _ w' t' => all_truthful n w' t') w t.
Proof.
  intros Ht. unfold wp, deliver. destruct (handlers w !! h) as [s|] eqn:Hs; [|done].
  eapply (all_truthful_insert w _ t); [done..| |done]. eapply truthful_about_replica; [|done|by eapply Ht].
  by split.
Qed.

(** The virtual call, for a handler or for the acceptor. *)
Lemma wp_server_handle_truthful h et w t :
  serving w t -> (forall s, handlers w !! h = Some s -> requests_size n s) -> all_truthful n w t ->
  wp (server_handle h et) (unless_fault (all_truthful n)) w t.
Proof.
  intros (r & Hw & _) Hreq Ht. unfold server_handle. do 2 wp_step.
  apply wp_if; intros _; [by apply wp_acceptor_truthful|]. apply wp_bind.
  destruct (handlers w !! h) as [s|] eqn:Hs.
  2: { unfold wp, on_object. by rewrite Hs. }
  eapply wp_mono; [apply (wp_object_truthful h s (RPMAHandler_handle et) w t); try done|].
  - footprint.
  - eapply wp_handle_truthful; try done; [by apply Hreq | by apply (handler_server_inv w r) | by eapply Ht].
  - intros [ret|e|f] w2 t2 H2; [|done..]. apply wp_bind.
    eapply wp_mono; [by apply wp_drop_truthful|]. intros [[]| |] w3 t3 H3; [by wp_step | done..].
Qed.

(** What the loop dispatches. *)
Lemma wp_dispatch_truthful h et w t :
  serving w t -> all_truthful n w t -> wp (dispatch h et) (unless_fault (all_truthful n)) w t.
Proof.
  intros Hsv Ht. unfold dispatch. apply wp_bind. destruct (handlers w !! h) as [s|] eqn:Hs.
  - eapply wp_mono; [apply (wp_and _ _ _ _ _ (wp_deliver n h s w t Hn Hsv Hs) (wp_deliver_truthful h w t Ht))|].
    intros [[]| |] w1 t1 [H1 H2]; simpl in H1; [|done..].
    destruct H1 as (-> & Hsv1 & _ & s1 & Hs1 & Hreq). apply wp_server_handle_truthful; try done.
    intros s'. rewrite Hs1. by intros [= <-].
  - unfold wp at 1, deliver. rewrite Hs. apply wp_server_handle_truthful; try done. by rewrite Hs.
Qed.

Lemma truthful_loop : loop_invariant (all_truthful n).
Proof.
  split.
  - intros h et w t Hsv He Ht. eapply wp_mono; [apply wp_and; [by apply (wp_dispatch n h et w t) |
      by apply (wp_dispatch_truthful h et w t)]|].
    intros o w' t' [(Hsv' & Hnf & _) H]. split_and!; [done..|]. destruct o as [| |f]; [done..|by destruct (Hnf f)].
  - intros w t t' Hp. by apply all_truthful_prefix.
Qed.
End Process.

(** ** Properties *)

Section Properties.
Context {O : Oracle} {ED : EpollDocumented O} {RD : RpmaDocumented O} {FD : FdsDocumented O}
        {CF : ConnectionsFresh O} {DD : DescriptorsDocumented O} {CD : CompletionDocumented O}
        {E : CephEncoding} {EL : CephEncodingLaws E} {N : Wire}.

(** The states the server's loop goes through, from the start of the program. *)
Definition server_state (w : Server) (t : trace) : Prop :=
  exists buffer_is_runtime order dead fuel rounds prog addr port rest, visits_all order /\
    server_program buffer_is_runtime order dead fuel rounds (prog :: addr :: port :: rest)
      new_server [] = (Ret None, w, t).

Lemma server_state_truthful n w t :
  pcfg_available O -> maps_whole_files O n -> wire_requests n -> blank_buffers O ->
  server_state w t -> serving w t /\ all_truthful n w t.
Proof.
  intros Hav Hmaps Hn Hblank (b & order & dead & fuel & rounds & prog & addr & port & rest & Hord & Hrun).
  refine (wp_run _ _ _ _ _ _ _ (wp_server_program (all_truthful n) (caught_by_main b)
    (truthful_loop n Hav Hmaps Hn Hblank) _ _ order Hord b dead fuel rounds prog addr port rest eq_refl) Hrun);
    [|done]. intros w' t' Hh h s. by rewrite Hh, lookup_empty.
Qed.

End Properties.

(** ** Witnesses *)

Lemma host_blank size : blank_buffers (sized_host size).
Proof. intros t reply r k H. vm_compute in H. discriminate H. Qed.

(** In the run of the demonstration the session's buffer holds a reply of success. *)
Definition replied (w : Server) : bool :=
  match handlers w !! 2 with
  | Some s => match RwlReplicaInitRequestReply_decode (bl_data (send_bl (rh_base s))) with
              | Some (reply, _) => reply_type reply =? RWL_REPLICA_INIT_SUCCESSED
              | None => false
              end
  | None => false
  end.

Example demo_main_replies :
  wp demo_main (fun o w' t' => o = Ret None /\ replied w' = true) new_server [].
Proof. vm_compute. auto. Qed.

