(* ===== verification/ClientHandler.v ===== *)
(** * The client's end of a connection ([ClientHandler] of [EventOp.h], [EventOp.cc])

    The main thread of the client calls the methods of this class; the reactor's
    thread runs the completion handlers.  The two meet in local variables of the
    main thread ([completed], [successed]) that the callbacks capture by
    reference, so the model keeps the activations of the methods that have such
    variables, and a callback that outlives its activation is a fault. *)

From S2P Require Import Prelude Librpma Effects LibrpmaApi Posix Resources.
From S2P Require Import CephEncoding WireFormat Types Reactor RpmaOp Quiet Host.
From S2P Require Import RpmaConn ConnectionHandler.

(** ** Data *)

Record ClientHandler := {
  cl_base : ConnectionHandler;
  _flush_type : rpma_flush_type;
  _address : bytes;
  _port : bytes;
  data_header : Z;
  data_mr : Z;
  _image_size : Z;
  _image_mr : Z;
  _image_name : bytes
}.

Definition with_cl_base (c : ConnectionHandler) (s : ClientHandler) : ClientHandler :=
  Build_ClientHandler c (_flush_type s) (_address s) (_port s) (data_header s) (data_mr s)
    (_image_size s) (_image_mr s) (_image_name s).
Definition with_flush_type (f : rpma_flush_type) (s : ClientHandler) : ClientHandler :=
  Build_ClientHandler (cl_base s) f (_address s) (_port s) (data_header s) (data_mr s)
    (_image_size s) (_image_mr s) (_image_name s).
Definition with_data_header (p : Z) (s : ClientHandler) : ClientHandler :=
  Build_ClientHandler (cl_base s) (_flush_type s) (_address s) (_port s) p (data_mr s)
    (_image_size s) (_image_mr s) (_image_name s).
Definition with_data_mr (p : Z) (s : ClientHandler) : ClientHandler :=
  Build_ClientHandler (cl_base s) (_flush_type s) (_address s) (_port s) (data_header s) p
    (_image_size s) (_image_mr s) (_image_name s).
Definition with_image_size (n : Z) (s : ClientHandler) : ClientHandler :=
  Build_ClientHandler (cl_base s) (_flush_type s) (_address s) (_port s) (data_header s)
    (data_mr s) n (_image_mr s) (_image_name s).
Definition with_image_mr (p : Z) (s : ClientHandler) : ClientHandler :=
  Build_ClientHandler (cl_base s) (_flush_type s) (_address s) (_port s) (data_header s)
    (data_mr s) (_image_size s) p (_image_name s).

(** The object when the body of the constructor starts; the arguments behind the
    port are the values of the members without initializer. *)
Definition ClientHandler_init (addr port : bytes) (conn_fd comp_fd : Z) (flush : rpma_flush_type)
    (header image_size image_mr : Z) : ClientHandler :=
  Build_ClientHandler (ConnectionHandler_ctor conn_fd comp_fd) flush addr port header NULL
    image_size image_mr [].

(** The captured local variables of an activation. *)
Record Frame := { completed : bool; successed : bool }.

(** The handler and the stack of the thread that uses it. *)
Record Client := {
  handler : ClientHandler;
  frames : gmap Z Frame;
  next_frame : Z
}.

Definition with_handler (h : ClientHandler) (c : Client) : Client :=
  {| handler := h; frames := frames c; next_frame := next_frame c |}.
Definition with_frames (m : gmap Z Frame) (c : Client) : Client :=
  {| handler := handler c; frames := m; next_frame := next_frame c |}.

#[export] Instance Client_HasConnection : HasConnection Client :=
  {| ch_of c := cl_base (handler c);
     set_ch b c := with_handler (with_cl_base b (handler c)) c |}.
#[export] Instance Client_HasConnectionLaws : HasConnectionLaws Client.
Proof. split; [done..|]. by intros [[] ? ?]. Qed.

(** Ten seconds in microseconds: [10e6] of the source. *)
Definition WAIT_LIMIT : Z := 10 * 1000 * 1000.

(** [len] bytes at offset [off], if the string has them. *)
Definition slice (off len : Z) (s : bytes) : option bytes :=
  if (0 <=? off) && (0 <=? len) && (off + len <=? blen s)
  then Some (take (Z.to_nat len) (drop (Z.to_nat off) s)) else None.

(** ** Operations *)

Section Operations.
Context {O : Oracle} {E : CephEncoding}.

Abbreviation Cl := (M (Ctx Client)).

Definition on_handler {A} (m : M ClientHandler A) : Cl A :=
  zoom (fun x => handler (self x)) (fun h x => with_self (with_handler h (self x)) x) m.

(** *** Activations and the variables captured by reference *)

Definition push_frame : Cl Z := fun x t =>
  let c := self x in
  let f := next_frame c in
  (Ret f,
   with_self {| handler := handler c;
                frames := <[f := {| completed := false; successed := false |}]> (frames c);
                next_frame := f + 1 |} x, t).

Definition pop_frame (f : Z) : Cl unit :=
  modify (fun x => with_self (with_frames (delete f (frames (self x))) (self x)) x).

Definition read_frame (f : Z) : Cl Frame :=
  m ← gets (fun x => frames (self x));
  of_option (UseAfterReturn f) (m !! f).

Definition store_completed (f : Z) (b : bool) : Cl unit :=
  fr ← read_frame f;
  modify (fun x => with_self (with_frames
    (<[f := {| completed := b; successed := successed fr |}]> (frames (self x))) (self x)) x).

Definition store_successed (f : Z) (b : bool) : Cl unit :=
  fr ← read_frame f;
  modify (fun x => with_self (with_frames
    (<[f := {| completed := completed fr; successed := b |}]> (frames (self x))) (self x)) x).

(** *** Construction and destruction *)

Definition ClientHandler_dtor : Cl unit :=
  mr ← gets (fun x => data_mr (handler (self x)));
  mr_delete mr;;
  ConnectionHandler_dtor.

(** The connection request of the constructor, and the connection made from it. *)
Definition new_request (peer : Z) (addr port : bytes) : Cl Z :=
  '(ret, cfg_ptr) ← rpma_conn_cfg_new NULL;
  if negb (ret =? 0) then throw (runtime_error "new cfg failed") else
  rpma_conn_cfg_set_sq_size cfg_ptr 200;;
  rpma_conn_cfg_set_rq_size cfg_ptr 200;;
  rpma_conn_cfg_set_cq_size cfg_ptr 200;;
  '(ret, req) ← rpma_conn_req_new peer addr port cfg_ptr NULL;
  rpma_conn_cfg_delete cfg_ptr;;
  if negb (ret =? 0)
  then throw (runtime_error "create a new outgoing connection request object failed")
  else mret req.

Definition connect_request (req : Z) : Cl unit :=
  conn0 ← indeterminate "conn";
  '(ret, conn, req) ← rpma_conn_req_connect req conn0;
  if negb (ret =? 0)
  then (if negb (req =? NULL) then rpma_conn_req_delete req;; mret tt else mret tt);;
       throw (runtime_error "initiate processing the connection request")
  else
  on_ch (on_conn (RpmaConn_reset conn));;
  on_ch init_conn_fd.

Definition ClientHandler_body (addr port : bytes) : Cl unit :=
  '(ret, peer) ← common_peer_via_address addr RPMA_UTIL_IBV_CONTEXT_REMOTE NULL;
  if negb (ret =? 0)
  then throw (runtime_error "lookup an ibv_context via the address and create a new peer using it failed")
  else
  on_ch (modify (with_peer peer));;
  on_proc (peer_own peer);;
  on_ch init_send_recv_buffer;;
  req ← new_request peer addr port;
  connect_request req.

Definition ClientHandler_ctor (addr port : bytes) : Cl unit :=
  on_throw (ClientHandler_body addr port) ClientHandler_dtor.

Definition ClientHandler_register_self : Cl Z := conn_register_self.
Definition ClientHandler_remove_self : Cl Z := conn_remove_self.

(** *** The replica's descriptors *)

(** The part of [get_remote_descriptor] for the peer configuration: gives
    [direct_write_to_pmem].  The library reads [pcfg_desc_size] bytes at the
    pointer it is given. *)
Definition apply_pcfg (dst : RpmaConfigDescriptor) : Cl bool :=
  if pcfg_desc_size dst =? 0 then mret false else
  d ← of_option OutOfBounds (slice (mr_desc_size dst) (pcfg_desc_size dst) (descriptors dst));
  '(_, pcfg) ← rpma_peer_cfg_from_descriptor d (pcfg_desc_size dst) NULL;
  '(_, direct) ← rpma_peer_cfg_get_direct_write_to_pmem pcfg false;
  c ← gets (fun x => ch_of (self x));
  rpma_conn_apply_remote_peer_cfg (conn (_conn c)) pcfg;;
  rpma_peer_cfg_delete pcfg;;
  mret direct.

Definition get_remote_descriptor : Cl Z :=
  c ← gets (fun x => ch_of (self x));
  match RwlReplicaInitRequestReply_decode (bl_data (recv_bl c)) with
  | None => throw buffer_error
  | Some (init_reply, _) =>
      if negb (reply_type init_reply =? RWL_REPLICA_INIT_SUCCESSED) then mret 0 else
      let dst := desc init_reply in
      direct ← apply_pcfg dst;
      d ← of_option OutOfBounds (slice 0 (mr_desc_size dst) (descriptors dst));
      mr0 ← gets (fun x => _image_mr (handler (self x)));
      '(_, mr) ← rpma_mr_remote_from_descriptor d (mr_desc_size dst) mr0;
      on_handler (modify (with_image_mr mr));;
      size0 ← indeterminate "size";
      '(ret, size) ← rpma_mr_remote_get_size mr size0;
      image_size ← gets (fun x => _image_size (handler (self x)));
      if size <? image_size then mret (-1) else
      on_handler (modify (with_flush_type
        (if (direct : bool) then RPMA_FLUSH_TYPE_PERSISTENT else RPMA_FLUSH_TYPE_VISIBILITY)));;
      mret ret
  end.

(** *** Callbacks *)

Definition close_reply (f : Z) : Cl unit :=
  c ← gets (fun x => ch_of (self x));
  match RwlReplicaRequest_decode (bl_data (recv_bl c)) with
  | None => throw buffer_error
  | Some (reply, _) =>
      store_successed f (type reply =? RWL_REPLICA_FINISHED_SUCCCESSED);;
      store_completed f true
  end.

Definition ClientHandler_run (cb : callback) : Cl unit :=
  match cb with
  | init_replica_cb f => get_remote_descriptor;; store_completed f true
  | close_replica_cb f => close_reply f
  | set_completed_cb f => store_completed f true
  | _ => fail_with NullDereference
  end.

Definition ClientHandler_handle (et : EventType) : Cl Z :=
  ch_handle ClientHandler_remove_self ClientHandler_run et.

(** *** Requests of the main thread

    [other_thread] is what the reactor's thread does while this thread yields. *)
Section Waiting.
Context (other_thread : Cl unit).

(** The waiting loop of [init_replica] and [close_replica], at most [fuel] turns;
    [None] when it is still waiting then. *)
Fixpoint wait_completed (fuel : nat) (f start cost_time : Z) : Cl (option Z) :=
  match fuel with
  | 0%nat => mret None
  | S fuel =>
      fr ← read_frame f;
      if negb (completed fr) && (cost_time <? WAIT_LIMIT) then
        other_thread;;
        now ← clock_now;
        wait_completed fuel f start (now - start)
      else mret (Some cost_time)
  end.

(** What [init_replica] and [close_replica] do alike once the request is in the send
    buffer: post a receive whose callback [cb] refers to this activation, send, and
    wait; [success] is read off the activation's variables at the end. *)
Definition request_and_wait (fuel : nat) (cb : Z -> callback) (success : Frame -> bool)
    : Cl (option Z) :=
  start ← clock_now;
  f ← push_frame;
  recv (cb f);;
  send no_callback;;
  cost0 ← indeterminate "cost_time";
  out ← wait_completed fuel f start cost0;
  match out with
  | None => mret None
  | Some _ =>
      fr ← read_frame f;
      pop_frame f;;
      mret (Some (if success fr then 0 else -1))
  end.

Definition init_replica (fuel : nat) (cache_id cache_size : Z) (pool_name image_name : bytes)
    : Cl (option Z) :=
  on_handler (modify (with_image_size cache_size));;
  let init :=
    {| init_type := RWL_REPLICA_INIT_REQUEST;
       info := {| Types.cache_id := cache_id; Types.cache_size := cache_size;
                  Types.pool_name := pool_name; Types.image_name := image_name |} |} in
  on_ch (fill_send_buffer (RwlReplicaInitRequest_encode init []));;
  request_and_wait fuel init_replica_cb completed.

Definition close_replica (fuel : nat) : Cl (option Z) :=
  let finish := RwlReplicaFinishedRequest RWL_REPLICA_FINISHED_REQUEST in
  on_ch (fill_send_buffer (RwlReplicaRequest_encode finish []));;
  request_and_wait fuel close_replica_cb (fun fr => completed fr && successed fr).
End Waiting.

Definition disconnect : Cl Z := on_ch (on_conn RpmaConn_disconnect).

Definition set_head (head_ptr size : Z) : Cl Z :=
  on_handler (modify (with_data_header head_ptr));;
  c ← gets (fun x => ch_of (self x));
  '(ret, mr) ← rpma_mr_reg (_peer c) head_ptr size RPMA_MR_USAGE_WRITE_SRC NULL;
  if negb (ret =? 0) then mret ret else
  old ← gets (fun x => data_mr (handler (self x)));
  on_handler (modify (with_data_mr mr));;
  mr_delete old;;
  mret 0.

(** [write] and [flush] assert that a source region has been registered; a write
    is at most one GiB. *)
Definition write (offset len : Z) (cb : callback) : Cl Z :=
  h ← gets (fun x => handler (self x));
  assert (negb (data_mr h =? NULL));;
  assert (len <=? 1024 * 1024 * 1024);;
  post_op RpmaWrite cb (fun uwrite =>
    RpmaWrite_call (conn (_conn (cl_base h))) (_image_mr h) offset (data_mr h) offset len
      RPMA_F_COMPLETION_ALWAYS uwrite).

Definition flush (offset len : Z) (cb : callback) : Cl Z :=
  h ← gets (fun x => handler (self x));
  assert (negb (data_mr h =? NULL));;
  post_op RpmaFlush cb (fun uflush =>
    RpmaFlush_call (conn (_conn (cl_base h))) (_image_mr h) offset len (_flush_type h)
      RPMA_F_COMPLETION_ALWAYS uflush).
End Operations.

(** ** Specification *)

(** The number of times the clock has been read. *)
Definition is_clock (c : call) : bool := match c with C_clock_now => true | _ => false end.
Definition clock_reads (t : trace) : nat :=
  length (List.filter (fun e => is_clock (ev_call e)) t).

(** Time passes: after [N] more readings, ten seconds have gone by. *)
Definition time_passes {O : Oracle} (N : nat) (start : Z) (t : trace) : Prop :=
  forall t', (clock_reads t + N <= clock_reads t')%nat ->
    start + WAIT_LIMIT <= answer_of t' C_clock_now.

(** What the main thread relies on while it waits: the other thread comes back, and
    leaves the activations of this thread on the stack; [R] is what else is known
    of what it does. *)
Definition polite (R : relation (Ctx Client)) (other_thread : M (Ctx Client) unit) : Prop :=
  forall x t, wp other_thread (returns (fun _ x' t' => R x x' /\
    (forall f, is_Some (frames (self x) !! f) -> is_Some (frames (self x') !! f)) /\
    (clock_reads t <= clock_reads t')%nat)) x t.

(** No restriction on the other thread. *)
Definition anything : relation (Ctx Client) := fun _ _ => True.
#[export] Instance anything_preorder : PreOrder anything.
Proof. by split. Qed.

(** ** Lemmas *)

Lemma clock_reads_app t t' : clock_reads (t ++ t') = (clock_reads t + clock_reads t')%nat.
Proof. unfold clock_reads. by rewrite List.filter_app, length_app. Qed.

Lemma slice_first d r : slice 0 (blen d) (d ++ r) = Some d.
Proof.
  unfold slice. pose proof (blen_nonneg d). pose proof (blen_nonneg r).
  rewrite (proj2 (Z.leb_le 0 (blen d))), (proj2 (Z.leb_le (0 + blen d) _))
    by (autorewrite with blen; lia). simpl.
  unfold blen. by rewrite Nat2Z.id, drop_0, take_app_length.
Qed.

Lemma slice_second d r : slice (blen d) (blen r) (d ++ r) = Some r.
Proof.
  unfold slice. pose proof (blen_nonneg d). pose proof (blen_nonneg r).
  rewrite !(proj2 (Z.leb_le _ _)) by (autorewrite with blen; lia). simpl.
  unfold blen. by rewrite !Nat2Z.id, drop_app_length, firstn_all.
Qed.

Lemma slice_too_long off len s : blen s < off + len -> slice off len s = None.
Proof.
  intros H. unfold slice. rewrite (proj2 (Z.leb_gt (off + len) _)) by done.
  by rewrite andb_false_r.
Qed.

Section Lemmas.
Context {O : Oracle} {E : CephEncoding} {EL : CephEncodingLaws E}.

Lemma wp_read_frame f fr Q (x : Ctx Client) t :
  frames (self x) !! f = Some fr -> Q (Ret fr) x t -> wp (read_frame f) Q x t.
Proof.
  intros Hf HQ. unfold read_frame. do 2 wp_step. apply wp_of_option. by rewrite Hf.
Qed.

(** The waiting loop ends, with the answer or out of time. *)
Lemma wp_wait_completed R `{!PreOrder R} other_thread N fuel f start cost x t :
  polite R other_thread -> is_Some (frames (self x) !! f) -> time_passes N start t ->
  (N + 2 <= fuel)%nat ->
  wp (wait_completed other_thread fuel f start cost) (returns (fun out x' t' =>
    R x x' /\ exists cost' fr, out = Some cost' /\ frames (self x') !! f = Some fr /\
      (completed fr = true \/ WAIT_LIMIT <= cost'))) x t.
Proof.
  intros Hpol. revert N cost x t. induction fuel as [|fuel IH]; intros N cost x t Hf Htime Hfuel; [lia|].
  destruct Hf as [fr Hf]. simpl. apply wp_bind. eapply wp_read_frame; [done|].
  destruct (completed fr) eqn:Hc; simpl; [wp_step; split; [done|]; exists cost, fr; auto|].
  destruct (Z.ltb_spec cost WAIT_LIMIT) as [Hcost|Hcost]; [|wp_step; split; [done|]; exists cost, fr; auto].
  apply wp_bind. eapply wp_mono; [apply Hpol|]. intros [[]| |] x1 t1; simpl; [|done..].
  intros (HR & Hkeep & Hreads). unfold clock_now. do 2 wp_step.
  assert (Hr : clock_reads (t1 ++ [Ev C_clock_now a]) = S (clock_reads t1)).
  { rewrite clock_reads_app. unfold clock_reads at 2. simpl. lia. }
  destruct N as [|N].
  - (* the time is over: one more turn *)
    destruct (Hkeep f) as [fr1 Hf1]; [eauto|].
    assert (Hover : start + WAIT_LIMIT <= a) by (rewrite <-H; apply Htime; lia).
    destruct fuel as [|fuel]; [lia|]. simpl. apply wp_bind. eapply wp_read_frame; [done|].
    destruct (Z.ltb_spec (a - start) WAIT_LIMIT); [lia|]. rewrite andb_false_r.
    wp_step. split; [done|]. exists (a - start), fr1. split_and!; [done..|by right; lia].
  - eapply wp_mono; [apply (IH N); [apply Hkeep; eauto | | lia]|].
    { intros t' Ht'. apply Htime. lia. }
    intros [out| |] x' t'; simpl; [|done..]. intros [HR' Hout]. split; [by etrans | done].
Qed.

Lemma time_passes_reads N start t t' :
  clock_reads t' = clock_reads t -> time_passes N start t -> time_passes N start t'.
Proof. intros Hr Ht t'' Hle. apply Ht. lia. Qed.

(** Posting keeps the stack and the clock. *)
Lemma wp_post_frames (R : Z -> Z -> Prop) k cb post (x : Ctx Client) t :
  ops_ok x t -> posts (fun p ret t' => clock_reads t' = clock_reads t /\ R p ret) post x t ->
  wp (post_op k cb post) (returns (fun ret x' t' => ops_ok x' t' /\ grows x x' /\
    frames (self x') = frames (self x) /\ clock_reads t' = clock_reads t /\
    callback_table (ch_of (self x)) ⊆ callback_table (ch_of (self x')) /\
    let p := next_op (heap (proc x)) in
    R p ret /\ (ret = 0 -> p ∈ callback_table (ch_of (self x')) /\
       ops (heap (proc x')) !! p = Some {| class := k; func := cb |}))) x t.
Proof.
  intros Hok Hpost. eapply wp_mono; [by apply wp_post_op|].
  intros [ret| |] x' t'; simpl; [|done..]. intros (Hok' & Hg & [Hr HR] & _ & _ & _ & Hcase).
  destruct (Z.eqb_spec ret 0); destruct Hcase as [Hself Hops]; rewrite Hself, Hops; simpl;
    split_and!; try done; [set_solver|]. rewrite lookup_insert_eq. set_solver.
Qed.

(** The receive that a request posts. *)
Definition recv_call (x : Ctx Client) (p : Z) : call :=
  let c := ch_of (self x) in C_recv (conn (_conn c)) (recv_mr c) 0 MSG_SIZE p.

(** A request ends; [x2] and [x3] are the states in which the waiting starts and
    ends. *)
Lemma wp_request_and_wait R `{!PreOrder R} other_thread N fuel cb success x t :
  let start := answer_of t C_clock_now in
  let t1 := t ++ [Ev C_clock_now start] in
  let f := next_frame (self x) in
  let p := next_op (heap (proc x)) in
  polite R other_thread -> ops_ok x t -> time_passes N start t1 -> (N + 2 <= fuel)%nat ->
  wp (request_and_wait other_thread fuel cb success) (returns (fun out x' t' =>
    exists x2 x3 fr cost, R x2 x3 /\
      frames (self x2) !! f = Some {| completed := false; successed := false |} /\
      (ret_of (recv_call x p) (answer_of t1 (recv_call x p)) = 0 ->
         p ∈ callback_table (ch_of (self x2)) /\
         ops (heap (proc x2)) !! p = Some {| class := RpmaRecv; func := cb f |}) /\
      frames (self x3) !! f = Some fr /\ (completed fr = true \/ WAIT_LIMIT <= cost) /\
      x' = with_self (with_frames (delete f (frames (self x3))) (self x3)) x3 /\
      out = Some (if success fr then 0 else -1))) x t.
Proof.
  intros start t1 f p Hpol Hok Htime Hfuel. unfold request_and_wait, clock_now. wp_step.
  wp_known eq_refl. fold start t1. apply wp_bind. unfold push_frame, wp at 1.
  fold f. set (x1 := with_self _ x).
  assert (Hok1 : ops_ok x1 t1) by (apply ops_inv_other; [done|exact Hok]).
  assert (Hp : p < p + 1) by lia.
  apply wp_bind. unfold recv. eapply wp_mono; [apply (wp_post_frames (fun q ret =>
    ret_of (recv_call x q) (answer_of t1 (recv_call x q)) = ret) _ _ _ x1 t1 Hok1)|].
  { apply posts_recv. intros q ret _ Hret. split; [|exact Hret].
    rewrite clock_reads_app. unfold clock_reads. simpl. lia. }
  intros [ret| |] x2 t2; simpl; [|done..]. fold p. intros (Hok2 & _ & F2 & R2 & _ & Hret & Hposted).
  apply wp_bind. unfold send.
  eapply wp_mono; [apply (wp_post_frames (fun _ _ => True)); [exact Hok2|]|].
  { apply posts_send. intros q ret' _ _. split; [|done].
    rewrite clock_reads_app. unfold clock_reads. simpl. lia. }
  intros [ret'| |] x3 t3; simpl; [|done..]. intros (Hok3 & [_ Hold _] & F3 & R3 & Htab & _).
  unfold indeterminate. do 2 wp_step. apply wp_bind.
  eapply wp_mono; [apply (wp_wait_completed R _ N); try done|].
  - rewrite F3, F2. simpl. rewrite lookup_insert_eq. eauto.
  - eapply time_passes_reads; [|exact Htime]. rewrite clock_reads_app.
    unfold clock_reads at 2. simpl. lia.
  - intros [out| |] x4 t4; simpl; [|done..]. intros (HR & cost & fr & -> & Hfr & Hend).
    apply wp_bind. eapply wp_read_frame; [done|]. unfold pop_frame. wp_steps. simpl.
    exists x3, x4, fr, cost. split_and!; try done; [by rewrite F3, F2; simpl; rewrite lookup_insert_eq|].
    intros Hacc. rewrite Hacc in Hret. destruct (Hposted (eq_sym Hret)) as [Hin Hop].
    split; [set_solver|]. rewrite Hold; [done|].
    apply (oi_bound _ _ _ Hok2). rewrite Hop. eauto.
Qed.

(** The configuration is made from the descriptor [pd] and applied. *)
Lemma wp_apply_pcfg d pd direct Q x t :
  let cn := conn (_conn (cl_base (handler (self x)))) in
  pd <> [] ->
  (forall t, (answer_of t (C_peer_cfg_from_descriptor pd (blen pd))).1 = 0) ->
  (forall t pcfg, answer_of t (C_peer_cfg_get_direct_write_to_pmem pcfg) = (0, direct)) ->
  (forall pcfg a t', Ev (C_peer_cfg_from_descriptor pd (blen pd)) (0, pcfg) ∈ t' ->
     Ev (C_conn_apply_remote_peer_cfg cn pcfg) a ∈ t' -> Q (Ret direct) x t') ->
  wp (apply_pcfg {| mr_desc_size := blen d; pcfg_desc_size := blen pd;
                    descriptors := d ++ pd |}) Q x t.
Proof.
  intros cn Hpd Hcfg Hdirect HQ. unfold apply_pcfg. simpl.
  assert (Hne : blen pd <> 0) by (unfold blen; destruct pd; simpl; [done|lia]).
  rewrite (proj2 (Z.eqb_neq _ _) Hne). rewrite slice_second.
  unfold rpma_peer_cfg_from_descriptor, rpma_peer_cfg_get_direct_write_to_pmem,
    rpma_conn_apply_remote_peer_cfg, rpma_peer_cfg_delete.
  wp_step. apply wp_of_option. do 2 apply wp_bind. wp_step. destruct a as [ret pcfg].
  specialize (Hcfg t). rewrite H in Hcfg. simpl in Hcfg. subst ret. wp_step.
  change (out_on_success 0 pcfg NULL) with pcfg. do 2 apply wp_bind. wp_known (Hdirect _ _).
  wp_steps. change (out_on_success 0 direct false) with direct.
  eapply (HQ pcfg a); unfold cn; set_solver.
Qed.

(** The outcome of posting a new operation of class [k] that returned [ret]. *)
Definition recorded (k : op_class) (cb : callback) (ret : Z) (x x' : Ctx Client) (t' : trace)
    : Prop :=
  let p := next_op (heap (proc x)) in
  let c := ch_of (self x) in
  ops_ok x' t' /\ grows x x' /\
  if ret =? 0
  then self x' = set_ch (with_table ({[p]} ∪ callback_table c) c) (self x) /\
       ops (heap (proc x')) = <[p := {| class := k; func := cb |}]> (ops (heap (proc x)))
  else self x' = self x /\ ops (heap (proc x')) = ops (heap (proc x)).

Lemma wp_post_recorded (R : Z -> Z -> trace -> Prop) k cb post x t :
  ops_ok x t -> posts R post x t ->
  wp (post_op k cb post) (returns (fun ret x' t' =>
    recorded k cb ret x x' t' /\ R (next_op (heap (proc x))) ret t')) x t.
Proof.
  intros Hok Hpost. eapply wp_mono; [by apply wp_post_op|].
  intros [ret| |] x' t'; simpl; [|done..]. intros (? & ? & HR & _ & _ & _ & ?). done.
Qed.

Lemma wp_remote_descriptor d pd r direct size x t :
  let h := handler (self x) in
  let cn := conn (_conn (cl_base h)) in
  RwlReplicaInitRequestReply_decode (bl_data (recv_bl (cl_base h))) =
    Some ({| reply_type := RWL_REPLICA_INIT_SUCCESSED;
             desc := {| mr_desc_size := blen d; pcfg_desc_size := blen pd;
                        descriptors := d ++ pd |} |}, r) ->
  pd <> [] ->
  (forall t, (answer_of t (C_peer_cfg_from_descriptor pd (blen pd))).1 = 0) ->
  (forall t pcfg, answer_of t (C_peer_cfg_get_direct_write_to_pmem pcfg) = (0, direct)) ->
  (forall t, (answer_of t (C_mr_remote_from_descriptor d (blen d))).1 = 0) ->
  (forall t mr, answer_of t (C_mr_remote_get_size mr) = (0, size)) ->
  wp get_remote_descriptor (returns (fun ret x' t' => exists pcfg mr a,
    Ev (C_peer_cfg_from_descriptor pd (blen pd)) (0, pcfg) ∈ t' /\
    Ev (C_conn_apply_remote_peer_cfg cn pcfg) a ∈ t' /\
    Ev (C_mr_remote_from_descriptor d (blen d)) (0, mr) ∈ t' /\
    handler (self x') =
      (if size <? _image_size h then with_image_mr mr h
       else with_flush_type (if (direct : bool) then RPMA_FLUSH_TYPE_PERSISTENT
                             else RPMA_FLUSH_TYPE_VISIBILITY) (with_image_mr mr h)) /\
    ret = if size <? _image_size h then -1 else 0)) x t.
Proof.
  intros h cn Hdec Hpd Hcfg Hdirect Hmr Hsize. unfold get_remote_descriptor. do 2 wp_step.
  simpl. fold h. rewrite Hdec. simpl. apply wp_bind.
  eapply (wp_apply_pcfg d pd direct); try done. intros pcfg a t1 H1 H2. fold cn in H2.
  apply wp_bind. rewrite slice_first. wp_step. do 2 wp_step.
  unfold rpma_mr_remote_from_descriptor, rpma_mr_remote_get_size, indeterminate, on_handler.
  do 2 apply wp_bind. wp_step. destruct a0 as [ret mr]. specialize (Hmr t1).
  rewrite H in Hmr. simpl in Hmr. subst ret. wp_step.
  change (out_on_success 0 mr _) with mr. do 6 wp_step. apply wp_bind.
  wp_known (Hsize _ _). wp_step. change (out_on_success 0 size _) with size. do 2 wp_step. simpl.
  fold h. destruct (size <? _image_size h); wp_steps; simpl;
    (exists pcfg, mr, a; split_and!; [set_solver.. | done | done]).
Qed.
End Lemmas.

(** ** Properties *)

Section Properties.
Context {O : Oracle} {E : CephEncoding} {EL : CephEncodingLaws E}.

(** From a reply that holds the descriptors [d] and [pd], the client creates the
    remote region from exactly [d] and applies to its connection the configuration
    made from exactly [pd]; it then flushes persistently if and only if that
    configuration says that writes reach persistent memory; and it refuses a
    region smaller than the image, without choosing a flush type. *)
Theorem remote_descriptor_applied d pd r direct size x t :
  let h := handler (self x) in
  let cn := conn (_conn (cl_base h)) in
  RwlReplicaInitRequestReply_decode (bl_data (recv_bl (cl_base h))) =
    Some ({| reply_type := RWL_REPLICA_INIT_SUCCESSED;
             desc := {| mr_desc_size := blen d; pcfg_desc_size := blen pd;
                        descriptors := d ++ pd |} |}, r) ->
  pd <> [] ->
  (forall t, (answer_of t (C_peer_cfg_from_descriptor pd (blen pd))).1 = 0) ->
  (forall t pcfg, answer_of t (C_peer_cfg_get_direct_write_to_pmem pcfg) = (0, direct)) ->
  (forall t, (answer_of t (C_mr_remote_from_descriptor d (blen d))).1 = 0) ->
  (forall t mr, answer_of t (C_mr_remote_get_size mr) = (0, size)) ->
  wp get_remote_descriptor (returns (fun ret x' t' => exists pcfg mr a,
    Ev (C_peer_cfg_from_descriptor pd (blen pd)) (0, pcfg) ∈ t' /\
    Ev (C_conn_apply_remote_peer_cfg cn pcfg) a ∈ t' /\
    Ev (C_mr_remote_from_descriptor d (blen d)) (0, mr) ∈ t' /\
    handler (self x') =
      (if size <? _image_size h then with_image_mr mr h
       else with_flush_type (if (direct : bool) then RPMA_FLUSH_TYPE_PERSISTENT
                             else RPMA_FLUSH_TYPE_VISIBILITY) (with_image_mr mr h)) /\
    ret = if size <? _image_size h then -1 else 0)) x t.
Proof. apply wp_remote_descriptor. Qed.




(** C23: a write is refused by assertion, with no call made, without a source region
    or above one GiB; otherwise it is posted once, between the same offsets of the
    source and of the replica, and recorded with its callback exactly when librpma
    accepts it. *)
Theorem write_posts offset len cb x t :
  let h := handler (self x) in
  let p := next_op (heap (proc x)) in
  ops_ok x t ->
  wp (write offset len cb) (fun o x' t' =>
    if (data_mr h =? NULL) || (1024 * 1024 * 1024 <? len)
    then o = Faulted AssertFailed /\ x' = x /\ t' = t
    else exists ret, o = Ret ret /\ recorded RpmaWrite cb ret x x' t' /\
      t' = t ++ [Ev (C_write (conn (_conn (cl_base h))) (_image_mr h) offset (data_mr h) offset
                       len RPMA_F_COMPLETION_ALWAYS p) ret]) x t.
Proof.
  intros h p Hok. unfold write. do 2 wp_step. fold h.
  destruct (data_mr h =? NULL); simpl; [done|]. apply wp_bind, wp_ret.
  rewrite Z.leb_antisym. destruct (1024 * 1024 * 1024 <? len); simpl; [done|].
  apply wp_bind, wp_ret. eapply wp_mono; [apply (wp_post_recorded (fun q ret t' =>
    t' = t ++ [Ev (C_write (conn (_conn (cl_base h))) (_image_mr h) offset (data_mr h) offset
                     len RPMA_F_COMPLETION_ALWAYS q) ret])); [exact Hok|]|].
  - intros q pr Hq. unfold RpmaWrite_call, rpma_write. wp_steps. simpl. split_and!; [done..|].
    rewrite outstanding_write. destruct (Z.eqb_spec a 0); case_decide; set_solver.
  - intros [ret| |] x' t'; simpl; [|done..]. intros [Hrec Ht]. by exists ret.
Qed.

(** C24: a flush needs a source region to have been registered; it is then posted once
    with the flush type the client settled on, and recorded exactly when librpma
    accepts it. *)
Theorem flush_posts offset len cb x t :
  let h := handler (self x) in
  let p := next_op (heap (proc x)) in
  ops_ok x t ->
  wp (flush offset len cb) (fun o x' t' =>
    if data_mr h =? NULL
    then o = Faulted AssertFailed /\ x' = x /\ t' = t
    else exists ret, o = Ret ret /\ recorded RpmaFlush cb ret x x' t' /\
      t' = t ++ [Ev (C_flush (conn (_conn (cl_base h))) (_image_mr h) offset len (_flush_type h)
                       RPMA_F_COMPLETION_ALWAYS p) ret]) x t.
Proof.
  intros h p Hok. unfold flush. do 2 wp_step. fold h.
  destruct (data_mr h =? NULL); simpl; [done|].
  apply wp_bind, wp_ret. eapply wp_mono; [apply (wp_post_recorded (fun q ret t' =>
    t' = t ++ [Ev (C_flush (conn (_conn (cl_base h))) (_image_mr h) offset len (_flush_type h)
                     RPMA_F_COMPLETION_ALWAYS q) ret])); [exact Hok|]|].
  - intros q pr Hq. unfold RpmaFlush_call, rpma_flush. wp_steps. simpl. split_and!; [done..|].
    rewrite outstanding_flush. destruct (Z.eqb_spec a 0); case_decide; set_solver.
  - intros [ret| |] x' t'; simpl; [|done..]. intros [Hrec Ht]. by exists ret.
Qed.

(** Giving the client a new source region replaces the old one: on success the
    new region is registered over the given memory and the old one deregistered
    exactly once; on failure the old region stays. *)
Theorem set_head_replaces {RD : RpmaDocumented O} ptr n x t L :
  let h := handler (self x) in
  (_peer (cl_base h) <> NULL -> RPeer (_peer (cl_base h)) ∈ L) ->
  ledger t = Some (L ⊎ owned_mr (data_mr h)) ->
  wp (set_head ptr n) (returns (fun ret x' t' =>
    let h' := handler (self x') in
    data_header h' = ptr /\ ledger t' = Some (L ⊎ owned_mr (data_mr h')) /\
    if ret =? 0 then data_mr h' <> NULL /\
      Ev (C_mr_reg (_peer (cl_base h)) ptr n RPMA_MR_USAGE_WRITE_SRC) (0, data_mr h') ∈ t'
    else data_mr h' = data_mr h)) x t.
Proof.
  intros h Hpeer HL. unfold set_head. apply wp_bind, wp_zoom. wp_step. do 2 wp_step.
  apply wp_bind. eapply wp_rpma_mr_reg; [exact HL| |].
  { intros Hp. apply gmultiset_elem_of_disj_union. left. by apply Hpeer. }
  intros ret raw t1 mr _ HL1. cbn beta iota. apply wp_if; intros Hret; bools.
  { rewrite (proj2 (Z.eqb_neq _ _) Hret) in HL1. destruct HL1. wp_step. simpl.
    by rewrite (proj2 (Z.eqb_neq _ _) Hret). }
  subst ret. destruct HL1 as (Hraw & Hmr & HL1). do 2 wp_step. apply wp_bind, wp_zoom. wp_step.
  apply wp_bind. eapply wp_mono; [apply (wp_mr_delete _ _ _ (L ⊎ {[+ RMr mr +]}))|].
  { simpl. fold h. rewrite HL1. f_equal. multiset_solver. }
  intros [[]| |] x' t'; simpl; [|done..]. intros (-> & HL' & Hpre & _). wp_step. simpl.
  split_and!; [done | by rewrite owned_mr_some | done |].
  eapply elem_of_prefix; [|exact Hpre]. unfold t1. rewrite Hraw. set_solver.
Qed.
End Properties.

(** ** Witnesses *)

(** A connected client whose receive buffer holds a message. *)
Definition demo_client (message : bytes) : Ctx Client :=
  let buffer data := {| bl_addr := 4096; bl_data := data |} in
  {| this := 500;
     self := {| handler := {| cl_base := with_recv_bl (buffer message)
                                (with_send_bl (buffer (replicate 4096 x00)) demo_ch);
                              _flush_type := RPMA_FLUSH_TYPE_VISIBILITY;
                              _address := []; _port := []; data_header := NULL;
                              data_mr := 22; _image_size := 10; _image_mr := NULL;
                              _image_name := [] |};
                frames := ∅; next_frame := 1 |};
     proc := {| heap := demo_heap; peers := {[100 := 1%nat]}; reactor := None |} |}.

Lemma demo_client_ops message : ops_ok (demo_client message) demo_calls.
Proof. destruct demo_ops_ok as [I1 I2 I3 I4]. by split. Qed.

Definition demo_reply (n : Z) : RwlReplicaInitRequestReply :=
  {| reply_type := RWL_REPLICA_INIT_SUCCESSED;
     desc := {| mr_desc_size := n; pcfg_desc_size := 1;
                descriptors := [xaa; xbb; xcc; xdd] ++ [x01] |} |}.
Definition demo_reply_message (n : Z) : bytes :=
  RwlReplicaInitRequestReply_encode (demo_reply n) [].

Lemma remote_descriptor_applied_witness :
  let d := [xaa; xbb; xcc; xdd] in
  let h := handler (self (demo_client (demo_reply_message 4))) in
  wp (get_remote_descriptor (O := host)) (returns (fun ret x' t' => exists pcfg mr a,
    Ev (C_peer_cfg_from_descriptor [x01] 1) (0, pcfg) ∈ t' /\
    Ev (C_conn_apply_remote_peer_cfg 9 pcfg) a ∈ t' /\
    Ev (C_mr_remote_from_descriptor d 4) (0, mr) ∈ t' /\
    handler (self x') = with_flush_type RPMA_FLUSH_TYPE_PERSISTENT (with_image_mr mr h) /\
    ret = 0)) (demo_client (demo_reply_message 4)) demo_calls.
Proof.
  intros d h. refine (remote_descriptor_applied (O := host) d [x01] [] true (2 ^ 40)
    (demo_client (demo_reply_message 4)) demo_calls _ _ _ _ _ _);
    try reflexivity; discriminate.
Defined.


Lemma clock_reads_length t : (clock_reads t <= length t)%nat.
Proof. apply List.filter_length_le. Qed.

Lemma host_time_passes :
  time_passes (O := host) 10 (10 * 1000 * 1000 * 6)
    (demo_calls ++ [Ev C_clock_now (10 * 1000 * 1000 * 6)]).
Proof.
  intros t' Ht'. pose proof (clock_reads_length t'). unfold answer_of, sized_host, WAIT_LIMIT.
  rewrite clock_reads_app in Ht'. unfold clock_reads at 2 in Ht'. simpl in Ht'. lia.
Qed.

Lemma polite_idle R `{!PreOrder R} : polite R (mret tt).
Proof. intros x t. wp_step. simpl. split_and!; [done | by intros | done]. Qed.



Lemma write_posts_witness :
  let h := handler (self (demo_client [])) in
  wp (write (O := host) 0 (1024 * 1024 * 1024) (set_completed_cb 1)) (fun o x' t' =>
    exists ret, o = Ret ret /\
      recorded RpmaWrite (set_completed_cb 1) ret (demo_client []) x' t' /\
      t' = demo_calls ++ [Ev (C_write 9 NULL 0 22 0 (1024 * 1024 * 1024)
                                RPMA_F_COMPLETION_ALWAYS 2) ret]) (demo_client []) demo_calls.
Proof.
  intros h. exact (write_posts (O := host) 0 (1024 * 1024 * 1024) (set_completed_cb 1)
    (demo_client []) demo_calls (demo_client_ops [])).
Defined.

Lemma flush_posts_witness :
  wp (flush (O := host) 0 64 (set_completed_cb 1)) (fun o x' t' =>
    exists ret, o = Ret ret /\
      recorded RpmaFlush (set_completed_cb 1) ret (demo_client []) x' t' /\
      t' = demo_calls ++ [Ev (C_flush 9 NULL 0 64 RPMA_FLUSH_TYPE_VISIBILITY
                                RPMA_F_COMPLETION_ALWAYS 2) ret]) (demo_client []) demo_calls.
Proof.
  exact (flush_posts (O := host) 0 64 (set_completed_cb 1)
    (demo_client []) demo_calls (demo_client_ops [])).
Defined.

Lemma set_head_replaces_witness :
  wp (set_head (O := host) 4096 64) (returns (fun ret x' t' =>
    let h' := handler (self x') in
    data_header h' = 4096 /\
    ledger t' = Some ({[+ RPeer 100; RMr 21; RConn 9 +]} ⊎ owned_mr (data_mr h')) /\
    if ret =? 0 then data_mr h' <> NULL /\
      Ev (C_mr_reg 100 4096 64 RPMA_MR_USAGE_WRITE_SRC) (0, data_mr h') ∈ t'
    else data_mr h' = 22)) (demo_client []) demo_calls.
Proof.
  refine (set_head_replaces (O := host) 4096 64 (demo_client []) demo_calls
    {[+ RPeer 100; RMr 21; RConn 9 +]} _ _).
  - intros _. multiset_solver.
  - by apply ledger_compute.
Defined.
