(* ===== verification/ClientSession.v ===== *)
(** * The life of the client's end of a connection

    Construction of a [ClientHandler], the completions it handles while requests of
    the main thread wait, and its destruction: what each leaves behind, errors
    included. *)

From S2P Require Import Prelude Librpma Effects LibrpmaApi Posix Resources.
From S2P Require Import CephEncoding WireFormat Types Reactor RpmaOp Quiet Host.
From S2P Require Import RpmaConn ConnectionHandler ClientHandler.

(** ** Specification *)

(** The callback is empty or refers to an activation that is on the stack. *)
Definition live_callback (m : gmap Z Frame) (cb : callback) : Prop :=
  cb = no_callback \/
  exists f, is_Some (m !! f) /\
    (cb = init_replica_cb f \/ cb = close_replica_cb f \/ cb = set_completed_cb f).

(** The client while it is connected: its operations are accounted for, and the
    callbacks librpma may still complete refer to activations that exist. *)
Record client_inv (x : Ctx Client) (t : trace) : Prop := {
  ci_ops : ops_ok x t;
  ci_callbacks p o :
    p ∈ callback_table (ch_of (self x)) -> ops (heap (proc x)) !! p = Some o ->
    live_callback (frames (self x)) (func o)
}.

(** A message that, if it is a successful reply, holds the bytes it declares. *)
Definition honest_reply {E : CephEncoding} (message : bytes) : Prop :=
  forall reply r, RwlReplicaInitRequestReply_decode message = Some (reply, r) ->
    let d := desc reply in
    0 <= mr_desc_size d /\ 0 <= pcfg_desc_size d /\
    mr_desc_size d + pcfg_desc_size d <= blen (descriptors d).

(** What the client's object owns. *)
Definition owned_client (h : ClientHandler) : gmultiset res :=
  owned_ch (cl_base h) ⊎ owned_mr (data_mr h).

(** What a callback does to the state: it keeps the base object and the process, and
    the activations that exist. *)
Record same_session (x x' : Ctx Client) : Prop := {
  ss_proc : proc x' = proc x;
  ss_base : ch_of (self x') = ch_of (self x);
  ss_frames f : is_Some (frames (self x) !! f) -> is_Some (frames (self x') !! f)
}.

(** ** Completions *)

Section Completions.
Context {O : Oracle} {E : CephEncoding}.

#[export] Instance same_session_preorder : PreOrder same_session.
Proof.
  split; [by split|]. intros x y z [P1 B1 F1] [P2 B2 F2].
  split; [congruence..|]. auto.
Qed.

Lemma slice_fits off len s :
  0 <= off -> 0 <= len -> off + len <= blen s -> exists d, slice off len s = Some d.
Proof. intros ? ? ?. unfold slice. rewrite !(proj2 (Z.leb_le _ _)) by done. by eexists. Qed.

Lemma wp_store_frame f fr upd (x : Ctx Client) t (Q : outcome unit -> Ctx Client -> trace -> Prop) :
  frames (self x) !! f = Some fr ->
  (forall x', same_session x x' -> Q (Ret tt) x' t) ->
  wp (fr ← read_frame f;
      modify (fun x => with_self (with_frames (<[f := upd fr]> (frames (self x))) (self x)) x))
    Q x t.
Proof.
  intros Hf HQ. apply wp_bind. eapply wp_read_frame; [done|]. wp_step. apply HQ.
  split; [done..|]. simpl. intros g Hg. rewrite lookup_insert. case_decide; [by eexists | done].
Qed.

Lemma quiet_apply_pcfg dst : calls quiet_call (apply_pcfg dst).
Proof. footprint. Qed.
Lemma quiet_get_remote_descriptor : calls quiet_call get_remote_descriptor.
Proof. footprint. Qed.

(** Reading the descriptors of an honest reply changes the handler's own members only. *)
Lemma wp_get_remote_descriptor_safe x t :
  honest_reply (bl_data (recv_bl (ch_of (self x)))) ->
  wp get_remote_descriptor (fun o x' t' =>
    same_session x x' /\ forall f, o <> Faulted f) x t.
Proof.
  intros Hh. unfold get_remote_descriptor. do 2 wp_step.
  destruct (RwlReplicaInitRequestReply_decode _) as [[reply r]|] eqn:Hdec; [|by wp_step].
  destruct (Hh _ _ Hdec) as (Hm & Hp & Hfit). apply wp_if; intros _; [by wp_step|].
  destruct (slice_fits (mr_desc_size (desc reply)) (pcfg_desc_size (desc reply))
    (descriptors (desc reply))) as [d1 Hd1]; [lia..|].
  destruct (slice_fits 0 (mr_desc_size (desc reply)) (descriptors (desc reply)))
    as [d2 Hd2]; [lia..|].
  apply wp_bind, (wp_mono _ (fun o x' _ => exists b : bool, o = Ret b /\ x' = x)).
  - unfold apply_pcfg. rewrite Hd1. apply wp_if; intros _; [wp_step; by eexists|].
    unfold rpma_peer_cfg_from_descriptor, rpma_peer_cfg_get_direct_write_to_pmem,
      rpma_conn_apply_remote_peer_cfg, rpma_peer_cfg_delete. wp_steps. by eexists.
  - intros o x' t' (b & -> & ->). rewrite Hd2.
    unfold rpma_mr_remote_from_descriptor, rpma_mr_remote_get_size, indeterminate, on_handler.
    wp_steps; done.
Qed.

(** A callback whose activation exists runs without fault, whatever message has arrived. *)
Lemma wp_ClientHandler_run cb x t :
  live_callback (frames (self x)) cb -> cb <> no_callback ->
  honest_reply (bl_data (recv_bl (ch_of (self x)))) ->
  wp (ClientHandler_run cb) (fun o x' t' =>
    (same_session x x' /\ forall f, o <> Faulted f) /\ extends quiet_call t t') x t.
Proof.
  intros Hlive Hne Hh. apply (calls_wp quiet_call); [footprint|].
  destruct Hlive as [-> | (f & [fr Hf] & [-> | [-> | ->]])]; [done|..]; simpl.
  - apply wp_bind. eapply wp_mono; [by apply wp_get_remote_descriptor_safe|].
    intros [ret|e|g] x1 t1 [Hs Hnf]; [|done|by destruct (Hnf g)].
    destruct (ss_frames _ _ Hs f) as [fr1 Hf1]; [eauto|].
    eapply wp_store_frame; [done|]. intros x2 Hs2. split; [|done]. by etrans.
  - unfold close_reply. do 2 wp_step. destruct (RwlReplicaRequest_decode _) as [[reply r]|]; [|by wp_step].
    apply wp_bind. eapply wp_store_frame; [done|]. intros x1 Hs.
    destruct (ss_frames _ _ Hs f) as [fr1 Hf1]; [eauto|].
    eapply wp_store_frame; [done|]. intros x2 Hs2. split; [|done]. by etrans.
  - eapply wp_store_frame; [done|]. by intros x1 Hs.
Qed.

Lemma client_inv_quiet x x' t t' :
  same_session x x' -> extends quiet_call t t' -> client_inv x t -> client_inv x' t'.
Proof.
  intros [Hp Hb Hf] Hq [[I1 I2 I3 I4] Hcb]. split.
  - split; rewrite ?Hp, ?Hb; try done. by rewrite (quiet_outstanding _ _ _ Hq).
  - rewrite Hp, Hb. intros p o Hin Ho.
    destruct (Hcb p o Hin Ho) as [|(f & Hl & Hk)]; [by left|]. right. exists f. auto.
Qed.

Lemma client_inv_ops x t t' : ops_ok x t' -> client_inv x t -> client_inv x t'.
Proof. intros Hok [_ Hcb]. by split. Qed.

(** The operation leaves the table; then its object goes. *)
Lemma client_inv_erased x t p :
  outstanding (QConn (conn (_conn (ch_of (self x))))) t ⊆ callback_table (ch_of (self x)) ∖ {[p]} ->
  client_inv x t -> client_inv (erased p x) t.
Proof.
  intros Hout [[I1 I2 I3 I4] Hcb]. split; simpl.
  - split; simpl; [|done..]. intros q Hq. apply I1. simpl in *. set_solver.
  - intros q o Hq. apply Hcb. simpl in *. set_solver.
Qed.

Lemma client_inv_freed x t p :
  p ∉ callback_table (ch_of (self x)) -> client_inv x t -> client_inv (freed p x) t.
Proof.
  intros Hp [Hok Hcb]. split; [by apply ops_inv_delete|]. simpl.
  intros q o Hq Ho. apply lookup_delete_Some in Ho as [_ Ho]. by eapply Hcb.
Qed.

Lemma wp_client_completion {CD : CompletionDocumented O} x t :
  client_inv x t -> honest_reply (bl_data (recv_bl (ch_of (self x)))) ->
  wp (handle_completion ClientHandler_run) (fun o x' t' =>
    client_inv x' t' /\ forall f, o <> Faulted f) x t.
Proof.
  intros Hinv Hh. pose proof (ci_ops _ _ Hinv) as Hok.
  assert (Herr : forall ret t', client_inv x t' ->
    completion_error ret x t' (fun o x' t' => client_inv x' t' /\ forall f, o <> Faulted f)).
  { intros ret t' [Hok' Hcb']. unfold completion_error. case_match; [done|]. intros a.
    split; [|done]. split; [|done]. apply ops_ok_torn. by apply ops_inv_other. }
  apply wp_handle_completion.
  { intros w _ _. apply Herr. eapply client_inv_ops; [|done]. by apply ops_inv_other. }
  intros ret cmpl t1 t2 Hw Hget.
  assert (Hinv2 : client_inv x t2) by (eapply client_inv_ops; [by apply ops_ok_completion | done]).
  destruct (ret =? 0) eqn:Hret; simpl; [|by apply Herr]. bools. subst ret.
  destruct (_ || _) eqn:Hst; [done|]. bools.
  destruct (completed_live x t 0 cmpl Hok Hget) as (Hin & [o Ho] & Hout); [done|].
  eapply wp_complete_op; [exact Ho|]. set (p := op_context cmpl) in *.
  pose proof (client_inv_erased x t2 p Hout Hinv2) as Hinv3.
  assert (Hfree : forall x' t', same_session (erased p x) x' -> extends quiet_call t2 t' ->
    is_Some (ops (heap (proc x')) !! p) /\ client_inv (freed p x') t').
  { intros x' t' Hs Hq. rewrite (ss_proc _ _ Hs). split; [by eexists|].
    apply client_inv_freed; [|by eapply client_inv_quiet].
    rewrite (ss_base _ _ Hs). simpl. set_solver. }
  unfold do_callback. case_bool_decide as Hcb.
  { wp_step. destruct (Hfree (erased p x) t2) as [? ?];
      [done | apply extends_refl | by split_and!]. }
  pose proof (ci_callbacks _ _ Hinv p o Hin Ho) as Hlive.
  eapply wp_mono; [apply wp_ClientHandler_run; [exact Hlive | done | exact Hh]|].
  intros r x' t' [[Hs Hnf] Hq]. destruct (Hfree x' t' Hs Hq) as [? ?].
  destruct r as [[]|e|f]; [by split_and!..|by destruct (Hnf f)].
Qed.
End Completions.

(** ** Construction and destruction *)

Section Construction.
Context {O : Oracle}.

(** The destructor gives back what the object owns. *)
Lemma wp_ClientHandler_dtor x t L :
  let c := cl_base (handler (self x)) in
  let m := peers (proc x) in
  ops_ok x t -> conn_inv (_conn c) t -> counted m (_peer c) ->
  ledger t = Some (L ⊎ last_owner m (_peer c) ⊎ owned_client (handler (self x))) ->
  wp ClientHandler_dtor (returns (fun _ x' t' =>
      ledger t' = Some L /\ peers (proc x') = drop_owner m (_peer c) /\
      reactor (proc x') = reactor (proc x) /\
      forall p, ops (heap (proc x')) !! p =
        if decide (p ∈ callback_table c) then None else ops (heap (proc x)) !! p)) x t.
Proof.
  intros c m Hops Hconn Hcount HL. unfold ClientHandler_dtor. do 2 wp_step.
  apply wp_bind. eapply wp_mono; [apply (calls_wp quiet_call); [footprint|]|].
  { apply (wp_mr_delete _ _ _ (L ⊎ last_owner m (_peer c) ⊎ owned_ch c)).
    rewrite HL. f_equal. unfold owned_client. fold c. multiset_solver. }
  intros [[]| |] x1 t1; simpl; [|by intros [[] _]..]. intros [(-> & HL1 & _) Hq].
  eapply wp_mono; [apply (wp_ConnectionHandler_dtor _ _ L)|]; [..|by intros].
  - destruct Hops as [I1 I2 I3 I4]. split; try done. by rewrite (quiet_outstanding _ _ _ Hq).
  - eapply conn_inv_prefix; [exact Hconn | by eapply extends_prefix].
  - done.
  - done.
Qed.

(** The peers of a process in which only the client has one. *)
Definition client_peers (p : Z) : gmap Z nat := if p =? NULL then ∅ else {[p := 1%nat]}.
Definition owned_peer (p : Z) : gmultiset res := if p =? NULL then ∅ else {[+ RPeer p +]}.

Lemma owned_peer_some p : p <> NULL -> owned_peer p = {[+ RPeer p +]}.
Proof. intros Hp. unfold owned_peer. by rewrite (proj2 (Z.eqb_neq _ _) Hp). Qed.

(** What holds while the constructor runs: nothing was posted, and the members
    account for the ledger. *)
Record assembling (L : gmultiset res) (h : op_heap) (x : Ctx Client) (t : trace) : Prop := {
  am_table : callback_table (cl_base (handler (self x))) = ∅;
  am_data : data_mr (handler (self x)) = NULL;
  am_queue : outstanding (QConn (conn (_conn (cl_base (handler (self x)))))) t = ∅;
  am_conn : conn_inv (_conn (cl_base (handler (self x)))) t;
  am_heap : heap (proc x) = h /\ heap_ok h;
  am_peers : peers (proc x) = client_peers (_peer (cl_base (handler (self x))));
  am_ledger : ledger t = Some (L ⊎ owned_peer (_peer (cl_base (handler (self x)))) ⊎
                               owned_ch (cl_base (handler (self x))))
}.

Lemma assembling_ops L h x t : assembling L h x t -> ops_ok x t.
Proof.
  intros [Ht _ Hq _ [Hh [Hn Hb]] _ _].
  split; simpl; rewrite ?Ht, ?Hq, ?Hh; [set_solver | done | done | done].
Qed.

Lemma last_owner_peers p : last_owner (client_peers p) p = owned_peer p.
Proof.
  unfold last_owner, client_peers, owned_peer. destruct (Z.eqb_spec p NULL) as [Hp|Hp].
  - rewrite bool_decide_eq_false_2; [done | tauto].
  - by rewrite lookup_singleton_eq, bool_decide_eq_true_2.
Qed.

(** An exception in the body: the destructors restore the process. *)
Lemma wp_disassemble L h x t :
  assembling L h x t ->
  wp ClientHandler_dtor (returns (fun _ x' t' =>
    ledger t' = Some L /\ peers (proc x') = ∅ /\ ops (heap (proc x')) = ops h)) x t.
Proof.
  intros Ha. pose proof (assembling_ops _ _ _ _ Ha) as Hok.
  destruct Ha as [Ht Hd Hq Hconn [Hh _] Hp HL]. set (p := _peer _) in *.
  eapply wp_mono; [apply (wp_ClientHandler_dtor x t L Hok Hconn)|].
  - fold p. intros Hn. rewrite Hp. unfold client_peers.
    rewrite (proj2 (Z.eqb_neq _ _) Hn), lookup_singleton_eq. eauto.
  - fold p. rewrite Hp, last_owner_peers, HL. f_equal. unfold owned_client. rewrite Hd.
    change (owned_mr NULL) with (∅ : gmultiset res). multiset_solver.
  - intros [[]| |] x' t'; simpl; [|done..]. fold p. intros (HL' & Hp' & _ & Ho).
    split_and!; [done| |].
    + rewrite Hp', Hp. unfold drop_owner, client_peers. destruct (p =? NULL); [done|].
      by rewrite lookup_singleton_eq, delete_singleton_eq.
    + apply map_eq. intros q. rewrite Ho, Ht, Hh. by rewrite decide_False by set_solver.
Qed.

(** A step that keeps the object, and one that changes the base object. *)
Lemma assembling_calls L L' h x t t' :
  assembling L h x t -> extends keeps_queues t t' ->
  ledger t' = Some (L' ⊎ owned_peer (_peer (cl_base (handler (self x)))) ⊎
                    owned_ch (cl_base (handler (self x)))) ->
  assembling L' h x t'.
Proof.
  intros [Ht Hd Hq Hconn Hh Hp HL] He HL'. split; try done.
  - by rewrite (extends_outstanding _ _ _ He).
  - eapply conn_inv_prefix; [done | by eapply extends_prefix].
Qed.

Context {RD : RpmaDocumented O}.

(** The end of the body: connecting, and reading the descriptors. *)
Lemma wp_client_connect L h req x t :
  let c := cl_base (handler (self x)) in
  assembling (L ⊎ {[+ RReq req +]}) h x t -> conn (_conn c) = NULL ->
  outstanding (QReq req) t = ∅ ->
  wp (connect_request req)
    (fun o x' t' => assembling L h x' t' /\ _peer (ch_of (self x')) = _peer c /\
       send_bl (ch_of (self x')) = send_bl c /\
       match o with
       | Ret _ => conn (_conn (ch_of (self x'))) <> NULL
       | Throw _ => True
       | Faulted _ => False
       end) x t.
Proof.
  intros c Ha Hnull Hout. unfold connect_request, indeterminate, rpma_conn_req_connect. do 4 wp_step.
  set (t1 := t ++ _). set (Lp := L ⊎ owned_peer (_peer c) ⊎ owned_ch c).
  assert (Ha1 : assembling (L ⊎ {[+ RReq req +]}) h x t1).
  { eapply assembling_calls; [done | by apply extends_snoc|]. apply ledger_neutral; try done. apply Ha. }
  assert (Hout1 : outstanding (QReq req) t1 = ∅) by (unfold t1; by rewrite outstanding_other).
  clearbody t1. wp_step. destruct a0 as [ret cn]. wp_step. set (t2 := t1 ++ _).
  assert (HL2 : ledger t2 = Some (if ret =? 0 then Lp ⊎ {[+ RConn cn +]} else Lp)).
  { apply ledger_connect. rewrite (am_ledger _ _ _ _ Ha1). f_equal. unfold Lp. fold c.
    multiset_solver. }
  destruct Ha1 as [Ht Hd Hq Hconn Hh Hp HL]. fold c in Ht, Hq, Hconn, Hp, HL.
  destruct (ret =? 0) eqn:Hret; cbn [negb]; bools.
  - subst ret. change (out_on_success 0 cn a) with cn. apply wp_bind, wp_on_ch, wp_zoom.
    unfold RpmaConn_reset. wp_step.
    assert (Hcn : cn <> NULL).
    { apply (documented_out t1 (C_conn_req_connect req) cn). by rewrite H0. }
    apply wp_on_ch. simpl. fold c. set (c2 := with_conn _ c).
    assert (Hnew : owned_conn (_conn c2) = {[+ RConn cn +]}).
    { unfold owned_conn. simpl. by rewrite (proj2 (Z.eqb_neq _ _) Hcn). }
    assert (Hrest : owned_ch c = owned_mr (recv_mr c) ⊎ owned_mr (send_mr c)).
    { unfold owned_ch, owned_conn. rewrite Hnull. simpl. multiset_solver. }
    assert (Hown : owned_ch c2 = owned_ch c ⊎ {[+ RConn cn +]}).
    { rewrite Hrest, <-Hnew. unfold owned_ch. simpl. multiset_solver. }
    eapply wp_mono; [apply (calls_wp quiet_call); [footprint|]|].
    { apply (wp_init_conn_fd _ _ (L ⊎ owned_peer (_peer c) ⊎ owned_mr (recv_mr c) ⊎
        owned_mr (send_mr c))). rewrite HL2, Hnew. f_equal. unfold Lp. rewrite Hrest.
      multiset_solver. }
    intros o c3 t3 [(Hc3 & HL3 & Hnf) Hq3].
    assert (Hfields : callback_table c3 = ∅ /\ _conn c3 = _conn c2 /\ _peer c3 = _peer c /\
      send_bl c3 = send_bl c /\ owned_ch c3 = owned_ch c2) by (rewrite Hc3; done).
    destruct Hfields as (F1 & F2 & F3 & F4 & F5).
    split_and!; simpl; [|done..|by destruct o as [|e|f]; [rewrite F2|..|destruct (Hnf f)]].
    split; simpl; rewrite ?F2, ?F3; try done.
    + rewrite (quiet_outstanding _ _ _ Hq3). simpl. unfold t2. by rewrite outstanding_connect.
    + rewrite F5, Hown, Hrest, HL3, Hnew. f_equal. multiset_solver.
  - change (NULL =? NULL) with true. cbn [negb]. cbn iota. wp_steps. split_and!; try done.
    split; fold c; try done.
    + unfold t2. by rewrite outstanding_connect_failed.
    + by apply conn_inv_app.
Qed.

(** The connection request, made with a configuration that is deleted again. *)
Lemma wp_client_request L h addr port (x : Ctx Client) t (Q : outcome Z -> Ctx Client -> trace -> Prop) :
  let p := _peer (cl_base (handler (self x))) in
  assembling L h x t ->
  (forall e t', assembling L h x t' -> Q (Throw e) x t') ->
  (forall req t', assembling (L ⊎ {[+ RReq req +]}) h x t' -> outstanding (QReq req) t' = ∅ ->
     Q (Ret req) x t') ->
  wp (new_request p addr port) Q x t.
Proof.
  intros p Ha Hthrow Hok.
  unfold new_request, rpma_conn_cfg_new, rpma_conn_cfg_set_sq_size, rpma_conn_cfg_set_rq_size,
    rpma_conn_cfg_set_cq_size, rpma_conn_req_new, rpma_conn_cfg_delete.
  pose proof (am_ledger _ _ _ _ Ha) as HL. fold p in HL.
  set (Lo := L ⊎ owned_peer p ⊎ owned_ch _) in HL. do 3 wp_step. destruct a as [ret cfg]. wp_step.
  destruct (ret =? 0) eqn:Hret; cbn [negb].
  2: { wp_step. apply Hthrow. eapply assembling_calls; [done | by apply extends_snoc|].
       apply ledger_neutral; try done. simpl. by rewrite Hret. }
  bools. subst ret. change (out_on_success 0 cfg NULL) with cfg.
  assert (HL1 : ledger (t ++ [Ev C_conn_cfg_new (0, cfg)]) = Some (Lo ⊎ {[+ RCfg cfg +]})).
  { by eapply ledger_acquire. }
  do 9 wp_step. match goal with |- context[Ev (C_conn_req_new _ _ _ _) ?x] => destruct x as [ret req] end. wp_step. set (t5 := (_ ++ _) ++ [Ev (C_conn_req_new _ _ _ _) _]).
  assert (HL5 : ledger t5 = Some (Lo ⊎ {[+ RCfg cfg +]} ⊎ (if ret =? 0 then {[+ RReq req +]} else ∅))).
  { assert (Hu : Forall (.∈ Lo ⊎ {[+ RCfg cfg +]}) (uses (C_conn_req_new p addr port cfg))).
    { simpl. apply Forall_app. split; apply Forall_nonnull; intros Hn; [|multiset_solver].
      unfold Lo. rewrite (owned_peer_some p Hn). multiset_solver. }
    unfold t5. destruct (ret =? 0) eqn:Hret; [apply ledger_acquire|rewrite gmultiset_disj_union_right_id; apply ledger_use];
      try done; try (by repeat ledger_step); simpl; by rewrite Hret. }
  assert (Hout5 : forall q, outstanding q t5 = if decide (QReq req = q /\ ret = 0) then ∅ else outstanding q t).
  { intros q. unfold t5. rewrite outstanding_conn_req_new. simpl.
    by rewrite !outstanding_other. }
  assert (Hpre : t `prefix_of` t5) by (unfold t5; rewrite <-!app_assoc; by eexists).
  clearbody t5. do 4 wp_step. set (t6 := t5 ++ [Ev (C_conn_cfg_delete _) _]).
  assert (HL6 : ledger t6 = Some (Lo ⊎ (if ret =? 0 then {[+ RReq req +]} else ∅))).
  { eapply ledger_release; try done. rewrite HL5. f_equal. multiset_solver. }
  assert (Ha6 : forall L', ledger t6 = Some (L' ⊎ owned_peer p ⊎ owned_ch (cl_base (handler (self x)))) ->
    assembling L' h x t6).
  { intros L' HL'. destruct Ha as [Ht Hd Hq Hconn Hh Hp _]. split; try done.
    - unfold t6. rewrite outstanding_other, Hout5, decide_False by done || (by intros [? _]). done.
    - eapply conn_inv_prefix; [done|]. etrans; [done|]. by eexists. }
  assert (Hout6 : ret = 0 -> outstanding (QReq req) t6 = ∅).
  { intros Hr. unfold t6. rewrite outstanding_other, Hout5 by done. by rewrite decide_True. }
  clearbody t6. destruct (ret =? 0) eqn:Hret; cbn [negb]; wp_step.
  - bools. subst ret. apply Hok; [apply Ha6; rewrite HL6; f_equal; unfold Lo; multiset_solver|].
    by apply Hout6.
  - apply Hthrow, Ha6. rewrite HL6. f_equal. unfold Lo. multiset_solver.
Qed.

(** The process before it makes the client: no peer, nothing posted. *)
Record starting (L : gmultiset res) (addr port : bytes) (x : Ctx Client) (t : trace) : Prop := {
  st_self : exists a b f d n m, handler (self x) = ClientHandler_init addr port a b f d n m;
  st_heap : heap_ok (heap (proc x));
  st_peers : peers (proc x) = ∅;
  st_queue : outstanding (QConn NULL) t = ∅;
  st_ledger : ledger t = Some L
}.

(** Once the peer is there: the buffers, the request and the connection. *)
Lemma wp_client_after_peer L h p addr port x2 t1 :
  assembling L h x2 t1 -> p <> NULL -> recv_mr (ch_of (self x2)) = NULL ->
  send_mr (ch_of (self x2)) = NULL -> _peer (ch_of (self x2)) = p ->
  conn (_conn (ch_of (self x2))) = NULL ->
  wp (on_ch init_send_recv_buffer;; req ← new_request p addr port; connect_request req)
    (fun o x' t' => assembling L h x' t' /\
    match o with
    | Ret _ => conn (_conn (ch_of (self x'))) <> NULL /\ _peer (ch_of (self x')) <> NULL /\
        blen (bl_data (send_bl (ch_of (self x')))) = MSG_SIZE
    | Throw _ => True
    | Faulted _ => False
    end) x2 t1.
Proof.
  intros Ha2 Hp Hr Hs Hp2 Hn2.
  apply wp_bind, wp_on_ch. eapply wp_mono; [apply (calls_wp quiet_call); [footprint|]|].
  { apply (wp_init_send_recv_buffer _ _ (L ⊎ {[+ RPeer p +]}) Hr Hs).
    - intros _. rewrite Hp2. multiset_solver.
    - rewrite (am_ledger _ _ _ _ Ha2). simpl in Hp2 |- *. by rewrite Hp2, (owned_peer_some p Hp). }
  intros o c3 t3 [((T3 & C3 & P3) & Ho3 & HL3 & Ho) Hq3]. set (x3 := with_self _ x2).
  assert (Ha3 : assembling L h x3 t3).
  { destruct Ha2 as [Ht Hd Hq Hconn Hh Hpe HL2]. split; simpl; rewrite ?T3, ?C3, ?P3; try done.
    - by rewrite Ho3.
    - eapply conn_inv_prefix; [done | by eapply extends_prefix].
    - rewrite HL3, Hp2, (owned_peer_some p Hp). done. }
  destruct o as [[]|e|g]; [|by split|done]. destruct Ho as (_ & _ & _ & Hbuf).
  assert (Hp3 : _peer (cl_base (handler (self x3))) = p) by (simpl; by rewrite P3).
  rewrite <-Hp3. apply wp_bind. eapply wp_client_request; [exact Ha3|..].
  { intros e t4 Ha4. by split. }
  intros req t4 Ha4 Hout4.
  eapply wp_mono; [apply (wp_client_connect L h req x3 t4 Ha4); [simpl; by rewrite C3 | done]|].
  intros o x5 t5 (Ha5 & Hp5 & Hbl5 & Ho). split; [done|]. destruct o; [|done..].
  split; [done|]. split.
  - intros Hz. apply Hp. rewrite <-Hp3. etrans; [symmetry; exact Hp5 | exact Hz].
  - simpl in *. by rewrite Hbl5.
Qed.

Lemma wp_ClientHandler_body L addr port x t :
  starting L addr port x t ->
  wp (ClientHandler_body addr port) (fun o x' t' =>
    assembling L (heap (proc x)) x' t' /\
    match o with
    | Ret _ => conn (_conn (ch_of (self x'))) <> NULL /\ _peer (ch_of (self x')) <> NULL /\
        blen (bl_data (send_bl (ch_of (self x')))) = MSG_SIZE
    | Throw _ => True
    | Faulted _ => False
    end) x t.
Proof.
  intros [(a & b & f & d & n & m & Hself) Hheap Hpeers Hqueue HL]. set (h := heap (proc x)).
  destruct x as [th [hd fr nf] pr]. simpl in *. subst hd. unfold ClientHandler_body, peer_own.
  set (x := {| this := th; self := _; proc := pr |}). apply wp_bind. eapply wp_mono; [apply (calls_wp quiet_call); [footprint|]|].
  { eapply (wp_common_peer _ _ _ _ _ L (fun o s' t' => exists ret p, o = Ret (ret, p) /\ s' = x /\
      if ret =? 0 then p <> NULL /\ ledger t' = Some (L ⊎ {[+ RPeer p +]})
      else p = NULL /\ ledger t' = Some L) HL). intros ret p t' Hp. by exists ret, p. }
  intros o x1 t1 [(ret & p & -> & -> & H1) Hq1]. cbn beta iota.
  assert (Hstart : forall p', owned_ch (with_peer p' (ConnectionHandler_ctor a b)) = ∅) by done.
  apply wp_if; intros Hret; bools.
  { rewrite (proj2 (Z.eqb_neq _ _) Hret) in H1. destruct H1 as [-> HL1]. wp_step. split; [|done].
    split; simpl; try done.
    - by rewrite (quiet_outstanding _ _ _ Hq1).
    - intros Hn. by destruct Hn.
    - rewrite HL1. f_equal. change (owned_ch (ConnectionHandler_ctor a b)) with (∅ : gmultiset res).
      change (owned_peer NULL) with (∅ : gmultiset res). multiset_solver. }
  subst ret. destruct H1 as [Hp HL1]. apply wp_bind, wp_on_ch. wp_step.
  apply wp_bind, wp_zoom. wp_step. simpl. set (x2 := with_proc _ _).
  assert (Ha2 : assembling L h x2 t1).
  { split; simpl; try done.
    - by rewrite (quiet_outstanding _ _ _ Hq1).
    - intros Hn. by destruct Hn.
    - unfold client_peers. by rewrite Hpeers, (proj2 (Z.eqb_neq _ _) Hp).
    - rewrite HL1, Hstart, (owned_peer_some p Hp). f_equal. multiset_solver. }
  assert (Hx2 : recv_mr (ch_of (self x2)) = NULL /\ send_mr (ch_of (self x2)) = NULL /\
    _peer (ch_of (self x2)) = p /\ conn (_conn (ch_of (self x2))) = NULL) by done.
  destruct Hx2 as (Hr & Hs & Hp2 & Hn2). by apply wp_client_after_peer.
Qed.
End Construction.

(** ** Properties *)

Section Properties.
Context {O : Oracle} {E : CephEncoding}.



(** Destroying the client's handler gives back everything it owns exactly once: the
    source region, the message regions, the connection, the operations in the
    table, and the peer with its last owner. *)
Theorem ClientHandler_dtor_releases x t L :
  let c := cl_base (handler (self x)) in
  let m := peers (proc x) in
  ops_ok x t -> conn_inv (_conn c) t -> counted m (_peer c) ->
  ledger t = Some (L ⊎ last_owner m (_peer c) ⊎ owned_client (handler (self x))) ->
  wp ClientHandler_dtor (returns (fun _ x' t' =>
      ledger t' = Some L /\ peers (proc x') = drop_owner m (_peer c) /\
      reactor (proc x') = reactor (proc x) /\
      forall p, ops (heap (proc x')) !! p =
        if decide (p ∈ callback_table c) then None else ops (heap (proc x)) !! p)) x t.
Proof. apply wp_ClientHandler_dtor. Qed.
End Properties.

(** ** Witnesses *)

(** A client in the middle of [init_replica]: its activation waits, the receive for
    the reply is posted, and the reply has arrived. *)
Definition waiting_op : RpmaOp := {| class := RpmaRecv; func := init_replica_cb 1 |}.
Definition waiting_client : Ctx Client :=
  let x := demo_client (demo_reply_message 4) in
  {| this := this x;
     self := {| handler := handler (self x);
                frames := {[1 := {| completed := false; successed := false |}]};
                next_frame := 2 |};
     proc := with_heap {| ops := {[1 := waiting_op]}; next_op := 2 |} (proc x) |}.

Lemma waiting_client_inv : client_inv waiting_client demo_calls.
Proof.
  split.
  - destruct demo_ops_ok as [I1 I2 I3 I4]. split; [| |done|done].
    + intros p Hp. simpl in Hp. apply elem_of_singleton in Hp as ->. by eexists.
    + intros p Hp. simpl in *. destruct (decide (p = 1)) as [->|]; [lia|].
      rewrite lookup_singleton_ne in Hp by done. by destruct Hp.
  - simpl. intros p o ->%elem_of_singleton. rewrite lookup_singleton_eq. intros [= <-].
    right. exists 1. rewrite lookup_singleton_eq. split; [by eexists | by left].
Qed.

Lemma demo_reply_honest : honest_reply (demo_reply_message 4).
Proof.
  intros reply r. assert (H : RwlReplicaInitRequestReply_decode (demo_reply_message 4) =
    Some (demo_reply 4, [])) by reflexivity. rewrite H. by intros [= <- <-].
Qed.


Definition new_client : Ctx Client :=
  {| this := 500;
     self := {| handler := ClientHandler_init (str "10.0.0.1") (str "7777") 0 0
                             RPMA_FLUSH_TYPE_PERSISTENT 0 0 0;
                frames := ∅; next_frame := 1 |};
     proc := {| heap := {| ops := ∅; next_op := 1 |}; peers := ∅; reactor := None |} |}.

Lemma new_client_starting : starting ∅ (str "10.0.0.1") (str "7777") new_client [].
Proof.
  split; try done.
  - by exists 0, 0, RPMA_FLUSH_TYPE_PERSISTENT, 0, 0, 0.
  - split; [done|]. simpl. intros p [o Ho]. by rewrite lookup_empty in Ho.
Qed.


Lemma ClientHandler_dtor_releases_witness :
  wp (ClientHandler_dtor (O := host)) (returns (fun _ x' t' =>
      ledger t' = Some ∅ /\ peers (proc x') = drop_owner {[100 := 1%nat]} 100 /\
      reactor (proc x') = None /\
      forall p, ops (heap (proc x')) !! p =
        if decide (p ∈ callback_table demo_ch) then None
        else ((({[1 := waiting_op]} : gmap Z RpmaOp)) !! p))) waiting_client
    (demo_calls ++ [Ev (C_mr_reg 100 0 64 RPMA_MR_USAGE_WRITE_SRC) (0, 22)]).
Proof.
  refine (ClientHandler_dtor_releases (O := host) waiting_client
    (demo_calls ++ [Ev (C_mr_reg 100 0 64 RPMA_MR_USAGE_WRITE_SRC) (0, 22)]) ∅ _ _ _ _).
  - apply ops_inv_other; [done | apply waiting_client_inv].
  - intros _ [=].
  - intros _. by exists 0%nat.
  - by apply ledger_compute.
Defined.
