(* ===== verification/Handshake.v ===== *)
(** * The two ends together

    What the server writes about its replica is what the client's library is
    given: the reply travels from the server's send buffer to the client's receive
    buffer, each end running against its own host. *)

From S2P Require Import Prelude Librpma Effects LibrpmaApi Posix Resources.
From S2P Require Import CephEncoding WireFormat Types MemoryManager Reactor RpmaOp Quiet Host.
From S2P Require Import RpmaConn ConnectionHandler RPMAHandler ClientHandler.

(** What the client's host is assumed to do with descriptors: it accepts them, tells
    from a configuration whether writes reach persistent memory ([direct]), and
    knows the size of a remote region. *)
Record accepts_descriptors (O : Oracle) (direct : bool) (size : Z) : Prop := {
  accepts_pcfg t d n : (answer_of t (C_peer_cfg_from_descriptor d n)).1 = 0;
  reads_direct t pcfg : answer_of t (C_peer_cfg_get_direct_write_to_pmem pcfg) = (0, direct);
  accepts_mr t d n : (answer_of t (C_mr_remote_from_descriptor d n)).1 = 0;
  reads_size t mr : answer_of t (C_mr_remote_get_size mr) = (0, size)
}.

(** The network copies the server's send buffer to the client's receive buffer. *)
Definition transmitted (s : RPMAHandler) (c : ClientHandler) : Prop :=
  bl_data (recv_bl (cl_base c)) = bl_data (send_bl (rh_base s)).

(** The descriptor of a peer configuration is not empty. *)
Definition pcfg_descriptors_not_empty (O : Oracle) : Prop :=
  forall t pcfg d, answer_of t (C_peer_cfg_get_descriptor pcfg) = (0, d) -> d <> [].


(** ** Witnesses *)

Lemma host_accepts_descriptors : accepts_descriptors host true (2 ^ 40).
Proof. by split. Qed.

Lemma host_pcfg_not_empty : pcfg_descriptors_not_empty host.
Proof. intros t pcfg d [= <-]. discriminate. Qed.

