(* ===== verification/Client.v ===== *)
(** * The client program ([client.cc]) *)

From S2P Require Import Prelude Librpma Effects.

(** ** The data it writes to the replica *)

(** [char data[]] of [main]; [strlen(data)] is its length. *)
Definition data : bytes :=
  str "abcdefghijklmnopqrstuvwxyzABCDEFGHIJKLMNOPQRSTUVWXYZ1234567890-" ++ [x0a].

(** The size of the region: one GiB. *)
Definition mr_size : Z := 1024 * 1024 * 1024.

(** Conversion to [int]. *)
Definition to_int (x : Z) : Z := (x + 2 ^ 31) mod 2 ^ 32 - 2 ^ 31.

(** [for (int i = 0; i < mr_size; i += data_size) memcpy(mr_ptr + i, data, data_size);]
    on the region's memory, at most [fuel] turns; the result says whether the loop
    has ended.  The comparison converts [i] to [size_t]. *)
Fixpoint fill_loop (fuel : nat) (size i : Z) : M bytes bool :=
  match fuel with
  | 0%nat => mret false
  | S fuel =>
      if u64 i <? size then
        mem ← get;
        mem' ← of_option OutOfBounds (memcpy_at (Z.to_nat i) data mem);
        modify (fun _ => mem');;
        fill_loop fuel size (to_int (u64 (i + blen data)))
      else mret true
  end.

(** ** Lemmas *)

Lemma blen_data : blen data = 64.
Proof. reflexivity. Qed.

Lemma to_int_small x : 0 <= x < 2 ^ 31 -> to_int (u64 x) = x.
Proof.
  intros H. unfold to_int, u64. rewrite (Z.mod_small x) by lia.
  rewrite Z.mod_small by lia. lia.
Qed.

(** The region with its first [k] pieces written. *)
Definition pieces (k : nat) : bytes := concat (replicate k data).

Lemma length_pieces k : length (pieces k) = (64 * k)%nat.
Proof.
  unfold pieces. induction k as [|k IH]; [done|]. simpl. change (length data) with 64%nat in *.
  rewrite IH. lia.
Qed.

Lemma pieces_snoc k : pieces (S k) = pieces k ++ data.
Proof.
  unfold pieces. induction k as [|k IH]; [reflexivity|].
  change (replicate (S (S k)) data) with (data :: replicate (S k) data).
  transitivity (data ++ (concat (replicate k data) ++ data)); [by rewrite <-IH|].
  by rewrite app_assoc.
Qed.

(** One turn writes the next piece. *)
Lemma write_piece k rest :
  (64 <= length rest)%nat ->
  memcpy_at (64 * k) data (pieces k ++ rest) = Some (pieces (S k) ++ drop 64 rest).
Proof.
  intros Hr. unfold memcpy_at. change (length data) with 64%nat.
  rewrite decide_True by (rewrite length_app, length_pieces; lia). f_equal.
  rewrite take_app_length' by (by rewrite length_pieces).
  rewrite drop_app, drop_ge by (rewrite length_pieces; lia).
  rewrite length_pieces, pieces_snoc, <-app_assoc. by replace (64 * k + 64 - 64 * k)%nat with 64%nat by lia.
Qed.

Lemma fill_loop_from n k rest t :
  64 * Z.of_nat (k + n) < 2 ^ 31 -> length rest = (64 * n)%nat ->
  wp (fill_loop (S n) (64 * Z.of_nat (k + n)) (64 * Z.of_nat k))
    (fun o mem t' => o = Ret true /\ mem = pieces (k + n) /\ t' = t) (pieces k ++ rest) t.
Proof.
  revert k rest. induction n as [|n IH]; intros k rest Hmax Hrest; simpl.
  - unfold u64. rewrite Z.mod_small by lia. rewrite (proj2 (Z.ltb_ge _ _)) by lia. wp_step.
    destruct rest; [|done]. by rewrite app_nil_r, Nat.add_0_r.
  - unfold u64 at 1. rewrite Z.mod_small by lia. rewrite (proj2 (Z.ltb_lt _ _)) by lia.
    do 3 wp_step. apply wp_of_option.
    replace (Z.to_nat (64 * Z.of_nat k)) with (64 * k)%nat by lia.
    rewrite write_piece by lia. do 2 wp_step. rewrite blen_data, to_int_small by lia.
    replace (64 * Z.of_nat k + 64) with (64 * Z.of_nat (S k)) by lia.
    replace (k + S n)%nat with (S k + n)%nat in * by lia.
    apply IH; [lia|]. rewrite length_drop. lia.
Qed.

(** ** Properties *)

(** C28: the loop that prepares the client's data ends, stays inside the region and
    fills it completely with copies of the text, for every region that is a whole
    number of copies below two GiB; the client's region of one GiB is one. *)
Theorem fill_loop_fills n mem t :
  64 * Z.of_nat n < 2 ^ 31 -> blen mem = 64 * Z.of_nat n ->
  wp (fill_loop (S n) (64 * Z.of_nat n) 0)
    (fun o mem' t' => o = Ret true /\ mem' = concat (replicate n data) /\ t' = t) mem t /\
  64 * 2 ^ 24 = mr_size.
Proof.
  intros Hmax Hlen. split; [|reflexivity].
  apply (fill_loop_from n 0 mem t); [done|]. unfold blen in Hlen. lia.
Qed.

Lemma fill_loop_fills_witness :
  wp (fill_loop 3 128 0)
    (fun o mem' t' => o = Ret true /\ mem' = data ++ data ++ [] /\ t' = [])
    (replicate 128 x00) [].
Proof. apply (fill_loop_fills 2 (replicate 128 x00) []); reflexivity. Defined.
