(* ===== verification/ClientMain.v ===== *)
(** * The client program ([main] of [client.cc])

    The main thread makes the reactor and the client, starts a thread for the reactor
    and then runs: it asks for a replica, writes its data and flushes it, waiting each
    time for a flag that the callback sets in the other thread.  The reactor's thread
    runs in turns: one while the main thread yields or finds a flag unset, and any
    number of them between two statements of the main thread. *)

From S2P Require Import Prelude Librpma Effects LibrpmaApi Posix Resources.
From S2P Require Import CephEncoding WireFormat Types Reactor RpmaOp Quiet Host.
From S2P Require Import RpmaConn ConnectionHandler ClientHandler ClientSession Client.

(** ** Operations *)

(** Code on local data of the running function. *)
Definition locally {S T A} (v : T) (m : M T A) : M S (A * T) := fun s t =>
  match m v t with
  | (Ret a, v', t') => (Ret (a, v'), s, t')
  | (Throw e, _, t') => (Throw e, s, t')
  | (Faulted f, _, t') => (Faulted f, s, t')
  end.

(** [m], and then [k] unless [m] is still running. *)
Definition and_then {S A B} (m : M S (option A)) (k : A -> M S (option B)) : M S (option B) :=
  r ← m; match r with Some a => k a | None => mret None end.

Notation "x <~ m ; k" := (and_then m (fun x => k))
  (at level 20, m at level 100, k at level 200, right associativity) : rpma_scope.

(** How the [try] block of [main] ends: it returns, or goes on with [rpma_client] set
    or not. *)
Inductive started := Returned (ret : Z) | Continues (rpma_client : bool).

Section Operations.
Context {O : Oracle} {E : CephEncoding} {N : Wire}.
Abbreviation Cl := (M (Ctx Client)).

(** *** The reactor's thread *)

(** What the server sent is in the receive buffer. *)
Definition arrive : Cl unit := fun x t =>
  let c := cl_base (handler (self x)) in
  let bl := {| bl_addr := bl_addr (recv_bl c); bl_data := received t (conn (_conn c)) |} in
  (Ret tt, with_self (set_ch (with_recv_bl bl c) (self x)) x, t).

(** The virtual call of the event loop; the client is the only handler. *)
Definition client_dispatch (h : Z) (et : EventType) : Cl Z :=
  x ← get;
  if h =? this x then arrive;; ClientHandler_handle et else fail_with (UseAfterFree h).

(** One turn of the thread: [handle_events] and the loop around it go on until the table
    is empty.  An exception that leaves the thread ends the process. *)
Definition thread_turn : Cl unit :=
  r ← gets (fun x => reactor (proc x));
  match r with
  | None => fail_with NullDereference
  | Some r =>
      if empty_table r then mret tt else
      try_catch
        (handle_event (fun x => default r (reactor (proc x))) client_dispatch;; mret tt)
        (fun _ => fail_with Terminate)
  end.

Fixpoint thread_turns (n : nat) : Cl unit :=
  match n with 0%nat => mret tt | S n => thread_turn;; thread_turns n end.

(** *** The loops of the main thread, at most [fuel] turns *)

(** [while (connected.load() != true);] *)
Fixpoint wait_established (fuel : nat) : Cl (option unit) :=
  match fuel with
  | 0%nat => mret None
  | S fuel =>
      c ← gets (fun x => ch_of (self x));
      if connected c then mret (Some tt) else thread_turn;; wait_established fuel
  end.

(** [while (completed == false);] *)
Fixpoint spin (fuel : nat) (f : Z) : Cl (option unit) :=
  match fuel with
  | 0%nat => mret None
  | S fuel =>
      fr ← read_frame f;
      if completed fr then mret (Some tt) else thread_turn;; spin fuel f
  end.

(** [th1.join()] *)
Fixpoint join (fuel : nat) : Cl (option unit) :=
  match fuel with
  | 0%nat => mret None
  | S fuel =>
      r ← gets (fun x => reactor (proc x));
      if match r with Some r => empty_table r | None => true end
      then mret (Some tt) else thread_turn;; join fuel
  end.

(** *** The shared pointers of [main] *)

(** The table of the reactor refers to the client. *)
Definition client_referenced (x : Ctx Client) : bool :=
  match reactor (proc x) with
  | Some r => List.existsb (fun e => eh_handler e.2.2 =? this x) (map_to_list (event_table r))
  | None => false
  end.

(** The end of [rpma_client], then of [reactor], at a return of [main]. *)
Definition release_client : Cl unit :=
  x ← get; if client_referenced x then mret tt else ClientHandler_dtor.

Definition release_reactor : Cl unit :=
  x ← get;
  match reactor (proc x) with
  | Some r =>
      close_fd (_epoll r);;
      (if client_referenced x then ClientHandler_dtor else mret tt);;
      modify (fun x => with_proc (with_reactor None (proc x)) x)
  | None => mret tt
  end.

(** *** The parts of [main] *)

(** The [try] block.  Members without initializer keep what the storage held. *)
Definition start (addr port : bytes) : Cl started :=
  try_catch
    (r ← Reactor_ctor;
     modify (fun x => with_proc (with_reactor (Some r) (proc x)) x);;
     on_handler (modify (fun h => ClientHandler_init addr port (_conn_fd (cl_base h))
       (_comp_fd (cl_base h)) (_flush_type h) (data_header h) (_image_size h) (_image_mr h)));;
     ClientHandler_ctor addr port;;
     ret ← ClientHandler_register_self;
     mret (if negb (ret =? 0) then Returned ret else Continues true))
    (fun e => match e with runtime_error _ => mret (Continues false) | _ => throw e end).

(** The data: without memory [main] returns while the thread runs. *)
Definition prepare (fuel : nat) (size : Z) : Cl (option bufferlist) :=
  bl ← new_bufferlist size;
  if bl_addr bl =? NULL then fail_with Terminate else
  '(ended, mem) ← locally (bl_data bl) (fill_loop fuel size 0);
  mret (if (ended : bool) then Some {| bl_addr := bl_addr bl; bl_data := mem |} else None).

(** After [k] turns of the thread, [post] posts an operation whose callback sets the
    flag of [f], and [main] waits for the flag. *)
Definition post_and_wait (fuel k : nat) (f : Z) (post : Cl Z) : Cl (option unit) :=
  thread_turns k;; post;; spin fuel f.

(** The data is written and then flushed; what [main] prints in between of a file on the
    local machine is left out. *)
Definition write_and_flush (fuel k1 k2 k3 : nat) (size f : Z) : Cl (option unit) :=
  _ <~ post_and_wait fuel k1 f (write 0 size (set_completed_cb f));
  thread_turns k2;;
  store_completed f false;;
  post_and_wait fuel k3 f (flush 0 size (set_completed_cb f)).

(** [main]; [sched] says how many turns the thread takes between the statements, and
    [None] that [main] is still in one of its loops after [fuel] turns of it. *)
Definition main_with (sched : nat -> nat) (fuel : nat) (size : Z) (addr port : bytes)
    : Cl (option Z) :=
  st ← start addr port;
  match st with
  | Returned ret => release_client;; release_reactor;; mret (Some ret)
  | Continues false => fail_with NullDereference
  | Continues true =>
      _ <~ wait_established fuel;
      thread_turns (sched 0%nat);;
      _ <~ init_replica thread_turn fuel 1 REQUIRE_SIZE (str "RBD") (str "test");
      thread_turns (sched 1%nat);;
      bl <~ prepare fuel size;
      thread_turns (sched 2%nat);;
      set_head (bl_addr bl) size;;
      f ← push_frame;
      _ <~ write_and_flush fuel (sched 3%nat) (sched 4%nat) (sched 5%nat) size f;
      thread_turns (sched 6%nat);;
      disconnect;;
      _ <~ join fuel;
      pop_frame f;;
      release_client;;
      release_reactor;;
      mret (Some 0)
  end.

Definition client_main (sched : nat -> nat) (fuel : nat) : bytes -> bytes -> Cl (option Z) :=
  main_with sched fuel mr_size.

(** The whole program.  A null address reaches the constructor of the client, which makes a
    string of it; without a reactor the null client is used. *)
Definition client_program (sched : nat -> nat) (fuel : nat) (argv : list bytes) : Cl (option Z) :=
  configure_logging;;
  addr ← argument argv 1;
  port ← argument argv 2;
  match addr, port with
  | Some addr, Some port => client_main sched fuel addr port
  | _, _ => try_catch (Reactor_ctor;; fail_with NullDereference) (fun _ => fail_with NullDereference)
  end.
End Operations.

(** With all arguments, [client_main] runs behind the two calls for the logging. *)
Lemma wp_client_program {O : Oracle} {E : CephEncoding} {N : Wire} sched fuel prog addr port rest Q x t :
  (forall a b, wp (client_main sched fuel addr port) Q x (t ++ logged a b)) ->
  wp (client_program sched fuel (prog :: addr :: port :: rest)) Q x t.
Proof.
  intros HQ. unfold client_program. apply wp_bind, wp_configure_logging. intros a b.
  do 2 (apply wp_bind; apply wp_ret). apply HQ.
Qed.
