(* ===== verification/ClientTurns.v ===== *)
(** * What the two threads of the client do to each other

    A turn of the reactor's thread posts nothing; it changes the variables that a callback
    captured only by completing the operation with that callback. *)

From S2P Require Import Prelude Librpma Effects LibrpmaApi Posix Resources.
From S2P Require Import CephEncoding WireFormat Types Reactor RpmaOp Quiet Host.
From S2P Require Import RpmaConn ConnectionHandler ClientHandler ClientSession Client ClientMain.

(** ** Specification *)

(** The operation [p] has completed with success. *)
Definition succeeded (p : Z) (t : trace) : Prop :=
  exists cn op len, Ev (C_conn_completion_get cn) (0, Completion p op len IBV_WC_SUCCESS) ∈ t.

(** The activation whose variables a callback sets. *)
Definition callback_frame (cb : callback) : option Z :=
  match cb with
  | init_replica_cb f | close_replica_cb f | set_completed_cb f => Some f
  | _ => None
  end.

(** Code that posts nothing and returns from nothing: no new operations, and the
    variables of the activations in [F] keep their values. *)
Record steady (F : Z -> Prop) (x : Ctx Client) (t : trace) (x' : Ctx Client) (t' : trace)
    : Prop := {
  sd_ops : ops (heap (proc x')) ⊆ ops (heap (proc x));
  sd_next : next_frame (self x') = next_frame (self x);
  sd_frames f : F f -> frames (self x') !! f = frames (self x) !! f;
  sd_calls : extends (fun _ => true) t t'
}.

(** The same, but the variables of [f] may have been set by an operation that has
    completed and is gone. *)
Record turned (f : Z) (x : Ctx Client) (t : trace) (x' : Ctx Client) (t' : trace) : Prop := {
  tu_ops : ops (heap (proc x')) ⊆ ops (heap (proc x));
  tu_next : next_frame (self x') = next_frame (self x);
  tu_calls : extends (fun _ => true) t t';
  tu_frame : frames (self x') !! f = frames (self x) !! f \/
    exists p o evs, ops (heap (proc x)) !! p = Some o /\ callback_frame (func o) = Some f /\
      t' = t ++ evs /\ succeeded p evs /\ ops (heap (proc x')) !! p = None
}.

(** [Q] holds unless the run has left the defined behaviour. *)
Definition unless_faulted {A} (Q : Ctx Client -> trace -> Prop) (o : outcome A)
    (x : Ctx Client) (t : trace) : Prop :=
  match o with Faulted _ => True | _ => Q x t end.

(** ** Lemmas *)

Lemma steady_refl F x t : steady F x t x t.
Proof. split; try done. apply extends_refl. Qed.

Lemma steady_trans F x t x1 t1 x2 t2 :
  steady F x t x1 t1 -> steady F x1 t1 x2 t2 -> steady F x t x2 t2.
Proof.
  intros [A1 A2 A3 A4] [B1 B2 B3 B4]. split.
  - by etrans.
  - congruence.
  - intros f Hf. rewrite B3 by done. auto.
  - by eapply extends_trans.
Qed.

Lemma succeeded_app_l p t t' : succeeded p t -> succeeded p (t ++ t').
Proof. intros (cn & op & len & H). exists cn, op, len. apply elem_of_app. by left. Qed.
Lemma succeeded_app_r p t t' : succeeded p t' -> succeeded p (t ++ t').
Proof. intros (cn & op & len & H). exists cn, op, len. apply elem_of_app. by right. Qed.

Lemma steady_turned F f x t x' t' : F f -> steady F x t x' t' -> turned f x t x' t'.
Proof. intros Hf [A1 A2 A3 A4]. split; try done. left. auto. Qed.

Lemma turned_refl f x t : turned f x t x t.
Proof. apply (steady_turned (fun _ => True)); [done | apply steady_refl]. Qed.

Lemma turned_trans f x t x1 t1 x2 t2 :
  turned f x t x1 t1 -> turned f x1 t1 x2 t2 -> turned f x t x2 t2.
Proof.
  intros [A1 A2 A3 A4] [B1 B2 B3 B4]. split; [by etrans | congruence | by eapply extends_trans|].
  destruct A3 as (e1 & -> & _), B3 as (e2 & -> & _).
  destruct B4 as [B4|(p & o & evs & Hp & Hf & Ht & Hs & Hd)].
  - rewrite B4. destruct A4 as [A4|(p & o & evs & Hp & Hf & Ht & Hs & Hd)]; [by left | right].
    exists p, o, (e1 ++ e2). split_and!; [done..|by rewrite app_assoc| |by eapply lookup_weaken_None].
    apply app_inv_head in Ht as <-. by apply succeeded_app_l.
  - right. exists p, o, (e1 ++ e2). split_and!; [by eapply lookup_weaken|done|by rewrite app_assoc| |done].
    apply app_inv_head in Ht as <-. by apply succeeded_app_r.
Qed.

Section Steady.
Context {O : Oracle} {E : CephEncoding} {N : Wire} (F : Z -> Prop).

Definition steadily {A} (m : M (Ctx Client) A) : Prop :=
  forall x t, wp m (fun _ x' t' => steady F x t x' t') x t.

Lemma sd_ret {A} (a : A) : steadily (mret a).
Proof. intros x t. wp_step. apply steady_refl. Qed.
Lemma sd_throw {A} e : steadily (throw (A := A) e).
Proof. intros x t. wp_step. apply steady_refl. Qed.
Lemma sd_fail {A} f : steadily (fail_with (A := A) f).
Proof. intros x t. wp_step. apply steady_refl. Qed.
Lemma sd_gets {A} (g : Ctx Client -> A) : steadily (gets g).
Proof. intros x t. wp_step. apply steady_refl. Qed.
Lemma sd_bind {A B} (m : M _ A) (k : A -> M _ B) :
  steadily m -> (forall a, steadily (k a)) -> steadily (m ≫= k).
Proof.
  intros Hm Hk x t. apply wp_bind. eapply wp_mono; [apply Hm|].
  intros [a| |] x' t' H; [|done..]. eapply wp_mono; [apply Hk|].
  intros o x'' t''. by apply steady_trans.
Qed.
Lemma sd_ext c : steadily (ext c).
Proof. intros x t. wp_step. split; try done. by apply extends_snoc. Qed.
Lemma sd_on_ch {A} (m : M ConnectionHandler A) : calls (fun _ => true) m -> steadily (on_ch m).
Proof. intros Hm x t. apply wp_zoom. eapply wp_mono; [apply Hm|]. by intros o c t' H. Qed.
Lemma sd_on_handler {A} (m : M ClientHandler A) : calls (fun _ => true) m -> steadily (on_handler m).
Proof. intros Hm x t. apply wp_zoom. eapply wp_mono; [apply Hm|]. by intros o c t' H. Qed.
Lemma sd_on_reactor d (m : M Reactor Z) : calls (fun _ => true) m -> steadily (on_reactor d m).
Proof.
  intros Hm x t. unfold wp, on_reactor. destruct (reactor (proc x)) as [r|]; [|apply steady_refl].
  specialize (Hm r t). unfold wp in Hm. by destruct (m r t) as [[o r'] t'].
Qed.
Lemma sd_delete_op p : steadily (on_heap (delete_op p)).
Proof.
  intros x t. apply wp_on_heap. unfold wp, delete_op. destruct (ops _ !! p).
  - split; try done; [apply delete_subseteq | apply extends_refl].
  - split; try done. apply extends_refl.
Qed.
Lemma sd_read_frame f : steadily (read_frame f).
Proof.
  unfold read_frame. apply sd_bind; [apply sd_gets|]. intros m.
  destruct (m !! f); [apply sd_ret | apply sd_fail].
Qed.

(** Storing into another activation. *)
Lemma sd_store f (upd : Frame -> Frame) :
  ~ F f -> steadily (fr ← read_frame f;
    modify (fun x => with_self (with_frames (<[f := upd fr]> (frames (self x))) (self x)) x)).
Proof.
  intros Hf. apply sd_bind; [apply sd_read_frame|]. intros fr x t. wp_step.
  split; try done; [|apply extends_refl]. simpl. intros g Hg. apply lookup_insert_ne. by intros ->.
Qed.
Lemma sd_store_completed f b : ~ F f -> steadily (store_completed f b).
Proof. apply (sd_store f (fun fr => {| completed := b; successed := successed fr |})). Qed.
Lemma sd_store_successed f b : ~ F f -> steadily (store_successed f b).
Proof. apply (sd_store f (fun fr => {| completed := completed fr; successed := b |})). Qed.
Lemma sd_on_throw {A} (m : M _ A) c : steadily m -> steadily c -> steadily (on_throw m c).
Proof.
  intros Hm Hc x t. apply wp_on_throw. eapply wp_mono; [apply Hm|].
  intros [|e|] x' t' H; [done| |done]. eapply wp_mono; [apply Hc|].
  intros [] x'' t'' H'; by eapply steady_trans.
Qed.
Lemma sd_try_catch {A} (m : M _ A) h :
  steadily m -> (forall e, steadily (h e)) -> steadily (try_catch m h).
Proof.
  intros Hm Hh x t. apply wp_try_catch. eapply wp_mono; [apply Hm|].
  intros [|e|] x' t' H; [done| |done]. eapply wp_mono; [apply Hh|]. intros o x'' t''. by apply steady_trans.
Qed.
Lemma sd_peer_own p : steadily (on_proc (peer_own p)).
Proof. intros x t. apply wp_zoom. unfold peer_own. wp_step. split; try done. apply extends_refl. Qed.
Lemma sd_peer_release p : steadily (on_proc (peer_release p)).
Proof.
  intros x t. apply wp_zoom. unfold peer_release, rpma_peer_delete. wp_steps;
    (split; [done..|]); first [apply extends_refl | by apply extends_snoc].
Qed.
Lemma sd_delete_ops ps : steadily (delete_ops ps).
Proof. induction ps as [|p ps IH]; simpl; [apply sd_ret|]. by apply sd_bind; [apply sd_delete_op|]. Qed.
Lemma sd_set_reactor r : steadily (modify (fun x => with_proc (with_reactor r (proc x)) x)).
Proof. intros x t. wp_step. split; try done. apply extends_refl. Qed.
Lemma sd_locally {T A} (v : T) (m : M T A) : calls (fun _ => true) m -> steadily (locally v m).
Proof.
  intros Hm x t. specialize (Hm v t). unfold wp, locally in *. by destruct (m v t) as [[[] ?] ?].
Qed.
Lemma sd_arrive : steadily arrive.
Proof. intros x t. split; try done. apply extends_refl. Qed.
End Steady.

(** [stay]: the code is steady. *)
Ltac stay_step :=
  lazymatch goal with
  | |- steadily _ (mret _) => apply sd_ret
  | |- steadily _ (throw _) => apply sd_throw
  | |- steadily _ (fail_with _) => apply sd_fail
  | |- steadily _ (_ ≫= _) => apply sd_bind; [|intros ?]
  | |- steadily _ (gets _) => apply sd_gets
  | |- steadily _ (ext _) => apply sd_ext
  | |- steadily _ (indeterminate _) => apply sd_ext
  | |- steadily _ (on_ch _) => apply sd_on_ch; footprint
  | |- steadily _ (on_handler _) => apply sd_on_handler; footprint
  | |- steadily _ (on_reactor _ _) => apply sd_on_reactor; footprint
  | |- steadily _ (on_heap (delete_op _)) => apply sd_delete_op
  | |- steadily _ arrive => apply sd_arrive
  | |- steadily _ (on_throw _ _) => apply sd_on_throw
  | |- steadily _ (try_catch _ _) => apply sd_try_catch; [|intros ?]
  | |- steadily _ (on_proc (peer_own _)) => apply sd_peer_own
  | |- steadily _ (on_proc (peer_release _)) => apply sd_peer_release
  | |- steadily _ (delete_ops _) => apply sd_delete_ops
  | |- steadily _ (modify _) => apply sd_set_reactor
  | |- steadily _ (store_completed _ _) => apply sd_store_completed; assumption
  | |- steadily _ (store_successed _ _) => apply sd_store_successed; assumption
  | |- steadily _ (of_option _ ?o) => destruct o; [apply sd_ret | apply sd_fail]
  | |- steadily _ (if ?b then _ else _) => destruct b
  | |- steadily _ (let '(_, _) := ?x in _) => destruct x
  | |- steadily _ (match ?x with _ => _ end) => destruct x
  | |- steadily _ ?m => let f := head_of m in unfold f
  end; cbn beta iota.
Ltac stay := intros; repeat stay_step.

Section Turns.
Context {O : Oracle} {E : CephEncoding} {N : Wire}.

(** A callback only writes the variables it captures. *)
Lemma sd_run cb : steadily (fun f => callback_frame cb <> Some f) (ClientHandler_run cb).
Proof.
  destruct cb as [| |f|f|f]; unfold ClientHandler_run; [stay..| | |];
    (assert (~ (callback_frame (init_replica_cb f) <> Some f)) by (intros H; by apply H)); stay.
Qed.

(** The variables that completing [p] may write. *)
Definition spared (p : Z) (x : Ctx Client) (f : Z) : Prop :=
  forall o, ops (heap (proc x)) !! p = Some o -> callback_frame (func o) <> Some f.

Lemma wp_complete_steady p x t :
  wp (complete_op ClientHandler_run p) (fun o x' t' => steady (spared p x) x t x' t' /\
    unless_faulted (fun x' _ => ops (heap (proc x')) !! p = None) o x' t') x t.
Proof.
  set (F := spared p x). unfold complete_op.
  assert (He : steady F x t (erased p x) t) by (split; try done; apply extends_refl).
  apply wp_bind, wp_on_ch. wp_step. fold (erased p x). apply wp_bind, wp_on_throw, wp_bind.
  destruct (ops (heap (proc x)) !! p) as [o|] eqn:Ho.
  2: { apply wp_on_heap. unfold wp, op_func. simpl. rewrite Ho. split; [|done].
       split; try done. apply extends_refl. }
  eapply wp_op_func; [exact Ho|].
  apply (wp_mono _ (fun _ x' t' => steady F (erased p x) t x' t')).
  { unfold do_callback. case_bool_decide; [wp_step; apply steady_refl|].
    eapply wp_mono; [apply sd_run|]. intros r x' t' [A1 A2 A3 A4]. split; try done.
    intros f Hf. apply A3. by apply Hf. }
  intros r x' t' H1. pose proof (steady_trans _ _ _ _ _ _ _ He H1) as H2.
  assert (Hdel : wp (on_heap (delete_op p)) (fun o x'' t'' => steady F x t x'' t'' /\
    unless_faulted (fun x' _ => ops (heap (proc x')) !! p = None) o x'' t'') x' t').
  { apply wp_and; [eapply wp_mono; [apply (sd_delete_op F)|]; intros ? ? ?; by apply steady_trans|].
    apply wp_on_heap. unfold wp, delete_op.
    destruct (ops (heap (proc x')) !! p); [apply lookup_delete_eq | done]. }
  destruct r as [[]|e|f]; [done| |by split]. eapply wp_mono; [exact Hdel|].
  by intros [].
Qed.

(** A completed operation that is gone explains what happened to the variables. *)
Lemma completed_turned f p x t x' t' evs :
  steady (spared p x) x (t ++ evs) x' t' -> succeeded p evs ->
  ops (heap (proc x')) !! p = None -> turned f x t x' t'.
Proof.
  intros [A1 A2 A3 (evs' & -> & _)] Hs Hgone. split; try done.
  { exists (evs ++ evs'). split; [by rewrite app_assoc | by apply Forall_true]. }
  destruct (ops (heap (proc x)) !! p) as [op|] eqn:Ho.
  2: { left. apply A3. intros op' Ho'. by rewrite Ho in Ho'. }
  destruct (decide (callback_frame (func op) = Some f)) as [Hf|Hf].
  2: { left. apply A3. intros op' Ho'. rewrite Ho in Ho'. by injection Ho' as <-. }
  right. exists p, op, (evs ++ evs'). split_and!; [done..|by rewrite app_assoc| |done].
  by apply succeeded_app_l.
Qed.

Lemma wp_completion_turned f x t :
  wp (handle_completion ClientHandler_run) (unless_faulted (turned f x t)) x t.
Proof.
  set (F := fun g => g = f).
  assert (Hany : forall x' t', steady F x t x' t' -> turned f x t x' t') by (intros ? ?; by apply steady_turned).
  assert (Hext : forall c a t', steady F x t x t' -> steady F x t x (t' ++ [Ev c a])).
  { intros c a t' H. eapply steady_trans; [done|]. split; try done. by apply extends_snoc. }
  assert (Herr : forall ret t', steady F x t x t' ->
    completion_error ret x t' (unless_faulted (turned f x t))).
  { intros ret t' H. unfold completion_error. case_match; [by apply Hany|]. intros a. apply Hany.
    eapply steady_trans; [by apply Hext|]. split; try done. apply extends_refl. }
  apply wp_handle_completion.
  { intros w _ _. apply Herr, Hext, steady_refl. }
  intros ret cmpl t1 t2 _ _.
  assert (H2 : steady F x t x t2) by (apply Hext, Hext, steady_refl).
  destruct (ret =? 0) eqn:Hret; simpl; [|by apply Herr]. bools. subst ret.
  destruct (_ || _) eqn:Hst; [by apply Hany|]. bools. unfold t2, t1. rewrite <-app_assoc.
  eapply wp_mono; [apply wp_complete_steady|]. intros o x' t' [Hs Hgone].
  assert (Hsuc : succeeded (op_context cmpl) ([Ev (C_conn_completion_wait (conn (_conn (ch_of (self x))))) 0] ++
    [Ev (C_conn_completion_get (conn (_conn (ch_of (self x))))) (0, cmpl)])).
  { apply succeeded_app_r. destruct cmpl as [ctx opc len st]. simpl in *. subst st. do 3 eexists. left. }
  destruct o; [by eapply completed_turned..|done].
Qed.

Lemma sd_connection_event F : steadily F (handle_connection_event ClientHandler_remove_self).
Proof. stay. Qed.

Definition turning {A} (f : Z) (m : M (Ctx Client) A) : Prop :=
  forall x t, wp m (unless_faulted (turned f x t)) x t.

Lemma turning_bind {A B} f (m : M _ A) (k : A -> M _ B) :
  turning f m -> (forall a, turning f (k a)) -> turning f (m ≫= k).
Proof.
  intros Hm Hk x t. apply wp_bind. eapply wp_mono; [apply Hm|].
  intros [a| |] x' t' H; [|done..]. eapply wp_mono; [apply Hk|].
  intros [] x'' t''; [by apply turned_trans..|done].
Qed.
Lemma turning_steady {A} f (m : M _ A) : steadily (fun g => g = f) m -> turning f m.
Proof. intros Hm x t. eapply wp_mono; [apply Hm|]. intros [] ? ? ?; [by apply (steady_turned (fun g => g = f))..|done]. Qed.

Lemma turning_dispatch f h et : turning f (client_dispatch h et).
Proof.
  intros x t. unfold client_dispatch. do 2 wp_step. apply wp_if; intros _; [|by wp_step].
  revert x t. apply turning_bind; [apply turning_steady, sd_arrive|]. intros _.
  unfold ClientHandler_handle, ch_handle. destruct et.
  - apply turning_steady, sd_ret.
  - apply turning_steady, sd_connection_event.
  - intros x t. apply wp_completion_turned.
Qed.

Lemma turning_turn f : turning f thread_turn.
Proof.
  unfold thread_turn. apply turning_bind; [apply turning_steady, sd_gets|].
  intros [r|]; [|apply turning_steady, sd_fail]. destruct (empty_table r); [apply turning_steady, sd_ret|].
  intros x t. apply wp_try_catch.
  apply (wp_mono _ (unless_faulted (turned f x t))); [|by intros []].
  revert x t. apply turning_bind; [|intros; apply turning_steady, sd_ret].
  unfold handle_event, epoll_wait. apply turning_bind; [apply turning_steady, sd_gets|].
  intros ep. apply turning_bind; [apply turning_steady, sd_ext|]. intros [ret ptr].
  destruct (negb _); [apply turning_steady, sd_ret|].
  apply turning_bind; [apply turning_steady, sd_gets|]. intros r'.
  apply turning_bind; [apply turning_steady; stay|]. intros eh.
  apply turning_bind; [apply turning_dispatch|]. intros _ x t. do 2 wp_step.
  apply wp_if; intros _; wp_step; apply turned_refl.
Qed.

Lemma turning_turns f n : turning f (thread_turns n).
Proof.
  induction n as [|n IH]; simpl; [apply turning_steady, sd_ret|].
  apply turning_bind; [apply turning_turn | done].
Qed.
End Turns.
