(* ===== verification/ClientDurability.v ===== *)
(** * The client's data is written before it is flushed

    Whatever the two threads, the libraries and the network do, [main] flushes only what
    has been written, and returns 0 only after the flush. *)

From S2P Require Import Prelude Librpma Effects LibrpmaApi Posix Resources.
From S2P Require Import CephEncoding WireFormat Types Reactor RpmaOp Quiet Host.
From S2P Require Import RpmaConn ConnectionHandler ClientHandler ClientSession Client ClientMain.
From S2P Require Import ClientTurns.

(** ** Specification *)

Definition is_flush (c : call) : bool := match c with C_flush _ _ _ _ _ _ _ => true | _ => false end.
Definition no_flush (c : call) : bool := negb (is_flush c).

(** The remote region a call accesses. *)
Definition remote_target (c : call) : option Z :=
  match c with
  | C_write _ dst _ _ _ _ _ _ | C_write_atomic _ dst _ _ _ _ _ | C_flush _ dst _ _ _ _ _ => Some dst
  | C_read _ _ _ src _ _ _ _ => Some src
  | _ => None
  end.

Definition untargeted (c : call) : bool := match remote_target c with None => true | _ => false end.

(** A write of the first [size] bytes has been accepted and, later, has completed. *)
Definition written (size : Z) (t : trace) : Prop :=
  exists t1 t2 cn dst src p,
    t = t1 ++ Ev (C_write cn dst 0 src 0 size RPMA_F_COMPLETION_ALWAYS p) 0 :: t2 /\
    succeeded p t2.

(** They have been written, and a flush posted after that has completed. *)
Definition flushed (size : Z) (t : trace) : Prop :=
  exists t1 t2 cn dst ty p,
    t = t1 ++ Ev (C_flush cn dst 0 size ty RPMA_F_COMPLETION_ALWAYS p) 0 :: t2 /\
    written size t1 /\ succeeded p t2.

(** Every flush of the run follows the completion of the write. *)
Definition flushes_written (size : Z) (t : trace) : Prop :=
  forall t1 e t2, t = t1 ++ e :: t2 -> is_flush (ev_call e) = true -> written size t1.


(** ** Waiting for a callback *)

(** No operation has a callback that refers to [f]. *)
Definition unnamed (f : Z) (x : Ctx Client) : Prop :=
  forall p o, ops (heap (proc x)) !! p = Some o -> callback_frame (func o) <> Some f.

(** Callbacks refer to activations that have been made. *)
Definition frames_made (x : Ctx Client) : Prop := forall f, next_frame (self x) <= f -> unnamed f x.

Lemma unnamed_mono f x x' :
  ops (heap (proc x')) ⊆ ops (heap (proc x)) -> unnamed f x -> unnamed f x'.
Proof. intros Hs Hu p o Ho. eapply Hu, lookup_weaken; done. Qed.

Lemma frames_made_turned f x t x' t' : turned f x t x' t' -> frames_made x -> frames_made x'.
Proof.
  intros [Ho Hn _ _] Hm g Hg. eapply unnamed_mono; [exact Ho|]. apply Hm. by rewrite <-Hn.
Qed.

(** An activation that no callback refers to keeps its variables. *)
Lemma unnamed_frame f x t x' t' :
  turned f x t x' t' -> unnamed f x -> frames (self x') !! f = frames (self x) !! f.
Proof. intros [_ _ _ [H|(p & o & _ & Ho & Hf & _)]] Hu; [done|]. by destruct (Hu p o Ho). Qed.

Section Waiting.
Context {O : Oracle} {E : CephEncoding} {N : Wire}.

Lemma turning_established f fuel : turning f (wait_established fuel).
Proof.
  induction fuel as [|fuel IH]; simpl; [apply turning_steady, sd_ret|].
  apply turning_bind; [apply turning_steady, sd_gets|]. intros c.
  destruct (connected c); [apply turning_steady, sd_ret|]. apply turning_bind; [apply turning_turn | done].
Qed.

Lemma turning_wait_completed f fuel g start cost :
  turning f (wait_completed thread_turn fuel g start cost).
Proof.
  revert cost. induction fuel as [|fuel IH]; intros cost; simpl; [apply turning_steady, sd_ret|].
  apply turning_bind; [apply turning_steady, sd_read_frame|]. intros fr.
  destruct (_ && _); [|apply turning_steady, sd_ret]. apply turning_bind; [apply turning_turn|].
  intros _. apply turning_bind; [apply turning_steady, sd_ext|]. done.
Qed.

(** The flag is found set only after an operation that refers to it has completed with
    success; that operation is gone. *)
Lemma wp_spin fuel f fr x t :
  frames (self x) !! f = Some fr -> completed fr = false ->
  wp (spin fuel f) (fun r x' t' =>
    match r with
    | Ret (Some _) => exists p o evs, ops (heap (proc x)) !! p = Some o /\
        callback_frame (func o) = Some f /\ t' = t ++ evs /\ succeeded p evs /\
        ops (heap (proc x')) !! p = None /\ ops (heap (proc x')) ⊆ ops (heap (proc x))
    | _ => True
    end) x t.
Proof.
  intros Hfr Hfalse. cut (forall x1 t1, turned f x t x1 t1 -> wp (spin fuel f) (fun r x' t' =>
    match r with
    | Ret (Some _) => exists p o evs, ops (heap (proc x)) !! p = Some o /\
        callback_frame (func o) = Some f /\ t' = t ++ evs /\ succeeded p evs /\
        ops (heap (proc x')) !! p = None /\ ops (heap (proc x')) ⊆ ops (heap (proc x))
    | _ => True
    end) x1 t1); [intros H; apply H, turned_refl|].
  induction fuel as [|fuel IH]; intros x1 t1 H1; simpl; [by wp_step|].
  apply wp_bind. unfold read_frame. do 2 wp_step. apply wp_of_option.
  destruct (frames (self x1) !! f) as [fr1|] eqn:Hfr1; [|done]. apply wp_if; intros Hc.
  - wp_step. destruct H1 as [A1 A2 A3 [A4|(p & o & evs & ? & ? & ? & ? & ?)]].
    + rewrite Hfr1, Hfr in A4. congruence.
    + by exists p, o, evs.
  - apply wp_bind. eapply wp_mono; [apply (turning_turn f)|]. intros [[]| |] x2 t2 H2; [|done..].
    apply IH. by eapply turned_trans.
Qed.

(** Posting an operation with a callback for [f], to which nothing refers yet. *)
Lemma wp_post_callback (R : Z -> Z -> trace -> Prop) f k cb post x t :
  callback_frame cb = Some f -> unnamed f x ->
  (forall p y, wp (post p) (returns (fun ret y' t' => y' = y /\ R p ret t')) y t) ->
  wp (post_op k cb post) (returns (fun ret x' t' => exists p, R p ret t' /\
    frames (self x') = frames (self x) /\ next_frame (self x') = next_frame (self x) /\
    forall q o, ops (heap (proc x')) !! q = Some o -> callback_frame (func o) = Some f ->
      q = p /\ ret = 0)) x t.
Proof.
  intros Hcb Hu Hpost. unfold post_op. apply wp_bind, wp_new_op. cbn beta iota.
  set (p := next_op (heap (proc x))). set (x1 := with_proc _ x). apply wp_bind.
  eapply wp_mono; [apply (Hpost p)|]. intros [ret| |] y t'; simpl; [|done..]. intros [-> HR].
  apply wp_bind, wp_if; intros Hret.
  - apply wp_on_ch. do 2 wp_step. bools. exists p. split_and!; [done..|]. simpl.
    intros q o [[<- _]|[_ Ho]]%lookup_insert_Some Hf; [done|]. by destruct (Hu q o Ho).
  - apply wp_delete_op; [by simpl; rewrite lookup_insert_eq|]. wp_step. exists p.
    split_and!; [done..|]. simpl. intros q o [Hne Ho]%lookup_delete_Some Hf.
    rewrite lookup_insert_ne in Ho by done. by destruct (Hu q o Ho).
Qed.

(** [post] makes one call [e], of which [Post] holds, for an operation whose callback refers
    to [f]; the operation is kept only if the call returns 0. *)
Definition posts_for (f : Z) (Post : Z -> Z -> event -> Prop) (post : M (Ctx Client) Z) : Prop :=
  forall x t, unnamed f x -> wp post (fun r x' t' =>
    match r with
    | Ret ret => exists p e, Post p ret e /\ t' = t ++ [e] /\
        frames (self x') = frames (self x) /\ next_frame (self x') = next_frame (self x) /\
        forall q o, ops (heap (proc x')) !! q = Some o -> callback_frame (func o) = Some f ->
          q = p /\ ret = 0
    | Throw _ => False
    | Faulted _ => t' = t
    end) x t.

Definition is_write_of (size p ret : Z) (e : event) : Prop :=
  exists cn dst src, e = Ev (C_write cn dst 0 src 0 size RPMA_F_COMPLETION_ALWAYS p) ret.
Definition is_flush_of (size p ret : Z) (e : event) : Prop :=
  exists cn dst ty, e = Ev (C_flush cn dst 0 size ty RPMA_F_COMPLETION_ALWAYS p) ret.

Lemma write_posts_for f size : posts_for f (is_write_of size) (write 0 size (set_completed_cb f)).
Proof.
  intros x t Hu. unfold write. do 2 wp_step. set (h := handler (self x)).
  apply wp_bind, wp_assert; [intros _|done]. apply wp_bind, wp_assert; [intros _|done].
  eapply wp_mono; [apply (wp_post_callback (fun p ret t' => t' = t ++
    [Ev (C_write (conn (_conn (cl_base h))) (_image_mr h) 0 (data_mr h) 0 size
           RPMA_F_COMPLETION_ALWAYS p) ret]) f); [done..|]|].
  - intros p y. unfold RpmaWrite_call, rpma_write. wp_step. done.
  - intros [ret| |] x' t'; simpl; [|done..]. intros (p & -> & ?). eexists p, _. split; [|done].
    by do 3 eexists.
Qed.

Lemma flush_posts_for f size : posts_for f (is_flush_of size) (flush 0 size (set_completed_cb f)).
Proof.
  intros x t Hu. unfold flush. do 2 wp_step. set (h := handler (self x)).
  apply wp_bind, wp_assert; [intros _|done].
  eapply wp_mono; [apply (wp_post_callback (fun p ret t' => t' = t ++
    [Ev (C_flush (conn (_conn (cl_base h))) (_image_mr h) 0 size (_flush_type h)
           RPMA_F_COMPLETION_ALWAYS p) ret]) f); [done..|]|].
  - intros p y. unfold RpmaFlush_call, rpma_flush. wp_step. done.
  - intros [ret| |] x' t'; simpl; [|done..]. intros (p & -> & ?). eexists p, _. split; [|done].
    by do 3 eexists.
Qed.
End Waiting.

(** ** Which calls the parts make *)

Section Footprints.
Context {O : Oracle} {E : CephEncoding} {N : Wire}.

Lemma calls_arrive P : calls P arrive.
Proof. by apply calls_pure. Qed.
Lemma calls_push_frame P : calls P push_frame.
Proof. by apply calls_pure. Qed.
Lemma calls_locally {T A} P (v : T) (m : M T A) : calls P m -> calls P (locally (S := Ctx Client) v m).
Proof.
  intros Hm x t. specialize (Hm v t). unfold wp, locally in *. by destruct (m v t) as [[[] ?] ?].
Qed.
Lemma calls_fill_loop P fuel size i : calls P (fill_loop fuel size i).
Proof.
  revert i. induction fuel as [|fuel IH]; intros i; simpl; [apply calls_ret|].
  destruct (_ <? _); [|apply calls_ret]. repeat (apply calls_bind; [footprint|intros ?]). apply IH.
Qed.
#[local] Hint Resolve calls_arrive calls_push_frame : calls.
#[local] Hint Extern 1 (calls _ (locally _ (fill_loop _ _ _))) =>
  apply calls_locally, calls_fill_loop : calls.

Lemma untargeted_turn : calls untargeted thread_turn.
Proof. footprint. Qed.
#[local] Hint Resolve untargeted_turn : calls.
Lemma untargeted_turns n : calls untargeted (thread_turns n).
Proof. induction n as [|n IH]; simpl; [apply calls_ret|]. by apply calls_bind; [apply untargeted_turn|]. Qed.
Lemma untargeted_established fuel : calls untargeted (wait_established fuel).
Proof. induction fuel as [|fuel IH]; simpl; footprint. Qed.
Lemma untargeted_spin fuel f : calls untargeted (spin fuel f).
Proof. induction fuel as [|fuel IH]; simpl; footprint. Qed.
Lemma untargeted_join fuel : calls untargeted (join fuel).
Proof. induction fuel as [|fuel IH]; simpl; footprint. Qed.
Lemma untargeted_wait_completed fuel f start cost :
  calls untargeted (wait_completed thread_turn fuel f start cost).
Proof. revert cost. induction fuel as [|fuel IH]; intros cost; simpl; footprint. Qed.
#[local] Hint Resolve untargeted_turns untargeted_established untargeted_spin untargeted_join
  untargeted_wait_completed : calls.

Lemma untargeted_start addr port : calls untargeted (start addr port).
Proof. footprint. Qed.
Lemma untargeted_init_replica fuel id size pool image :
  calls untargeted (init_replica thread_turn fuel id size pool image).
Proof. footprint. Qed.
Lemma untargeted_prepare fuel size : calls untargeted (prepare fuel size).
Proof. footprint. Qed.
Lemma untargeted_set_head ptr size : calls untargeted (set_head ptr size).
Proof. footprint. Qed.
Lemma untargeted_end (ret : Z) : calls untargeted (release_client;; release_reactor;; mret (Some ret)).
Proof. footprint. Qed.
Lemma untargeted_rest fuel k f :
  calls untargeted (thread_turns k;; disconnect;; _ <~ join fuel;
                    pop_frame f;; release_client;; release_reactor;; mret (Some 0)).
Proof. footprint. Qed.

(** What accesses no remote memory flushes none. *)
Lemma untargeted_no_flush {A} (m : M (Ctx Client) A) : calls untargeted m -> calls no_flush m.
Proof. apply calls_weaken. by intros []. Qed.

Lemma calls_turns n : calls no_flush (thread_turns n).
Proof. apply untargeted_no_flush, untargeted_turns. Qed.
Lemma calls_spin fuel f : calls no_flush (spin fuel f).
Proof. apply untargeted_no_flush, untargeted_spin. Qed.
End Footprints.

(** ** The course of [main] *)

(** The part of the run in which nothing is flushed. *)
Definition flushless (t : trace) : Prop := Forall (fun e => no_flush (ev_call e) = true) t.

Lemma flushless_extends t t' : flushless t -> extends no_flush t t' -> flushless t'.
Proof. intros H (evs & -> & He). by apply Forall_app. Qed.

Lemma flushless_written size t : flushless t -> flushes_written size t.
Proof.
  intros H t1 e t2 -> He. apply Forall_app in H as [_ [H _]%Forall_cons].
  unfold no_flush in H. by rewrite He in H.
Qed.

(** The flush that is allowed, and calls that are no flushes. *)
Lemma flushes_written_snoc size t e : flushless t -> written size t -> flushes_written size (t ++ [e]).
Proof.
  intros H Hw t1 e' t2 Heq He. destruct (decide (t2 = [])) as [->|Hne].
  - apply app_inj_tail in Heq as [<- _]. done.
  - destruct (exists_last Hne) as (t2' & e2 & ->).
    rewrite app_comm_cons, app_assoc in Heq. apply app_inj_tail in Heq as [-> _].
    by eapply (flushless_written size _ H).
Qed.

Lemma flushes_written_extends size t t' :
  flushes_written size t -> extends no_flush t t' -> flushes_written size t'.
Proof.
  intros H (evs & -> & Hevs). induction evs as [|e evs IH] using rev_ind; [by rewrite app_nil_r|].
  apply Forall_app in Hevs as [Hevs [He _]%Forall_cons]. specialize (IH Hevs).
  intros t1 e' t2 Heq He'. rewrite app_assoc in Heq. destruct (decide (t2 = [])) as [->|Hne].
  - apply app_inj_tail in Heq as [_ <-]. unfold no_flush in He. by rewrite He' in He.
  - destruct (exists_last Hne) as (t2' & e2 & ->).
    rewrite app_comm_cons, app_assoc in Heq. apply app_inj_tail in Heq as [Heq _]. eauto.
Qed.

Lemma written_app size t t' : written size t -> written size (t ++ t').
Proof.
  intros (t1 & t2 & cn & dst & src & p & -> & Hs). exists t1, (t2 ++ t'), cn, dst, src, p.
  rewrite <-app_assoc. split; [done|]. by apply succeeded_app_l.
Qed.

Section Main.
Context {O : Oracle} {E : CephEncoding} {N : Wire}.

(** Posting and waiting: either the call was not reached, or it was made once; the wait
    ends only after its success. *)
Lemma wp_post_and_wait Post fuel k f post fr x t :
  posts_for f Post post -> unnamed f x -> frames (self x) !! f = Some fr -> completed fr = false ->
  wp (post_and_wait fuel k f post) (fun r x' t' =>
    extends no_flush t t' /\ (forall u, r <> Ret (Some u)) \/
    exists t1 p ret e t2, extends no_flush t t1 /\ Post p ret e /\ t' = t1 ++ e :: t2 /\
      Forall (fun e => no_flush (ev_call e) = true) t2 /\
      forall u, r = Ret (Some u) -> ret = 0 /\ succeeded p t2 /\ unnamed f x') x t.
Proof.
  intros Hpost Hu Hfr Hfalse. unfold post_and_wait. apply wp_bind.
  eapply wp_mono; [apply (wp_and _ _ _ _ _ (turning_turns f k x t) (calls_turns k x t))|].
  intros [[]| |] x1 t1 [H1 He1]; [|by left..].
  pose proof (unnamed_mono _ _ _ (tu_ops _ _ _ _ _ H1) Hu) as Hu1.
  pose proof (unnamed_frame _ _ _ _ _ H1 Hu) as Hf1. rewrite Hfr in Hf1.
  apply wp_bind. eapply wp_mono; [by apply Hpost|].
  intros [ret|e|fl] x2 t2; [|done|intros ->; by left].
  intros (p & e & HP & -> & Hf2 & _ & Hp).
  eapply wp_mono; [apply wp_and; [apply (wp_spin fuel f fr); [by rewrite Hf2 | done] | apply calls_spin]|].
  intros r x3 t3 [H3 (evs & -> & He3)]. right. exists t1, p, ret, e, evs.
  split_and!; [done..|by rewrite <-app_assoc|done|]. intros u ->.
  destruct H3 as (q & o & evs' & Ho & Hq & Ht & Hs & Hgone & Hsub).
  apply app_inv_head in Ht as <-. destruct (Hp q o Ho Hq) as [-> ->]. split_and!; [done..|].
  intros q' o' Ho' Hq'. destruct (Hp q' o' (lookup_weaken _ _ _ _ Ho' Hsub) Hq') as [-> _].
  by rewrite Hgone in Ho'.
Qed.

Lemma wp_write_and_flush fuel k1 k2 k3 size f fr x t :
  flushless t -> unnamed f x -> frames (self x) !! f = Some fr -> completed fr = false ->
  wp (write_and_flush fuel k1 k2 k3 size f) (fun o x' t' =>
    flushes_written size t' /\ (forall u, o = Ret (Some u) -> flushed size t')) x t.
Proof.
  intros Hnf Hu Hfr Hfalse. unfold write_and_flush, and_then. apply wp_bind.
  eapply wp_mono; [eapply (wp_post_and_wait (is_write_of size)); eauto using write_posts_for|].
  assert (Hend : forall (o : outcome (option unit)) t', flushless t' -> (forall u, o <> Ret (Some u)) ->
    flushes_written size t' /\ (forall u, o = Ret (Some u) -> flushed size t')).
  { intros o t' Ht' Ho. split; [by apply flushless_written|]. intros u ->. by destruct (Ho u). }
  intros r x1 t1 H1. assert (Hn1 : flushless t1).
  { destruct H1 as [[H1 _]|(ta & p & ret & e & tb & Ha & (cn & dst & src & ->) & -> & Hb & _)];
      [by eapply flushless_extends|].
    apply Forall_app. split; [exact (flushless_extends _ _ Hnf Ha)|]. by constructor. }
  destruct r as [[[]|]| |]; [|by (try wp_step); apply Hend..].
  destruct H1 as [[_ H1]|(ta & p & ret & e & tb & _ & (cn & dst & src & ->) & -> & _ & H1)];
    [by destruct (H1 tt)|]. destruct (H1 tt eq_refl) as (-> & Hs & Hu1).
  set (t1 := ta ++ _) in *. assert (Hw1 : written size t1) by (by do 6 eexists).
  apply wp_bind.
  eapply wp_mono; [apply (wp_and _ _ _ _ _ (turning_turns f k2 x1 t1) (calls_turns k2 x1 t1))|].
  intros [[]| |] x2 t2 [H2 He2]; pose proof (flushless_extends _ _ Hn1 He2) as Hn2; [|by apply Hend..].
  pose proof (unnamed_mono _ _ _ (tu_ops _ _ _ _ _ H2) Hu1) as Hu2.
  apply wp_bind. unfold store_completed, read_frame. do 3 wp_step. apply wp_of_option.
  destruct (frames (self x2) !! f) as [fr2|] eqn:Hf2; [|by apply Hend]. wp_step.
  set (x3 := with_self _ x2). set (fr3 := {| completed := false; successed := successed fr2 |}).
  assert (Hf3 : frames (self x3) !! f = Some fr3) by apply lookup_insert_eq.
  eapply wp_mono; [eapply (wp_post_and_wait (is_flush_of size) fuel k3 f _ fr3);
    eauto using flush_posts_for|].
  destruct He2 as (e2 & -> & _). apply (written_app _ _ e2) in Hw1.
  intros r x4 t4 [[H4 Hr]|(tc & q & ret & e & td & Hc & (cn' & dst' & ty & ->) & -> & Hd & H4)].
  { apply Hend; [by eapply flushless_extends | done]. }
  assert (Hwc : written size tc) by (destruct Hc as (e3 & -> & _); by apply written_app).
  split.
  - eapply flushes_written_extends; [apply flushes_written_snoc; [exact (flushless_extends _ _ Hn2 Hc)|exact Hwc]|].
    exists td. split; [by rewrite <-app_assoc | done].
  - intros u Hr. destruct (H4 u Hr) as (-> & Hs' & _). by do 6 eexists.
Qed.

(** What comes before the write: nothing is flushed, and callbacks refer to activations
    that have been made. *)
Definition prepares {A} (m : M (Ctx Client) A) : Prop :=
  forall x t, flushless t -> frames_made x -> wp m (fun o x' t' =>
    flushless t' /\ unless_faulted (fun x' _ => frames_made x') o x' t') x t.

Lemma prepares_bind {A B} (m : M _ A) (k : A -> M _ B) :
  prepares m -> (forall a, prepares (k a)) -> prepares (m ≫= k).
Proof.
  intros Hm Hk x t Ht Hx. apply wp_bind. eapply wp_mono; [by apply Hm|].
  intros [a| |] x' t' [H1 H2]; [|done..]. by apply Hk.
Qed.

Lemma prepares_calls {A} (m : M _ A) : turning 0 m -> calls no_flush m -> prepares m.
Proof.
  intros Hm Hc x t Ht Hx. eapply wp_mono; [apply (wp_and _ _ _ _ _ (Hm x t) (Hc x t))|].
  intros o x' t' [H1 H2]. split; [by eapply flushless_extends|].
  destruct o; [by eapply frames_made_turned..|done].
Qed.

Lemma prepares_stay {A} (m : M _ A) :
  steadily (fun g => g = 0) m -> calls no_flush m -> prepares m.
Proof. intros Hm. by apply prepares_calls, turning_steady. Qed.

(** A new operation whose callback, if any, refers to an activation that was made. *)
Lemma wp_post_made k cb post x t :
  flushless t -> frames_made x -> (forall f, callback_frame cb = Some f -> f < next_frame (self x)) ->
  (forall p, steadily (fun g => g = 0) (post p)) -> (forall p, calls no_flush (post p)) ->
  wp (post_op k cb post) (fun o x' t' =>
    flushless t' /\ unless_faulted (fun x' _ => frames_made x') o x' t') x t.
Proof.
  intros Ht Hx Hcb Hs Hc. unfold post_op. apply wp_bind, wp_new_op. cbn beta iota.
  set (x1 := with_proc _ x). assert (Hx1 : frames_made x1).
  { intros f Hf p o Hpo. simpl in Hpo, Hf. apply lookup_insert_Some in Hpo as [[<- <-]|[_ Ho]]; simpl.
    - intros Heq. specialize (Hcb f Heq). lia.
    - by apply (Hx f Hf p o). }
  revert x1 t Ht Hx1. generalize (next_op (heap (proc x))). intros p x1 t Ht Hx1.
  revert x1 t Ht Hx1. apply prepares_bind; [by apply prepares_stay|]. intros ret.
  apply prepares_stay; [stay | footprint].
Qed.

Lemma prepares_request fuel id size pool image :
  prepares (init_replica thread_turn fuel id size pool image).
Proof.
  unfold init_replica. apply prepares_bind; [apply prepares_stay; [stay | footprint]|]. intros _.
  apply prepares_bind; [apply prepares_stay; [stay | footprint]|]. intros _.
  unfold request_and_wait. apply prepares_bind; [apply prepares_stay; [stay | footprint]|]. intros start.
  intros x t Ht Hx. apply wp_bind. unfold push_frame, wp at 1. set (f := next_frame (self x)).
  set (x1 := with_self _ x). assert (Hx1 : frames_made x1).
  { intros g Hg. apply Hx. simpl in Hg. unfold f in Hg. lia. }
  apply wp_bind. eapply wp_mono; [apply wp_post_made; [done..| |intros; stay|footprint]|].
  { simpl. intros g [= <-]. unfold f. lia. }
  intros [ret| |] x2 t2 [Ht2 Hx2]; [|done..]. revert x2 t2 Ht2 Hx2.
  apply prepares_bind; [intros x2 t2 ? ?; apply wp_post_made; [done..|intros; stay|footprint]|].
  intros _. apply prepares_bind; [apply prepares_stay; [stay | footprint]|]. intros cost0.
  apply prepares_bind; [apply prepares_calls; [apply turning_wait_completed | apply untargeted_no_flush, untargeted_wait_completed]|].
  intros [c|]; [|apply prepares_stay; [stay | footprint]].
  apply prepares_bind; [apply prepares_stay; [apply sd_read_frame | footprint]|]. intros fr.
  apply prepares_bind; [|intros _; apply prepares_stay; [stay | footprint]].
  intros x3 t3 Ht3 Hx3. unfold pop_frame. by wp_step.
Qed.

Lemma prepares_turns n : prepares (thread_turns n).
Proof. apply prepares_calls; [apply turning_turns | apply calls_turns]. Qed.

Lemma prepares_start addr port : prepares (start addr port).
Proof. apply prepares_stay; [stay | apply untargeted_no_flush, untargeted_start]. Qed.
Lemma prepares_prepare fuel size : prepares (prepare fuel size).
Proof.
  apply prepares_stay; [|apply untargeted_no_flush, untargeted_prepare]. unfold prepare. stay.
  apply sd_locally, calls_fill_loop.
Qed.

(** What [main] promises of a run that ends, or stands, with [o] and [t']. *)
Definition ordered (size : Z) (o : outcome (option Z)) (x' : Ctx Client) (t' : trace) : Prop :=
  flushes_written size t' /\ (o = Ret (Some 0) -> flushed size t').

Lemma wp_prepared {A} size (m : M _ A) k x t :
  prepares m -> flushless t -> frames_made x ->
  (forall a x' t', flushless t' -> frames_made x' -> wp (k a) (ordered size) x' t') ->
  wp (m ≫= k) (ordered size) x t.
Proof.
  intros Hm Ht Hx Hk. apply wp_bind. eapply wp_mono; [by apply Hm|].
  intros [a| |] x' t' [H1 H2]; [by apply Hk|split; [by apply flushless_written | done]..].
Qed.

Lemma wp_prepared_then {A} size (m : M _ (option A)) k x t :
  prepares m -> flushless t -> frames_made x ->
  (forall a x' t', flushless t' -> frames_made x' -> wp (k a) (ordered size) x' t') ->
  wp (and_then m k) (ordered size) x t.
Proof.
  intros Hm Ht Hx Hk. apply wp_prepared; try done. intros [a|] x' t' Ht' Hx'; [by apply Hk|].
  wp_step. split; [by apply flushless_written | done].
Qed.

(** Once the data is flushed, it stays so. *)
Lemma wp_ordered size (m : M _ (option Z)) x t :
  calls no_flush m -> flushes_written size t -> flushed size t -> wp m (ordered size) x t.
Proof.
  intros Hm Hw (t1 & t2 & cn & dst & ty & p & -> & Hw1 & Hs). eapply wp_mono; [apply Hm|].
  intros o x' t' He. split; [by eapply flushes_written_extends|]. intros _.
  destruct He as (evs & -> & _). exists t1, (t2 ++ evs), cn, dst, ty, p.
  rewrite <-app_assoc. split_and!; [done..|by apply succeeded_app_l].
Qed.

Lemma wp_bind_any {A B} (m : M (Ctx Client) A) (k : A -> M (Ctx Client) B) (Q : outcome B -> Prop) x t :
  (forall a x t, wp (k a) (fun o _ _ => Q o) x t) ->
  (forall e, Q (Throw e)) -> (forall f, Q (Faulted f)) ->
  wp (m ≫= k) (fun o _ _ => Q o) x t.
Proof.
  intros Hk Ht Hf. apply wp_bind. unfold wp at 1. destruct (m x t) as [[[a|e|f] x'] t']; auto.
Qed.

(** The [try] block only returns what [register_self] returned, if that is not 0. *)
Lemma start_returns addr port x t :
  wp (start addr port) (fun o _ _ => o <> Ret (Returned 0)) x t.
Proof.
  unfold start. apply wp_try_catch. apply (wp_mono _ (fun o _ _ => o <> Ret (Returned 0))).
  - repeat (apply (wp_bind_any _ _ (fun o => o <> Ret (Returned 0))); [intros ? ? ?|done..]).
    wp_step. destruct (_ =? 0) eqn:Hr; simpl; [done|]. bools. congruence.
  - intros [|e|] x' t'; [done| |done]. intros _. destruct e; by wp_step.
Qed.

Lemma wp_main_with sched fuel size addr port x t :
  flushless t -> frames_made x ->
  wp (main_with sched fuel size addr port) (ordered size) x t.
Proof.
  intros Ht Hx. unfold main_with. apply wp_bind.
  eapply wp_mono; [apply (wp_and _ _ _ _ _ (start_returns addr port x t) (prepares_start addr port x t Ht Hx))|].
  intros [st| |] x1 t1 (Hret & Ht1 & Hx1); [|split; [by apply flushless_written | done]..].
  destruct st as [ret|[|]]; [| |by split; [apply flushless_written|]].
  { eapply wp_mono; [apply wp_and; [apply (untargeted_no_flush _ (untargeted_end ret))|]|].
    - apply (wp_bind_any _ _ (fun o => o <> Ret (Some 0))); [intros _ x2 t2|done..].
      apply (wp_bind_any _ _ (fun o => o <> Ret (Some 0))); [intros _ x3 t3|done..].
      wp_step. intros [= ->]. by apply Hret.
    - intros o x' t' [He Ho]. split; [|done]. by eapply flushless_written, flushless_extends. }
  apply wp_prepared_then; [apply prepares_calls; [apply turning_established | apply untargeted_no_flush, untargeted_established] | done..|].
  intros _ x2 t2 Ht2 Hx2. apply wp_prepared; [apply prepares_turns | done..|].
  intros _ x3 t3 Ht3 Hx3. apply wp_prepared_then; [apply prepares_request | done..|].
  intros _ x4 t4 Ht4 Hx4. apply wp_prepared; [apply prepares_turns | done..|].
  intros _ x5 t5 Ht5 Hx5. apply wp_prepared_then; [apply prepares_prepare | done..|].
  intros bl x6 t6 Ht6 Hx6. apply wp_prepared; [apply prepares_turns | done..|].
  intros _ x7 t7 Ht7 Hx7.
  apply wp_prepared; [apply prepares_stay; [stay | apply untargeted_no_flush, untargeted_set_head] | done..|].
  intros _ x8 t8 Ht8 Hx8. apply wp_bind. unfold push_frame, wp at 1. set (f := next_frame (self x8)).
  set (x9 := with_self _ x8). unfold and_then at 1. apply wp_bind.
  eapply wp_mono; [apply (wp_write_and_flush _ _ _ _ _ f {| completed := false; successed := false |}); [done| | |done]|].
  - by apply (Hx8 f).
  - apply lookup_insert_eq.
  - intros [[[]|]| |] x' t' [Hw Hf]; [|(try wp_step); by split..].
    apply wp_ordered; [apply untargeted_no_flush, untargeted_rest | done|]. by apply (Hf tt).
Qed.
End Main.

(** ** Properties *)

Section Properties.
Context {O : Oracle} {E : CephEncoding} {N : Wire}.

(** The process before [main] runs; [raw] is what the storage of the client holds. *)
Definition new_process (raw : ClientHandler) : Ctx Client :=
  {| this := 500; self := {| handler := raw; frames := ∅; next_frame := 1 |};
     proc := {| heap := {| ops := ∅; next_op := 1 |}; peers := ∅; reactor := None |} |}.

(** C30: a write that librpma refuses is never noticed, since its result is ignored: for
    any number of turns of the two threads [main] keeps waiting for a callback that
    nobody will call, and the data is never flushed. *)
Theorem refused_write_waits_forever fuel k2 k3 size f fr x t :
  let h := handler (self x) in
  unnamed f x -> frames (self x) !! f = Some fr -> completed fr = false ->
  data_mr h <> NULL -> size <= 1024 * 1024 * 1024 ->
  (forall p, answer_of t (C_write (conn (_conn (cl_base h))) (_image_mr h) 0 (data_mr h) 0 size
                            RPMA_F_COMPLETION_ALWAYS p) <> 0) ->
  wp (write_and_flush fuel 0 k2 k3 size f) (fun o x' t' =>
    (forall u, o <> Ret (Some u)) /\ extends no_flush t t') x t.
Proof.
  intros h Hu Hfr Hfalse Hmr Hsize Hrefused. unfold write_and_flush, and_then, post_and_wait.
  do 2 apply wp_bind. simpl. wp_step. apply wp_bind. unfold write. do 2 wp_step. fold h.
  rewrite (proj2 (Z.eqb_neq _ _) Hmr), (proj2 (Z.leb_le _ _) Hsize).
  do 2 (apply wp_bind, wp_assert; [intros _|done]).
  eapply wp_mono; [apply (wp_post_callback (fun p ret t' => ret <> 0 /\ extends no_flush t t') f); [done..|]|].
  - intros p y. unfold RpmaWrite_call, rpma_write. wp_step. split_and!; [done|congruence|].
    by apply extends_snoc.
  - intros [ret| |] x1 t1; simpl; [|done..]. intros (p & [Hret He] & Hf1 & _ & Hp).
    eapply wp_mono; [apply wp_and; [apply (wp_spin fuel f fr); [by rewrite Hf1 | done] | apply calls_spin]|].
    intros r x2 t2 [H2 He2]. pose proof (extends_trans _ _ _ _ He He2).
    destruct r as [[[]|]| |]; [|by (try wp_step); split..].
    destruct H2 as (q & o & evs & Ho & Hq & _). by destruct (Hp q o Ho Hq).
Qed.

(** C33: a client that cannot be made is used nevertheless: if the server's address has no
    device, the exception of the constructor is caught, the program goes on, and
    the first use of the client dereferences a null pointer. *)
Theorem unreachable_server_dereferences_null sched fuel prog addr port rest raw :
  (forall t, answer_of t C_epoll_create1 <> -1) ->
  (forall t, (answer_of t (C_get_ibv_context addr RPMA_UTIL_IBV_CONTEXT_REMOTE)).1 <> 0) ->
  wp (client_program sched fuel (prog :: addr :: port :: rest)) (fun o x' t' =>
    o = Faulted NullDereference) (new_process raw) [].
Proof.
  intros Hne Hdev. apply wp_client_program. intros l1 l2. unfold client_main, main_with. apply wp_bind.
  apply (wp_mono _ (fun o _ _ => o = Ret (Continues false))); [|by intros o x' t' ->].
  unfold start, Reactor_ctor, epoll_create1. apply wp_try_catch. do 3 wp_step.
  rewrite (proj2 (Z.eqb_neq _ _)) by (rewrite <-H; apply Hne). do 3 wp_step. clear H. apply wp_bind, wp_zoom. wp_step.
  apply wp_bind. unfold ClientHandler_ctor. apply wp_on_throw. unfold ClientHandler_body.
  apply wp_bind. unfold common_peer_via_address, rpma_utils_get_ibv_context. do 2 wp_step.
  wp_step. match type of H with answer_of ?t _ = _ => specialize (Hdev t) end.
  rewrite H in Hdev. destruct a0 as [ret dev]. simpl in Hdev. apply wp_ret. cbn beta iota.
  rewrite (proj2 (Z.eqb_neq _ _) Hdev). cbn [negb]. apply wp_ret. cbn beta iota.
  rewrite (proj2 (Z.eqb_neq _ _) Hdev). cbn [negb]. apply wp_throw. reflexivity.
Qed.
End Properties.

(** ** Witnesses *)

(** A host on which everything goes well: the connection is established, operations
    complete one after the other, and the connection closes once it is given up. *)
Definition has_call (P : call -> bool) (t : trace) : bool := List.existsb (fun e => P (ev_call e)) t.
Definition is_disconnect (c : call) : bool := match c with C_conn_disconnect _ => true | _ => false end.
Definition is_next_event (c : call) : bool := match c with C_conn_next_event _ => true | _ => false end.

Definition obliging_host : Oracle := fun t c =>
  match c return answer c with
  | C_conn_next_event _ =>
      (0, if has_call is_disconnect t then RPMA_CONN_CLOSED else RPMA_CONN_ESTABLISHED)
  | C_epoll_wait _ _ =>
      (1, if has_call is_disconnect t || negb (has_call is_next_event t) then 1 else 2)
  | C_clock_now => Z.of_nat (length t)
  | c => host t c
  end.

(** One on which writes are refused. *)
Definition refusing_host : Oracle := fun t c =>
  match c return answer c with C_write _ _ _ _ _ _ _ _ => RPMA_E_INVAL | c => host t c end.

(** One without a device. *)
Definition deviceless_host : Oracle := fun t c =>
  match c return answer c with C_get_ibv_context _ _ => (RPMA_E_NOSUPP, 0) | c => host t c end.

Definition reply_wire : Wire := fun _ _ => demo_reply_message 4.

Definition raw_client : ClientHandler :=
  ClientHandler_init [] [] 0 0 RPMA_FLUSH_TYPE_PERSISTENT 0 0 0.

(** On the obliging host [main] returns 0, here for a region of two pieces: the threads
    meet, the data is flushed, the thread ends and the objects are destroyed. *)
Example demo_main_with_returns :
  wp (main_with (O := obliging_host) (N := reply_wire) (fun _ => 1%nat) 20 128
        (str "10.0.0.1") (str "7777"))
    (fun o x' t' => o = Ret (Some 0) /\ reactor (proc x') = None /\ map_to_list (ops (heap (proc x'))) = [] /\
       map_to_list (peers (proc x')) = []) (new_process raw_client) [].
Proof. vm_compute. auto. Qed.

Definition waiting_main : Ctx Client :=
  let x := demo_client [] in
  with_self {| handler := handler (self x);
               frames := {[1 := {| completed := false; successed := false |}]};
               next_frame := 2 |} x.

Lemma waiting_main_unnamed : unnamed 1 waiting_main.
Proof. intros p o. simpl. intros [<- <-]%lookup_singleton_Some. done. Qed.

Lemma refused_write_waits_forever_witness :
  wp (write_and_flush (O := refusing_host) (N := reply_wire) 7 0 1 1 128 1) (fun o x' t' =>
    (forall u, o <> Ret (Some u)) /\ extends no_flush demo_calls t') waiting_main demo_calls.
Proof.
  refine (refused_write_waits_forever (O := refusing_host) (N := reply_wire) 7 1 1 128 1
    {| completed := false; successed := false |} waiting_main demo_calls _ _ _ _ _ _).
  - apply waiting_main_unnamed.
  - reflexivity.
  - reflexivity.
  - discriminate.
  - discriminate.
  - intros p. discriminate.
Defined.

Lemma unreachable_server_dereferences_null_witness :
  wp (client_program (O := deviceless_host) (N := reply_wire) (fun _ => 1%nat) 5
        [str "./client"; str "10.0.0.1"; str "7777"])
    (fun o x' t' => o = Faulted NullDereference) (new_process raw_client) [].
Proof.
  refine (unreachable_server_dereferences_null (O := deviceless_host) (N := reply_wire)
    (fun _ => 1%nat) 5 (str "./client") (str "10.0.0.1") (str "7777") [] raw_client _ _).
  - intros t. unfold answer_of, deviceless_host, sized_host, fresh. lia.
  - intros t. discriminate.
Defined.
