(* ===== verification/ClientSafety.v ===== *)
(** * The client program is memory safe

    [main] of [client.cc] with its two threads, against any behaviour of the libraries
    and of a server that answers in the agreed format: which faults are possible, and
    when. *)

From S2P Require Import Prelude Librpma Effects LibrpmaApi Posix Resources.
From S2P Require Import CephEncoding WireFormat Types Reactor RpmaOp Quiet Descriptors Host.
From S2P Require Import RpmaConn ConnectionHandler Registration Acceptance ClientHandler ClientSession.
From S2P Require Import Client ClientMain ClientTurns ClientDurability.

(** ** Specification *)

(** The server only sends replies that can be decoded and hold the bytes they declare. *)
Definition server_replies {E : CephEncoding} {N : Wire} : Prop :=
  forall t c, honest_reply (received t c) /\
    is_Some (RwlReplicaInitRequestReply_decode (received t c)).

(** The callbacks of [main] refer to the activation of [init_replica], the first one, or to
    one of the activations in [A]. *)
Definition known_callback (A : gset Z) (cb : callback) : Prop :=
  cb = no_callback \/
  exists f, (cb = init_replica_cb f \/ cb = set_completed_cb f) /\ (f = 1 \/ f ∈ A).

(** The client between two steps, with the activations [A] on the stack. *)
Record running (A : gset Z) (x : Ctx Client) (t : trace) : Prop := {
  rn_reactor : exists r, reactor (proc x) = Some r /\ reactor_inv r t /\
    forall fd n e, event_table r !! fd = Some (n, e) -> eh_handler e = this x;
  rn_ops : ops_ok x t;
  rn_callbacks p o :
    p ∈ callback_table (ch_of (self x)) -> ops (heap (proc x)) !! p = Some o ->
    known_callback A (func o);
  rn_live f : f ∈ A -> is_Some (frames (self x) !! f);
  rn_fds : _conn_fd (ch_of (self x)) <> -1 /\ _comp_fd (ch_of (self x)) <> -1;
  rn_peers : peers (proc x) = client_peers (_peer (ch_of (self x)));
  rn_buffer : blen (bl_data (send_bl (ch_of (self x)))) = MSG_SIZE
}.

(** A step that does not throw and whose only fault is a store by the callback of
    [init_replica] after that has returned. *)
Definition steps {A} (Q : A -> Ctx Client -> trace -> Prop) (o : outcome A) (x : Ctx Client)
    (t : trace) : Prop :=
  match o with
  | Ret a => Q a x t
  | Throw _ => False
  | Faulted f => f = UseAfterReturn 1
  end.

Definition is_epoll_wait (c : call) : bool := match c with C_epoll_wait _ _ => true | _ => false end.

(** How [main] can go wrong: it uses a client that could not be made, before its thread has
    waited for an event; it writes although its memory could not be registered; the
    callback of [init_replica] stores into an activation that is gone. *)
Definition expected {A} (o : outcome A) (x : Ctx Client) (t : trace) : Prop :=
  match o with
  | Ret _ => True
  | Throw _ => False
  | Faulted NullDereference => Forall (fun e => is_epoll_wait (ev_call e) = false) t
  | Faulted AssertFailed => data_mr (handler (self x)) = NULL
  | Faulted (UseAfterReturn f) => f = 1
  | Faulted _ => False
  end.

(** ** Lemmas *)

Lemma running_base A x t c :
  callback_table c = callback_table (ch_of (self x)) ->
  conn (_conn c) = conn (_conn (ch_of (self x))) -> _peer c = _peer (ch_of (self x)) ->
  _conn_fd c = _conn_fd (ch_of (self x)) -> _comp_fd c = _comp_fd (ch_of (self x)) ->
  blen (bl_data (send_bl c)) = blen (bl_data (send_bl (ch_of (self x)))) ->
  running A x t -> running A (with_self (set_ch c (self x)) x) t.
Proof.
  intros H1 H2 H3 H4 H5 H6 [R1 R2 R3 R4 R5 R6 R7]. split; simpl; try done.
  - by apply (ops_inv_ext (ch_of (self x))).
  - intros p o. rewrite H1. apply R3.
  - by rewrite H4, H5.
  - by rewrite H3.
  - by rewrite H6.
Qed.

(** Calls that concern neither the queues nor the interest list. *)
Lemma running_quiet A x t t' : extends quiet_call t t' -> running A x t -> running A x t'.
Proof.
  intros Hq [(r & Hr & Hi & He) [I1 I2 I3 I4] R3 R4 R5 R6 R7]. split; try done.
  - exists r. split_and!; [done| |done]. eapply reactor_inv_interest; [|done].
    by apply quiet_interest.
  - split; try done. by rewrite (quiet_outstanding _ _ _ Hq).
Qed.

Lemma running_call A x t c a : quiet_call c = true -> running A x t -> running A x (t ++ [Ev c a]).
Proof. intros Hc. apply running_quiet. by apply extends_snoc. Qed.

Lemma running_session A x x' t t' :
  same_session x x' -> this x' = this x -> extends quiet_call t t' -> running A x t -> running A x' t'.
Proof.
  intros [Hp Hb Hf] Ht Hq Hr. apply (running_quiet _ _ _ _ Hq) in Hr.
  destruct Hr as [R1 [I1 I2 I3 I4] R3 R4 R5 R6 R7].
  split; rewrite ?Hp, ?Hb, ?Ht; try done; [split; by rewrite ?Hp, ?Hb|]. auto.
Qed.

(** An operation leaves the table, and its object goes. *)
Lemma running_erased A x t p :
  outstanding (QConn (conn (_conn (ch_of (self x))))) t ⊆ callback_table (ch_of (self x)) ∖ {[p]} ->
  running A x t -> running A (erased p x) t.
Proof.
  intros Hout [R1 [I1 I2 I3 I4] R3 R4 R5 R6 R7]. split; simpl; try done.
  - split; simpl; [|done..]. intros q Hq. apply I1. simpl in *. set_solver.
  - intros q o Hq. apply R3. simpl in *. set_solver.
Qed.

Lemma running_freed A x t p :
  p ∉ callback_table (ch_of (self x)) -> running A x t -> running A (freed p x) t.
Proof.
  intros Hp [R1 R2 R3 R4 R5 R6 R7]. split; try done; [by apply ops_inv_delete|].
  simpl. intros q o Hq Ho. apply lookup_delete_Some in Ho as [_ Ho]. by eapply R3.
Qed.

Section Lemmas.
Context {O : Oracle} {ED : EpollDocumented O} {CD : CompletionDocumented O}
        {E : CephEncoding} {EL : CephEncodingLaws E} {N : Wire}.
Context (Hwire : server_replies).

(** A store into an activation that is alive or the first one. *)
Lemma wp_store_known (A : gset Z) f upd (x : Ctx Client) t :
  (forall f, f ∈ A -> is_Some (frames (self x) !! f)) -> f = 1 \/ f ∈ A ->
  wp (fr ← read_frame f;
      modify (fun x => with_self (with_frames (<[f := upd fr]> (frames (self x))) (self x)) x))
    (steps (fun _ x' t' => same_session x x' /\ this x' = this x /\ t' = t)) x t.
Proof.
  intros Hlive Hf. destruct (frames (self x) !! f) as [fr|] eqn:Hfr.
  - apply wp_bind. eapply wp_read_frame; [done|]. wp_step. simpl. split_and!; [|done..].
    split; [done..|]. simpl. intros g Hg. rewrite lookup_insert. case_decide; [by eexists | done].
  - apply wp_bind. unfold read_frame. do 2 wp_step. apply wp_of_option. rewrite Hfr.
    destruct Hf as [->|Hf%Hlive]; [done|]. rewrite Hfr in Hf. by destruct Hf.
Qed.

Lemma remote_descriptor_no_throw x t :
  is_Some (RwlReplicaInitRequestReply_decode (bl_data (recv_bl (ch_of (self x))))) ->
  wp get_remote_descriptor (fun o x' _ => this x' = this x /\ forall e, o <> Throw e) x t.
Proof.
  intros [[reply r] Hdec]. unfold get_remote_descriptor. do 2 wp_step. rewrite Hdec.
  unfold apply_pcfg, rpma_peer_cfg_from_descriptor, rpma_peer_cfg_get_direct_write_to_pmem,
    rpma_conn_apply_remote_peer_cfg, rpma_peer_cfg_delete, rpma_mr_remote_from_descriptor,
    rpma_mr_remote_get_size, indeterminate, on_handler.
  repeat (wp_step || apply wp_of_option || case_match); done.
Qed.

Lemma wp_run_known A cb x t :
  (forall f, f ∈ A -> is_Some (frames (self x) !! f)) -> known_callback A cb -> cb <> no_callback ->
  honest_reply (bl_data (recv_bl (ch_of (self x)))) ->
  is_Some (RwlReplicaInitRequestReply_decode (bl_data (recv_bl (ch_of (self x))))) ->
  wp (ClientHandler_run cb) (fun o x' t' =>
    steps (fun _ x' _ => same_session x x' /\ this x' = this x) o x' t' /\ extends quiet_call t t') x t.
Proof.
  intros Hlive [->|(f & Hcb & Hf)] Hne Hh Hdec; [done|].
  apply (calls_wp quiet_call); [footprint|]. destruct Hcb as [-> | ->]; simpl.
  - apply wp_bind. eapply wp_mono.
    { apply wp_and; [by apply wp_get_remote_descriptor_safe | by apply remote_descriptor_no_throw]. }
    intros [ret|e|fl] x1 t1 [[Hs Hnf] [Hthis Hnt]]; [|by destruct (Hnt e)|by destruct (Hnf fl)].
    eapply wp_mono; [apply (wp_store_known A); [|done]|].
    + intros g Hg. by apply Hs, Hlive.
    + intros [[]| |] x2 t2; simpl; [|done..]. intros (Hs2 & Ht2 & _). split; [by etrans | congruence].
  - eapply wp_mono; [by apply (wp_store_known A)|]. intros [[]| |] x' t'; simpl; naive_solver.
Qed.

Lemma wp_completion_running A x t :
  running A x t -> honest_reply (bl_data (recv_bl (ch_of (self x)))) ->
  is_Some (RwlReplicaInitRequestReply_decode (bl_data (recv_bl (ch_of (self x))))) ->
  wp (handle_completion ClientHandler_run) (steps (fun _ => running A)) x t.
Proof.
  intros Hr Hh Hdec. pose proof (rn_ops _ _ _ Hr) as Hok.
  assert (Herr : forall ret t', running A x t' ->
    completion_error ret x t' (steps (fun _ => running A))).
  { intros ret t' Hr'. unfold completion_error. case_match; [done|]. intros a.
    by apply (running_base A x), running_call. }
  apply wp_handle_completion.
  { intros w _ _. by apply Herr, running_call. }
  intros ret cmpl t1 t2 Hw Hget.
  assert (Hr2 : running A x t2).
  { destruct Hr as [(r & ? & ? & ?) R2 R3 R4 R5 R6 R7]. split; try done; [|by apply ops_ok_completion].
    exists r. split_and!; [done| |done]. apply reactor_inv_other; [done|]. by apply reactor_inv_other. }
  destruct (ret =? 0) eqn:Hret; simpl; [|by apply Herr]. bools. subst ret.
  destruct (_ || _) eqn:Hst; [done|]. bools.
  destruct (completed_live x t 0 cmpl Hok Hget) as (Hin & [o Ho] & Hout); [done|].
  eapply wp_complete_op; [exact Ho|]. set (p := op_context cmpl) in *.
  pose proof (running_erased A x t2 p Hout Hr2) as Hr3.
  assert (Hfree : forall x' t', same_session (erased p x) x' -> this x' = this x -> extends quiet_call t2 t' ->
    is_Some (ops (heap (proc x')) !! p) /\ running A (freed p x') t').
  { intros x' t' Hs Ht Hq. rewrite (ss_proc _ _ Hs). split; [by eexists|].
    apply running_freed; [|by eapply running_session].
    rewrite (ss_base _ _ Hs). simpl. set_solver. }
  unfold do_callback. case_bool_decide as Hcb.
  { wp_step. destruct (Hfree (erased p x) t2) as [? ?]; [done | done | apply extends_refl | done]. }
  eapply wp_mono; [apply (wp_run_known A); [apply Hr | exact (rn_callbacks _ _ _ Hr p o Hin Ho) | done..]|].
  intros r x' t' [Hs Hq]. destruct r as [[]|e|f]; simpl in Hs |- *; [|done|done].
  destruct Hs as [Hs Ht]. by apply Hfree.
Qed.

Lemma wp_connection_running A x t :
  running A x t ->
  wp (handle_connection_event ClientHandler_remove_self) (steps (fun _ => running A)) x t.
Proof.
  intros Hr. unfold handle_connection_event, rpma_conn_next_event. do 4 wp_step.
  destruct a as [ret ev]. set (t1 := t ++ _).
  assert (Hr1 : running A x t1) by (by apply running_call).
  apply wp_if; intros Hret.
  { apply wp_if; intros _; [by wp_step|]. apply wp_bind, wp_disconnect. intros a. wp_step.
    by apply (running_base A x), running_call. }
  assert (Hflag : forall b, running A (with_self (set_ch (with_connected b (ch_of (self x))) (self x)) x) t1).
  { intros b. by apply (running_base A x). }
  assert (Hrem : wp (on_ch (modify (with_connected false));; ClientHandler_remove_self)
    (steps (fun _ => running A)) x t1).
  { apply wp_bind, wp_on_ch. wp_step. set (x1 := with_self _ x). specialize (Hflag false). fold x1 in Hflag.
    destruct Hflag as [(r & Hrr & Hi & He) R2 R3 R4 R5 R6 R7]. unfold ClientHandler_remove_self.
    eapply wp_mono; [apply wp_and; [by apply (wp_conn_remove_self r x1 t1); [| |apply R5..] |
      apply (remove_self_epoll r x1 t1 Hrr)]|].
    intros [ret'| |] x2 t2; simpl; [|by intros [[] _]..].
    intros [(r' & -> & Hi' & _ & _ & Ht & _) (r2 & _ & _ & Hx)]. split; try done.
    - exists r'. split_and!; [done..|]. intros fd n e. rewrite Ht.
      intros [_ [_ ?]%lookup_delete_Some]%lookup_delete_Some. eauto.
    - destruct R2 as [I1 I2 I3 I4]. split; try done.
      by rewrite (uses_epoll_queues _ _ _ _ Hx). }
  destruct ev; try exact Hrem. apply wp_bind, wp_on_ch. do 2 wp_step. apply Hflag.
Qed.

Lemma wp_turn_running A x t : running A x t -> wp thread_turn (steps (fun _ => running A)) x t.
Proof.
  intros Hr. unfold thread_turn. do 2 wp_step.
  destruct (rn_reactor _ _ _ Hr) as (r & Hrr & Hi & He). rewrite Hrr.
  apply wp_if; intros _; [by wp_step|]. apply wp_try_catch, wp_bind.
  apply wp_handle_event; rewrite Hrr; simpl; [done| |].
  - intros ret a _ _. wp_step. by apply running_call.
  - intros fd n e a Hfd _. unfold client_dispatch. do 2 wp_step.
    rewrite (He _ _ _ Hfd), Z.eqb_refl. apply wp_bind. unfold arrive, wp at 1.
    set (t1 := t ++ _). set (x1 := with_self _ x).
    assert (Hr1 : running A x1 t1) by (by apply (running_base A x), running_call).
    destruct (Hwire t1 (conn (_conn (cl_base (handler (self x)))))) as [Hh Hdec].
    apply (wp_mono _ (steps (fun _ => running A))).
    + unfold ClientHandler_handle, ch_handle. destruct (eh_type e); [by wp_step | |].
      * by apply wp_connection_running.
      * by apply wp_completion_running.
    + intros [ret|e'|f] x' t' Hs; [by wp_step | done | done].
Qed.

Lemma wp_turns_running A n x t : running A x t -> wp (thread_turns n) (steps (fun _ => running A)) x t.
Proof.
  revert x t. induction n as [|n IH]; intros x t Hr; simpl; [by wp_step|]. apply wp_bind.
  eapply wp_mono; [by apply wp_turn_running|]. intros [[]| |] x' t'; simpl; [apply IH | done..].
Qed.

(** *** The loops of the main thread *)

Lemma wp_established_running A fuel x t :
  running A x t -> wp (wait_established fuel) (steps (fun _ => running A)) x t.
Proof.
  revert x t. induction fuel as [|fuel IH]; intros x t Hr; simpl; [by wp_step|]. do 2 wp_step.
  apply wp_if; intros _; [by wp_step|]. apply wp_bind.
  eapply wp_mono; [by apply wp_turn_running|]. intros [[]| |] x' t'; simpl; [apply IH | done..].
Qed.

Lemma wp_live_frame {B} A f (k : Frame -> M (Ctx Client) B) Q x t :
  running A x t -> f ∈ A -> (forall fr, wp (k fr) Q x t) -> wp (read_frame f ≫= k) Q x t.
Proof.
  intros Hr Hf Hk. destruct (rn_live _ _ _ Hr f Hf) as [fr Hfr].
  apply wp_bind. eapply wp_read_frame; [done|]. apply Hk.
Qed.

Lemma wp_spin_running A fuel f x t :
  running A x t -> f ∈ A -> wp (spin fuel f) (steps (fun _ => running A)) x t.
Proof.
  intros Hr Hf. revert x t Hr. induction fuel as [|fuel IH]; intros x t Hr; simpl; [by wp_step|].
  eapply wp_live_frame; [done..|]. intros fr. apply wp_if; intros _; [by wp_step|]. apply wp_bind.
  eapply wp_mono; [by apply wp_turn_running|]. intros [[]| |] x' t'; simpl; [apply IH | done..].
Qed.

Lemma wp_wait_running A fuel f start cost x t :
  running A x t -> f ∈ A ->
  wp (wait_completed thread_turn fuel f start cost) (steps (fun _ => running A)) x t.
Proof.
  intros Hr Hf. revert cost x t Hr. induction fuel as [|fuel IH]; intros cost x t Hr; simpl; [by wp_step|].
  eapply wp_live_frame; [done..|]. intros fr. apply wp_if; intros _; [|by wp_step]. apply wp_bind.
  eapply wp_mono; [by apply wp_turn_running|]. intros [[]| |] x' t' H'; [|done..]. unfold clock_now.
  do 2 wp_step. apply IH. by apply running_call.
Qed.

(** The thread has ended. *)
Definition over (x : Ctx Client) : Prop :=
  exists r, reactor (proc x) = Some r /\ event_table r = ∅.

Lemma wp_join_running A fuel x t :
  running A x t ->
  wp (join fuel) (steps (fun r x' t' => running A x' t' /\ (r = Some tt -> over x'))) x t.
Proof.
  revert x t. induction fuel as [|fuel IH]; intros x t Hr; simpl; [by wp_step|]. do 2 wp_step.
  destruct (rn_reactor _ _ _ Hr) as (r & Hrr & _). rewrite Hrr.
  apply wp_if; intros Hemp.
  - wp_step. split; [done|]. intros _. exists r. split; [done|]. by apply bool_decide_eq_true in Hemp.
  - apply wp_bind. eapply wp_mono; [by apply wp_turn_running|].
    intros [[]| |] x' t'; simpl; [apply IH | done..].
Qed.

(** *** What the main thread does itself *)

Lemma returns_steps {A} (Q : A -> Ctx Client -> trace -> Prop) o x t : returns Q o x t -> steps Q o x t.
Proof. by destruct o. Qed.

Lemma running_push A x t :
  let f := next_frame (self x) in
  running A x t -> wp push_frame (steps (fun g x' t' => g = f /\ running ({[f]} ∪ A) x' t' /\
    next_frame (self x') = f + 1)) x t.
Proof.
  intros f [R1 R2 R3 R4 R5 R6 R7]. unfold push_frame, wp. simpl. fold f. split_and!; [done| |done].
  split; try done; simpl.
  - intros p o Hp Ho. destruct (R3 p o Hp Ho) as [|(g & Hg & Hl)]; [by left | right].
    exists g. split; [done|]. set_solver.
  - intros g [->%elem_of_singleton|Hg]%elem_of_union; [by rewrite lookup_insert_eq|].
    rewrite lookup_insert. case_decide; [by eexists | auto].
Qed.

Lemma wp_post_running A k cb post x t :
  running A x t -> known_callback A cb ->
  posts (fun p ret t' => extends keeps_interest t t') post x t ->
  wp (post_op k cb post) (returns (fun _ x' t' => running A x' t' /\
    next_frame (self x') = next_frame (self x) /\
    data_mr (handler (self x')) = data_mr (handler (self x)))) x t.
Proof.
  intros [(r & Hr & Hi & He) R2 R3 R4 R5 R6 R7] Hcb Hpost. eapply wp_mono; [by apply wp_post_op|].
  intros [ret| |] x' t'; simpl; [|done..]. intros (Hok & _ & Hx & Hthis & Hrr & Hp & Hcase).
  assert (Hreact : exists r, reactor (proc x') = Some r /\ reactor_inv r t' /\
    forall fd n e, event_table r !! fd = Some (n, e) -> eh_handler e = this x').
  { exists r. rewrite Hrr, Hthis. split_and!; [done| |done]. eapply reactor_inv_interest; [|done].
    by apply extends_interest. }
  destruct (ret =? 0); destruct Hcase as [Hself Hops]; rewrite Hself; (split_and!; [|done..]);
    (split; [done|done|..]); rewrite ?Hself, ?Hops, ?Hp; simpl; try done.
  intros q o Hq Ho. apply lookup_insert_Some in Ho as [[<- <-]|[Hne Ho]]; [done|].
  eapply R3; [|done]. simpl in *. set_solver.
Qed.

Lemma wp_send_running A x t :
  running A x t -> wp (send no_callback) (steps (fun _ x' t' => running A x' t' /\
    next_frame (self x') = next_frame (self x) /\
    data_mr (handler (self x')) = data_mr (handler (self x)))) x t.
Proof.
  intros Hr. eapply wp_mono; [|apply returns_steps]. apply wp_post_running; [done | by left|]. apply posts_send. intros p ret _ _.
  by apply extends_snoc.
Qed.

Lemma wp_recv_running A cb x t :
  running A x t -> known_callback A cb -> wp (recv cb) (steps (fun _ x' t' => running A x' t' /\
    next_frame (self x') = next_frame (self x) /\
    data_mr (handler (self x')) = data_mr (handler (self x)))) x t.
Proof.
  intros Hr Hcb. eapply wp_mono; [|apply returns_steps]. apply wp_post_running; [done..|]. apply posts_recv. intros p ret _ _.
  by apply extends_snoc.
Qed.

(** The activation of [init_replica] is gone when it returns. *)
Lemma running_pop x t :
  running {[1]} x t -> wp (pop_frame 1) (steps (fun _ => running ∅)) x t.
Proof.
  intros [R1 R2 R3 R4 R5 R6 R7]. unfold pop_frame. wp_step. split; try done.
  simpl. intros p o Hp Ho. destruct (R3 p o Hp Ho) as [|(g & Hg & Hl)]; [by left | right].
  exists g. split; [done|]. set_solver.
Qed.

(** Sequencing of steps. *)
Lemma wp_steps_bind {A B} (m : M (Ctx Client) A) (k : A -> M (Ctx Client) B) P Q x t :
  wp m (steps P) x t -> (forall a x' t', P a x' t' -> wp (k a) (steps Q) x' t') ->
  wp (m ≫= k) (steps Q) x t.
Proof.
  intros Hm Hk. apply wp_bind. eapply wp_mono; [exact Hm|]. intros [a|e|f] x' t'; [apply Hk | done..].
Qed.

Lemma wp_request_running fuel id size pool image x t :
  36 + blen pool + blen image < MSG_SIZE -> running ∅ x t -> next_frame (self x) = 1 ->
  wp (init_replica thread_turn fuel id size pool image)
    (steps (fun r x' t' => is_Some r -> running ∅ x' t')) x t.
Proof.
  intros Hlen Hr Hn. unfold init_replica. apply wp_bind, wp_zoom. wp_step. simpl.
  set (x1 := with_self _ x). assert (Hr1 : running ∅ x1 t) by (by destruct Hr; split).
  apply wp_bind. eapply wp_fill_send_buffer; [|apply Hr1|].
  { rewrite init_request_length. simpl. change (blen []) with 0. lia. }
  set (x2 := with_self _ x1). assert (Hr2 : running ∅ x2 t).
  { apply (running_base ∅ x1); try done. simpl. apply blen_filled.
    rewrite init_request_length. simpl. change (blen []) with 0. pose proof (rn_buffer _ _ _ Hr1). simpl in *. lia. }
  assert (Hn2 : next_frame (self x2) = 1) by done. clearbody x2. clear x1 Hr Hr1 Hn.
  unfold request_and_wait, clock_now, indeterminate. do 2 wp_step.
  eapply wp_steps_bind; [by eapply running_push, running_call|]. rewrite Hn2, union_empty_r_L.
  intros f x3 t3 (-> & Hr3 & _). eapply wp_steps_bind; [apply wp_recv_running; [done|]|].
  { right. exists 1. split; [by left | by left]. }
  intros _ x4 t4 (Hr4 & _). eapply wp_steps_bind; [by apply wp_send_running|].
  intros _ x5 t5 (Hr5 & _). do 2 wp_step.
  eapply wp_steps_bind; [apply wp_wait_running; [by apply running_call | set_solver]|].
  intros [c|] x6 t6 Hr6; [|by wp_step; intros []].
  eapply wp_live_frame; [done | set_solver|]. intros fr.
  eapply wp_steps_bind; [by apply running_pop|]. intros [] x7 t7 Hr7. wp_step. intros _. exact Hr7.
Qed.

Lemma wp_expected_bind {A B} (m : M (Ctx Client) A) (k : A -> M (Ctx Client) B) P x t :
  wp m (steps P) x t -> (forall a x' t', P a x' t' -> wp (k a) expected x' t') ->
  wp (m ≫= k) expected x t.
Proof.
  intros Hm Hk. apply wp_bind. eapply wp_mono; [exact Hm|].
  intros [a|e|f] x' t'; simpl; [apply Hk | done | by intros ->].
Qed.

Lemma wp_expected_then {A B} (m : M (Ctx Client) (option A)) (k : A -> M (Ctx Client) (option B)) P x t :
  wp m (steps P) x t -> (forall a x' t', P (Some a) x' t' -> wp (k a) expected x' t') ->
  wp (and_then m k) expected x t.
Proof.
  intros Hm Hk. eapply wp_expected_bind; [exact Hm|]. intros [a|] x' t' H; [by apply Hk | by wp_step].
Qed.

(** *** Writing and flushing *)

(** A post with its assertions. *)
Definition asserts A (post : M (Ctx Client) Z) : Prop :=
  forall x t, running A x t -> wp post (fun o x' t' =>
    match o with
    | Ret _ => running A x' t'
    | Throw _ => False
    | Faulted f => f = AssertFailed /\ data_mr (handler (self x')) = NULL
    end) x t.

Lemma asserts_write A size f : size <= 1024 * 1024 * 1024 -> f ∈ A ->
  asserts A (write 0 size (set_completed_cb f)).
Proof.
  intros Hsize Hf x t Hr. unfold write. do 2 wp_step. set (h := handler (self x)).
  apply wp_bind, wp_assert; intros Hmr; [|by bools]. rewrite (proj2 (Z.leb_le _ _) Hsize).
  apply wp_bind, wp_assert; [intros _|done]. eapply wp_mono; [apply (wp_post_running A)|].
  - done.
  - right. exists f. split; by right.
  - intros p pr Hp. unfold RpmaWrite_call, rpma_write. wp_step. simpl.
    split_and!; [done | by apply extends_snoc|].
    rewrite outstanding_write. destruct (Z.eqb_spec a 0); case_decide; set_solver.
  - intros [ret| |] x' t'; simpl; naive_solver.
Qed.

Lemma asserts_flush A size f : f ∈ A -> asserts A (flush 0 size (set_completed_cb f)).
Proof.
  intros Hf x t Hr. unfold flush. do 2 wp_step. set (h := handler (self x)).
  apply wp_bind, wp_assert; intros Hmr; [|by bools].
  eapply wp_mono; [apply (wp_post_running A)|].
  - done.
  - right. exists f. split; by right.
  - intros p pr Hp. unfold RpmaFlush_call, rpma_flush. wp_step. simpl.
    split_and!; [done | by apply extends_snoc|].
    rewrite outstanding_flush. destruct (Z.eqb_spec a 0); case_decide; set_solver.
  - intros [ret| |] x' t'; simpl; naive_solver.
Qed.

Definition steps_or_asserts {A} (Q : A -> Ctx Client -> trace -> Prop) (o : outcome A)
    (x : Ctx Client) (t : trace) : Prop :=
  match o with Ret a => Q a x t | _ => expected o x t end.

Lemma wp_post_and_wait_running A fuel k f post x t :
  asserts A post -> f ∈ A -> running A x t ->
  wp (post_and_wait fuel k f post) (steps_or_asserts (fun _ => running A)) x t.
Proof.
  intros Hpost Hf Hr. unfold post_and_wait. apply wp_bind.
  eapply wp_mono; [by apply (wp_turns_running A)|].
  intros [[]|e|fl] x1 t1; simpl; [intros Hr1 | done | by intros ->].
  apply wp_bind. eapply wp_mono; [by apply Hpost|].
  intros [ret|e|fl] x2 t2; simpl; [intros Hr2 | done | by intros [-> ->]].
  eapply wp_mono; [by apply (wp_spin_running A)|].
  intros [r|e|fl] x3 t3; simpl; [done | done | by intros ->].
Qed.

Lemma wp_write_and_flush_running A fuel k1 k2 k3 size f x t :
  size <= 1024 * 1024 * 1024 -> f ∈ A -> running A x t ->
  wp (write_and_flush fuel k1 k2 k3 size f) (steps_or_asserts (fun r x' t' =>
    is_Some r -> running A x' t')) x t.
Proof.
  intros Hsize Hf Hr. unfold write_and_flush, and_then. apply wp_bind.
  eapply wp_mono; [by apply (wp_post_and_wait_running A); [apply asserts_write|..]|].
  intros [[[]|]|e|fl] x1 t1 H1; [|by wp_step; intros []|done|by destruct fl].
  apply wp_bind. eapply wp_mono; [by apply (wp_turns_running A)|].
  intros [[]|e|fl] x2 t2; simpl; [intros Hr2 | done | by intros ->].
  apply wp_bind. eapply wp_mono; [apply (wp_store_known A); [apply Hr2 | by right]|].
  intros [[]|e|fl] x3 t3; simpl; [intros (Hs & Ht & ->) | done | by intros ->].
  eapply wp_mono; [apply (wp_post_and_wait_running A); [by apply asserts_flush | done |]|].
  - exact (running_session A x2 x3 t2 t2 Hs Ht (extends_refl _ _) Hr2).
  - intros [r|e|fl] x4 t4 H4; [by intros _ | done | exact H4].
Qed.
End Lemmas.

(** ** The data *)

(** The copying loop stays inside the region, however often it turns. *)
Lemma fill_loop_safe fuel n k rest t :
  64 * Z.of_nat (k + n) < 2 ^ 31 -> length rest = (64 * n)%nat ->
  wp (fill_loop fuel (64 * Z.of_nat (k + n)) (64 * Z.of_nat k))
    (fun o _ t' => (exists b, o = Ret b) /\ t' = t) (pieces k ++ rest) t.
Proof.
  revert n k rest. induction fuel as [|fuel IH]; intros n k rest Hmax Hrest; simpl.
  { wp_step. split; [by eexists | done]. }
  unfold u64 at 1. rewrite Z.mod_small by lia. destruct n as [|n].
  { rewrite (proj2 (Z.ltb_ge _ _)) by lia. wp_step. split; [by eexists | done]. }
  rewrite (proj2 (Z.ltb_lt _ _)) by lia. do 3 wp_step. apply wp_of_option.
  replace (Z.to_nat (64 * Z.of_nat k)) with (64 * k)%nat by lia.
  rewrite write_piece by lia. do 2 wp_step. rewrite blen_data, to_int_small by lia.
  replace (64 * Z.of_nat k + 64) with (64 * Z.of_nat (S k)) by lia.
  replace (k + S n)%nat with (S k + n)%nat in * by lia.
  apply IH; [lia|]. rewrite length_drop. lia.
Qed.

Section Parts.
Context {O : Oracle} {E : CephEncoding} {N : Wire}.

(** Allocation does not give a null pointer. *)
Definition allocates (O : Oracle) : Prop := forall t n, (answer_of t (C_bufferptr n)).1 <> NULL.

Lemma wp_prepare_safe A n fuel x t :
  allocates O -> 64 * Z.of_nat n < 2 ^ 31 -> running A x t ->
  wp (prepare fuel (64 * Z.of_nat n)) (steps (fun _ => running A)) x t.
Proof.
  intros Hal Hmax Hr. unfold prepare, new_bufferlist. do 3 wp_step. specialize (Hal t (64 * Z.of_nat n)).
  rewrite H in Hal. destruct a as [addr raw]. apply wp_ret. simpl in Hal.
  cbn [bl_addr bl_data]. rewrite (proj2 (Z.eqb_neq _ _) Hal). set (t1 := t ++ _).
  set (mem := take _ _). assert (Hmem : length mem = (64 * n)%nat).
  { unfold mem. rewrite length_take, length_app, length_replicate. lia. }
  pose proof (fill_loop_safe fuel n 0 mem t1 Hmax Hmem) as Hfill. simpl in Hfill.
  apply wp_bind. unfold wp, locally at 1. unfold wp in Hfill.
  change (64 * Z.of_nat 0) with 0 in Hfill. destruct (fill_loop _ _ _ mem t1) as [[o mem'] t'].
  destruct Hfill as [[b ->] ->]. by apply running_call.
Qed.

Lemma wp_set_head_running A ptr size x t :
  running A x t -> wp (set_head ptr size) (steps (fun _ x' t' => running A x' t' /\
    next_frame (self x') = next_frame (self x))) x t.
Proof.
  intros Hr. apply (wp_mono _ (fun o x' t' => ((exists r, o = Ret r) /\ same_session x x' /\ this x' = this x /\
    next_frame (self x') = next_frame (self x)) /\ extends quiet_call t t')).
  - apply calls_wp; [footprint|]. unfold set_head, rpma_mr_reg, mr_delete, rpma_mr_dereg, on_handler.
    wp_steps; (split; [by eexists | done]).
  - intros o x' t' [([r ->] & Hs & Ht & Hn) Hq]. split; [by eapply running_session | done].
Qed.

Lemma wp_disconnect_running A x t :
  running A x t -> wp disconnect (steps (fun _ => running A)) x t.
Proof.
  intros Hr. apply wp_disconnect. intros ret. by apply (running_base A x), running_call.
Qed.

(** *** The end *)

Lemma over_unreferenced x : over x -> client_referenced x = false.
Proof.
  intros (r & Hr & Ht). unfold client_referenced. rewrite Hr, Ht. by rewrite map_to_list_empty.
Qed.

Lemma wp_mr_delete_total {S} mr (s : S) t : wp (mr_delete mr) (fun o s' _ => o = Ret tt /\ s' = s) s t.
Proof. unfold mr_delete, rpma_mr_dereg. by wp_steps. Qed.

Lemma wp_dtor_safe x t :
  ops_ok x t -> peers (proc x) = client_peers (_peer (ch_of (self x))) ->
  wp ClientHandler_dtor (returns (fun _ x' _ => reactor (proc x') = reactor (proc x))) x t.
Proof.
  intros Hok Hp. unfold ClientHandler_dtor. do 2 wp_step. apply wp_bind.
  eapply wp_mono; [apply wp_mr_delete_total|]. intros o x1 t1 [-> ->].
  unfold ConnectionHandler_dtor. do 2 wp_step. set (c := ch_of (self x)) in *. apply wp_bind.
  eapply wp_mono; [apply wp_delete_ops; [apply NoDup_elements|]|].
  { intros p Hp'%elem_of_elements. by apply (oi_live _ _ _ Hok). }
  intros [[]| |] x2 t2; simpl; [|done..]. intros (-> & h' & -> & _).
  apply wp_bind. eapply wp_mono; [apply wp_mr_delete_total|]. intros o x3 t3 [-> ->].
  apply wp_bind. eapply wp_mono; [apply wp_mr_delete_total|]. intros o x4 t4 [-> ->].
  apply wp_bind, wp_on_ch, wp_zoom. eapply wp_mono; [apply RpmaConn_dtor_fds|].
  intros o s' t5 [[u ->] _]. apply wp_zoom. simpl. fold c. unfold peer_release, rpma_peer_delete.
  destruct (Z.eqb_spec (_peer c) NULL) as [_|Hn]; [by wp_step|].
  do 2 wp_step. simpl. rewrite Hp. unfold client_peers. rewrite (proj2 (Z.eqb_neq _ _) Hn).
  rewrite lookup_singleton_eq. by wp_steps.
Qed.

Lemma wp_end_safe ret x t :
  over x -> ops_ok x t -> peers (proc x) = client_peers (_peer (ch_of (self x))) ->
  wp (release_client;; release_reactor;; mret (Some ret)) (expected (A := option Z)) x t.
Proof.
  intros Hov Hok Hp. unfold release_client, release_reactor, close_fd. apply wp_bind. do 2 wp_step.
  rewrite (over_unreferenced x Hov). eapply wp_mono; [by apply wp_dtor_safe|].
  intros [[]| |] x' t'; simpl; [|done..]. intros Hr. destruct Hov as (r & Hr0 & Ht).
  assert (Hov' : over x') by (exists r; by rewrite Hr).
  apply wp_bind. do 2 wp_step. rewrite Hr, Hr0. do 2 wp_step. rewrite (over_unreferenced x' Hov').
  by wp_steps.
Qed.
End Parts.

(** ** The start *)

(** Code that does not let the errors of the decoder through. *)
Definition no_buffer_error {S A} (m : M S A) : Prop :=
  forall s t, wp m (fun o _ _ => o <> Throw buffer_error) s t.

Lemma nb_bind {S A B} (m : M S A) (k : A -> M S B) :
  no_buffer_error m -> (forall a, no_buffer_error (k a)) -> no_buffer_error (m ≫= k).
Proof.
  intros Hm Hk s t. apply wp_bind. eapply wp_mono; [apply Hm|].
  intros [a|e|f] s' t' H; [apply Hk | congruence | done].
Qed.
Lemma nb_zoom {S T A} (view : S -> T) update (m : M T A) :
  no_buffer_error m -> no_buffer_error (zoom view update m).
Proof. intros Hm s t. apply wp_zoom. apply Hm. Qed.

Ltac no_buffer_step :=
  lazymatch goal with
  | |- no_buffer_error (mret _) => by intros ? ?
  | |- no_buffer_error (throw (runtime_error _)) => by intros ? ?
  | |- no_buffer_error (fail_with _) => by intros ? ?
  | |- no_buffer_error (_ ≫= _) => apply nb_bind; [|intros ?]
  | |- no_buffer_error (zoom _ _ _) => apply nb_zoom
  | |- no_buffer_error get => by intros ? ?
  | |- no_buffer_error (gets _) => by intros ? ?
  | |- no_buffer_error (modify _) => by intros ? ?
  | |- no_buffer_error (ext _) => by intros ? ?
  | |- no_buffer_error (if ?b then _ else _) => destruct b
  | |- no_buffer_error (let '(_, _) := ?x in _) => destruct x
  | |- no_buffer_error (match ?x with _ => _ end) => destruct x
  | |- no_buffer_error ?m => let f := head_of m in unfold f
  end; cbn beta iota.
Ltac no_buffer := intros; repeat no_buffer_step.

Section Start.
Context {O : Oracle} {ED : EpollDocumented O} {RD : RpmaDocumented O} {FD : FdsDocumented O}.

Lemma nb_body addr port : no_buffer_error (ClientHandler_body addr port).
Proof. no_buffer. Qed.

(** If the run returns, [Q] holds of its last step. *)
Definition ends {A} (Q : Ctx Client -> Prop) (m : M (Ctx Client) A) : Prop :=
  forall x t, wp m (fun o x' _ => match o with Ret _ => Q x' | _ => True end) x t.

Lemma ends_bind {A B} Q (m : M (Ctx Client) A) (k : A -> M (Ctx Client) B) :
  (forall a, ends Q (k a)) -> ends Q (m ≫= k).
Proof.
  intros Hk x t. apply wp_bind. unfold wp at 1. destruct (m x t) as [[[a|e|f] x'] t']; [apply Hk | done..].
Qed.

Definition two_fds (x : Ctx Client) : Prop :=
  let c := ch_of (self x) in _conn_fd c <> -1 /\ _comp_fd c <> -1 /\ _conn_fd c <> _comp_fd c.

Lemma ends_init_conn_fd : ends two_fds (on_ch init_conn_fd).
Proof.
  intros x t. apply wp_on_ch. eapply wp_mono; [apply init_conn_fd_fds|].
  intros [[]| |] c t' [_ H]; [|done..]. destruct H as (H1 & H2 & H3 & H4). unfold two_fds. simpl.
  split_and!; [lia..|]. intros Heq. rewrite Heq, H2 in H1. congruence.
Qed.

Lemma ends_body addr port : ends two_fds (ClientHandler_body addr port).
Proof.
  unfold ClientHandler_body. apply ends_bind. intros [ret peer].
  destruct (negb _); [by intros ? ?|]. do 4 (apply ends_bind; intros ?).
  unfold connect_request. apply ends_bind. intros conn0. apply ends_bind. intros [[ret' cn] req].
  destruct (negb _); [apply ends_bind; by intros ? ? ?|]. apply ends_bind. intros _. apply ends_init_conn_fd.
Qed.

Lemma wp_client_ctor L addr port x t :
  starting L addr port x t ->
  wp (ClientHandler_ctor addr port) (fun o x' t' =>
    match o with
    | Ret _ => ops_ok x' t' /\ callback_table (ch_of (self x')) = ∅ /\ two_fds x' /\
        peers (proc x') = client_peers (_peer (ch_of (self x'))) /\
        blen (bl_data (send_bl (ch_of (self x')))) = MSG_SIZE
    | Throw e => e <> buffer_error
    | Faulted _ => False
    end) x t.
Proof.
  intros Hst. unfold ClientHandler_ctor. apply wp_on_throw.
  eapply wp_mono.
  { apply wp_and; [by apply wp_ClientHandler_body|]. apply wp_and; [apply nb_body | apply ends_body]. }
  intros [[]|e|f] x' t' ([Ha Ho] & Hnb & Hfd); [| |done].
  - split_and!; [by eapply assembling_ops | apply Ha | done | apply Ha | apply Ho].
  - eapply wp_mono; [by apply wp_disassemble|]. intros [[]| |] x2 t2; [|done..]. intros _ ->. by apply Hnb.
Qed.

Lemma client_ctor_reactor addr port : keeping reactor (ClientHandler_ctor addr port).
Proof.
  keep; try done.
  - unfold wp, delete_op. by match goal with |- context [ops ?h !! ?p] => destruct (ops h !! p) end.
  - by apply (peer_release_keeps reactor).
Qed.

Lemma client_ctor_interest addr port : calls keeps_interest (ClientHandler_ctor addr port).
Proof. footprint. Qed.
Lemma start_waits addr port : calls (fun c => negb (is_epoll_wait c)) (start addr port).
Proof. footprint. Qed.

Lemma wp_start addr port raw l1 l2 :
  wp (start addr port) (fun o x' t' =>
    match o with
    | Ret (Returned _) => over x' /\ ops_ok x' t' /\ peers (proc x') = client_peers (_peer (ch_of (self x')))
    | Ret (Continues true) => running ∅ x' t' /\ next_frame (self x') = 1
    | Ret (Continues false) => True
    | _ => False
    end) (new_process raw) (logged l1 l2).
Proof.
  unfold start, Reactor_ctor, epoll_create1. apply wp_try_catch. do 3 wp_step.
  destruct (a =? -1) eqn:Ha; [by do 2 wp_step|]. do 3 wp_step. apply wp_bind, wp_zoom. wp_step. simpl.
  match goal with |- wp _ _ _ ?u => change u with (logged l1 l2 ++ [Ev C_epoll_create1 a]) end.
  set (t1 := logged l1 l2 ++ _). set (x1 := with_self _ _). apply wp_bind.
  assert (Hst : starting {[+ REpoll a +]} addr port x1 t1).
  { split; try done; [by do 6 eexists| |].
    - split; [done|]. simpl. intros p [o Ho]. by rewrite lookup_empty in Ho.
    - unfold t1. rewrite (ledger_acquire (logged l1 l2) ∅ C_epoll_create1 a (REpoll a)); try done;
        [f_equal; multiset_solver|].
      simpl. by rewrite Ha. }
  eapply wp_mono.
  { apply wp_and; [by apply (wp_client_ctor {[+ REpoll a +]})|]. apply wp_and; [apply client_ctor_reactor|].
    apply wp_and; [apply client_ctor_interest|].
    apply (wp_mono _ (fun _ x' t' => steady (fun _ => True) x1 t1 x' t')); [|exact (fun _ _ _ H => H)].
    assert (Hsd : steadily (fun _ => True) (ClientHandler_ctor addr port)) by stay. apply Hsd. }
  intros [[]|e|f] x2 t2 (H2 & Hr2 & Hi2 & Hs2); [| |done].
  2: { destruct e; [by wp_step | done]. }
  destruct H2 as (Hok & Htab & (Hf1 & Hf2 & Hf3) & Hp & Hbuf). simpl in Hr2.
  assert (Hinv : reactor_inv (new_reactor a) t2).
  { apply new_reactor_inv. by rewrite (extends_interest _ _ _ Hi2). }
  apply wp_bind. unfold ClientHandler_register_self. eapply wp_mono.
  { apply wp_and; [by apply (wp_conn_register_self (new_reactor a) x2 t2) |
      by apply (register_self_epoll (new_reactor a))]. }
  intros [ret| |] x3 t3; simpl; [|by intros [[] _]..]. intros [(r & -> & Hi & Hcase) (r' & _ & _ & Hx)].
  assert (Hok3 : ops_ok (with_proc (with_reactor (Some r) (proc x2)) x2) t3).
  { destruct Hok as [I1 I2 I3 I4]. split; try done. by rewrite (uses_epoll_queues _ _ _ _ Hx). }
  wp_step. destruct Hcase as [(-> & n & n' & Ht & _)|(Hret & Ht & _)]; simpl.
  - split; [|apply Hs2]. split; try done.
    + exists r. split_and!; [done..|]. intros fd m e. rewrite Ht.
      by intros [[_ [= _ <-]]|[_ [[_ [= _ <-]]|[_ Hn]]%lookup_insert_Some]]%lookup_insert_Some.
    + simpl in *. rewrite Htab. set_solver.
  - rewrite (proj2 (Z.eqb_neq _ _) Hret). simpl. split_and!; [by exists r | done..].
Qed.
End Start.

(** ** Properties *)

Section Properties.
Context {O : Oracle} {ED : EpollDocumented O} {RD : RpmaDocumented O} {FD : FdsDocumented O}
        {CD : CompletionDocumented O} {E : CephEncoding} {EL : CephEncodingLaws E} {N : Wire}.

Lemma wp_same_next {A} (m : M (Ctx Client) A) P x t :
  turning 0 m -> wp m (steps P) x t ->
  wp m (steps (fun a x' t' => P a x' t' /\ next_frame (self x') = next_frame (self x))) x t.
Proof.
  intros Hm HP. eapply wp_mono; [apply (wp_and _ _ _ _ _ HP (Hm x t))|].
  intros [a|e|f] x' t' [H1 H2]; [|done..]. split; [done | apply H2].
Qed.

Lemma wp_main_safe sched fuel n addr port raw l1 l2 :
  server_replies -> allocates O -> 64 * Z.of_nat n <= 1024 * 1024 * 1024 ->
  wp (main_with sched fuel (64 * Z.of_nat n) addr port) expected (new_process raw) (logged l1 l2).
Proof.
  intros Hwire Hal Hmax. unfold main_with. apply wp_bind.
  eapply wp_mono; [apply wp_and; [apply wp_start | apply start_waits]|].
  intros [[ret|[|]]|e|f] x1 t1 [H1 Hw]; [| | |done..].
  - destruct H1 as (Hov & Hok & Hp). by apply wp_end_safe.
  - destruct H1 as [Hr1 Hn1].
    eapply wp_expected_then; [apply wp_same_next; [apply turning_established | by apply (wp_established_running Hwire ∅)]|].
    intros [] x2 t2 [Hr2 Hn2].
    eapply wp_expected_bind; [apply wp_same_next; [apply turning_turns | by apply (wp_turns_running Hwire ∅)]|].
    intros [] x3 t3 [Hr3 Hn3]. eapply wp_expected_then; [apply (wp_request_running Hwire); [done..|congruence]|].
    intros r x4 t4 Hr4. specialize (Hr4 ltac:(by eexists)).
    eapply wp_expected_bind; [by apply (wp_turns_running Hwire ∅)|]. intros [] x5 t5 Hr5.
    eapply wp_expected_then; [apply (wp_prepare_safe ∅); [done | lia | exact Hr5]|].
    intros bl x6 t6 Hr6. eapply wp_expected_bind; [by apply (wp_turns_running Hwire ∅)|]. intros [] x7 t7 Hr7.
    eapply wp_expected_bind; [by apply (wp_set_head_running ∅)|]. intros _ x8 t8 [Hr8 _].
    eapply wp_expected_bind; [by apply (running_push Hwire ∅)|]. intros f x9 t9 (-> & Hr9 & _).
    set (g := next_frame (self x8)) in *. unfold and_then at 1. apply wp_bind.
    eapply wp_mono; [apply (wp_write_and_flush_running Hwire ({[g]} ∪ ∅)); [lia | set_solver | done]|].
    intros [[[]|]|e|fl] x10 t10 H10; [|by wp_step|done|done].
    specialize (H10 ltac:(by eexists)). eapply wp_expected_bind; [by apply (wp_turns_running Hwire ({[g]} ∪ ∅))|].
    intros [] x11 t11 Hr11. eapply wp_expected_bind; [by apply (wp_disconnect_running ({[g]} ∪ ∅))|].
    intros ret12 x12 t12 Hr12. eapply wp_expected_then; [by apply (wp_join_running Hwire ({[g]} ∪ ∅))|].
    intros [] x13 t13 [Hr13 Hov]. unfold pop_frame. apply wp_bind. wp_step.
    destruct (Hov eq_refl) as (r' & ? & ?). destruct Hr13 as [_ [I1 I2 I3 I4] _ _ _ Hp _].
    apply wp_end_safe; [by exists r' | by split | done].
  - wp_step. simpl. destruct Hw as (evs & -> & Hw). do 2 (constructor; [done|]).
    eapply Forall_impl; [exact Hw|]. intros e He. by apply negb_true_iff in He.
Qed.

End Properties.

(** The waiting loop for the connection does not know that there is none any more: once the
    client has left the reactor's table and the flag is not set, [main] waits for
    ever. *)
Theorem lost_connection_waits_forever {O : Oracle} {E : CephEncoding} {N : Wire} fuel x t :
  over x -> connected (ch_of (self x)) = false ->
  wp (wait_established fuel) (fun o x' t' => o = Ret None /\ x' = x /\ t' = t) x t.
Proof.
  intros (r & Hr & Ht) Hc. simpl in Hc. induction fuel as [|fuel IH]; simpl; [by wp_step|]. do 2 wp_step.
  apply wp_if; intros Hc'; [by rewrite Hc in Hc'|]. apply wp_bind. unfold thread_turn. do 2 wp_step. rewrite Hr. unfold empty_table.
  rewrite bool_decide_eq_true_2 by done. wp_step. exact IH.
Qed.

(** ** Witnesses *)

Lemma reply_wire_replies : server_replies (N := reply_wire).
Proof. intros t c. split; [apply demo_reply_honest | by eexists]. Qed.

Lemma host_allocates : allocates host.
Proof. intros t n. unfold answer_of, sized_host, fresh, NULL. simpl. lia. Qed.

