(* ===== verification/ClientSource.v ===== *)
(** * Where the client's data comes from

    [write] takes its source from the member [data_mr], which only [set_head] sets: to a region
    registered over the buffer that [main] has filled.  Whatever the threads, the libraries
    and the network do, nothing else is ever written to the replica. *)

From S2P Require Import Prelude Librpma Effects LibrpmaApi Posix Resources.
From S2P Require Import CephEncoding WireFormat Types Reactor RpmaOp Quiet Host.
From S2P Require Import RpmaConn ConnectionHandler ClientHandler ClientSession Client ClientMain.
From S2P Require Import ClientTurns ClientDurability.

(** ** Specification *)

(** The source of a write. *)
Definition write_source (c : call) : option Z :=
  match c with C_write _ _ _ src _ _ _ _ => Some src | _ => None end.

(** The region [src] was registered, as a source of writes, over the whole of a buffer of
    [size] bytes that the program had made. *)
Definition source_of (size src : Z) (t : trace) : Prop :=
  exists peer addr raw t1 t2 t3,
    t = t1 ++ Ev (C_bufferptr size) (addr, raw) :: t2 ++
          Ev (C_mr_reg peer addr size RPMA_MR_USAGE_WRITE_SRC) (0, src) :: t3.

(** Every write of the run has such a source, registered before. *)
Definition sourced (size : Z) (t : trace) : Prop :=
  forall t1 e t2 src, t = t1 ++ e :: t2 -> write_source (ev_call e) = Some src -> source_of size src t1.

(** [Q] holds if the run returns. *)
Definition on_return {A} (Q : Ctx Client -> trace -> Prop) (o : outcome A)
    (x : Ctx Client) (t : trace) : Prop :=
  match o with Ret _ => Q x t | _ => True end.

(** ** Code that keeps a member *)

(** A member of the client that is not one of its base class. *)
Class OffBase {V} (get_member : ClientHandler -> V) : Prop :=
  off_base c h : get_member (with_cl_base c h) = get_member h.
#[export] Instance off_base_image : OffBase _image_mr.
Proof. done. Qed.
#[export] Instance off_base_data : OffBase data_mr.
Proof. done. Qed.

Section Keeping.
Context {O : Oracle} {E : CephEncoding} {N : Wire} {V : Type} (get_member : ClientHandler -> V).
Context `{!OffBase get_member}.
Abbreviation member x := (get_member (handler (self x))).

Definition keeps {A} (m : M (Ctx Client) A) : Prop :=
  forall x t, wp m (fun _ x' _ => member x' = member x) x t.

Lemma keeps_same {A} (m : M (Ctx Client) A) :
  (forall x t, member (m x t).1.2 = member x) -> keeps m.
Proof. intros H x t. unfold wp. specialize (H x t). by destruct (m x t) as [[? ?] ?]. Qed.
Lemma keeps_bind {A B} (m : M _ A) (k : A -> M _ B) :
  keeps m -> (forall a, keeps (k a)) -> keeps (m ≫= k).
Proof.
  intros Hm Hk x t. apply wp_bind. eapply wp_mono; [apply Hm|].
  intros [a| |] x' t' H; [|done..]. eapply wp_mono; [apply Hk|]. intros. congruence.
Qed.
Lemma keeps_on_throw {A} (m : M _ A) c : keeps m -> keeps c -> keeps (on_throw m c).
Proof.
  intros Hm Hc x t. apply wp_on_throw. eapply wp_mono; [apply Hm|].
  intros [|e|] x' t' H; [done| |done]. eapply wp_mono; [apply Hc|]. intros [] ? ?; congruence.
Qed.
Lemma keeps_try_catch {A} (m : M _ A) h :
  keeps m -> (forall e, keeps (h e)) -> keeps (try_catch m h).
Proof.
  intros Hm Hh x t. apply wp_try_catch. eapply wp_mono; [apply Hm|].
  intros [|e|] x' t' H; [done| |done]. eapply wp_mono; [apply Hh|]. intros. congruence.
Qed.
Lemma keeps_on_ch {A} (m : M ConnectionHandler A) : keeps (on_ch m).
Proof. apply keeps_same. intros x t. unfold on_ch, zoom. destruct (m _ t) as [[? ?] ?]. apply off_base. Qed.
Lemma keeps_on_heap {A} (m : M op_heap A) : keeps (on_heap m).
Proof. apply keeps_same. intros x t. unfold on_heap, on_proc, zoom. by destruct (m _ t) as [[? ?] ?]. Qed.
Lemma keeps_on_proc {A} (m : M Proc A) : keeps (on_proc m).
Proof. apply keeps_same. intros x t. unfold on_proc, zoom. by destruct (m _ t) as [[? ?] ?]. Qed.
Lemma keeps_on_reactor d (m : M Reactor Z) : keeps (on_reactor d m).
Proof.
  apply keeps_same. intros x t. unfold on_reactor. destruct (reactor (proc x)); [|done].
  by destruct (m _ t) as [[? ?] ?].
Qed.
Lemma keeps_locally {T A} (v : T) (m : M T A) : keeps (locally v m).
Proof. apply keeps_same. intros x t. unfold locally. by destruct (m v t) as [[[] ?] ?]. Qed.
Lemma keeps_on_handler (g : ClientHandler -> ClientHandler) :
  (forall h, get_member (g h) = get_member h) -> keeps (on_handler (modify g)).
Proof. intros Hg. apply keeps_same. intros x t. apply Hg. Qed.
Lemma keeps_delete_ops ps : keeps (delete_ops ps).
Proof. induction ps as [|p ps IH]; simpl; [by apply keeps_same|]. by apply keeps_bind; [apply keeps_on_heap|]. Qed.
Lemma keeps_wait_completed turn fuel f start cost :
  keeps turn -> keeps (wait_completed turn fuel f start cost).
Proof.
  intros Ht. revert cost. induction fuel as [|fuel IH]; intros cost; simpl; [by apply keeps_same|].
  apply keeps_bind.
  - unfold read_frame. apply keeps_bind; [by apply keeps_same|]. intros fs.
    destruct (_ !! f); by apply keeps_same.
  - intros fr. destruct (_ && _); [|by apply keeps_same]. apply keeps_bind; [done|]. intros _.
    apply keeps_bind; [by apply keeps_same | done].
Qed.
End Keeping.

(** [keep]: the code keeps the member. *)
Ltac keep_step :=
  lazymatch goal with
  | |- keeps _ (_ ≫= _) => apply keeps_bind; [|intros ?]
  | |- keeps _ (on_throw _ _) => apply keeps_on_throw
  | |- keeps _ (try_catch _ _) => apply keeps_try_catch; [|intros ?]
  | |- keeps _ (on_ch _) => apply keeps_on_ch; exact _
  | |- keeps _ (on_heap _) => apply keeps_on_heap
  | |- keeps _ (on_proc _) => apply keeps_on_proc
  | |- keeps _ (on_reactor _ _) => apply keeps_on_reactor
  | |- keeps _ (locally _ _) => apply keeps_locally
  | |- keeps _ (on_handler (modify _)) => by apply keeps_on_handler
  | |- keeps _ (delete_ops _) => apply keeps_delete_ops
  | |- keeps _ (wait_completed _ _ _ _ _) => apply keeps_wait_completed
  | |- keeps _ (mret _) => by apply keeps_same
  | |- keeps _ (throw _) => by apply keeps_same
  | |- keeps _ (fail_with _) => by apply keeps_same
  | |- keeps _ get => by apply keeps_same
  | |- keeps _ (gets _) => by apply keeps_same
  | |- keeps _ (modify _) => by apply keeps_same
  | |- keeps _ (ext _) => by apply keeps_same
  | |- keeps _ arrive => by apply keeps_same
  | |- keeps _ push_frame => by apply keeps_same
  | |- keeps _ (of_option _ ?o) => destruct o; by apply keeps_same
  | |- keeps _ (assert ?b) => destruct b; by apply keeps_same
  | |- keeps _ (if ?b then _ else _) => destruct b
  | |- keeps _ (let '(_, _) := ?x in _) => destruct x
  | |- keeps _ (match ?x with _ => _ end) => destruct x
  | |- keeps _ ?m => let f := head_of m in unfold f
  end; cbn beta iota.
Ltac keep := intros; repeat keep_step.

(** ** Traces *)

Definition unwritten (c : call) : bool := match write_source c with None => true | _ => false end.

Lemma untargeted_unwritten {S A} (m : M S A) `{O : Oracle} : calls untargeted m -> calls unwritten m.
Proof. apply calls_weaken. by intros []. Qed.

Lemma source_of_prefix size src t t' : t `prefix_of` t' -> source_of size src t -> source_of size src t'.
Proof.
  intros [r ->] (peer & addr & raw & t1 & t2 & t3 & ->). exists peer, addr, raw, t1, t2, (t3 ++ r).
  by rewrite <-app_assoc, <-app_comm_cons, <-app_assoc.
Qed.

Lemma sourced_snoc size t e :
  sourced size t -> (forall src, write_source (ev_call e) = Some src -> source_of size src t) ->
  sourced size (t ++ [e]).
Proof.
  intros Ht He t1 e' t2 src Heq Hs. destruct (decide (t2 = [])) as [->|Hne].
  - apply app_inj_tail in Heq as [-> ->]. by apply He.
  - destruct (exists_last Hne) as (t2' & e2 & ->).
    rewrite app_comm_cons, app_assoc in Heq. apply app_inj_tail in Heq as [-> _]. by eapply Ht.
Qed.

Lemma sourced_extends size t t' : sourced size t -> extends unwritten t t' -> sourced size t'.
Proof.
  intros H (evs & -> & Hevs). induction evs as [|e evs IH] using rev_ind; [by rewrite app_nil_r|].
  apply Forall_app in Hevs as [Hevs [He _]%Forall_cons]. rewrite app_assoc.
  apply sourced_snoc; [by apply IH|]. intros src Hs. unfold unwritten in He. by rewrite Hs in He.
Qed.

Lemma sourced_untargeted size t : Forall (fun e => untargeted (ev_call e) = true) t -> sourced size t.
Proof.
  intros H t1 e t2 src -> Hs. apply Forall_app in H as [_ [He _]%Forall_cons].
  by destruct (ev_call e).
Qed.

(** ** The course of [main] *)

Section Main.
Context {O : Oracle} {E : CephEncoding} {N : Wire} (size : Z).

(** What [write] would take as its source. *)
Definition armed (x : Ctx Client) (t : trace) : Prop :=
  data_mr (handler (self x)) = NULL \/ source_of size (data_mr (handler (self x))) t.

Definition arming {A} (m : M (Ctx Client) A) : Prop :=
  forall x t, sourced size t -> armed x t ->
    wp m (fun o x' t' => t `prefix_of` t' /\ sourced size t' /\ on_return armed o x' t') x t.

Lemma arming_bind {A B} (m : M _ A) (k : A -> M _ B) :
  arming m -> (forall a, arming (k a)) -> arming (m ≫= k).
Proof.
  intros Hm Hk x t Ht Hx. apply wp_bind. eapply wp_mono; [by apply Hm|].
  intros [a| |] x' t' (Hp & Hs & Ha); [|done..]. eapply wp_mono; [by apply Hk|].
  intros o x'' t'' (Hp' & H'). split; [by etrans | done].
Qed.

Lemma armed_prefix x t x' t' :
  data_mr (handler (self x')) = data_mr (handler (self x)) -> t `prefix_of` t' ->
  armed x t -> armed x' t'.
Proof. unfold armed. intros -> Hp [?|?]; [by left | right; by eapply source_of_prefix]. Qed.

(** Code that neither writes nor registers a source. *)
Lemma arming_still {A} (m : M _ A) : calls untargeted m -> keeps data_mr m -> arming m.
Proof.
  intros Hc Hk x t Ht Hx.
  eapply wp_mono; [apply (wp_and _ _ _ _ _ (untargeted_unwritten m Hc x t) (Hk x t))|].
  intros o x' t' [He Hd]. assert (Hp : t `prefix_of` t') by by eapply extends_prefix.
  split; [done|]. split; [by eapply sourced_extends|]. destruct o; [|done..]. by eapply armed_prefix.
Qed.

Lemma keeps_turn : keeps data_mr thread_turn.
Proof. keep. Qed.
Lemma keeps_turns n : keeps data_mr (thread_turns n).
Proof. induction n as [|n IH]; simpl; [keep|]. by apply keeps_bind; [apply keeps_turn|]. Qed.
Lemma keeps_spin fuel f : keeps data_mr (spin fuel f).
Proof.
  induction fuel as [|fuel IH]; simpl; [keep|]. apply keeps_bind; [keep|]. intros fr.
  destruct (completed fr); [keep|]. by apply keeps_bind; [apply keeps_turn|].
Qed.
Lemma keeps_established fuel : keeps data_mr (wait_established fuel).
Proof.
  induction fuel as [|fuel IH]; simpl; [keep|]. apply keeps_bind; [keep|]. intros c.
  destruct (connected c); [keep|]. by apply keeps_bind; [apply keeps_turn|].
Qed.

Lemma arming_turns n : arming (thread_turns n).
Proof. apply arming_still; [apply untargeted_turns | apply keeps_turns]. Qed.
Lemma arming_spin fuel f : arming (spin fuel f).
Proof. apply arming_still; [apply untargeted_spin | apply keeps_spin]. Qed.
Lemma arming_established fuel : arming (wait_established fuel).
Proof. apply arming_still; [apply untargeted_established | apply keeps_established]. Qed.
Lemma arming_init_replica fuel id n pool image :
  arming (init_replica thread_turn fuel id n pool image).
Proof.
  apply arming_still; [apply untargeted_init_replica|]. keep.
Qed.

(** [main] makes its buffer. *)
Lemma wp_prepare_source fuel x t :
  sourced size t -> armed x t ->
  wp (prepare fuel size) (fun o x' t' => t `prefix_of` t' /\ sourced size t' /\ on_return armed o x' t' /\
    match o with
    | Ret (Some bl) => exists raw t1 t2, t' = t1 ++ Ev (C_bufferptr size) (bl_addr bl, raw) :: t2
    | _ => True
    end) x t.
Proof.
  intros Ht Hx.
  assert (Hm : arming (prepare fuel size)) by (apply arming_still; [apply untargeted_prepare | keep]).
  eapply wp_mono; [apply (wp_and _ _ (fun o x' t' => match o with
    | Ret (Some bl) => exists raw t1 t2, t' = t1 ++ Ev (C_bufferptr size) (bl_addr bl, raw) :: t2
    | _ => True end) _ _ (Hm x t Ht Hx))|]; [|by intros o x' t' [(? & ? & ?) ?]].
  unfold prepare, new_bufferlist. do 3 wp_step. destruct a as [addr raw]. do 2 wp_step.
  { done. }
  apply wp_bind. set (t1 := t ++ _). clear Hm.
  eapply wp_mono; [apply (calls_locally unwritten _ _ (calls_fill_loop _ _ _ _) x t1)|].
  intros [[ended mem]| |] x' t' (evs & -> & _); [|done..]. wp_step. destruct ended; [|done].
  exists raw, t, evs. unfold t1. by rewrite <-app_assoc.
Qed.

(** ... and registers it. *)
Lemma wp_set_head_source addr raw t1 t2 x t :
  sourced size t -> armed x t -> t = t1 ++ Ev (C_bufferptr size) (addr, raw) :: t2 ->
  wp (set_head addr size) (fun o x' t' => t `prefix_of` t' /\ sourced size t' /\ on_return armed o x' t') x t.
Proof.
  intros Ht Hx Hbuf.
  eapply wp_mono; [apply (wp_and _ _ (on_return armed) _ _
    (untargeted_unwritten _ (untargeted_set_head addr size) x t))|].
  2: { intros o x' t' [He Ha]. split; [by eapply extends_prefix|]. split; [by eapply sourced_extends | done]. }
  unfold set_head. apply wp_bind, wp_zoom. do 3 wp_step.
  unfold rpma_mr_reg. do 3 wp_step. destruct a as [ret mr]. do 2 wp_step.
  { wp_step. eapply armed_prefix; [| |exact Hx]; [done | by eexists]. }
  bools. subst ret. simpl out_on_success. do 2 wp_step. apply wp_bind, wp_zoom. wp_step. apply wp_bind.
  match goal with |- wp _ _ ?y ?v => set (x1 := y); set (u := v) end.
  assert (Hk : keeps data_mr (mr_delete (data_mr (handler (self x))))) by keep.
  assert (Hc : calls untargeted (S := Ctx Client) (mr_delete (data_mr (handler (self x))))) by footprint.
  eapply wp_mono; [apply (wp_and _ _ _ _ _ (Hc x1 u) (Hk x1 u))|].
  intros [[]| |] x' t' [He Hd]; [|done..]. wp_step.
  eapply (armed_prefix x1 u); [done | by eapply extends_prefix|]. right.
  eexists _, addr, raw, t1, t2, []. unfold u. rewrite Hbuf. by rewrite <-app_assoc.
Qed.

(** Posting an operation leaves the source alone. *)
Lemma wp_post_source k cb (post : Z -> M (Ctx Client) Z) x t :
  armed x t ->
  (forall p y, wp (post p) (fun o y' t' => y' = y /\ t `prefix_of` t' /\ sourced size t') y t) ->
  wp (post_op k cb post) (fun o x' t' => t `prefix_of` t' /\ sourced size t' /\ on_return armed o x' t') x t.
Proof.
  intros Hx Hpost. unfold post_op. apply wp_bind, wp_new_op. cbn beta iota.
  apply wp_bind. eapply wp_mono; [by apply Hpost|].
  intros [ret| |] y t' (-> & Hp & Hs); [|done..]. apply wp_bind, wp_if; intros _.
  - apply wp_on_ch. do 2 wp_step. split_and!; [done..|]. by eapply armed_prefix.
  - apply wp_delete_op; [by simpl; rewrite lookup_insert_eq|]. wp_step. split_and!; [done..|].
    by eapply armed_prefix.
Qed.

(** [write] takes its source from the member; [flush] has none. *)
Lemma arming_write offset len cb : arming (write offset len cb).
Proof.
  intros x t Ht Hx. unfold write. do 2 wp_step.
  do 2 (apply wp_bind, wp_assert; intros ?; [|by split_and!]).
  apply wp_post_source; [done|]. intros p y. unfold RpmaWrite_call, rpma_write. wp_step.
  split_and!; [done | by eexists|]. apply sourced_snoc; [done|]. intros src [= <-].
  destruct Hx as [Hx|?]; [|done]. rewrite Hx in *. done.
Qed.

Lemma arming_flush offset len cb : arming (flush offset len cb).
Proof.
  intros x t Ht Hx. unfold flush. do 2 wp_step. apply wp_bind, wp_assert; intros ?; [|by split_and!].
  apply wp_post_source; [done|]. intros p y. unfold RpmaFlush_call, rpma_flush. wp_step.
  split_and!; [done | by eexists|]. by apply sourced_snoc.
Qed.

Lemma arming_post_and_wait fuel k f post : arming post -> arming (post_and_wait fuel k f post).
Proof.
  intros Hp. unfold post_and_wait. apply arming_bind; [apply arming_turns|]. intros _.
  apply arming_bind; [done|]. intros _. apply arming_spin.
Qed.

Lemma arming_write_and_flush fuel k1 k2 k3 len f : arming (write_and_flush fuel k1 k2 k3 len f).
Proof.
  unfold write_and_flush, and_then. apply arming_bind; [apply arming_post_and_wait, arming_write|].
  intros [[]|]; [|apply arming_still; [footprint | keep]].
  apply arming_bind; [apply arming_turns|]. intros _.
  apply arming_bind; [apply arming_still; [footprint | keep]|]. intros _.
  apply arming_post_and_wait, arming_flush.
Qed.

(** *** The whole program *)

Definition all_sourced {A} (o : outcome A) (x : Ctx Client) (t : trace) : Prop := sourced size t.

Lemma wp_sourced {A B} (m : M _ A) (k : A -> M _ B) x t :
  arming m -> sourced size t -> armed x t ->
  (forall a x' t', sourced size t' -> armed x' t' -> wp (k a) all_sourced x' t') ->
  wp (m ≫= k) all_sourced x t.
Proof.
  intros Hm Ht Hx Hk. apply wp_bind. eapply wp_mono; [by apply Hm|].
  intros [a| |] x' t' (Hp & Hs & Ha); [by apply Hk | done..].
Qed.

Lemma wp_sourced_then {A B} (m : M _ (option A)) (k : A -> M _ (option B)) x t :
  arming m -> sourced size t -> armed x t ->
  (forall a x' t', sourced size t' -> armed x' t' -> wp (k a) all_sourced x' t') ->
  wp (and_then m k) all_sourced x t.
Proof.
  intros Hm Ht Hx Hk. unfold and_then. apply wp_sourced; [done..|].
  intros [a|] x' t' Hs Ha; [by apply Hk | by wp_step].
Qed.

(** Code without writes. *)
Lemma wp_sourced_calls {A} (m : M (Ctx Client) A) x t :
  calls untargeted m -> sourced size t -> wp m all_sourced x t.
Proof.
  intros Hc Ht. eapply wp_mono; [apply (untargeted_unwritten m Hc x t)|].
  intros o x' t' He. by eapply sourced_extends.
Qed.

(** The constructor starts without a source. *)
Lemma wp_start_source addr port x t :
  wp (start addr port) (fun o x' t' => match o with
    | Ret (Continues true) => data_mr (handler (self x')) = NULL
    | _ => True
    end) x t.
Proof.
  unfold start. apply wp_try_catch.
  eapply (wp_mono _ (fun o x' _ => match o with
    | Ret (Continues true) => data_mr (handler (self x')) = NULL | _ => True end)).
  2: { intros [[]|e|] x' t' H; [done..| |done]. by destruct e. }
  apply wp_bind. apply (wp_mono _ (fun _ _ _ => True)); [|intros [r| |] x1 t1 _; [|done..]].
  { unfold wp. by destruct (Reactor_ctor x t) as [[? ?] ?]. }
  do 2 wp_step. apply wp_bind, wp_zoom. wp_step.
  match goal with |- wp _ _ ?y _ => set (x2 := y) end. change NULL with (data_mr (handler (self x2))).
  clearbody x2. revert x2 t1.
  assert (Hk : keeps data_mr (ClientHandler_ctor addr port;;
    ret ← ClientHandler_register_self; mret (if negb (ret =? 0) then Returned ret else Continues true)))
    by keep.
  intros x2 t1. eapply wp_mono; [apply Hk|]. by intros [[|[]]| |].
Qed.

Lemma wp_main_source sched fuel addr port x t :
  sourced size t -> wp (main_with sched fuel size addr port) all_sourced x t.
Proof.
  intros Ht. unfold main_with. apply wp_bind.
  eapply wp_mono; [apply (wp_and _ _ _ _ _ (wp_sourced_calls _ x t (untargeted_start addr port) Ht)
    (wp_start_source addr port x t))|].
  clear x t Ht. intros [st| |] x t [Ht Hst]; [|done..]. destruct st as [ret|[|]]; [| |done].
  { by apply wp_sourced_calls; [apply untargeted_end|]. }
  assert (Hx : armed x t) by by left. clear Hst.
  apply wp_sourced_then; [apply arming_established | done..|]. clear x t Ht Hx. intros _ x t Ht Hx.
  apply wp_sourced; [apply arming_turns | done..|]. clear x t Ht Hx. intros _ x t Ht Hx.
  apply wp_sourced_then; [apply arming_init_replica | done..|]. clear x t Ht Hx. intros _ x t Ht Hx.
  apply wp_sourced; [apply arming_turns | done..|]. clear x t Ht Hx. intros _ x t Ht Hx.
  unfold and_then at 1. apply wp_bind. eapply wp_mono; [by apply wp_prepare_source|].
  intros [[bl|]| |] x1 u (_ & Hu & Hx1 & Hbuf); [|done..]. clear x t Ht Hx.
  apply wp_bind. eapply wp_mono; [by apply arming_turns|].
  intros [[]| |] x t' ([r ->] & Ht & Hx); [|done..]. clear x1 Hu Hx1.
  destruct Hbuf as (raw & t1 & t2 & ->). apply wp_bind.
  eapply wp_mono; [eapply (wp_set_head_source (bl_addr bl) raw t1 (t2 ++ r)); [done..|by rewrite <-app_assoc]|].
  intros [ret| |] x1 u (_ & Hu & Hx1); [|done..].
  apply wp_sourced; [apply arming_still; [apply calls_push_frame | keep] | done..|]. clear x x1 u Ht Hx Hu Hx1. intros f x t Ht Hx.
  apply wp_sourced_then; [apply arming_write_and_flush | done..|]. intros _ x' t' Ht' _.
  by apply wp_sourced_calls; [apply untargeted_rest|].
Qed.
End Main.
