(* ===== verification/ClientDestination.v ===== *)
(** * Where the client's data goes

    The remote region that [write] and [flush] use is the member [_image_mr], which the
    constructor does not initialize and which the callback of [init_replica] sets from
    the descriptor in the server's reply.  Whatever the threads, the libraries and the
    network do, one run of [main] uses one region only: one made from a reply of the
    server, or what the uninitialized member held. *)

From S2P Require Import Prelude Librpma Effects LibrpmaApi Posix Resources.
From S2P Require Import CephEncoding WireFormat Types Reactor RpmaOp Quiet Host.
From S2P Require Import RpmaConn ConnectionHandler ClientHandler ClientSession Client ClientMain.
From S2P Require Import ClientTurns ClientDurability ClientSource.

(** ** Specification *)

(** Calls that access no other remote region than [mr]. *)
Definition targets_only (mr : Z) (c : call) : bool :=
  match remote_target c with None => true | Some d => d =? mr end.

Abbreviation all_calls P t := (Forall (fun e => P (ev_call e) = true) t).

Abbreviation image_of x := (_image_mr (handler (self x))).

Section Provenance.
Context {E : CephEncoding} {N : Wire}.

(** The network brings, at some time, a reply of success with the descriptor [d]. *)
Definition offered (d : bytes) : Prop :=
  exists t cn reply r, RwlReplicaInitRequestReply_decode (received t cn) = Some (reply, r) /\
    reply_type reply = RWL_REPLICA_INIT_SUCCESSED /\
    slice 0 (mr_desc_size (desc reply)) (descriptors (desc reply)) = Some d.

(** The library made the remote region [mr] from a descriptor that was offered. *)
Definition made_from_offer (mr : Z) (t : trace) : Prop :=
  exists d, offered d /\ Ev (C_mr_remote_from_descriptor d (blen d)) (0, mr) ∈ t.

Definition destined (raw mr : Z) (t : trace) : Prop := mr = raw \/ made_from_offer mr t.

(** All accesses of a run go to one region, which was known before the first of them. *)
Definition aims_at (raw mr : Z) (t : trace) : Prop :=
  exists t0 t1, t = t0 ++ t1 /\ destined raw mr t0 /\ all_calls untargeted t0 /\
    all_calls (targets_only mr) t1.

(** A write of the whole buffer of [size] bytes to the region has been accepted and, later,
    has completed; and a flush of them, posted after that, has completed. *)
Definition written_to (size mr : Z) (t : trace) : Prop :=
  exists t1 t2 cn src p,
    t = t1 ++ Ev (C_write cn mr 0 src 0 size RPMA_F_COMPLETION_ALWAYS p) 0 :: t2 /\
    source_of size src t1 /\ succeeded p t2.
Definition flushed_to (size mr : Z) (t : trace) : Prop :=
  exists t1 t2 cn ty p,
    t = t1 ++ Ev (C_flush cn mr 0 size ty RPMA_F_COMPLETION_ALWAYS p) 0 :: t2 /\
    written_to size mr t1 /\ succeeded p t2.

(** Code that may change the region: only to one just made from an offer, and only by
    completing the request of an activation that still exists. *)
Record retargeted (x : Ctx Client) (t : trace) (x' : Ctx Client) (t' : trace) : Prop := {
  rt_ops : ops (heap (proc x')) ⊆ ops (heap (proc x));
  rt_next : next_frame (self x') = next_frame (self x);
  rt_calls : t `prefix_of` t';
  rt_frames f : frames (self x) !! f = None -> frames (self x') !! f = None;
  rt_image : image_of x' = image_of x \/
    made_from_offer (image_of x') t' /\
    exists p o g, ops (heap (proc x)) !! p = Some o /\ func o = init_replica_cb g /\
      is_Some (frames (self x) !! g)
}.
End Provenance.

(** ** Turns of the reactor's thread *)

Section Turns.
Context {O : Oracle} {E : CephEncoding} {N : Wire}.

Definition retargeting {A} (m : M (Ctx Client) A) : Prop :=
  forall x t, wp m (on_return (retargeted x t)) x t.

Lemma made_from_offer_prefix mr t t' :
  t `prefix_of` t' -> made_from_offer mr t -> made_from_offer mr t'.
Proof. intros Hp (d & Hd & Hin). exists d. split; [done|]. by eapply elem_of_prefix. Qed.

Lemma retargeted_refl x t : retargeted x t x t.
Proof. split; try done. by left. Qed.

Lemma retargeted_trans x t x1 t1 x2 t2 :
  retargeted x t x1 t1 -> retargeted x1 t1 x2 t2 -> retargeted x t x2 t2.
Proof.
  intros [A1 A2 A3 A4 A5] [B1 B2 B3 B4 B5]. split; [by etrans|congruence|by etrans|auto|].
  destruct B5 as [B5|(B5 & p & o & g & Hp & Hf & Hg)].
  - rewrite B5. destruct A5 as [A5|[A5 Ho]]; [by left|]. right. split; [|done].
    by eapply made_from_offer_prefix.
  - right. split; [done|]. exists p, o, g. split_and!; [by eapply lookup_weaken|done|].
    destruct (frames (self x) !! g) eqn:Hn; [done|]. rewrite A4 in Hg by done. by destruct Hg.
Qed.

Lemma retargeting_bind {A B} (m : M _ A) (k : A -> M _ B) :
  retargeting m -> (forall a, retargeting (k a)) -> retargeting (m ≫= k).
Proof.
  intros Hm Hk x t. apply wp_bind. eapply wp_mono; [apply Hm|].
  intros [a| |] x' t' H; [|done..]. eapply wp_mono; [apply Hk|].
  intros [] x'' t''; [by apply retargeted_trans|done..].
Qed.

Lemma steady_retargeted x t x' t' :
  steady (fun _ => True) x t x' t' -> image_of x' = image_of x -> retargeted x t x' t'.
Proof.
  intros [A1 A2 A3 A4] Hi. split; [done..|by eapply extends_prefix| |by left].
  intros f Hf. by rewrite A3.
Qed.

Lemma retargeting_still {A} (m : M _ A) :
  steadily (fun _ => True) m -> keeps _image_mr m -> retargeting m.
Proof.
  intros Hm Hi x t. eapply wp_mono; [apply (wp_and _ _ _ _ _ (Hm x t) (Hi x t))|].
  intros [] x' t' [? ?]; [by apply steady_retargeted|done..].
Qed.

(** The receive buffer holds what the network brought. *)
Definition heard (x : Ctx Client) : Prop :=
  exists t cn, bl_data (recv_bl (cl_base (handler (self x)))) = received t cn.

Lemma slice_blen off len s d : slice off len s = Some d -> blen d = len.
Proof.
  unfold slice. destruct (_ && _) eqn:H; [|done]. bools. intros [= <-].
  unfold blen in *. rewrite length_take, length_drop. lia.
Qed.

Lemma wp_reply_aim x t :
  heard x ->
  wp get_remote_descriptor (on_return (fun x' t' => steady (fun _ => True) x t x' t' /\
    (image_of x' = image_of x \/ made_from_offer (image_of x') t'))) x t.
Proof.
  intros (t0 & cn & Hr). apply (wp_mono _ (fun o x' t' => steady (fun _ => True) x t x' t' /\
    on_return (fun x' t' => image_of x' = image_of x \/ made_from_offer (image_of x') t') o x' t'));
    [|by intros [] ? ? []].
  apply wp_and; [revert x t Hr; intros x t _; revert x t; change (steadily (fun _ => True) get_remote_descriptor); stay|].
  unfold get_remote_descriptor. do 2 wp_step. simpl ch_of. rewrite Hr.
  destruct (RwlReplicaInitRequestReply_decode _) as [[reply r]|] eqn:Hdec; [|done].
  apply wp_if; intros Hty; [by wp_step; left|]. bools. apply wp_bind.
  assert (Hk : keeps _image_mr (apply_pcfg (desc reply))) by keep.
  eapply wp_mono; [apply Hk|]. intros [direct| |] x1 t1 H1; [|done..]. apply wp_bind, wp_of_option.
  destruct (slice _ _ _) as [d|] eqn:Hd; [|done]. do 2 wp_step.
  unfold rpma_mr_remote_from_descriptor. do 3 wp_step. destruct a as [ret m]. do 2 wp_step.
  set (mr := out_on_success ret m _). set (t2 := t1 ++ _).
  assert (Hmr : mr = image_of x \/ made_from_offer mr t2).
  { unfold mr, out_on_success. destruct (ret =? 0) eqn:Hret; [right | by left]. bools. subst ret.
    exists d. split; [by exists t0, cn, reply, r|]. rewrite (slice_blen _ _ _ _ Hd). unfold t2. set_solver. }
  clearbody mr t2. apply wp_zoom. wp_step. unfold indeterminate. do 2 wp_step.
  unfold rpma_mr_remote_get_size. do 3 wp_step. destruct a0 as [ret' size]. do 3 wp_step.
  assert (Hend : forall t', t2 `prefix_of` t' -> mr = image_of x \/ made_from_offer mr t').
  { intros t' Hp. destruct Hmr as [?|?]; [by left | right]. by eapply made_from_offer_prefix. }
  apply wp_if; intros _; [wp_step | apply wp_bind, wp_zoom; do 2 wp_step];
    (apply Hend; by repeat apply prefix_app_r).
Qed.

(** Storing into an activation that exists. *)
Lemma retargeting_store f (upd : Frame -> Frame) :
  retargeting (fr ← read_frame f;
    modify (fun x => with_self (with_frames (<[f := upd fr]> (frames (self x))) (self x)) x)).
Proof.
  intros x t. unfold read_frame. do 3 wp_step. apply wp_of_option.
  destruct (frames (self x) !! f) as [fr|] eqn:Hf; [|done]. wp_step. split; try done; [|by left].
  simpl. intros g Hg. rewrite lookup_insert_None. split; [done|]. congruence.
Qed.
Lemma retargeting_store_completed f b : retargeting (store_completed f b).
Proof. apply (retargeting_store f (fun fr => {| completed := b; successed := successed fr |})). Qed.
Lemma retargeting_store_successed f b : retargeting (store_successed f b).
Proof. apply (retargeting_store f (fun fr => {| completed := completed fr; successed := b |})). Qed.

(** The flag is stored only if its activation exists. *)
Lemma wp_store_live f b x t :
  wp (store_completed f b)
    (on_return (fun x' _ => is_Some (frames (self x) !! f) /\ image_of x' = image_of x)) x t.
Proof.
  unfold store_completed, read_frame. do 3 wp_step. apply wp_of_option.
  destruct (frames (self x) !! f) as [fr|] eqn:Hf; [|done]. wp_step. split; [by eexists | done].
Qed.

(** What a callback does to the state it runs in. *)
Record called_back (cb : callback) (x : Ctx Client) (t : trace) (x' : Ctx Client) (t' : trace)
    : Prop := {
  cb_ops : ops (heap (proc x')) ⊆ ops (heap (proc x));
  cb_next : next_frame (self x') = next_frame (self x);
  cb_calls : t `prefix_of` t';
  cb_frames f : frames (self x) !! f = None -> frames (self x') !! f = None;
  cb_image : image_of x' = image_of x \/ made_from_offer (image_of x') t' /\
    exists g, cb = init_replica_cb g /\ is_Some (frames (self x) !! g)
}.

Lemma wp_run_still cb (m : M (Ctx Client) unit) x t :
  retargeting m -> keeps _image_mr m -> wp m (on_return (called_back cb x t)) x t.
Proof.
  intros Hm Hi. eapply wp_mono; [apply (wp_and _ _ _ _ _ (Hm x t) (Hi x t))|].
  intros [] x' t' [H ?]; [|done..]. destruct H. split; try done. by left.
Qed.

Lemma wp_run_aim cb x t :
  heard x -> wp (ClientHandler_run cb) (on_return (called_back cb x t)) x t.
Proof.
  intros Hh. destruct cb as [| |g|g|g]; unfold ClientHandler_run;
    [apply wp_run_still; [by intros ? ? | keep].. | | apply wp_run_still; [|keep]
    | apply wp_run_still; [|keep]].
  - apply wp_bind. eapply wp_mono; [by apply wp_reply_aim|].
    intros [ret| |] x1 t1; [|done..]. intros [[A1 A2 A3 A4] Hi].
    eapply wp_mono; [apply (wp_and _ _ _ _ _ (retargeting_store_completed g true x1 t1)
      (wp_store_live g true x1 t1))|].
    intros [[]| |] x' t' [H Hl]; [|done..]. destruct H as [B1 B2 B3 B4 _], Hl as [Hl Hsame]. rewrite A3 in Hl by done. split.
    + by etrans.
    + congruence.
    + etrans; [by eapply extends_prefix | done].
    + intros f Hf. apply B4. by rewrite A3.
    + rewrite Hsame. destruct Hi as [Hi|Hi]; [by left | right].
      split; [by eapply made_from_offer_prefix | by exists g].
  - unfold close_reply. apply retargeting_bind; [apply retargeting_still; [stay|keep]|]. intros c.
    destruct (RwlReplicaRequest_decode _) as [[reply r]|]; [|by intros ? ?].
    apply retargeting_bind; [apply retargeting_store_successed|].
    intros _. apply retargeting_store_completed.
  - apply retargeting_store_completed.
Qed.

Lemma wp_complete_aim p x t :
  heard x -> wp (complete_op ClientHandler_run p) (on_return (retargeted x t)) x t.
Proof.
  intros Hh. unfold complete_op. apply wp_bind, wp_on_ch. wp_step. fold (erased p x).
  apply wp_bind, wp_on_throw, wp_bind. destruct (ops (heap (proc x)) !! p) as [o|] eqn:Ho.
  2: { apply wp_on_heap. unfold wp, op_func. simpl. by rewrite Ho. }
  eapply wp_op_func; [exact Ho|].
  apply (wp_mono _ (on_return (called_back (func o) (erased p x) t))).
  { unfold do_callback. case_bool_decide; [wp_step; split; try done; by left|]. by apply wp_run_aim. }
  assert (Hdel : forall Q : Ctx Client -> trace -> Prop, forall x1 t1,
    (forall x2, retargeted x1 t1 x2 t1 -> Q x2 t1) -> wp (on_heap (delete_op p)) (on_return Q) x1 t1).
  { intros Q x1 t1 HQ. apply wp_on_heap. unfold wp, delete_op.
    destruct (ops (heap (proc x1)) !! p); [|done]. apply HQ. split; try done; [|by left].
    apply delete_subseteq. }
  intros [[]|e|f] x1 t1 H1; [| |done].
  - apply Hdel. intros x2. apply retargeted_trans. destruct H1 as [B1 B2 B3 B4 B5]. split; try done.
    destruct B5 as [?|(? & g & Hf & Hg)]; [by left | right]. split; [done|]. by exists p, o, g.
  - unfold wp. by destruct (on_heap (delete_op p) x1 t1) as [[[] ?] ?].
Qed.

Lemma wp_completion_aim x t :
  heard x -> wp (handle_completion ClientHandler_run) (on_return (retargeted x t)) x t.
Proof.
  intros Hh.
  assert (Hext : forall t', t `prefix_of` t' -> retargeted x t x t') by (intros; split; try done; by left).
  assert (Herr : forall ret t', t `prefix_of` t' -> completion_error ret x t' (on_return (retargeted x t))).
  { intros ret t' H. unfold completion_error. case_match; [by apply Hext|]. intros a.
    eapply retargeted_trans; [by apply Hext|]. split; try done; [by apply prefix_app_r | by left]. }
  apply wp_handle_completion.
  { intros w _ _. apply Herr. by eexists. }
  intros ret cmpl t1 t2 _ _. assert (H2 : t `prefix_of` t2) by (by repeat apply prefix_app_r).
  destruct (ret =? 0); simpl; [|by apply Herr]. destruct (_ || _); [by apply Hext|].
  eapply wp_mono; [by apply wp_complete_aim|]. intros [] x' t' H; [|done..].
  eapply retargeted_trans; [by apply Hext | done].
Qed.

Lemma retargeting_dispatch h et : retargeting (client_dispatch h et).
Proof.
  intros x t. unfold client_dispatch. do 2 wp_step. apply wp_if; intros _; [|done].
  apply wp_bind. unfold arrive, wp at 1. set (x1 := with_self _ x).
  assert (H1 : retargeted x t x1 t) by (split; try done; by left).
  assert (Hh : heard x1) by (by eexists t, _).
  apply (wp_mono _ (on_return (retargeted x1 t))).
  - unfold ClientHandler_handle, ch_handle. destruct et.
    + apply wp_ret, retargeted_refl.
    + apply retargeting_still; [apply sd_connection_event | keep].
    + by apply wp_completion_aim.
  - intros [] x' t'; [|done..]. by apply retargeted_trans.
Qed.

Lemma retargeting_turn : retargeting thread_turn.
Proof.
  unfold thread_turn. apply retargeting_bind; [apply retargeting_still; [apply sd_gets | keep]|].
  intros [r|]; [|by intros x t]. destruct (empty_table r); [intros x t; apply retargeted_refl|].
  intros x t. apply wp_try_catch.
  apply (wp_mono _ (on_return (retargeted x t))); [|by intros []].
  revert x t. apply retargeting_bind; [|intros _ x t; apply retargeted_refl].
  unfold handle_event, epoll_wait. apply retargeting_bind; [apply retargeting_still; [apply sd_gets | keep]|].
  intros ep. apply retargeting_bind; [apply retargeting_still; [apply sd_ext | keep]|]. intros [ret ptr].
  destruct (negb _); [intros x t; apply retargeted_refl|].
  apply retargeting_bind; [apply retargeting_still; [apply sd_gets | keep]|]. intros r'.
  apply retargeting_bind; [apply retargeting_still; [stay | keep]|]. intros eh.
  apply retargeting_bind; [apply retargeting_dispatch|]. intros _ x t. do 2 wp_step.
  apply wp_if; intros _; wp_step; apply retargeted_refl.
Qed.

Lemma retargeting_turns n : retargeting (thread_turns n).
Proof.
  induction n as [|n IH]; simpl; [intros x t; apply retargeted_refl|].
  apply retargeting_bind; [apply retargeting_turn | done].
Qed.

Lemma retargeting_established fuel : retargeting (wait_established fuel).
Proof.
  induction fuel as [|fuel IH]; simpl; [intros x t; apply retargeted_refl|].
  apply retargeting_bind; [apply retargeting_still; [apply sd_gets | keep]|]. intros c.
  destruct (connected c); [intros x t; apply retargeted_refl|].
  apply retargeting_bind; [apply retargeting_turn | done].
Qed.

Lemma retargeting_wait_completed fuel g start cost :
  retargeting (wait_completed thread_turn fuel g start cost).
Proof.
  revert cost. induction fuel as [|fuel IH]; intros cost; simpl; [intros x t; apply retargeted_refl|].
  apply retargeting_bind; [apply retargeting_still; [apply sd_read_frame | keep]|]. intros fr.
  destruct (_ && _); [|intros x t; apply retargeted_refl].
  apply retargeting_bind; [apply retargeting_turn|]. intros _.
  apply retargeting_bind; [apply retargeting_still; [apply sd_ext | keep]|]. done.
Qed.

Lemma retargeting_spin fuel f : retargeting (spin fuel f).
Proof.
  induction fuel as [|fuel IH]; simpl; [intros x t; apply retargeted_refl|].
  apply retargeting_bind; [apply retargeting_still; [apply sd_read_frame | keep]|]. intros fr.
  destruct (completed fr); [intros x t; apply retargeted_refl|].
  apply retargeting_bind; [apply retargeting_turn | done].
Qed.
End Turns.

(** ** The course of [main] *)

(** The requests that wait for a reply belong to activations of which [P] holds. *)
Definition replies_to (P : Z -> Prop) (x : Ctx Client) : Prop :=
  forall p o g, ops (heap (proc x)) !! p = Some o -> func o = init_replica_cb g -> P g.

(** No request waits for a reply whose activation exists or will exist. *)
Definition idle (x : Ctx Client) : Prop :=
  replies_to (fun g => frames (self x) !! g = None /\ g < next_frame (self x)) x.

Section Main.
Context {O : Oracle} {E : CephEncoding} {N : Wire} (raw : Z).

Lemma retargeted_replies P x t x' t' :
  retargeted x t x' t' -> replies_to P x -> replies_to P x'.
Proof. intros [Ho _ _ _ _] HP p o g Hp. eapply HP, lookup_weaken; done. Qed.

Lemma retargeted_destined x t x' t' :
  retargeted x t x' t' -> destined raw (image_of x) t -> destined raw (image_of x') t'.
Proof.
  intros [_ _ Hp _ [->|[Hi _]]] Hd; [|by right]. destruct Hd as [?|?]; [by left | right].
  by eapply made_from_offer_prefix.
Qed.

Lemma retargeted_idle x t x' t' :
  retargeted x t x' t' -> idle x -> idle x' /\ image_of x' = image_of x.
Proof.
  intros H Hi. split.
  - intros p o g Hp Hf. destruct H as [Ho Hn _ Hfr _].
    destruct (Hi p o g) as [H1 H2]; [by eapply lookup_weaken|done|]. rewrite Hn. auto.
  - destruct (rt_image _ _ _ _ H) as [?|(_ & p & o & g & Hp & Hf & Hg)]; [done|].
    destruct (Hi p o g Hp Hf) as [Hg' _]. rewrite Hg' in Hg. by destruct Hg.
Qed.

(** Posting an operation. *)
Lemma wp_post_aim P Q k cb post x t :
  replies_to P x -> (forall g, cb = init_replica_cb g -> P g) ->
  (forall p y, wp (post p) (fun o y' t' => y' = y /\ extends Q t t') y t) ->
  wp (post_op k cb post) (fun o x' t' => extends Q t t' /\ on_return (fun x' _ =>
    replies_to P x' /\ frames (self x') = frames (self x) /\
    next_frame (self x') = next_frame (self x) /\ image_of x' = image_of x) o x' t') x t.
Proof.
  intros HP Hcb Hpost. unfold post_op. apply wp_bind, wp_new_op. cbn beta iota.
  set (p := next_op (heap (proc x))). set (x1 := with_proc _ x). apply wp_bind.
  eapply wp_mono; [apply (Hpost p)|]. intros [ret| |] y t' [-> He]; [|done..].
  assert (HP1 : replies_to P x1).
  { intros q o g Hq Hf. simpl in Hq.
    apply lookup_insert_Some in Hq as [[<- <-]|[_ Ho]]; [by apply Hcb | by eapply HP]. }
  apply wp_bind, wp_if; intros Hret.
  - apply wp_on_ch. do 2 wp_step. done.
  - apply wp_delete_op; [by simpl; rewrite lookup_insert_eq|]. wp_step. split; [done|].
    split_and!; [|done..]. intros q o g Hq Hf. simpl in Hq.
    apply lookup_delete_Some in Hq as [_ Ho]. by eapply HP1.
Qed.

(** *** Up to the first access *)

(** What [main] promises of its run, wherever it stands. *)
Definition aimed {A} (o : outcome A) (x : Ctx Client) (t : trace) : Prop :=
  exists mr, aims_at raw mr t.

Definition waiting_for (P : Z -> Prop) (x : Ctx Client) (t : trace) : Prop :=
  destined raw (image_of x) t /\ replies_to P x.
Definition ready (x : Ctx Client) (t : trace) : Prop := destined raw (image_of x) t /\ idle x.

Lemma aimed_untargeted {A} (o : outcome A) x t : all_calls untargeted t -> aimed o x t.
Proof. intros H. exists raw, t, []. rewrite app_nil_r. split_and!; [done|by left|done|by constructor]. Qed.

Lemma wp_aimed {A B} (m : M _ A) (k : A -> M _ B) (J : Ctx Client -> trace -> Prop) x t :
  calls untargeted m -> wp m (on_return J) x t -> all_calls untargeted t ->
  (forall a x' t', all_calls untargeted t' -> J x' t' -> wp (k a) aimed x' t') ->
  wp (m ≫= k) aimed x t.
Proof.
  intros Hc Hm Ht Hk. apply wp_bind. eapply wp_mono; [by apply calls_wp|].
  intros o x' t' [HJ (evs & -> & He)]. assert (Ht' : all_calls untargeted (t ++ evs)) by (by apply Forall_app).
  destruct o; [by apply Hk | by apply aimed_untargeted..].
Qed.

Lemma wp_aimed_then {A B} (m : M _ (option A)) (k : A -> M _ (option B))
    (J : Ctx Client -> trace -> Prop) x t :
  calls untargeted m ->
  wp m (fun o x' t' => match o with Ret (Some _) => J x' t' | _ => True end) x t ->
  all_calls untargeted t ->
  (forall a x' t', all_calls untargeted t' -> J x' t' -> wp (k a) aimed x' t') ->
  wp (and_then m k) aimed x t.
Proof.
  intros Hc Hm Ht Hk. unfold and_then. apply wp_bind. eapply wp_mono; [by apply calls_wp|].
  intros o x' t' [HJ (evs & -> & He)]. assert (Ht' : all_calls untargeted (t ++ evs)) by (by apply Forall_app).
  destruct o as [[a|]| |]; [by apply Hk | by apply aimed_untargeted..].
Qed.

Lemma retargeting_waiting {A} P (m : M _ A) x t :
  retargeting m -> waiting_for P x t -> wp m (on_return (waiting_for P)) x t.
Proof.
  intros Hm [Hd HP]. eapply wp_mono; [apply Hm|]. intros [] x' t' H; [|done..].
  split; [by eapply retargeted_destined | by eapply retargeted_replies].
Qed.

Lemma retargeting_ready {A} (m : M _ A) x t :
  retargeting m -> ready x t -> wp m (on_return ready) x t.
Proof.
  intros Hm [Hd HP]. eapply wp_mono; [apply Hm|]. intros [] x' t' H; [|done..].
  split; [by eapply retargeted_destined | by eapply retargeted_idle].
Qed.

Lemma destined_prefix mr t t' : t `prefix_of` t' -> destined raw mr t -> destined raw mr t'.
Proof. intros Hp [?|?]; [by left | right; by eapply made_from_offer_prefix]. Qed.

(** The request for a replica ends in a state that is ready, unless it still waits. *)
Definition then_ready {A} (o : outcome (option A)) (x : Ctx Client) (t : trace) : Prop :=
  match o with Ret (Some _) => ready x t | _ => True end.

Lemma wp_waiting_bind {A B} P (m : M _ A) (k : A -> M _ (option B)) x t :
  retargeting m -> waiting_for P x t ->
  (forall a x' t', waiting_for P x' t' -> wp (k a) then_ready x' t') ->
  wp (m ≫= k) then_ready x t.
Proof.
  intros Hm Hw Hk. apply wp_bind. eapply wp_mono; [by apply (retargeting_waiting P)|].
  intros [a| |] x' t' H; [by apply Hk | done..].
Qed.

Lemma wp_post_waiting f k cb post x t :
  cb = init_replica_cb f \/ cb = no_callback ->
  waiting_for (fun g => g = f) x t -> f < next_frame (self x) ->
  (forall p y, wp (post p) (fun o y' t' => y' = y /\ extends (fun _ => true) t t') y t) ->
  wp (post_op k cb post) (on_return (fun x' t' => waiting_for (fun g => g = f) x' t' /\
    f < next_frame (self x'))) x t.
Proof.
  intros Hcb [Hd Hr] Hf Hp.
  eapply wp_mono; [apply (wp_post_aim (fun g => g = f) (fun _ => true)); [done| |done]|].
  - intros g ->. by destruct Hcb as [[= ->]|].
  - intros [] x' t' [He H]; [|done..]. destruct H as (H1 & H2 & H3 & H4). split; [|by rewrite H3].
    split; [|done]. rewrite H4. by eapply destined_prefix, Hd; eapply extends_prefix.
Qed.

(** The wait, and the end of the activation [f]. *)
Lemma wp_wait_aim fuel f start cost (success : Frame -> bool) x t :
  waiting_for (fun g => g = f) x t -> f < next_frame (self x) ->
  wp (out ← wait_completed thread_turn fuel f start cost;
      match out with
      | None => mret None
      | Some _ =>
          fr ← read_frame f; pop_frame f;; mret (Some (if success fr then 0 else -1))
      end) then_ready x t.
Proof.
  intros Hw Hf. apply wp_bind.
  eapply wp_mono; [apply (wp_and _ _ _ _ _ (retargeting_wait_completed fuel f start cost x t)
    (retargeting_waiting _ _ _ _ (retargeting_wait_completed fuel f start cost) Hw))|].
  intros [[c|]| |] x4 t4 [Hrt H4]; [|done..]. destruct H4 as [Hd4 Hr4].
  unfold read_frame. do 3 wp_step. apply wp_of_option. destruct (_ !! f) as [fr|]; [|done].
  unfold pop_frame. do 3 wp_step. split; [done|]. intros p o g Hp Hg.
  assert (g = f) as -> by (by eapply Hr4). simpl. rewrite lookup_delete_eq. split; [done|].
  by rewrite (rt_next _ _ _ _ Hrt).
Qed.

Lemma wp_request_aim fuel id size pool image x t :
  waiting_for (fun _ => False) x t ->
  wp (init_replica thread_turn fuel id size pool image) then_ready x t.
Proof.
  intros Hw. unfold init_replica. eapply wp_waiting_bind; [apply retargeting_still; [stay|keep] | done|].
  clear x t Hw. intros _ x t Hw. eapply wp_waiting_bind; [apply retargeting_still; [stay|keep] | done|].
  clear x t Hw. intros _ x t Hw. unfold request_and_wait.
  eapply wp_waiting_bind; [apply retargeting_still; [stay|keep] | done|].
  clear x t Hw. intros start x t [Hd Hr]. apply wp_bind. unfold push_frame, wp at 1.
  set (f := next_frame (self x)). set (x1 := with_self _ x).
  apply wp_bind. eapply wp_mono; [apply (wp_post_waiting f _ _ _ x1 t)|].
  { by left. }
  { split; [done|]. intros p o g Hp Hg. by destruct (Hr p o g Hp Hg). }
  { simpl. lia. }
  { intros p y. unfold RpmaRecv_call, rpma_recv. wp_steps. split; [done|]. by apply extends_snoc. }
  intros [ret| |] x2 t2 H2; [|done..]. destruct H2 as [H2 Hf2].
  apply wp_bind. eapply wp_mono; [apply (wp_post_waiting f _ _ _ x2 t2); [by right|done..|]|].
  { intros p y. unfold RpmaSend_call, rpma_send. wp_steps. split; [done|]. by apply extends_snoc. }
  intros [ret'| |] x3 t3 H3; [|done..]. destruct H3 as [[Hd3 Hr3] Hf3].
  unfold indeterminate. do 2 wp_step. apply wp_wait_aim; [|done].
  split; [|done]. eapply destined_prefix; [|done]. by eexists.
Qed.

(** *** Write and flush *)

(** Code that accesses only the region [mr], and goes on with it. *)
Definition at_region (mr : Z) (x : Ctx Client) : Prop := image_of x = mr /\ idle x.
Definition fixed {A} (mr : Z) (m : M (Ctx Client) A) : Prop :=
  forall x t, at_region mr x -> wp m (fun o x' t' => extends (targets_only mr) t t' /\
    on_return (fun x' _ => at_region mr x') o x' t') x t.

Lemma untargeted_only mr c : untargeted c = true -> targets_only mr c = true.
Proof. unfold untargeted, targets_only. by destruct (remote_target c). Qed.

Lemma fixed_bind {A B} mr (m : M _ A) (k : A -> M _ B) :
  fixed mr m -> (forall a, fixed mr (k a)) -> fixed mr (m ≫= k).
Proof.
  intros Hm Hk x t Hx. apply wp_bind. eapply wp_mono; [by apply Hm|].
  intros [a| |] x' t' [He H]; [|by split..]. eapply wp_mono; [by apply Hk|].
  intros o x'' t'' [He' H']. split; [by eapply extends_trans | done].
Qed.

Lemma fixed_still {A} mr (m : M _ A) : retargeting m -> calls untargeted m -> fixed mr m.
Proof.
  intros Hm Hc x t [Hi Hx]. eapply wp_mono; [apply (wp_and _ _ _ _ _ (Hm x t) (Hc x t))|].
  intros o x' t' [H He]. split; [eapply extends_weaken; [apply untargeted_only | exact He]|].
  destruct o; [|done..]. destruct (retargeted_idle _ _ _ _ H Hx). split; [congruence | done].
Qed.

Lemma fixed_post mr k cb (post : ClientHandler -> Z -> M (Ctx Client) Z) :
  (forall g, cb <> init_replica_cb g) ->
  (forall h p y t, _image_mr h = mr ->
     wp (post h p) (fun o y' t' => y' = y /\ extends (targets_only mr) t t') y t) ->
  forall x t, at_region mr x ->
  wp (post_op k cb (post (handler (self x)))) (fun o x' t' => extends (targets_only mr) t t' /\
    on_return (fun x' _ => at_region mr x') o x' t') x t.
Proof.
  intros Hcb Hpost x t [Hi Hx].
  eapply wp_mono; [apply (wp_post_aim _ (targets_only mr) _ _ _ _ _ Hx); [|by intros; apply Hpost]|].
  - intros g Hg. by destruct (Hcb g).
  - intros o x' t' [He H]. split; [done|]. destruct o; [|done..]. destruct H as (H1 & H2 & H3 & H4).
    split; [congruence|]. intros p o' g Hp Hg. rewrite H2, H3. by eapply H1.
Qed.

Lemma fixed_write mr offset len f : fixed mr (write offset len (set_completed_cb f)).
Proof.
  intros x t Hx. unfold write. do 2 wp_step.
  do 2 (apply wp_bind, wp_assert; intros _; [|by split; [apply extends_refl|]]).
  apply (fixed_post mr RpmaWrite (set_completed_cb f) (fun h uwrite =>
    RpmaWrite_call (conn (_conn (cl_base h))) (_image_mr h) offset (data_mr h) offset len
      RPMA_F_COMPLETION_ALWAYS uwrite)); [done| |done].
  intros h p y u Hh. unfold RpmaWrite_call, rpma_write. wp_step. split; [done|].
  apply extends_snoc. unfold targets_only. simpl. by apply Z.eqb_eq.
Qed.

Lemma fixed_flush mr offset len f : fixed mr (flush offset len (set_completed_cb f)).
Proof.
  intros x t Hx. unfold flush. do 2 wp_step.
  apply wp_bind, wp_assert; intros _; [|by split; [apply extends_refl|]].
  apply (fixed_post mr RpmaFlush (set_completed_cb f) (fun h uflush =>
    RpmaFlush_call (conn (_conn (cl_base h))) (_image_mr h) offset len (_flush_type h)
      RPMA_F_COMPLETION_ALWAYS uflush)); [done| |done].
  intros h p y u Hh. unfold RpmaFlush_call, rpma_flush. wp_step. split; [done|].
  apply extends_snoc. unfold targets_only. simpl. by apply Z.eqb_eq.
Qed.

Lemma fixed_turns mr k : fixed mr (thread_turns k).
Proof. apply fixed_still; [apply retargeting_turns | apply untargeted_turns]. Qed.

Lemma fixed_post_and_wait mr fuel k f post : fixed mr post -> fixed mr (post_and_wait fuel k f post).
Proof.
  intros Hp. unfold post_and_wait. apply fixed_bind; [apply fixed_turns|]. intros _.
  apply fixed_bind; [done|]. intros _. apply fixed_still; [apply retargeting_spin | apply untargeted_spin].
Qed.

Lemma fixed_write_and_flush mr fuel k1 k2 k3 size f : fixed mr (write_and_flush fuel k1 k2 k3 size f).
Proof.
  unfold write_and_flush, and_then. apply fixed_bind; [apply fixed_post_and_wait, fixed_write|].
  intros [[]|]; [|apply fixed_still; [intros x t; apply retargeted_refl | footprint]].
  apply fixed_bind; [apply fixed_turns|]. intros _.
  apply fixed_bind; [apply fixed_still; [apply retargeting_store_completed | footprint]|]. intros _.
  apply fixed_post_and_wait, fixed_flush.
Qed.

(** *** The whole program *)

(** A property of the states between the steps of [main] that turns of the thread keep. *)
Definition stable (J : Ctx Client -> trace -> Prop) : Prop :=
  forall A (m : M (Ctx Client) A) x t, retargeting m -> J x t -> wp m (on_return J) x t.

Lemma wp_aimed_stable {A B} J (m : M _ A) (k : A -> M _ B) x t :
  stable J -> calls untargeted m -> retargeting m -> all_calls untargeted t -> J x t ->
  (forall a x' t', all_calls untargeted t' -> J x' t' -> wp (k a) aimed x' t') ->
  wp (m ≫= k) aimed x t.
Proof. intros HJ Hc Hm Ht Hx Hk. by eapply wp_aimed; [|apply HJ|..]. Qed.

Lemma wp_aimed_stable_then {A B} J (m : M _ (option A)) (k : A -> M _ (option B)) x t :
  stable J -> calls untargeted m -> retargeting m -> all_calls untargeted t -> J x t ->
  (forall a x' t', all_calls untargeted t' -> J x' t' -> wp (k a) aimed x' t') ->
  wp (and_then m k) aimed x t.
Proof.
  intros HJ Hc Hm Ht Hx Hk. eapply wp_aimed_then; [done| |done..].
  eapply wp_mono; [by apply HJ|]. by intros [[]| |].
Qed.

Lemma stable_waiting P : stable (waiting_for P).
Proof. intros A m x t. apply retargeting_waiting. Qed.
Lemma stable_ready : stable ready.
Proof. intros A m x t. apply retargeting_ready. Qed.

Lemma retargeting_prepare fuel size : retargeting (prepare fuel size).
Proof. apply retargeting_still; [unfold prepare; stay; apply sd_locally, calls_fill_loop | keep]. Qed.
Lemma retargeting_set_head ptr size : retargeting (set_head ptr size).
Proof. apply retargeting_still; [stay | keep]. Qed.
Lemma retargeting_start addr port : retargeting (start addr port).
Proof. apply retargeting_still; [stay | keep]. Qed.

(** From the point where the data is ready. *)
Lemma wp_access_aim sched fuel size x t :
  all_calls untargeted t -> ready x t ->
  wp (f ← push_frame;
      _ <~ write_and_flush fuel (sched 3%nat) (sched 4%nat) (sched 5%nat) size f;
      thread_turns (sched 6%nat);; disconnect;; _ <~ join fuel;
      pop_frame f;; release_client;; release_reactor;; mret (Some 0)) aimed x t.
Proof.
  intros Ht [Hd Hi]. apply wp_bind. unfold push_frame, wp at 1.
  set (f := next_frame (self x)). set (x1 := with_self _ x). set (mr := image_of x) in *.
  assert (Hx1 : at_region mr x1).
  { split; [done|]. intros p o g Hp Hg. destruct (Hi p o g Hp Hg) as [H1 H2]. simpl.
    rewrite lookup_insert_ne by lia. split; [done|lia]. }
  unfold and_then at 1. apply wp_bind. eapply wp_mono; [by apply fixed_write_and_flush|].
  assert (Hend : forall A (o : outcome A) x' t', extends (targets_only mr) t t' -> aimed o x' t').
  { intros A o x' t' (evs & -> & He). by exists mr, t, evs. }
  intros [[[]|]| |] x' t' [He _]; [|by apply (Hend _ _ x')..].
  eapply wp_mono; [apply untargeted_rest|]. intros o x'' t'' He'. apply Hend.
  eapply extends_trans; [exact He|]. eapply extends_weaken; [apply untargeted_only | exact He'].
Qed.

Lemma wp_main_aim sched fuel size addr port x t :
  image_of x = raw -> ops (heap (proc x)) = ∅ -> all_calls untargeted t ->
  wp (main_with sched fuel size addr port) aimed x t.
Proof.
  intros Hraw Hops Ht. unfold main_with.
  assert (Hw : waiting_for (fun _ => False) x t).
  { split; [by left|]. intros p o g. by rewrite Hops, lookup_empty. }
  pose proof (stable_waiting (fun _ => False)) as SW. pose proof stable_ready as SR.
  apply (wp_aimed_stable _ _ _ _ _ SW (untargeted_start addr port) (retargeting_start addr port)); [done..|].
  clear x t Hraw Hops Ht Hw. intros [ret|[|]] x t Ht Hw; [| |by apply aimed_untargeted].
  { eapply wp_mono; [apply (untargeted_end ret)|]. intros o x' t' (evs & -> & He).
    by apply aimed_untargeted, Forall_app. }
  apply (wp_aimed_stable_then _ _ _ _ _ SW (untargeted_established fuel) (retargeting_established fuel)); [done..|].
  clear x t Ht Hw. intros _ x t Ht Hw.
  apply (wp_aimed_stable _ _ _ _ _ SW (untargeted_turns _) (retargeting_turns _)); [done..|].
  clear x t Ht Hw. intros _ x t Ht Hw.
  eapply wp_aimed_then; [apply untargeted_init_replica | by apply wp_request_aim | done|].
  clear x t Ht Hw. intros _ x t Ht Hw.
  apply (wp_aimed_stable _ _ _ _ _ SR (untargeted_turns _) (retargeting_turns _)); [done..|].
  clear x t Ht Hw. intros _ x t Ht Hw.
  apply (wp_aimed_stable_then _ _ _ _ _ SR (untargeted_prepare _ _) (retargeting_prepare _ _)); [done..|].
  clear x t Ht Hw. intros bl x t Ht Hw.
  apply (wp_aimed_stable _ _ _ _ _ SR (untargeted_turns _) (retargeting_turns _)); [done..|].
  clear x t Ht Hw. intros _ x t Ht Hw.
  apply (wp_aimed_stable _ _ _ _ _ SR (untargeted_set_head _ _) (retargeting_set_head _ _)); [done..|].
  intros _ x' t' Ht' Hw'. by apply wp_access_aim.
Qed.
End Main.

(** ** Properties *)

Section Properties.
Context {O : Oracle} {E : CephEncoding} {N : Wire}.

(** Every access of a run is to the region the run aims at. *)
Lemma aims_at_target raw mr t e dst :
  aims_at raw mr t -> e ∈ t -> remote_target (ev_call e) = Some dst -> dst = mr.
Proof.
  intros (t0 & t1 & -> & _ & H0 & H1) Hin Ht. apply elem_of_app in Hin as [Hin|Hin].
  - rewrite Forall_forall in H0. apply H0 in Hin. unfold untargeted in Hin. by rewrite Ht in Hin.
  - rewrite Forall_forall in H1. apply H1 in Hin. unfold targets_only in Hin. rewrite Ht in Hin.
    by apply Z.eqb_eq.
Qed.

Lemma flushed_aims raw mr size t :
  aims_at raw mr t -> sourced size t -> flushed size t -> flushed_to size mr t.
Proof.
  intros Ha Hs (t1 & t2 & cn & dst & ty & p & Ht & (u1 & u2 & cn' & dst' & src & q & Hu & Hq) & Hp).
  assert (dst = mr) as ->.
  { eapply (aims_at_target raw mr t _ dst Ha); [rewrite Ht; apply elem_of_app; right; left | done]. }
  assert (dst' = mr) as ->.
  { eapply (aims_at_target raw mr t _ dst' Ha); [rewrite Ht, Hu; apply elem_of_app; left;
      apply elem_of_app; right; left | done]. }
  exists t1, t2, cn, ty, p. split_and!; [done| |done]. exists u1, u2, cn', src, q. split_and!; [done| |done].
  rewrite Hu, <-app_assoc in Ht. by eapply Hs.
Qed.

Lemma wp_main_durable sched fuel size addr port raw t :
  all_calls untargeted t ->
  wp (main_with sched fuel size addr port) (fun o x' t' =>
    flushes_written size t' /\ exists mr, aims_at (_image_mr raw) mr t' /\
      (o = Ret (Some 0) -> flushed_to size mr t')) (new_process raw) t.
Proof.
  intros Ht. eapply wp_mono; [apply wp_and; [apply wp_and|];
    [apply (wp_main_with sched fuel size) | apply (wp_main_aim (_image_mr raw))
    | apply (wp_main_source size sched fuel addr port)]|].
  - eapply Forall_impl; [exact Ht|]. intros [[] a] He; done.
  - intros f _ p o. simpl. by rewrite lookup_empty.
  - done.
  - done.
  - done.
  - by apply sourced_untargeted.
  - intros o x' t' [[[Hw Hf] [mr Ha]] Hs]. split; [done|]. exists mr. split; [done|].
    intros Ho. by eapply flushed_aims, Hf.
Qed.

(** C4: the client makes its data durable, in the right order and in one place: whatever
    the libraries, the network and the interleaving of the two threads do, a flush is
    posted only after a write of the whole region has been accepted and has completed
    with success; all accesses of the run go to one remote region, which was made, before
    the first of them, from the descriptor in a reply of success that the network
    brought, or else is what the uninitialized [_image_mr] held; and [main] returns 0
    only if a write of the whole data, from the buffer that was prepared and registered, to
    that region and then a flush of it have been accepted and have completed with
    success. *)
Theorem client_main_durable sched fuel prog addr port rest raw :
  wp (client_program sched fuel (prog :: addr :: port :: rest)) (fun o x' t' =>
    flushes_written mr_size t' /\ exists mr, aims_at (_image_mr raw) mr t' /\
      (o = Ret (Some 0) -> flushed_to mr_size mr t')) (new_process raw) [].
Proof. apply wp_client_program. intros a b. apply wp_main_durable. by repeat constructor. Qed.

(** C31: the result of [init_replica] is ignored: if the server offers no descriptor (it
    does not answer in time, or reports a failure), a [main] that nevertheless gets
    to its end has written and flushed its data through the pointer that the
    uninitialized member [_image_mr] held. *)
Theorem unanswered_client_uses_garbage sched fuel size addr port raw :
  (forall d, ~ offered d) ->
  wp (main_with sched fuel size addr port) (fun o x' t' =>
    (forall e dst, e ∈ t' -> remote_target (ev_call e) = Some dst -> dst = _image_mr raw) /\
    (o = Ret (Some 0) -> flushed_to size (_image_mr raw) t')) (new_process raw) [].
Proof.
  intros Hno. eapply wp_mono; [apply wp_main_durable; by constructor|]. intros o x' t' (_ & mr & Ha & Hf).
  assert (mr = _image_mr raw) as ->.
  { destruct Ha as (t0 & t1 & _ & [?|(d & Hd & _)] & _); [done|]. by destruct (Hno d). }
  split; [|done]. intros e dst. by apply (aims_at_target _ _ _ _ _ Ha).
Qed.
End Properties.

(** ** Witnesses *)

(** A server that reports a failure. *)
Definition failing_wire : Wire := fun _ _ =>
  RwlReplicaInitRequestReply_encode {| reply_type := RWL_REPLICA_INIT_FAILED; desc := demo_desc |} [].

Lemma failing_wire_offers d : ~ offered (N := failing_wire) d.
Proof. intros (t & cn & reply & r & Hdec & Hty & _). vm_compute in Hdec. by injection Hdec as <- _. Qed.

(** The storage of the client held the pointer 12345. *)
Definition dirty_client : ClientHandler := with_image_mr 12345 raw_client.

Example unanswered_main_returns :
  wp (main_with (O := obliging_host) (N := failing_wire) (fun _ => 1%nat) 20 128
        (str "10.0.0.1") (str "7777")) (fun o _ _ => o = Ret (Some 0)) (new_process dirty_client) [].
Proof. vm_compute. reflexivity. Qed.

(** The program returns 0, having used the pointer that it never set. *)
Lemma unanswered_client_uses_garbage_witness :
  wp (main_with (O := obliging_host) (N := failing_wire) (fun _ => 1%nat) 20 128
        (str "10.0.0.1") (str "7777"))
    (fun o _ t' => o = Ret (Some 0) /\ flushed_to 128 12345 t') (new_process dirty_client) [].
Proof.
  eapply wp_mono; [apply (wp_and _ _ _ _ _ unanswered_main_returns
    (unanswered_client_uses_garbage (O := obliging_host) (N := failing_wire)
      (fun _ => 1%nat) 20 128 (str "10.0.0.1") (str "7777") dirty_client failing_wire_offers))|].
  cbn beta. intros o x' t' [Ho [_ H]]. split; [exact Ho | exact (H Ho)].
Defined.
