(* ===== verification/Replication.v ===== *)
(** * From the client's data to the server's replica

    The two programs together.  Each runs against its own libraries; what connects them is
    the network, of which only this is assumed: what reaches the client and reads as a
    reply of success is the contents of the send buffer of a session, in some state of the
    running server. *)

From S2P Require Import Prelude Librpma Effects LibrpmaApi Posix Resources.
From S2P Require Import CephEncoding WireFormat Types MemoryManager Reactor RpmaOp Quiet.
From S2P Require Import Descriptors Host RpmaConn ConnectionHandler RPMAHandler Isolation.
From S2P Require Import Acceptance Registration AcceptorHandler ServerInv ServerLoop ServerMain.
From S2P Require Import ServerReplies.
From S2P Require Import ClientHandler ClientSession Client ClientMain ClientTurns ClientDurability.
From S2P Require Import ClientDestination.

(** ** Specification *)

Section Network.
Context (Os : Oracle) (Ns Nc : Wire) {E : CephEncoding}.

(** The network makes up no replies. *)
Definition replies_carried : Prop :=
  forall t cn reply r,
    RwlReplicaInitRequestReply_decode (received (Wire := Nc) t cn) = Some (reply, r) ->
    reply_type reply = RWL_REPLICA_INIT_SUCCESSED ->
    exists w ts h s, server_state (O := Os) (N := Ns) w ts /\ handlers w !! h = Some s /\
      received (Wire := Nc) t cn = bl_data (send_bl (rh_base s)).

(** The client's remote region [mr] was made from the descriptor that the server's library
    issued for a region of [n] bytes, registered for writes and flushes over the whole of a
    replica that a session of the running server has mapped. *)
Definition replica_region (n mr : Z) (t : trace) : Prop :=
  exists d w ts h s peer,
    Ev (C_mr_remote_from_descriptor d (blen d)) (0, mr) ∈ t /\
    server_state (O := Os) (N := Ns) w ts /\ handlers w !! h = Some s /\
    Ev (C_mr_get_descriptor (RPMAHandler.data_mr s)) (0, d) ∈ ts /\
    Ev (C_mr_reg peer (_data (data_manager s)) n
          (mr_usage RPMA_OP_FLUSH (_is_pmem (data_manager s)))) (0, RPMAHandler.data_mr s) ∈ ts /\
    _data (data_manager s) <> NULL /\ _size (data_manager s) = n /\
    exists L, ledger ts = Some L /\ RMr (RPMAHandler.data_mr s) ∈ L.
End Network.

(** ** Lemmas *)

Section Lemmas.
Context (Os : Oracle) (Ns Nc : Wire) {E : CephEncoding} {EL : CephEncodingLaws E}.
Context {ED : EpollDocumented Os} {RD : RpmaDocumented Os} {FD : FdsDocumented Os}
        {CF : ConnectionsFresh Os} {DD : DescriptorsDocumented Os} {CD : CompletionDocumented Os}.
Variable n : Z.
Hypotheses (Hav : pcfg_available Os) (Hmaps : maps_whole_files Os n)
           (Hn : wire_requests (W := Ns) n) (Hblank : blank_buffers Os)
           (Hnet : replies_carried Os Ns Nc).

(** What is offered to the client is a region of the server. *)
Lemma made_from_replica mr t : made_from_offer (N := Nc) mr t -> replica_region Os Ns n mr t.
Proof.
  intros (d & (t0 & cn & reply & r & Hdec & Hty & Hd) & Hin).
  destruct (Hnet _ _ _ _ Hdec Hty) as (w & ts & h & s & Hst & Hs & Heq). rewrite Heq in Hdec.
  destruct (server_state_truthful n w ts Hav Hmaps Hn Hblank Hst) as [(rr & Hw & _) Ht].
  destruct (Ht h s Hs) as [_ Hh].
  destruct (Hh _ _ Hdec Hty) as [D1 D2 D3 [peer D4] (d' & pd & D5 & D6 & D7)].
  rewrite D6, D7, slice_first in Hd. injection Hd as <-.
  exists d', w, ts, h, s, peer. split_and!; try done.
  eexists. split; [apply (wi_ledger _ _ _ Hw)|]. rewrite (owned_all_delete h s) by done.
  unfold owned_server. rewrite (owned_mr_some (RPMAHandler.data_mr s)) by done. multiset_solver.
Qed.
End Lemmas.

(** ** Properties *)


(** ** Witnesses *)

(** The request of [client.cc] reaches a server with room for it. *)
Definition client_request : RwlReplicaInitRequest :=
  {| init_type := RWL_REPLICA_INIT_REQUEST;
     info := {| cache_id := 1; cache_size := REQUIRE_SIZE; pool_name := str "RBD";
                image_name := str "test" |} |}.
Definition request_wire : Wire := fun _ _ => RwlReplicaInitRequest_encode client_request [].

Definition replica_server : M Server (option Z) :=
  server_program (O := sized_host REQUIRE_SIZE) (N := request_wire) true keys (new_reactor 0) 3 1
    [str "./server"; str "10.0.0.1"; str "7777"].

Example replica_server_replies :
  wp replica_server (fun o w' t' => o = Ret None /\ replied w' = true) new_server [].
Proof. vm_compute. auto. Qed.

(** What that server has in the send buffer of its session reaches the client. *)
Definition replica_wire : Wire := fun _ _ =>
  match handlers (replica_server new_server []).1.2 !! 2 with
  | Some s => bl_data (send_bl (rh_base s))
  | None => []
  end.

Lemma request_wire_requests : wire_requests (W := request_wire) REQUIRE_SIZE.
Proof. intros t c init r H. vm_compute in H. injection H as <- <-. reflexivity. Qed.

Lemma replica_wire_carries : replies_carried (sized_host REQUIRE_SIZE) request_wire replica_wire.
Proof.
  intros t cn reply r _ _. pose proof replica_server_replies as H. revert H.
  unfold received, replica_wire, wp.
  destruct (replica_server new_server []) as [[o w] ts] eqn:Hrun. intros [-> H]. unfold replied in H.
  cbn [fst snd]. destruct (handlers w !! 2) as [s|] eqn:Hs; [|discriminate].
  exists w, ts, 2, s. split_and!; [|exact Hs|reflexivity].
  exists true, keys, (new_reactor 0), 3%nat, 1%nat, (str "./server"), (str "10.0.0.1"), (str "7777"), [].
  split; [exact keys_visit_all | exact Hrun].
Qed.


(** On these hosts the client, here with 128 bytes, returns 0 and has written and flushed
    through the region made from the four bytes of the server's descriptor. *)
Definition wrote_through_descriptor (d : bytes) (t : trace) : bool :=
  List.existsb (fun e => match e with
    | Ev (C_mr_remote_from_descriptor d' _) (0, mr) => bool_decide (d' = d) &&
        has_call (fun c => match c with C_write _ dst _ _ _ 128 _ _ => dst =? mr | _ => false end) t &&
        has_call (fun c => match c with C_flush _ dst _ 128 _ _ _ => dst =? mr | _ => false end) t
    | _ => false
    end) t.

Example demo_replication :
  wp (main_with (O := obliging_host) (N := replica_wire) (fun _ => 1%nat) 20 128
        (str "10.0.0.1") (str "7777"))
    (fun o x' t' => o = Ret (Some 0) /\ wrote_through_descriptor [xaa; xbb; xcc; xdd] t' = true)
    (new_process raw_client) [].
Proof. vm_compute. auto. Qed.
